(* ===== verification/_CoqProject ===== *)
-Q . S2P
Prelude.v
Types.v
Options.v
World.v
Samples.v
Ipc.v
Ifchange.v
Leasefile.v
Dhcp.v
Arp.v
State.v
Terminates.v
Nl.v
Nlmsg.v
Netlink.v
Ndhc.v
Duiaid.v
Protocol.v
Handshake.v
Renewal.v
Bpf.v
Sockd.v
Ifset.v
Ifaddr.v
Ifdump.v
Ifsafe.v
Ifchd.v
Ragel.v
Ifchparse.v
Ifcmd.v
Ifip4.v
Ifany.v
Ifresolv.v
Ifchsafe.v
Ifproto.v
Subproc.v
Linkdata.v
Carrier.v
Together.v
Cfg.v
Cfgfile.v
Cfgread.v
Cfgcmd.v
Cfgsafe.v
Startup.v
Startsafe.v
Startorder.v
