(* ===== verification/Prelude.v ===== *)
(** * ndhc: a verification development for the DHCP client

    ndhc obtains an IPv4 lease, keeps it and defends it.  It starts as root, reads its
    options ([cfg.rl]), looks up its interface, and splits into three processes.  The
    unprivileged master ([ndhc-master], [ndhc.c]) holds all protocol logic: it speaks
    DHCP ([state.c], [dhcp.c], [options.c]) and ARP ([arp.c]), watches the link
    through netlink and rfkill ([netlink.c], [nl.c], [rfkill.c]), and asks its two
    helpers for what needs privilege: [ndhc-sockd] ([sockd.c]) opens sockets for it,
    [ndhc-ifch] ([ifchd.c], [ifchd-parse.rl], [ifset.c]) changes the interface and
    resolv.conf.  This development models all three processes, from [main] on, and
    proves what their functions do.  Everything a process cannot decide itself (the
    clock, random numbers, what arrives on sockets, what the kernel answers, which
    process a [fork] returns in) is a parameter, so that every theorem holds for every
    behaviour of the outside world that it does not exclude by name.

    ** How the program is modelled

    Memory that is indexed is a list of byte values and an access outside of it is
    [None]; machine integers are [Z] with their wrap-around written out (Prelude).
    A C function that touches global variables is a computation of the monad [St S]
    over the record [S] of these variables: a state-passing function that may also end
    the process ([exit], [suicide]), run into undefined behaviour ([HUndef]) or exhaust
    the fuel of a loop that the outside ends ([HFuel]).  The states are [World] (the
    master: [cs], [client_config], [garp], [cfg_packet] and a few statics; [M] is
    [St World]), [ifch_world] and within it [ifset_world] (ndhc-ifch), [sockd_world]
    (ndhc-sockd), [duiaid_world] and [cfg_world] (the start), and [boot], which holds
    all of them; [Startup.lift] runs an operation of a component on its part.  External
    calls are numbered; the answer to call [n] is a field of a class ([Env],
    [IfsetEnv], [IfchEnv], [SockdEnv], [SubprocEnv], [DuiaidEnv], [CfgEnv],
    [BootEnv]) applied to [n].  [nl.c] is used by two processes; its operations are
    written against the interface [Nl.NlProc], which both states implement.  A C
    function keeps its name; a part of a long function has a name of its own and a
    comment that says which part it is.

    Foundations:
    - [Types]: [struct dhcpmsg] and [struct arpMsg] (dhcp.h, arp.h),
      [client_state_t], [client_config_t] (ndhc.h), [arp_data] (arp.h), constants.
    - [World]: the master's state, the monad and its program logics; [Samples]: a
      concrete environment and state, for running the model.
    - [Nl], [Nlmsg]: nl.c on bytes, and netlink messages as data.
    - [Ragel]: the state machines of the Ragel compiler, with the order of their
      embedded actions, and trace lemmas for running one over a known text.

    The master:
    - [Options]: options.c.  [Dhcp]: dhcp.c.  [Arp]: arp.c.  [Ipc]: sys.c and the
      client sides of sockd.c and ifchange.c.  [Ifchange], [Leasefile]: ifchange.c and
      [write_leasefile].
    - [State]: state.c, the coroutine [dhcp_handle].  coroutine.h's [scrReturn]
      stores where the next call resumes: each loop of the coroutine is one
      [*_step] definition that says how its body ends ([Return] or [Goto]) and
      [dhcp_run] follows the gotos.  [Terminates]: every call of it ends.
    - [Netlink]: netlink.c and [rfkill_get].  [Linkdata]: what [handle_getifdata]
      finds in a dump of links.
    - [Ndhc]: ndhc.c, the main loop [do_ndhc_work] and the client id parser.
    - [Protocol]: the abstract client and the refinement proof.  [Handshake]: the
      exchange with a server followed to its end, outside calls included.
      [Renewal]: the renewal of a lease, its expiry and what follows.

    ndhc-sockd: [Bpf], the classical BPF machine and the three filters of sockd.c;
    [Sockd], the sockets and the serving of a read of requests.

    ndhc-ifch:
    - [Ifset]: ifset.c.  [Ifaddr], [Ifdump], [Ifsafe]: its requests as messages, its
      dumps as walks over messages, and its safety.
    - [Ifchd]: the files and [perform_*] operations of ifchd.c.  [Ifchparse]:
      ifchd-parse.rl.  [Ifcmd], [Ifany], [Ifip4], [Ifresolv], [Ifchsafe]: what requests
      do.  [Carrier]: what it finds out about the link.  [Ifproto]: the command
      language as the master speaks it.
    - [Subproc]: the loops of both helpers and the opening of resolv.conf.

    The processes together: [Together] composes the master's requests with what the
    helpers make of them; equations between the environments of two processes say that
    one receives what the other sends.

    The start:
    - [Cfg]: cfg.rl, the configuration file and the command line.  [Cfgfile],
      [Cfgread], [Cfgcmd], [Cfgsafe]: what a line, a file and a command line do.
    - [Duiaid]: duiaid.c.
    - [Startup]: [main], [ndhc_main], [ifch_main], [sockd_main], the forks and the
      one-time operations [nl_open], [nl_getifdata], [rfkill_open], [open_leasefile].
      [Startsafe], [Startorder]: their theorems.

    ** What the theorems show

    - Specification and refinement of the protocol (Protocol): [client] and [cstep]
      are an abstract DHCP client of five states; [related] ties it to the program's
      variables.  [dhcp_handle_refines] shows one call of the coroutine implements its
      transitions, [do_ndhc_work_tracks] extends this to any number of iterations
      of the main loop from process start.  [handshake_binds] (Handshake) is the
      converse, progress: four calls lead from an offer to a configured interface
      when the outside does what it is asked; [lease_renewed] (Renewal) does the same
      for a renewal.  [offer_is_taken], [release_silences],
      [lease_taken_after_probing] and the theorems on lease timers say what the
      transitions do.
    - Absence of undefined behaviour: [main_defined] composes the safety of all
      components, from the command line to the loops of the three processes, and
      names the three ways in which the program still leaves an array: arguments
      longer than [argb], a client id longer than its array, and three
      descriptors of a helper ready at once ([crowded]);
      [do_ndhc_work_defined], [do_ifch_work_invariant], [do_sockd_work_invariant] and
      [parse_cmdline_defined] are its parts, [get_dhcp_opt_in_bounds],
      [parse_raw_packet_in_bounds], [nl_foreach_nlmsg_in_bounds], [clientid_fits] and
      [bind_command_fits] theirs.
    - Termination: a call of the coroutine ends in every state and for every event when
      the clock advances ([dhcp_handle_ends]).
    - The start: [confined_before_acting] (what [main] does as root, and that
      every process gives up its privileges before it does anything else),
      [netlink_sockets_released], [getifdata_by_name], [clientid_persists].
    - Options: a file is performed line by line however it is read
      ([cfgfile_in_pieces]), its lines and the command line perform the settings they
      spell ([cfgfile_settings], [cmdline_performs_items]).
    - Functional behaviour of the master: options written are read back
      ([add_then_get], [get_dhcp_opt_overload]); messages carry what they should
      ([client_messages_carry], [raw_frame_layout], [validate_accepts_iff]); requests
      to ndhc-ifch are transactions ([ifchange_bind_transaction]); verdicts and timers
      of the ARP engine ([arp_do_gw_check_verdict], [arp_get_wake_ts_earliest]); the
      waits of the main loop ([next_timeout_earliest], [delay_timeout_backoff]).
    - Socket filters and ndhc-sockd: what the kernel filters pass is compared with
      the checks the master makes in their place ([sf_dhcp_vs_emulation],
      [sf_arp_basic_emulated]); ndhc-sockd serves every request of the master
      ([process_client_socket_serves]) and the master sends no other
      ([master_requests_agree]), so that a socket the master asks for is one it gets
      ([sockets_end_to_end]).
    - ndhc-ifch: a request of commands is executed command by command
      ([ifch_serves_requests]), any other up to its first fault ([ifch_serves_prefix]);
      the master's requests are such ([bind_request_executed]), and what the master
      makes of the answer is what happened ([bind_end_to_end], [carrier_end_to_end]),
      the lease with an MTU, which ends ndhc-ifch, included; setting an address
      asks the kernel to delete the others of a dump of one datagram
      ([clear_others_deletes]); what is written to resolv.conf
      ([dns_command_writes]); the requests to the kernel are well formed
      ([ifset_requests_wellformed], [nl_rtattr_roundtrip], [prefixlen_of_mask]).
    - Places where the code does not do what it seems to mean, each shown by a
      theorem: [lone_flag_ignored], [cmdline_overflow], [invalid_request_accepted],
      [getifdata_interrupted], [three_events_overflow], [mtu_command_fatal],
      [ip4_command_ignores_broadcast], [domain_command_keeps_one_server],
      [dump_second_datagram_lost], [failed_write_empties_iaid],
      [collision_check_ignores_other_hosts], [arp_do_defense_gives_up_iff],
      [lease_end_exact_iff], [ifchange_bind_unchanged_fails], [expired_lease_again_fatal], [lease_file_content],
      [clientid_text_length], [nl_foreach_nlmsg_unaligned],
      [sf_arp_defense_byte_order], [pipelined_request_repeats],
      [arp_set_bpf_ignores_attach].

    ** Proof techniques

    [wp] is a weakest-precondition calculus for [St] whose second postcondition
    speaks of abnormal ends; [pwp] is its partial form; [keeps R] says that an
    operation relates its states by a preorder however it ends.  Derived judgements
    carry most proofs, each with a tactic and some with a hint database: [io_only]
    (changes nothing of the process state), [frames proj] (leaves a view of the state
    alone), [safe I] (keeps an invariant, no undefined behaviour), and their
    counterparts [isafe], [csafe] and [bsafe] for the other states.  [does] (Handshake)
    is total: the computation returns, and [takes] chains calls of the coroutine.

    ** Bounds and fuel

    Scans of buffers take one unit of fuel per byte and are proved to end within
    it; the loop that reads a configuration file takes one per byte of the file.  A
    call of [dhcp_handle] passes through at most three places ([rank]), so [dhcp_run]
    has fuel 3.  The loops that the outside ends have fuel of their own: waiting for
    the clock ([quit_after_lease_handler]) and draining a netlink socket
    ([nl_event_get], [handle_getifdata]) have [env_fuel], and their theorems assume a
    clock that advances ([clock_ticks]) and a socket that runs dry ([env_ok]) where they
    exclude running out of it; a dump
    has [ie_fuel], and a theorem in which it may run out says that the kernel then
    sent that many datagrams ([flooded]).  The main loops, the wait for a kill switch
    and the wait for the interface data run for a number of iterations [n] over which
    the theorems quantify.  [env_ok], [kernel_ok] and [links_ok] also state what the
    code relies on of the kernel: netlink datagrams are sequences of well-formed
    messages that fit the buffers, and [epoll_wait] reports open descriptors.

    ** What is not modelled

    Log output (and with it the missing argument of the warning at [dhcp.c:374]), the texts of [print_version] and [show_usage], [prctl] and [umask].
    The Internet checksum, the random generator, [copy_cmdarg], [nk_uidgidbyname],
    [nk_set_chroot] and [nk_set_uidgid] belong to ncmlib, which is not part of the
    repository; they are fields of the environments.  The C code that the Ragel
    compiler generates is replaced by the meaning of its operators.  Time stamps are
    unbounded integers: milliseconds since boot stay far below [2^63].

    This file: shared vocabulary (byte buffers, fixed-width integers, records with
    functional update, tactics and generic lemmas). *)

From stdpp Require Export base list list_numbers numbers strings.
From Stdlib Require Export ZArith Lia Ascii.
#[export] Set Default Goal Selector "!".
Open Scope Z_scope.

(** * Machine integers

    A w-bit unsigned integer of the C code is a [Z]; the wrap-around of its
    arithmetic is written out with [u8], [u16], [u32] and [size_t]. *)

Definition u8 (z : Z) : Z := z mod 2 ^ 8.
Definition u16 (z : Z) : Z := z mod 2 ^ 16.
Definition u32 (z : Z) : Z := z mod 2 ^ 32.
Definition size_t (z : Z) : Z := z mod 2 ^ 64.

Definition INT_MAX : Z := 2 ^ 31 - 1.
Definition INT_MIN : Z := - 2 ^ 31.
(** A signed 32-bit result; the build uses [-fno-strict-overflow], so signed
    arithmetic wraps. *)
Definition i32 (z : Z) : Z := (z + 2 ^ 31) mod 2 ^ 32 - 2 ^ 31.

Lemma u8_range z : 0 <= u8 z < 256.
Proof. unfold u8. apply Z.mod_pos_bound. lia. Qed.
Lemma u16_range z : 0 <= u16 z < 65536.
Proof. unfold u16. apply Z.mod_pos_bound. lia. Qed.
Lemma u32_range z : 0 <= u32 z < 4294967296.
Proof. unfold u32. apply Z.mod_pos_bound. lia. Qed.
Lemma u8_id z : 0 <= z < 256 -> u8 z = z.
Proof. intros. unfold u8. apply Z.mod_small. lia. Qed.
Lemma u16_id z : 0 <= z < 65536 -> u16 z = z.
Proof. intros. unfold u16. apply Z.mod_small. lia. Qed.
Lemma u32_id z : 0 <= z < 4294967296 -> u32 z = z.
Proof. intros. unfold u32. apply Z.mod_small. lia. Qed.
Lemma i32_range z : INT_MIN <= i32 z <= INT_MAX.
Proof. unfold i32, INT_MIN, INT_MAX. pose proof (Z.mod_pos_bound (z + 2 ^ 31) (2 ^ 32)). lia. Qed.
Lemma i32_id z : INT_MIN <= z <= INT_MAX -> i32 z = z.
Proof. unfold i32, INT_MIN, INT_MAX. intros. rewrite Z.mod_small by lia. lia. Qed.
Lemma size_t_id z : 0 <= z < 2 ^ 64 -> size_t z = z.
Proof. intros. unfold size_t. apply Z.mod_small. lia. Qed.

(** * Byte buffers

    Memory that the code reads and writes by index is a [list Z] of byte
    values.  An access outside the buffer is [None]: a definition that returns
    [Some] has stayed inside its buffers. *)

Definition zlen {A} (l : list A) : Z := Z.of_nat (length l).

Definition rd (l : list Z) (i : Z) : option Z :=
  if 0 <=? i then l !! Z.to_nat i else None.

Definition wr (l : list Z) (i v : Z) : option (list Z) :=
  if (0 <=? i) && (i <? zlen l) then Some (<[Z.to_nat i := v]> l) else None.

Definition rd_range (l : list Z) (i n : Z) : option (list Z) :=
  if (0 <=? i) && (0 <=? n) && (i + n <=? zlen l)
  then Some (take (Z.to_nat n) (drop (Z.to_nat i) l)) else None.

Definition wr_range (l : list Z) (i : Z) (bs : list Z) : option (list Z) :=
  if (0 <=? i) && (i + zlen bs <=? zlen l)
  then Some (take (Z.to_nat i) l ++ bs ++ drop (Z.to_nat i + length bs) l)
  else None.

(** [memcmp(a, b, n) == 0] on two byte sequences of the compared length. *)
Definition bytes_eqb (a b : list Z) : bool := bool_decide (a = b).

Definition zeros (n : nat) : list Z := replicate n 0.

Definition byte_ok (b : Z) : bool := (0 <=? b) && (b <? 256).
Definition bytes_ok (l : list Z) : bool := forallb byte_ok l.

(** A character constant, and the characters of a string literal. *)
Definition ch (a : Ascii.ascii) : Z := Z.of_N (Ascii.N_of_ascii a).
Arguments ch a%_char_scope.
Definition chars (s : string) : list Z :=
  List.map (fun a => Z.of_N (Ascii.N_of_ascii a)) (String.list_ascii_of_string s).

(** * Records with functional update

    [r <| f := v |>] is the record [r] with field [f] set to [v].  A record
    type declares its [Eta] instance once, listing its fields; the setter of a
    field is computed from it. *)

Class Eta (R : Type) := eta : R -> R.
Class Setter {R E : Type} (proj : R -> E) := set_field : (E -> E) -> R -> R.
Arguments set_field {R E} proj {_} f r.

Ltac build_setter R proj :=
  let inst := constr:(_ : Eta R) in
  let h := lazymatch inst with ?h => h end in
  let e := eval cbv delta [h] in h in
  lazymatch eval pattern proj in e with
  | ?u _ => let t := eval cbv beta in (fun f => u (fun r => f (proj r))) in exact t
  end.

#[export] Hint Extern 1 (@Setter ?R _ ?proj) => build_setter R proj : typeclass_instances.

Declare Scope record_scope.
Delimit Scope record_scope with rec.
Open Scope record_scope.
Notation "r <| f := v |>" := (set_field f (fun _ => v) r)
  (at level 1, v at level 99, left associativity,
   format "r <| f  :=  v |>") : record_scope.
Notation "r <| f ::= g |>" := (set_field f g r)
  (at level 1, g at level 99, left associativity,
   format "r <| f  ::=  g |>") : record_scope.


(** [rsimpl] evaluates a field read of an updated record. *)
Ltac rsimpl_step :=
  match goal with
  | |- context [ ?g (@set_field ?R ?E ?p ?s ?f ?r) ] =>
      first
        [ constr_eq g p; change (g (@set_field R E p s f r)) with (f (g r)); cbv beta
        | change (g (@set_field R E p s f r)) with (g r) ]
  | H : context [ ?g (@set_field ?R ?E ?p ?s ?f ?r) ] |- _ =>
      first
        [ constr_eq g p; change (g (@set_field R E p s f r)) with (f (g r)) in H; cbv beta in H
        | change (g (@set_field R E p s f r)) with (g r) in H ]
  end.
Ltac rsimpl := repeat rsimpl_step.

(** * Case analysis on the comparisons of the code *)

Ltac zcase_on c :=
  lazymatch c with
  | ?a <? ?b => let Hz := fresh "Hz" in destruct (Z.ltb_spec a b) as [Hz|Hz]
  | ?a <=? ?b => let Hz := fresh "Hz" in destruct (Z.leb_spec a b) as [Hz|Hz]
  | ?a =? ?b => let Hz := fresh "Hz" in destruct (Z.eqb_spec a b) as [Hz|Hz]
  | ?a && _ => zcase_on a
  | ?a || _ => zcase_on a
  | negb ?a => zcase_on a
  end.
(** The first comparison of the outermost conditional, else any comparison. *)
Ltac zcase_step :=
  match goal with
  | |- context [ if ?c then _ else _ ] => zcase_on c
  | |- context [ ?a <? ?b ] => let Hz := fresh "Hz" in destruct (Z.ltb_spec a b) as [Hz|Hz]
  | |- context [ ?a <=? ?b ] => let Hz := fresh "Hz" in destruct (Z.leb_spec a b) as [Hz|Hz]
  | |- context [ ?a =? ?b ] => let Hz := fresh "Hz" in destruct (Z.eqb_spec a b) as [Hz|Hz]
  end.
(** One comparison of the goal, its outcome named by arithmetic. *)
Ltac zcase := zcase_step; cbn [andb orb negb].
Ltac zcases := repeat zcase; try lia; try done.

Ltac zdec :=
  repeat match goal with
  | H : context [ ?a <? ?b ] |- _ => let Hz := fresh "Hz" in destruct (Z.ltb_spec a b) as [Hz|Hz]; cbn [andb orb negb] in H
  | H : context [ ?a <=? ?b ] |- _ => let Hz := fresh "Hz" in destruct (Z.leb_spec a b) as [Hz|Hz]; cbn [andb orb negb] in H
  | H : context [ ?a =? ?b ] |- _ => let Hz := fresh "Hz" in destruct (Z.eqb_spec a b) as [Hz|Hz]; cbn [andb orb negb] in H
  end.

(** Splits the boolean conjunctions of the context. *)
Ltac bool_hyps :=
  repeat match goal with
  | H : _ && _ = true |- _ => apply andb_prop in H; destruct H
  end.

(** * Lemmas on buffers *)

Section Buffers.
Context {A : Type}.
Implicit Types l : list A.
Lemma zlen_nonneg l : 0 <= zlen l.
Proof. unfold zlen. lia. Qed.
Lemma zlen_app l1 l2 : zlen (l1 ++ l2) = zlen l1 + zlen l2.
Proof. unfold zlen. rewrite length_app. lia. Qed.
Lemma zlen_cons x l : zlen (x :: l) = 1 + zlen l.
Proof. unfold zlen. cbn [length]. lia. Qed.
Lemma zlen_nil : zlen (@nil A) = 0.
Proof. reflexivity. Qed.
Lemma zlen_replicate n (x : A) : zlen (replicate n x) = Z.of_nat n.
Proof. unfold zlen. by rewrite length_replicate. Qed.
End Buffers.
Create Rewrite HintDb buf.
#[export] Hint Rewrite @zlen_app @zlen_cons @zlen_nil @zlen_replicate : buf.
(** [zlen_lia] closes arithmetic goals about buffer lengths. *)
Ltac zlen_pos :=
  repeat match goal with
  | |- context [ zlen ?l ] => lazymatch goal with
      | _ : 0 <= zlen l |- _ => fail | _ => pose proof (zlen_nonneg l) end
  | _ : context [ zlen ?l ] |- _ => lazymatch goal with
      | _ : 0 <= zlen l |- _ => fail | _ => pose proof (zlen_nonneg l) end
  end.
Ltac zlen_lia :=
  autorewrite with buf in *; cbn [fst snd] in *; autorewrite with buf in *; zlen_pos; lia.

Implicit Types l : list Z.

Lemma rd_Some l i : 0 <= i < zlen l -> exists v, rd l i = Some v /\ v ∈ l.
Proof.
  intros Hi. unfold rd. zcases.
  destruct (lookup_lt_is_Some_2 l (Z.to_nat i)) as [v Hv]; [unfold zlen in *; lia|].
  exists v. split; [done|]. by eapply list_elem_of_lookup_2.
Qed.

Lemma rd_bound l i v : rd l i = Some v -> 0 <= i < zlen l.
Proof.
  unfold rd, zlen. zcases. intros Hv%lookup_lt_Some. lia.
Qed.

Lemma rd_elem l i v : rd l i = Some v -> v ∈ l.
Proof. unfold rd. zcases. apply list_elem_of_lookup_2. Qed.

Lemma rd_app_l l1 l2 i : i < zlen l1 -> rd (l1 ++ l2) i = rd l1 i.
Proof.
  intros. unfold rd, zlen in *. zcases. apply lookup_app_l. lia.
Qed.

Lemma rd_app_r l1 l2 i : zlen l1 <= i -> rd (l1 ++ l2) i = rd l2 (i - zlen l1).
Proof.
  intros. unfold rd, zlen in *. zcases. rewrite lookup_app_r by lia.
  f_equal. lia.
Qed.

Lemma rd_at l1 l2 v i : i = zlen l1 -> rd (l1 ++ v :: l2) i = Some v.
Proof. intros ->. rewrite rd_app_r, Z.sub_diag by lia. reflexivity. Qed.

Lemma rd_at0 l1 l2 v : rd (l1 ++ v :: l2) (zlen l1) = Some v.
Proof. by apply rd_at. Qed.

Lemma rd_at1 l1 l2 u v i : i = zlen l1 + 1 -> rd (l1 ++ u :: v :: l2) i = Some v.
Proof.
  intros ->. rewrite rd_app_r by lia.
  by replace (zlen l1 + 1 - zlen l1) with 1 by lia.
Qed.

Lemma rd_range_Some l i n :
  0 <= i -> 0 <= n -> i + n <= zlen l ->
  exists d, rd_range l i n = Some d /\ zlen d = n.
Proof.
  intros. unfold rd_range. zcases. eexists. split; [done|].
  unfold zlen in *. rewrite length_take, length_drop. lia.
Qed.

Lemma rd_range_len l i n d : rd_range l i n = Some d -> zlen d = n.
Proof.
  unfold rd_range. zcases; cbn. intros [= <-].
  unfold zlen in *. rewrite length_take, length_drop. lia.
Qed.

Lemma rd_range_at l1 d l2 i n :
  i = zlen l1 -> n = zlen d -> rd_range (l1 ++ d ++ l2) i n = Some d.
Proof.
  intros -> ->. unfold rd_range. pose proof (zlen_nonneg l1).
  zcases; try zlen_lia.
  unfold zlen. rewrite !Nat2Z.id, drop_app_length, take_app_length. done.
Qed.

Lemma rd_range_1 l i v : rd_range l i 1 = Some [v] -> rd l i = Some v.
Proof.
  unfold rd_range, rd. zcases; cbn. intros [= Ht].
  rewrite <- (Nat.add_0_r (Z.to_nat i)), <- lookup_drop.
  destruct (drop (Z.to_nat i) l) as [|x r]; [done|]. by injection Ht as ->.
Qed.

Lemma wr_Some l i v : 0 <= i < zlen l -> wr l i v = Some (<[Z.to_nat i := v]> l).
Proof. intros. unfold wr. zcases. Qed.

Lemma wr_len l i v l' : wr l i v = Some l' -> zlen l' = zlen l.
Proof.
  unfold wr. zcases; cbn. intros [= <-]. unfold zlen. by rewrite length_insert.
Qed.

Lemma wr_at l1 l2 x v i : i = zlen l1 -> wr (l1 ++ x :: l2) i v = Some (l1 ++ v :: l2).
Proof.
  intros ->. rewrite wr_Some by (zlen_lia).
  f_equal. unfold zlen. rewrite Nat2Z.id.
  rewrite insert_app_r_alt by lia. by rewrite Nat.sub_diag.
Qed.

Lemma wr_head l x v : wr (x :: l) 0 v = Some (v :: l).
Proof. exact (wr_at [] l x v 0 eq_refl). Qed.

Lemma wr_range_len l i bs l' : wr_range l i bs = Some l' -> zlen l' = zlen l.
Proof.
  unfold wr_range. zcases; cbn. intros [= <-].
  unfold zlen in *. rewrite !length_app, length_take, length_drop. lia.
Qed.

Lemma wr_range_at l1 d d' l2 i :
  i = zlen l1 -> zlen d = zlen d' -> wr_range (l1 ++ d ++ l2) i d' = Some (l1 ++ d' ++ l2).
Proof.
  intros -> Hd. unfold wr_range. pose proof (zlen_nonneg l1).
  zcases; try zlen_lia.
  unfold zlen in *. rewrite Nat2Z.id, take_app_length. do 3 f_equal.
  rewrite app_assoc. replace (length l1 + length d')%nat with (length (l1 ++ d)) by (rewrite length_app; lia).
  by rewrite drop_app_length.
Qed.

Lemma bytes_ok_elem l v : bytes_ok l = true -> v ∈ l -> 0 <= v < 256.
Proof.
  unfold bytes_ok. intros Hl Hv. rewrite forallb_forall in Hl.
  specialize (Hl v). rewrite <- list_elem_of_In in Hl. specialize (Hl Hv).
  unfold byte_ok in Hl. lia.
Qed.

Lemma bytes_ok_app l1 l2 : bytes_ok (l1 ++ l2) = bytes_ok l1 && bytes_ok l2.
Proof. apply forallb_app. Qed.

Lemma bytes_ok_Forall l : bytes_ok l = true <-> Forall (fun b => 0 <= b < 256) l.
Proof.
  unfold bytes_ok. rewrite forallb_forall, List.Forall_forall.
  apply forall_proper. intros x. unfold byte_ok. split; intros H Hin; specialize (H Hin); lia.
Qed.
Lemma bytes_ok_rev l : bytes_ok (rev l) = bytes_ok l.
Proof.
  induction l as [|b l IH]; [done|].
  cbn [rev]. rewrite bytes_ok_app, IH. unfold bytes_ok. cbn [forallb].
  rewrite andb_true_r. apply andb_comm.
Qed.
#[export] Hint Rewrite bytes_ok_app bytes_ok_rev : buf.
Lemma bytes_ok_take n l : bytes_ok l = true -> bytes_ok (take n l) = true.
Proof. rewrite !bytes_ok_Forall. apply Forall_take. Qed.
Lemma bytes_ok_drop n l : bytes_ok l = true -> bytes_ok (drop n l) = true.
Proof. rewrite !bytes_ok_Forall. apply Forall_drop. Qed.
Lemma bytes_ok_rd_range l i n d :
  bytes_ok l = true -> rd_range l i n = Some d -> bytes_ok d = true.
Proof.
  unfold rd_range. intros Hl. zcases; cbn. intros [= <-].
  by apply bytes_ok_take, bytes_ok_drop.
Qed.

(** * Byte order

    The model fixes the little-endian layout of the hosts the program is built
    for: a multi-byte field of a struct is the [Z] whose little-endian bytes
    are the field's memory.  [htons]/[htonl] therefore reverse the bytes. *)

Definition le16 (v : Z) : list Z := [u8 v; u8 (Z.shiftr v 8)].
Definition le32 (v : Z) : list Z :=
  [u8 v; u8 (Z.shiftr v 8); u8 (Z.shiftr v 16); u8 (Z.shiftr v 24)].
Definition of_le (bs : list Z) : Z := foldr (fun b acc => b + 256 * acc) 0 bs.
Definition htons (v : Z) : Z := of_le (rev (le16 v)).
Definition htonl (v : Z) : Z := of_le (rev (le32 v)).
Definition ntohs (v : Z) : Z := htons v.
Definition ntohl (v : Z) : Z := htonl v.

Lemma of_le_range bs : bytes_ok bs = true -> 0 <= of_le bs < 256 ^ zlen bs.
Proof.
  induction bs as [|b bs IH]; [split; done|].
  cbn [bytes_ok forallb of_le foldr]. intros [Hb Hbs]%andb_prop.
  specialize (IH Hbs). unfold byte_ok in Hb. rewrite zlen_cons, Z.pow_add_r by zlen_lia.
  fold (of_le bs). rewrite Z.pow_1_r. lia.
Qed.

Lemma le32_len v : zlen (le32 v) = 4.
Proof. reflexivity. Qed.
Lemma le16_len v : zlen (le16 v) = 2.
Proof. reflexivity. Qed.
Lemma le32_ok v : bytes_ok (le32 v) = true.
Proof.
  unfold bytes_ok, le32, byte_ok. cbn [forallb].
  pose proof (u8_range v). pose proof (u8_range (Z.shiftr v 8)).
  pose proof (u8_range (Z.shiftr v 16)). pose proof (u8_range (Z.shiftr v 24)). lia.
Qed.
Lemma le16_ok v : bytes_ok (le16 v) = true.
Proof.
  unfold bytes_ok, le16, byte_ok. cbn [forallb].
  pose proof (u8_range v). pose proof (u8_range (Z.shiftr v 8)). lia.
Qed.

Lemma of_le_le32 v : 0 <= v < 2 ^ 32 -> of_le (le32 v) = v.
Proof.
  intros. unfold of_le, le32, u8. cbn [foldr].
  rewrite !Z.shiftr_div_pow2 by lia. Z.div_mod_to_equations. lia.
Qed.
Lemma of_le_le16 v : 0 <= v < 2 ^ 16 -> of_le (le16 v) = v.
Proof.
  intros. unfold of_le, le16, u8. cbn [foldr].
  rewrite !Z.shiftr_div_pow2 by lia. Z.div_mod_to_equations. lia.
Qed.

Lemma le32_of_le a b c d :
  bytes_ok [a; b; c; d] = true -> le32 (of_le [a; b; c; d]) = [a; b; c; d].
Proof.
  unfold bytes_ok, byte_ok. cbn [forallb]. intros.
  unfold le32, of_le, u8. cbn [foldr].
  rewrite !Z.shiftr_div_pow2 by lia. repeat f_equal; Z.div_mod_to_equations; lia.
Qed.
Lemma le16_of_le a b :
  bytes_ok [a; b] = true -> le16 (of_le [a; b]) = [a; b].
Proof.
  unfold bytes_ok, byte_ok. cbn [forallb]. intros.
  unfold le16, of_le, u8. cbn [foldr].
  rewrite !Z.shiftr_div_pow2 by lia. repeat f_equal; Z.div_mod_to_equations; lia.
Qed.

Lemma htonl_range v : 0 <= htonl v < 2 ^ 32.
Proof.
  unfold htonl. pose proof (of_le_range (rev (le32 v))) as H.
  change (zlen (rev (le32 v))) with 4 in H. change (256 ^ 4) with (2 ^ 32) in H.
  apply H. by rewrite bytes_ok_rev, le32_ok.
Qed.
Lemma htons_range v : 0 <= htons v < 2 ^ 16.
Proof.
  unfold htons. pose proof (of_le_range (rev (le16 v))) as H.
  change (zlen (rev (le16 v))) with 2 in H. change (256 ^ 2) with (2 ^ 16) in H.
  apply H. by rewrite bytes_ok_rev, le16_ok.
Qed.

Lemma htonl_htonl v : 0 <= v < 2 ^ 32 -> htonl (htonl v) = v.
Proof.
  intros Hv. unfold htonl at 1. unfold htonl.
  assert (Hl : le32 (of_le (rev (le32 v))) = rev (le32 v)).
  { pose proof (le32_ok v) as Hb. rewrite <- bytes_ok_rev in Hb. by apply le32_of_le. }
  rewrite Hl, rev_involutive. by apply of_le_le32.
Qed.
Lemma htons_htons v : 0 <= v < 2 ^ 16 -> htons (htons v) = v.
Proof.
  intros Hv. unfold htons at 1. unfold htons.
  assert (Hl : le16 (of_le (rev (le16 v))) = rev (le16 v)).
  { pose proof (le16_ok v) as Hb. rewrite <- bytes_ok_rev in Hb. by apply le16_of_le. }
  rewrite Hl, rev_involutive. by apply of_le_le16.
Qed.

(** Consecutive writes collapse into one write of the concatenation. *)
Lemma wr_as_range l i v : wr l i v = wr_range l i [v].
Proof.
  unfold wr, wr_range. change (zlen [v]) with 1. zcases. cbn [length].
  f_equal. unfold zlen in *.
  rewrite insert_take_drop by lia. cbn [app]. repeat f_equal. lia.
Qed.

Lemma wr_range_Some l i bs :
  0 <= i -> i + zlen bs <= zlen l ->
  wr_range l i bs = Some (take (Z.to_nat i) l ++ bs ++ drop (Z.to_nat i + length bs) l).
Proof. intros. unfold wr_range. zcases. Qed.

Lemma wr_range_None l i bs : zlen l < i + zlen bs -> wr_range l i bs = None.
Proof. intros. unfold wr_range. zcases. Qed.

Lemma wr_range_neg l i bs : i < 0 -> wr_range l i bs = None.
Proof. intros. unfold wr_range. zcases. Qed.

Lemma wr_range_wr_range {B} l i j a b (k : list Z -> option B) :
  j = i + zlen a ->
  wr_range l i a ≫= (fun o => wr_range o j b ≫= k) = wr_range l i (a ++ b) ≫= k.
Proof.
  intros ->. destruct (Z.ltb_spec i 0); [by rewrite !wr_range_neg by lia|].
  destruct (Z.leb_spec (i + zlen (a ++ b)) (zlen l)) as [Hl|Hl].
  - rewrite (wr_range_Some l i (a ++ b)) by lia.
    rewrite (wr_range_Some l i a) by zlen_lia. cbn [mbind option_bind].
    set (l1 := take (Z.to_nat i) l ++ a ++ drop (Z.to_nat i + length a) l).
    assert (Hl1 : l1 = (take (Z.to_nat i) l ++ a) ++ take (length b) (drop (Z.to_nat i + length a) l)
                       ++ drop (Z.to_nat i + length (a ++ b)) l).
    { subst l1. rewrite <- (take_drop (length b) (drop (Z.to_nat i + length a) l)) at 1.
      by rewrite drop_drop, length_app, <- !app_assoc, Nat.add_assoc. }
    rewrite Hl1, (wr_range_at (take (Z.to_nat i) l ++ a)).
    + cbn [mbind option_bind]. by rewrite <- !app_assoc.
    + unfold zlen in *. rewrite !length_app, length_take in *. lia.
    + unfold zlen in *. rewrite !length_app in *. rewrite length_take, length_drop. lia.
  - rewrite (wr_range_None l i (a ++ b)) by lia.
    destruct (wr_range l i a) as [l1|] eqn:H1; [|done]. cbn [mbind option_bind].
    rewrite wr_range_None; [done|]. apply wr_range_len in H1. zlen_lia.
Qed.

Lemma wr_range_wr {B} l i j a v (k : list Z -> option B) :
  j = i + zlen a ->
  wr_range l i a ≫= (fun o => wr o j v ≫= k) = wr_range l i (a ++ [v]) ≫= k.
Proof.
  intros Hj. rewrite <- (wr_range_wr_range l i j a [v] k Hj).
  destruct (wr_range l i a); [|done]. cbn [mbind option_bind]. by rewrite wr_as_range.
Qed.

(** Overwriting the rest of a buffer from the end of a prefix. *)
Lemma wr_range_tail l1 l2 i bs :
  i = zlen l1 -> zlen bs <= zlen l2 ->
  wr_range (l1 ++ l2) i bs = Some (l1 ++ bs ++ drop (length bs) l2).
Proof.
  intros -> Hb. rewrite <- (take_drop (length bs) l2) at 1.
  apply wr_range_at; [done|]. unfold zlen in *. rewrite length_take. lia.
Qed.

(** Concatenations of images. *)
Lemma bytes_ok_cons x l : bytes_ok (x :: l) = byte_ok x && bytes_ok l.
Proof. reflexivity. Qed.
Lemma u8_ok v : byte_ok (u8 v) = true.
Proof. unfold byte_ok. pose proof (u8_range v). lia. Qed.
Lemma bytes_ok_zeros n : bytes_ok (zeros n) = true.
Proof. apply bytes_ok_Forall. unfold zeros. apply Forall_replicate. lia. Qed.
Lemma mjoin_cons {X} (x : list X) (l : list (list X)) : mjoin (x :: l) = x ++ mjoin l.
Proof. reflexivity. Qed.
