(* ===== verification/Types.v ===== *)
(** The data of the program: the DHCP message ([dhcp.h]), the option codes
    ([options.h]), the ARP message and the ARP engine's state ([arp.h]), the
    client state and configuration ([ndhc.h]). *)

From S2P Require Import Prelude.

(** * DHCP messages *)

Definition DHCP_SERVER_PORT : Z := 67.
Definition DHCP_CLIENT_PORT : Z := 68.
Definition DHCP_MAGIC : Z := 0x63825363.

Definition DHCPDISCOVER : Z := 1.
Definition DHCPOFFER : Z := 2.
Definition DHCPREQUEST : Z := 3.
Definition DHCPDECLINE : Z := 4.
Definition DHCPACK : Z := 5.
Definition DHCPNAK : Z := 6.
Definition DHCPRELEASE : Z := 7.
Definition DHCPINFORM : Z := 8.

(** [struct dhcpmsg].  The multi-byte fields hold their memory image read as a
    little-endian number; [xid], [cookie] and the addresses are thus kept
    exactly as the C code keeps them (network order where the code does). *)
Record dhcpmsg := mk_dhcpmsg {
  op : Z; htype : Z; hlen : Z; hops : Z;
  xid : Z; secs : Z; flags : Z;
  ciaddr : Z; yiaddr : Z; siaddr : Z; giaddr : Z;
  chaddr : list Z; sname : list Z; file : list Z;
  cookie : Z; options : list Z
}.
#[export] Instance dhcpmsg_eta : Eta dhcpmsg := fun r =>
  mk_dhcpmsg (op r) (htype r) (hlen r) (hops r) (xid r) (secs r) (flags r)
    (ciaddr r) (yiaddr r) (siaddr r) (giaddr r) (chaddr r) (sname r) (file r)
    (cookie r) (options r).
#[export] Instance dhcpmsg_eq_dec : EqDecision dhcpmsg.
Proof. solve_decision. Defined.

(** The array sizes of [struct dhcpmsg], [sizeof] and [offsetof]. *)
Definition sizeof_chaddr : Z := 16.
Definition sizeof_sname : Z := 64.
Definition sizeof_file : Z := 128.
Definition sizeof_options : Z := 308.
Definition offsetof_options : Z := 240.
Definition sizeof_dhcpmsg : Z := 548.
Definition sizeof_iphdr : Z := 20.
Definition sizeof_udphdr : Z := 8.
Definition sizeof_udp_dhcp_packet : Z := sizeof_udphdr + sizeof_dhcpmsg.
Definition sizeof_ip_udp_dhcp_packet : Z :=
  sizeof_iphdr + sizeof_udphdr + sizeof_dhcpmsg.

(** A message all of whose bytes are zero ([= {0}], [memset]). *)
Definition dhcpmsg_zero : dhcpmsg :=
  {| op := 0; htype := 0; hlen := 0; hops := 0; xid := 0; secs := 0; flags := 0;
     ciaddr := 0; yiaddr := 0; siaddr := 0; giaddr := 0;
     chaddr := zeros 16; sname := zeros 64; file := zeros 128; cookie := 0;
     options := zeros 308 |}.

(** The buffers of a message have the sizes the struct gives them and hold
    bytes; the scalar fields fit their widths. *)
Definition dhcpmsg_ok (p : dhcpmsg) : bool :=
  byte_ok (op p) && byte_ok (htype p) && byte_ok (hlen p) && byte_ok (hops p) &&
  (0 <=? xid p) && (xid p <? 2 ^ 32) && (0 <=? secs p) && (secs p <? 2 ^ 16) &&
  (0 <=? flags p) && (flags p <? 2 ^ 16) && (0 <=? ciaddr p) && (ciaddr p <? 2 ^ 32) &&
  (0 <=? yiaddr p) && (yiaddr p <? 2 ^ 32) && (0 <=? siaddr p) && (siaddr p <? 2 ^ 32) &&
  (0 <=? giaddr p) && (giaddr p <? 2 ^ 32) && (0 <=? cookie p) && (cookie p <? 2 ^ 32) &&
  (zlen (chaddr p) =? sizeof_chaddr) && bytes_ok (chaddr p) &&
  (zlen (sname p) =? sizeof_sname) && bytes_ok (sname p) &&
  (zlen (file p) =? sizeof_file) && bytes_ok (file p) &&
  (zlen (options p) =? sizeof_options) && bytes_ok (options p).

(** The part of [dhcpmsg_ok] the option code relies on. *)
Record opt_bufs_ok (p : dhcpmsg) : Prop := {
  ok_options : zlen (options p) = sizeof_options;
  ok_options_bytes : bytes_ok (options p) = true;
  ok_file : zlen (file p) = sizeof_file;
  ok_file_bytes : bytes_ok (file p) = true;
  ok_sname : zlen (sname p) = sizeof_sname;
  ok_sname_bytes : bytes_ok (sname p) = true
}.

Lemma dhcpmsg_ok_bufs p : dhcpmsg_ok p = true -> opt_bufs_ok p.
Proof. unfold dhcpmsg_ok. intros H. bool_hyps. constructor; first [assumption | lia]. Qed.

(** * Option codes *)

Definition DCODE_PADDING : Z := 0x00.
Definition DCODE_SUBNET : Z := 0x01.
Definition DCODE_TIMEZONE : Z := 0x02.
Definition DCODE_ROUTER : Z := 0x03.
Definition DCODE_DNS : Z := 0x06.
Definition DCODE_LPRSVR : Z := 0x09.
Definition DCODE_HOSTNAME : Z := 0x0c.
Definition DCODE_DOMAIN : Z := 0x0f.
Definition DCODE_IPTTL : Z := 0x17.
Definition DCODE_MTU : Z := 0x1a.
Definition DCODE_BROADCAST : Z := 0x1c.
Definition DCODE_NTPSVR : Z := 0x2a.
Definition DCODE_WINS : Z := 0x2c.
Definition DCODE_REQIP : Z := 0x32.
Definition DCODE_LEASET : Z := 0x33.
Definition DCODE_OVERLOAD : Z := 0x34.
Definition DCODE_MSGTYPE : Z := 0x35.
Definition DCODE_SERVER_ID : Z := 0x36.
Definition DCODE_PARAM_REQ : Z := 0x37.
Definition DCODE_MAX_SIZE : Z := 0x39.
Definition DCODE_VENDOR : Z := 0x3c.
Definition DCODE_CLIENT_ID : Z := 0x3d.
Definition DCODE_END : Z := 0xff.

Definition MAX_DOPT_SIZE : Z := 500.

(** * ARP messages and the state of the ARP engine ([arp.h]) *)

Definition ETH_P_IP : Z := 0x0800.
Definition ETH_P_ARP : Z := 0x0806.
Definition ARPHRD_ETHER : Z := 1.
Definition ARPOP_REQUEST : Z := 1.
Definition ARPOP_REPLY : Z := 2.

(** [struct arpMsg]; the 16-bit fields are kept as stored (network order). *)
Record arpMsg := mk_arpMsg {
  h_dest : list Z; h_source : list Z; h_proto : Z;
  a_htype : Z; a_ptype : Z; a_hlen : Z; a_plen : Z; operation : Z;
  smac : list Z; sip4 : list Z; dmac : list Z; dip4 : list Z; pad : list Z
}.
#[export] Instance arpMsg_eta : Eta arpMsg := fun r =>
  mk_arpMsg (h_dest r) (h_source r) (h_proto r) (a_htype r) (a_ptype r) (a_hlen r)
    (a_plen r) (operation r) (smac r) (sip4 r) (dmac r) (dip4 r) (pad r).
#[export] Instance arpMsg_eq_dec : EqDecision arpMsg.
Proof. solve_decision. Defined.

Definition sizeof_arpMsg : Z := 60.

Definition arpMsg_zero : arpMsg :=
  {| h_dest := zeros 6; h_source := zeros 6; h_proto := 0; a_htype := 0; a_ptype := 0;
     a_hlen := 0; a_plen := 0; operation := 0; smac := zeros 6; sip4 := zeros 4;
     dmac := zeros 6; dip4 := zeros 4; pad := zeros 18 |}.

(** The bytes at the offsets given in [arp.h]. *)
Definition arpMsg_of_bytes (b : list Z) : option arpMsg :=
  d ← rd_range b 0x00 6; s ← rd_range b 0x06 6; pr ← rd_range b 0x0c 2;
  ht ← rd_range b 0x0e 2; pt ← rd_range b 0x10 2; hl ← rd b 0x12; pl ← rd b 0x13;
  o ← rd_range b 0x14 2; sm ← rd_range b 0x16 6; si ← rd_range b 0x1c 4;
  dm ← rd_range b 0x20 6; di ← rd_range b 0x26 4; pd ← rd_range b 0x2a 18;
  Some {| h_dest := d; h_source := s; h_proto := of_le pr; a_htype := of_le ht;
          a_ptype := of_le pt; a_hlen := hl; a_plen := pl; operation := of_le o;
          smac := sm; sip4 := si; dmac := dm; dip4 := di; pad := pd |}.

Inductive arp_state_t :=
  AS_NONE | AS_ANNOUNCE | AS_COLLISION_CHECK | AS_QUERY_GW_SEND | AS_GW_CHECK
| AS_GW_QUERY | AS_DEFENSE.
#[export] Instance arp_state_t_eq_dec : EqDecision arp_state_t.
Proof. solve_decision. Defined.
(** The indices [0 .. AS_MAX - 1] of the loops over [wake_ts]. *)
Definition arp_states : list arp_state_t :=
  [AS_NONE; AS_ANNOUNCE; AS_COLLISION_CHECK; AS_QUERY_GW_SEND; AS_GW_CHECK;
   AS_GW_QUERY; AS_DEFENSE].

Inductive arp_send_t := ASEND_COLLISION_CHECK | ASEND_GW_PING | ASEND_ANNOUNCE.
#[export] Instance arp_send_t_eq_dec : EqDecision arp_send_t.
Proof. solve_decision. Defined.
Definition arp_sends : list arp_send_t :=
  [ASEND_COLLISION_CHECK; ASEND_GW_PING; ASEND_ANNOUNCE].

Record arp_stats := mk_arp_stats { ts : Z; count : Z }.
#[export] Instance arp_stats_eta : Eta arp_stats := fun r => mk_arp_stats (ts r) (count r).

(** [struct arp_data].  The arrays indexed by [arp_send_t] and [arp_state_t]
    are functions of the index: the code never indexes them with anything
    but an enumerator. *)
Record arp_data := mk_arp_data {
  dhcp_packet : dhcpmsg; reply : arpMsg;
  send_stats : arp_send_t -> arp_stats; wake_ts : arp_state_t -> Z;
  last_conflict_ts : Z; arp_check_start_ts : Z; total_conflicts : Z;
  gw_check_initpings : Z; probe_wait_time : Z;
  using_bpf : bool; relentless_def : bool; router_replied : bool; server_replied : bool
}.
#[export] Instance arp_data_eta : Eta arp_data := fun r =>
  mk_arp_data (dhcp_packet r) (reply r) (send_stats r) (wake_ts r) (last_conflict_ts r)
    (arp_check_start_ts r) (total_conflicts r) (gw_check_initpings r) (probe_wait_time r)
    (using_bpf r) (relentless_def r) (router_replied r) (server_replied r).

(** * Client state and configuration ([ndhc.h]) *)

(** [struct client_state_t] without the random generator's state, which lives
    outside the program's own sources. *)
Record client_state_t := mk_client_state_t {
  leaseStartTime : Z; renewTime : Z; rebindTime : Z; dhcp_wake_ts : Z;
  ifDeconfig : Z;
  epollFd : Z; signalFd : Z; listenFd : Z; arpFd : Z; nlFd : Z; rfkillFd : Z;
  nlPortId : Z; num_dhcp_requests : Z;
  clientAddr : Z; serverAddr : Z; srcAddr : Z; routerAddr : Z;
  lease : Z; cs_xid : Z;
  routerArp : list Z; serverArp : list Z;
  using_dhcp_bpf : bool; got_router_arp : bool; got_server_arp : bool;
  arp_is_defense : bool; check_fingerprint : bool; program_init : bool;
  sent_gw_query : bool; sent_first_announce : bool; sent_second_announce : bool;
  init_fingerprint_inprogress : bool
}.
#[export] Instance client_state_t_eta : Eta client_state_t := fun r =>
  mk_client_state_t (leaseStartTime r) (renewTime r) (rebindTime r) (dhcp_wake_ts r)
    (ifDeconfig r) (epollFd r) (signalFd r) (listenFd r) (arpFd r) (nlFd r) (rfkillFd r)
    (nlPortId r) (num_dhcp_requests r) (clientAddr r) (serverAddr r) (srcAddr r)
    (routerAddr r) (lease r) (cs_xid r) (routerArp r) (serverArp r) (using_dhcp_bpf r)
    (got_router_arp r) (got_server_arp r) (arp_is_defense r) (check_fingerprint r)
    (program_init r) (sent_gw_query r) (sent_first_announce r) (sent_second_announce r)
    (init_fingerprint_inprogress r).

Record client_config_t := mk_client_config_t {
  interface : list Z; clientid : list Z; hostname : list Z; vendor : list Z;
  arp : list Z; rfkillIdx : Z; metric : Z; ifindex : Z; clientid_len : Z;
  quit_after_lease : bool; abort_if_no_lease : bool; background_if_no_lease : bool;
  enable_rfkill : bool
}.
#[export] Instance client_config_t_eta : Eta client_config_t := fun r =>
  mk_client_config_t (interface r) (clientid r) (hostname r) (vendor r) (arp r)
    (rfkillIdx r) (metric r) (ifindex r) (clientid_len r) (quit_after_lease r)
    (abort_if_no_lease r) (background_if_no_lease r) (enable_rfkill r).

(** [strlen]: the index of the first NUL, [None] when the buffer has none. *)
Fixpoint strlen (s : list Z) : option Z :=
  match s with
  | [] => None
  | c :: s => if c =? 0 then Some 0 else Z.add 1 <$> strlen s
  end.
(** The characters before the NUL. *)
Definition cstr (s : list Z) : option (list Z) := n ← strlen s; rd_range s 0 n.

(** [ndhc-defines.h] *)
Definition MAX_BUF : Z := 1024.
Definition EXIT_SUCCESS : Z := 0.
