(* ===== verification/Options.v ===== *)
(** The DHCP option codec of [options.c].

    [Module Codec] translates the functions; every buffer access is checked,
    so [None] stands for an access outside a buffer (or exhausted fuel) and a
    [Some] result certifies that the run stayed in bounds.  The rest of the
    file gives the abstract meaning of a message as a list of (code, data)
    pairs ([carries]) and proves that the codec implements it. *)

From S2P Require Import Prelude Types.

Module Codec.

(** ** Reading options *)

(** The loop of [do_overload_value]; [i] is the C local. *)
Fixpoint do_overload_value (fuel : nat) (buf : list Z) (blen overload i : Z)
  : option Z :=
  match fuel with
  | O => None
  | S fuel =>
    if i <? blen then
      c ← rd buf i;
      if c =? DCODE_PADDING then do_overload_value fuel buf blen overload (i + 1)
      else if c =? DCODE_END then Some overload
      else if blen - 2 <=? i then Some overload
      else
        n ← rd buf (i + 1);
        if (c =? DCODE_OVERLOAD) && (n =? 1) then
          v ← rd buf (i + 2);
          do_overload_value fuel buf blen (Z.lor overload v) (i + 3)
        else do_overload_value fuel buf blen overload (i + (n + 2))
    else Some overload
  end.

(** Each iteration advances [i] by at least one, so [blen + 1] iterations
    always suffice. *)
Definition scan_fuel (len : Z) : nat := S (Z.to_nat len).

Definition overload_value (packet : dhcpmsg) : option Z :=
  ol ← do_overload_value (scan_fuel sizeof_options) (options packet) sizeof_options 0 0;
  if Z.testbit ol 0 && Z.testbit ol 1 then Some ol
  else if Z.testbit ol 0 then
    v ← do_overload_value (scan_fuel sizeof_file) (file packet) sizeof_file ol 0;
    Some (Z.lor ol v)
  else if Z.testbit ol 1 then
    v ← do_overload_value (scan_fuel sizeof_sname) (sname packet) sizeof_sname ol 0;
    Some (Z.lor ol v)
  else Some ol.

(** [acc] is the part of [dbuf] written so far, its length is [*didx]. *)
Fixpoint do_get_dhcp_opt (fuel : nat) (sbuf : list Z) (slen code dlen i : Z)
    (acc : list Z) : option (list Z) :=
  match fuel with
  | O => None
  | S fuel =>
    if i <? slen then
      c ← rd sbuf i;
      if c =? DCODE_PADDING then do_get_dhcp_opt fuel sbuf slen code dlen (i + 1) acc
      else if c =? DCODE_END then Some acc
      else if size_t (slen - 2) <=? i then Some acc
      else
        soptsiz ← rd sbuf (i + 1);
        if c =? code then
          if dlen <? soptsiz + zlen acc then Some acc
          else if slen <? soptsiz + i + 2 then Some acc
          else
            d ← rd_range sbuf (i + 2) soptsiz;
            do_get_dhcp_opt fuel sbuf slen code dlen (i + (soptsiz + 2)) (acc ++ d)
        else do_get_dhcp_opt fuel sbuf slen code dlen (i + (soptsiz + 2)) acc
    else Some acc
  end.

(** The bytes written to [dbuf]; the C return value is their number. *)
Definition get_dhcp_opt (packet : dhcpmsg) (code dlen : Z) : option (list Z) :=
  ol ← overload_value packet;
  d0 ← do_get_dhcp_opt (scan_fuel sizeof_options) (options packet) sizeof_options
         code dlen 0 [];
  d1 ← (if Z.testbit ol 0
        then do_get_dhcp_opt (scan_fuel sizeof_file) (file packet) sizeof_file
               code dlen 0 d0
        else Some d0);
  if Z.testbit ol 1
  then do_get_dhcp_opt (scan_fuel sizeof_sname) (sname packet) sizeof_sname
         code dlen 0 d1
  else Some d1.

Fixpoint end_option_scan (fuel : nat) (opts : list Z) (i : Z) : option Z :=
  match fuel with
  | O => None
  | S fuel =>
    if i <? sizeof_options then
      c ← rd opts i;
      if c =? DCODE_END then Some i
      else if c =? DCODE_PADDING then end_option_scan fuel opts (i + 1)
      else if sizeof_options <=? i + 1 then Some (-1)
      else
        n ← rd opts (i + 1);
        end_option_scan fuel opts (i + (n + 1) + 1)
    else Some (-1)
  end.

Definition get_end_option_idx (packet : dhcpmsg) : option Z :=
  end_option_scan (scan_fuel sizeof_options) (options packet) 0.

(** ** Adding options *)

Definition sizeof_option_str (code datalen : Z) : Z :=
  if (code =? DCODE_PADDING) || (code =? DCODE_END) then 1
  else size_t (2 + datalen).

(** The result is the returned length and the message after the call.  [str]
    holds the [slen] bytes the caller passes. *)
Definition add_option_string (packet : dhcpmsg) (code : Z) (str : list Z)
  : option (Z * dhcpmsg) :=
  let slen := zlen str in
  let len := sizeof_option_str code slen in
  if (255 <? slen) || negb (len =? size_t (slen + 2)) then Some (0, packet)
  else
    e ← get_end_option_idx packet;
    if e <? 0 then Some (0, packet)
    else if sizeof_options <=? e + len then Some (0, packet)
    else
      o ← wr (options packet) e code;
      o ← wr o (e + 1) (u8 slen);
      o ← wr_range o (e + 2) str;
      o ← wr o (e + len) DCODE_END;
      Some (len, packet <| options := o |>).

Definition add_option_check (packet : dhcpmsg) (rlen : Z) : option Z :=
  e ← get_end_option_idx packet;
  if e <? 0 then Some (-1)
  else if sizeof_options <=? e + 2 + rlen then Some (-1)
  else Some e.

Definition add_u8_option (packet : dhcpmsg) (code data : Z) : option (Z * dhcpmsg) :=
  e ← add_option_check packet 1;
  if e <? 0 then Some (0, packet)
  else
    o ← wr (options packet) e code;
    o ← wr o (e + 1) 1;
    o ← wr o (e + 2) data;
    o ← wr o (e + 3) DCODE_END;
    Some (3, packet <| options := o |>).

Definition add_u16_option (packet : dhcpmsg) (code data : Z) : option (Z * dhcpmsg) :=
  e ← add_option_check packet 2;
  if e <? 0 then Some (0, packet)
  else
    let dp := le16 data in
    o ← wr (options packet) e code;
    o ← wr o (e + 1) 2;
    dp0 ← rd dp 0; o ← wr o (e + 2) dp0;
    dp1 ← rd dp 1; o ← wr o (e + 3) dp1;
    o ← wr o (e + 4) DCODE_END;
    Some (4, packet <| options := o |>).

Definition add_u32_option (packet : dhcpmsg) (code data : Z) : option (Z * dhcpmsg) :=
  e ← add_option_check packet 4;
  if e <? 0 then Some (0, packet)
  else
    let dp := le32 data in
    o ← wr (options packet) e code;
    o ← wr o (e + 1) 4;
    dp0 ← rd dp 0; o ← wr o (e + 2) dp0;
    dp1 ← rd dp 1; o ← wr o (e + 3) dp1;
    dp2 ← rd dp 2; o ← wr o (e + 4) dp2;
    dp3 ← rd dp 3; o ← wr o (e + 5) dp3;
    o ← wr o (e + 6) DCODE_END;
    Some (6, packet <| options := o |>).

Definition reqdata : list Z :=
  [DCODE_SUBNET; DCODE_ROUTER; DCODE_DNS; DCODE_HOSTNAME; DCODE_DOMAIN; DCODE_BROADCAST].

Definition add_option_request_list (packet : dhcpmsg) : option (Z * dhcpmsg) :=
  add_option_string packet DCODE_PARAM_REQ reqdata.

(** The [void] wrappers keep the message only. *)
Definition add_option_msgtype (packet : dhcpmsg) (type : Z) : option dhcpmsg :=
  snd <$> add_u8_option packet DCODE_MSGTYPE type.
Definition add_option_reqip (packet : dhcpmsg) (ip : Z) : option dhcpmsg :=
  snd <$> add_u32_option packet DCODE_REQIP ip.
Definition add_option_serverid (packet : dhcpmsg) (sid : Z) : option dhcpmsg :=
  snd <$> add_u32_option packet DCODE_SERVER_ID sid.
Definition add_option_clientid (packet : dhcpmsg) (clientid : list Z) : option dhcpmsg :=
  snd <$> add_option_string packet DCODE_CLIENT_ID clientid.
Definition add_option_maxsize (packet : dhcpmsg) : option dhcpmsg :=
  snd <$> add_u16_option packet DCODE_MAX_SIZE (htons sizeof_ip_udp_dhcp_packet).
Definition add_option_vendor (packet : dhcpmsg) (vendor : list Z) : option dhcpmsg :=
  if zlen vendor =? 0 then Some packet
  else snd <$> add_option_string packet DCODE_VENDOR vendor.
Definition add_option_hostname (packet : dhcpmsg) (hostname : list Z) : option dhcpmsg :=
  if zlen hostname =? 0 then Some packet
  else snd <$> add_option_string packet DCODE_HOSTNAME hostname.

(** ** Typed accessors *)

Definition get_option_router (packet : dhcpmsg) : option Z :=
  buf ← get_dhcp_opt packet DCODE_ROUTER MAX_DOPT_SIZE;
  Some (if zlen buf =? 4 then of_le buf else 0).

Definition get_option_msgtype (packet : dhcpmsg) : option Z :=
  buf ← get_dhcp_opt packet DCODE_MSGTYPE MAX_DOPT_SIZE;
  if zlen buf =? 1 then rd buf 0 else Some 0.

(** The [found] out-parameter is the first component. *)
Definition get_option_serverid (packet : dhcpmsg) : option (bool * Z) :=
  buf ← get_dhcp_opt packet DCODE_SERVER_ID MAX_DOPT_SIZE;
  Some (if zlen buf =? 4 then (true, of_le buf) else (false, 0)).

Definition get_option_leasetime (packet : dhcpmsg) : option Z :=
  buf ← get_dhcp_opt packet DCODE_LEASET MAX_DOPT_SIZE;
  Some (if zlen buf =? 4 then ntohl (of_le buf) else 0).

(** The bytes written to [cbuf]. *)
Definition get_option_clientid (packet : dhcpmsg) (clen : Z) : option (list Z) :=
  if clen <? 1 then Some []
  else get_dhcp_opt packet DCODE_CLIENT_ID clen.

End Codec.

(** * Memory safety and termination of the readers

    For every content of the buffers the scans stay inside them and return. *)

Section Total.
Import Codec.

Lemma do_overload_value_total fuel buf blen overload i :
  bytes_ok buf = true -> zlen buf = blen -> 0 <= i -> blen - i < Z.of_nat fuel ->
  (0 < fuel)%nat ->
  exists v, do_overload_value fuel buf blen overload i = Some v.
Proof.
  intros Hb Hl. revert overload i. induction fuel as [|fuel IH]; intros ol i Hi Hf H0; [lia|].
  cbn [do_overload_value]. zcase; [|eauto].
  destruct (rd_Some buf i) as [c [-> Hc]]; [lia|]. cbn [mbind option_bind].
  zcase; [apply IH; lia|]. zcase; [eauto|]. zcase; [eauto|].
  destruct (rd_Some buf (i + 1)) as [n [-> Hn%(bytes_ok_elem _ _ Hb)]]; [lia|].
  cbn [mbind option_bind].
  destruct (_ && _); [|apply IH; lia].
  destruct (rd_Some buf (i + 2)) as [v [-> _]]; [lia|]. apply IH; lia.
Qed.

Lemma do_get_dhcp_opt_total fuel sbuf slen code dlen i acc :
  bytes_ok sbuf = true -> zlen sbuf = slen -> 2 <= slen < 2 ^ 64 -> 0 <= i ->
  slen - i < Z.of_nat fuel -> (0 < fuel)%nat ->
  zlen acc <= dlen -> bytes_ok acc = true ->
  exists d, do_get_dhcp_opt fuel sbuf slen code dlen i acc = Some d /\
            zlen d <= dlen /\ bytes_ok d = true.
Proof.
  intros Hb Hl Hs. revert i acc. induction fuel as [|fuel IH]; intros i acc Hi Hf H0 Ha Hab; [lia|].
  cbn [do_get_dhcp_opt]. rewrite size_t_id by lia. zcase; [|eauto].
  destruct (rd_Some sbuf i) as [c [-> Hc]]; [lia|]. cbn [mbind option_bind].
  zcase; [apply IH; (done || lia)|]. zcase; [eauto|]. zcase; [eauto|].
  destruct (rd_Some sbuf (i + 1)) as [n [-> Hn%(bytes_ok_elem _ _ Hb)]]; [lia|].
  cbn [mbind option_bind]. zcase; [|apply IH; (done || lia)].
  zcase; [eauto|]. zcase; [eauto|].
  destruct (rd_range_Some sbuf (i + 2) n) as [d [Hd Hdl]]; [lia..|]. rewrite Hd.
  cbn [mbind option_bind]. apply IH; try (done || zlen_lia).
  rewrite bytes_ok_app, Hab. exact (bytes_ok_rd_range _ _ _ _ Hb Hd).
Qed.

Lemma scan_fuel_gt len : len - 0 < Z.of_nat (scan_fuel len).
Proof. unfold scan_fuel. lia. Qed.
Lemma scan_fuel_pos len : (0 < scan_fuel len)%nat.
Proof. unfold scan_fuel. lia. Qed.

(** The scans as they are started by their callers. *)
Lemma overload_scan_total buf len ol :
  bytes_ok buf = true -> zlen buf = len ->
  exists v, do_overload_value (scan_fuel len) buf len ol 0 = Some v.
Proof.
  intros Hb Hl. apply do_overload_value_total; auto using scan_fuel_gt, scan_fuel_pos. lia.
Qed.

Lemma get_scan_total buf len code dlen acc :
  bytes_ok buf = true -> zlen buf = len -> 2 <= len < 2 ^ 64 ->
  zlen acc <= dlen -> bytes_ok acc = true ->
  exists d, do_get_dhcp_opt (scan_fuel len) buf len code dlen 0 acc = Some d /\
            zlen d <= dlen /\ bytes_ok d = true.
Proof.
  intros Hb Hl Hn Ha Hab.
  apply do_get_dhcp_opt_total; auto using scan_fuel_gt, scan_fuel_pos. lia.
Qed.

Lemma overload_value_total p : opt_bufs_ok p -> exists v, overload_value p = Some v.
Proof.
  intros [Ho Hob Hf Hfb Hs Hsb]. unfold overload_value.
  destruct (overload_scan_total (options p) sizeof_options 0 Hob Ho) as [ol ->].
  cbn [mbind option_bind]. destruct (_ && _); [eauto|]. destruct (Z.testbit ol 0).
  { destruct (overload_scan_total (file p) sizeof_file ol Hfb Hf) as [v ->]. cbn; eauto. }
  destruct (Z.testbit ol 1); [|eauto].
  destruct (overload_scan_total (sname p) sizeof_sname ol Hsb Hs) as [v ->]. cbn; eauto.
Qed.

Lemma get_dhcp_opt_total p code dlen :
  opt_bufs_ok p -> 0 <= dlen ->
  exists d, get_dhcp_opt p code dlen = Some d /\ zlen d <= dlen /\ bytes_ok d = true.
Proof.
  intros Hp Hd. unfold get_dhcp_opt.
  destruct (overload_value_total p Hp) as [ol ->]. cbn [mbind option_bind].
  destruct Hp as [Ho Hob Hf Hfb Hs Hsb].
  destruct (get_scan_total (options p) sizeof_options code dlen [] Hob Ho)
    as (d0 & -> & Hl0 & Hb0); [done..|]. cbn [mbind option_bind].
  assert (exists d1, (if Z.testbit ol 0 then
      do_get_dhcp_opt (scan_fuel sizeof_file) (file p) sizeof_file code dlen 0 d0
    else Some d0) = Some d1 /\ zlen d1 <= dlen /\ bytes_ok d1 = true) as (d1 & -> & Hl1 & Hb1).
  { destruct (Z.testbit ol 0); [|eauto]. by apply get_scan_total. }
  cbn [mbind option_bind]. destruct (Z.testbit ol 1); [|eauto]. by apply get_scan_total.
Qed.

Lemma end_option_scan_total fuel opts i :
  bytes_ok opts = true -> zlen opts = sizeof_options -> 0 <= i ->
  sizeof_options - i < Z.of_nat fuel -> (0 < fuel)%nat ->
  exists e, end_option_scan fuel opts i = Some e /\
    (e = -1 \/ 0 <= e < sizeof_options /\ rd opts e = Some DCODE_END).
Proof.
  intros Hb Hl. revert i. induction fuel as [|fuel IH]; intros i Hi Hf H0; [lia|].
  cbn [end_option_scan]. zcase; [|eauto].
  destruct (rd_Some opts i) as [c [Hc _]]; [lia|]. rewrite Hc. cbn [mbind option_bind].
  zcase; [subst; eauto 10|]. zcase; [apply IH; lia|]. zcase; [eauto|].
  destruct (rd_Some opts (i + 1)) as [n [-> Hn%(bytes_ok_elem _ _ Hb)]]; [lia|].
  apply IH; lia.
Qed.

Lemma get_end_option_idx_total p :
  opt_bufs_ok p ->
  exists e, get_end_option_idx p = Some e /\
    (e = -1 \/ 0 <= e < sizeof_options /\ rd (options p) e = Some DCODE_END).
Proof.
  intros [Ho Hob _ _ _ _].
  apply end_option_scan_total; auto using scan_fuel_gt, scan_fuel_pos. lia.
Qed.
End Total.

(** * What a message says: options as (code, data) pairs

    The abstract value of an options buffer is the list of its fields.  A
    buffer [says] a list when it holds the encoding of the list followed by
    the end marker; what follows the marker is arbitrary. *)

Abbreviation opt := (Z * list Z)%type (only parsing).

Definition encode1 (o : opt) : list Z := o.1 :: zlen o.2 :: o.2.
Definition encode_opts (os : list opt) : list Z := concat (encode1 <$> os).

Definition opt_ok (o : opt) : bool :=
  (1 <=? o.1) && (o.1 <? 255) && (zlen o.2 <=? 255) && bytes_ok o.2.
Definition opts_ok (os : list opt) : bool := forallb opt_ok os.

Definition says (buf : list Z) (os : list opt) : Prop :=
  opts_ok os = true /\ exists tail, buf = encode_opts os ++ DCODE_END :: tail.

(** All the data sent under one code, in order (RFC 3396: a value split over
    several options is their concatenation). *)
Definition opt_data (code : Z) (os : list opt) : list Z :=
  concat (snd <$> filter (fun o => o.1 = code) os).

(** The overload flags a list of options carries. *)
Fixpoint overload_bits (ol : Z) (os : list opt) : Z :=
  match os with
  | [] => ol
  | (c, d) :: os =>
    overload_bits
      (match d with [v] => if c =? DCODE_OVERLOAD then Z.lor ol v else ol | _ => ol end) os
  end.

(** The abstract reader: like [opt_data], but it stops at the first field that
    does not fit the destination any more. *)
Fixpoint collect (dlen code : Z) (os : list opt) (acc : list Z) : list Z * bool :=
  match os with
  | [] => (acc, true)
  | (c, d) :: os =>
    if c =? code then
      if dlen <? zlen d + zlen acc then (acc, false)
      else collect dlen code os (acc ++ d)
    else collect dlen code os acc
  end.

Lemma encode_opts_cons o os : encode_opts (o :: os) = encode1 o ++ encode_opts os.
Proof. reflexivity. Qed.
Lemma encode_opts_app os1 os2 :
  encode_opts (os1 ++ os2) = encode_opts os1 ++ encode_opts os2.
Proof. unfold encode_opts. by rewrite fmap_app, concat_app. Qed.
Lemma encode1_len o : zlen (encode1 o) = 2 + zlen o.2.
Proof. unfold encode1. zlen_lia. Qed.
#[export] Hint Rewrite encode_opts_cons encode_opts_app encode1_len : buf.

Lemma opts_ok_cons o os : opts_ok (o :: os) = opt_ok o && opts_ok os.
Proof. reflexivity. Qed.
Lemma opts_ok_app os1 os2 : opts_ok (os1 ++ os2) = opts_ok os1 && opts_ok os2.
Proof. apply forallb_app. Qed.

Lemma opt_ok_spec c d :
  opt_ok (c, d) = true -> 1 <= c < 255 /\ zlen d <= 255 /\ bytes_ok d = true.
Proof. unfold opt_ok. cbn [fst snd]. intros H. bool_hyps. repeat split; (assumption || lia). Qed.

Lemma opt_data_app code os1 os2 :
  opt_data code (os1 ++ os2) = opt_data code os1 ++ opt_data code os2.
Proof. unfold opt_data. by rewrite filter_app, fmap_app, concat_app. Qed.
Lemma opt_data_cons code c d os :
  opt_data code ((c, d) :: os) = (if c =? code then d else []) ++ opt_data code os.
Proof.
  unfold opt_data. rewrite filter_cons. cbn [fst]. zcase.
  - by rewrite decide_True by done.
  - by rewrite decide_False by done.
Qed.

(** When everything fits, the abstract reader returns [opt_data]. *)
Lemma collect_fits dlen code os acc :
  zlen acc + zlen (opt_data code os) <= dlen ->
  collect dlen code os acc = (acc ++ opt_data code os, true).
Proof.
  revert acc. induction os as [|[c d] os IH]; intros acc; cbn [collect].
  { by rewrite app_nil_r. }
  rewrite opt_data_cons. zcase.
  - intros Hl. zcase; [zlen_lia|]. rewrite IH by zlen_lia. by rewrite app_assoc.
  - intros Hl. by apply IH.
Qed.

Lemma overload_bits_none ol os :
  Forall (fun o => o.1 <> DCODE_OVERLOAD) os -> overload_bits ol os = ol.
Proof.
  induction 1 as [|[c d] os Hc _ IH]; [done|]. cbn [overload_bits fst] in *.
  destruct d as [|v [|]]; try done. zcase; done.
Qed.

(** ** The scans compute the abstract value *)

Section Scans.
Import Codec.

(** One field at position [i]: what the three scans read there. *)
Lemma field_at pre c d os tail :
  let buf := pre ++ encode_opts ((c, d) :: os) ++ DCODE_END :: tail in
  rd buf (zlen pre) = Some c /\ rd buf (zlen pre + 1) = Some (zlen d) /\
  rd_range buf (zlen pre + 2) (zlen d) = Some d /\
  zlen pre + 2 + zlen d < zlen buf /\
  buf = (pre ++ encode1 (c, d)) ++ encode_opts os ++ DCODE_END :: tail.
Proof.
  intros buf. subst buf. rewrite encode_opts_cons. unfold encode1. cbn [fst snd app].
  split; [by apply rd_at|]. split; [by apply rd_at1|]. split.
  { replace (pre ++ c :: zlen d :: (d ++ encode_opts os) ++ DCODE_END :: tail)
      with ((pre ++ [c; zlen d]) ++ d ++ (encode_opts os ++ DCODE_END :: tail))
      by (by rewrite <- !app_assoc).
    apply rd_range_at; zlen_lia. }
  split; [zlen_lia|]. by rewrite <- !app_assoc.
Qed.

Lemma do_get_dhcp_opt_says os fuel pre tail code dlen acc slen :
  opts_ok os = true -> 1 <= code < 255 ->
  slen = zlen (pre ++ encode_opts os ++ DCODE_END :: tail) -> 2 <= slen < 2 ^ 64 ->
  (length os < fuel)%nat ->
  do_get_dhcp_opt fuel (pre ++ encode_opts os ++ DCODE_END :: tail)
    slen code dlen (zlen pre) acc
  = Some (collect dlen code os acc).1.
Proof.
  intros Hok Hcode Hl Hs. revert fuel pre acc Hl.
  induction os as [|[c d] os IH]; intros fuel pre acc Hl Hf;
    (destruct fuel as [|fuel]; [cbn in Hf; lia|]).
  { cbn [do_get_dhcp_opt]. zcase; [|zlen_lia].
    change (encode_opts []) with (@nil Z). cbn [app]. rewrite rd_at0. done. }
  rewrite opts_ok_cons in Hok. apply andb_prop in Hok as [Hcd Hok].
  apply opt_ok_spec in Hcd as (Hc & Hd & _).
  destruct (field_at pre c d os tail) as (Hr1 & Hr2 & Hr3 & Hr4 & Hr5).
  cbn [do_get_dhcp_opt collect]. rewrite Hr1, Hr2. cbn [mbind option_bind]. rewrite Hr3.
  rewrite <- Hl in Hr4. zlen_pos. rewrite size_t_id by lia.
  zcase; [|lia]. cbn [mbind option_bind].
  zcase; [unfold DCODE_PADDING in *; lia|]. zcase; [unfold DCODE_END in *; lia|].
  zcase; [lia|].
  replace (zlen pre + (zlen d + 2)) with (zlen (pre ++ encode1 (c, d))) by zlen_lia.
  cbn [length] in Hf. zcase; [zcase; [done|]; zcase; [lia|]|];
    rewrite Hr5; apply IH; try done; try lia; by rewrite Hl, Hr5.
Qed.

Lemma do_overload_value_says os fuel pre tail ol slen :
  opts_ok os = true ->
  slen = zlen (pre ++ encode_opts os ++ DCODE_END :: tail) ->
  (length os < fuel)%nat ->
  do_overload_value fuel (pre ++ encode_opts os ++ DCODE_END :: tail) slen ol (zlen pre)
  = Some (overload_bits ol os).
Proof.
  intros Hok Hl. revert fuel pre ol Hl.
  induction os as [|[c d] os IH]; intros fuel pre ol Hl Hf;
    (destruct fuel as [|fuel]; [cbn in Hf; lia|]).
  { cbn [do_overload_value]. zcase; [|zlen_lia].
    change (encode_opts []) with (@nil Z). cbn [app]. rewrite rd_at0. done. }
  rewrite opts_ok_cons in Hok. apply andb_prop in Hok as [Hcd Hok].
  apply opt_ok_spec in Hcd as (Hc & Hd & _).
  destruct (field_at pre c d os tail) as (Hr1 & Hr2 & Hr3 & Hr4 & Hr5).
  cbn [do_overload_value overload_bits]. rewrite Hr1, Hr2.
  rewrite <- Hl in Hr4. zlen_pos.
  zcase; [|lia]. cbn [mbind option_bind].
  zcase; [unfold DCODE_PADDING in *; lia|]. zcase; [unfold DCODE_END in *; lia|].
  zcase; [lia|]. cbn [length] in Hf.
  assert (Hnext : forall ol', do_overload_value fuel
      (pre ++ encode_opts ((c, d) :: os) ++ DCODE_END :: tail) slen ol'
      (zlen pre + (zlen d + 2)) = Some (overload_bits ol' os)).
  { intros ol'. replace (zlen pre + (zlen d + 2)) with (zlen (pre ++ encode1 (c, d)))
      by zlen_lia. rewrite Hr5. apply IH; [done|by rewrite Hl, Hr5|lia]. }
  destruct (Z.eqb_spec c DCODE_OVERLOAD) as [->|Hne]; cbn [andb].
  - destruct d as [|v [|]]; [by apply Hnext| |].
    + change (zlen [v] =? 1) with true. cbn [option_bind].
      apply rd_range_1 in Hr3. rewrite Hr3. cbn [option_bind]. apply Hnext.
    + zcase; [zlen_lia|]. by apply Hnext.
  - destruct d as [|v [|]]; by apply Hnext.
Qed.

Lemma end_option_scan_says os fuel pre tail :
  opts_ok os = true ->
  zlen (pre ++ encode_opts os ++ DCODE_END :: tail) = sizeof_options ->
  (length os < fuel)%nat ->
  end_option_scan fuel (pre ++ encode_opts os ++ DCODE_END :: tail) (zlen pre)
  = Some (zlen pre + zlen (encode_opts os)).
Proof.
  intros Hok. revert fuel pre.
  induction os as [|[c d] os IH]; intros fuel pre Hl Hf;
    (destruct fuel as [|fuel]; [cbn in Hf; lia|]).
  { cbn [end_option_scan]. zcase; [|zlen_lia].
    change (encode_opts []) with (@nil Z). cbn [app]. rewrite rd_at0.
    rewrite (zlen_nil (A := Z)), Z.add_0_r. done. }
  rewrite opts_ok_cons in Hok. apply andb_prop in Hok as [Hcd Hok].
  apply opt_ok_spec in Hcd as (Hc & Hd & _).
  destruct (field_at pre c d os tail) as (Hr1 & Hr2 & _ & Hr4 & Hr5).
  cbn [end_option_scan]. rewrite Hr1, Hr2. rewrite Hl in Hr4. zlen_pos.
  zcase; [|lia]. cbn [mbind option_bind].
  zcase; [unfold DCODE_END in *; lia|]. zcase; [unfold DCODE_PADDING in *; lia|].
  zcase; [lia|]. cbn [length] in Hf.
  replace (zlen pre + (zlen d + 1) + 1) with (zlen (pre ++ encode1 (c, d))) by zlen_lia.
  rewrite Hr5, IH; [f_equal; zlen_lia|done|by rewrite <- Hr5|lia].
Qed.
End Scans.

(** * A message under construction

    [carries p os]: the options field of [p] says [os].  Readers return what
    [os] contains, writers append to it. *)

Definition carries (p : dhcpmsg) (os : list opt) : Prop :=
  opt_bufs_ok p /\ says (options p) os.

(** The bytes an option list takes, end marker included. *)
Definition encoded_size (os : list opt) : Z := zlen (encode_opts os) + 1.

Section Carries.
Import Codec.

Lemma opt_data_len code os : zlen (opt_data code os) <= zlen (encode_opts os).
Proof.
  induction os as [|[c d] os IH]; [done|].
  rewrite opt_data_cons, encode_opts_cons, !zlen_app, encode1_len. cbn [snd].
  destruct (c =? code); [|rewrite zlen_nil]; zlen_pos; lia.
Qed.
Lemma opts_ok_count os : opts_ok os = true -> 2 * zlen os <= zlen (encode_opts os).
Proof.
  induction os as [|[c d] os IH]; [done|].
  rewrite opts_ok_cons. intros [_ Hok]%andb_prop. specialize (IH Hok). zlen_lia.
Qed.

(** Enough iterations for a buffer that says [os]. *)
Lemma says_fuel buf os : says buf os -> (length os < scan_fuel (zlen buf))%nat.
Proof.
  intros [Hok [tail ->]]. pose proof (opts_ok_count os Hok) as H. unfold scan_fuel.
  rewrite zlen_app. zlen_pos. unfold zlen in *. lia.
Qed.

Lemma overload_scan_says buf os ol :
  says buf os -> do_overload_value (scan_fuel (zlen buf)) buf (zlen buf) ol 0
                 = Some (overload_bits ol os).
Proof.
  intros Hs. pose proof (says_fuel _ _ Hs) as Hf. destruct Hs as [Hok [tail Hb]].
  rewrite Hb at 2. apply (do_overload_value_says os _ [] tail); [done|by rewrite Hb|done].
Qed.

Lemma get_scan_says buf os code dlen acc :
  says buf os -> 1 <= code < 255 -> 2 <= zlen buf < 2 ^ 64 ->
  do_get_dhcp_opt (scan_fuel (zlen buf)) buf (zlen buf) code dlen 0 acc
  = Some (collect dlen code os acc).1.
Proof.
  intros Hs Hc Hl. pose proof (says_fuel _ _ Hs) as Hf. destruct Hs as [Hok [tail Hb]].
  rewrite Hb at 2. apply (do_get_dhcp_opt_says os _ [] tail);
    [done|done|by rewrite Hb|done|done].
Qed.

Lemma get_end_option_idx_carries p os :
  carries p os -> get_end_option_idx p = Some (zlen (encode_opts os)).
Proof.
  intros [Hp Hs]. pose proof (says_fuel _ _ Hs) as Hf. destruct Hs as [Hok [tail Hb]].
  unfold get_end_option_idx. rewrite (ok_options p Hp) in Hf. rewrite Hb.
  apply (end_option_scan_says os _ [] tail); [done| |done].
  cbn [app]. rewrite <- Hb. apply (ok_options p Hp).
Qed.

(** A message without an overload option is read from [options] alone. *)
Lemma get_dhcp_opt_carries p os code dlen :
  carries p os -> Forall (fun o => o.1 <> DCODE_OVERLOAD) os -> 1 <= code < 255 ->
  get_dhcp_opt p code dlen = Some (collect dlen code os []).1.
Proof.
  intros [Hp Hs] Hno Hc. unfold get_dhcp_opt, overload_value.
  pose proof (ok_options p Hp) as Hl. rewrite <- Hl.
  rewrite overload_scan_says with (os := os) by done.
  rewrite overload_bits_none by done. cbn [mbind option_bind].
  rewrite !Z.testbit_0_l. cbn [andb mbind option_bind]. rewrite !Z.testbit_0_l.
  rewrite get_scan_says with (os := os); [done|done|done|]. by rewrite Hl.
Qed.

(** The common shape of the writers: [code], length, data and a new end
    marker over the old end marker. *)
Lemma carries_append p os code d :
  carries p os -> opt_ok (code, d) = true ->
  encoded_size os + 2 + zlen d <= sizeof_options ->
  exists o, wr_range (options p) (zlen (encode_opts os))
              (code :: zlen d :: d ++ [DCODE_END]) = Some o /\
            carries (p <| options := o |>) (os ++ [(code, d)]).
Proof.
  intros [Hp [Hok [tail Hb]]] Hd Hroom. unfold encoded_size in Hroom.
  pose proof (ok_options p Hp) as Hl. pose proof (ok_options_bytes p Hp) as Hbb.
  rewrite Hb in *. rewrite zlen_app, zlen_cons in Hl.
  rewrite wr_range_tail by (done || zlen_lia). eexists. split; [done|].
  apply opt_ok_spec in Hd as Hd'. destruct Hd' as (Hc & Hdl & Hdb).
  split.
  - destruct Hp. constructor; rsimpl; try done.
    + unfold zlen in *. rewrite !length_app, !length_cons, length_app, length_drop in *.
      cbn [length] in *. lia.
    + rewrite bytes_ok_app in Hbb. apply andb_prop in Hbb as [Hb1 Hb2].
      rewrite !bytes_ok_app, Hb1. cbn [bytes_ok forallb]. fold (bytes_ok (d ++ [DCODE_END])).
      rewrite bytes_ok_app, Hdb, bytes_ok_drop by done. unfold byte_ok. zlen_pos. cbn. lia.
  - split; [by rewrite opts_ok_app, Hok; cbn [opts_ok forallb]; rewrite Hd|].
    rsimpl. eexists. rewrite encode_opts_app.
    change (encode_opts [(code, d)]) with (code :: zlen d :: d ++ []).
    rewrite app_nil_r, <- !app_assoc. cbn [app]. by rewrite <- app_assoc.
Qed.

Lemma sizeof_option_str_spec code n :
  1 <= code < 255 -> 0 <= n < 2 ^ 32 -> sizeof_option_str code n = 2 + n.
Proof.
  intros. unfold sizeof_option_str, DCODE_PADDING, DCODE_END.
  repeat (zcase; try lia). by rewrite size_t_id by lia.
Qed.

Lemma add_option_string_carries p os code str :
  carries p os -> opt_ok (code, str) = true ->
  encoded_size os + 2 + zlen str <= sizeof_options ->
  exists o, add_option_string p code str = Some (2 + zlen str, p <| options := o |>) /\
            carries (p <| options := o |>) (os ++ [(code, str)]).
Proof.
  intros Hca Hd Hroom. destruct (carries_append p os code str) as (o & Ho & Hco); [done..|].
  exists o. split; [|done]. unfold add_option_string.
  apply opt_ok_spec in Hd as (Hc & Hl & _). zlen_pos.
  rewrite (get_end_option_idx_carries p os Hca), sizeof_option_str_spec, size_t_id by lia.
  unfold encoded_size in *.
  repeat (zcase; try lia). cbn [mbind option_bind]. repeat (zcase; try lia).
  rewrite wr_as_range, u8_id by lia.
  rewrite wr_range_wr by zlen_lia. cbn [app].
  rewrite wr_range_wr_range by zlen_lia.
  rewrite wr_range_wr by zlen_lia. cbn [app]. rewrite Ho. done.
Qed.

(** No room, or an option that cannot be encoded: nothing is written. *)
Lemma add_option_string_noroom p os code str :
  carries p os -> 1 <= code < 255 ->
  sizeof_options < encoded_size os + 2 + zlen str \/ 255 < zlen str ->
  zlen str < 2 ^ 32 ->
  add_option_string p code str = Some (0, p).
Proof.
  intros Hca Hc Hroom Hl. unfold add_option_string. zlen_pos.
  rewrite (get_end_option_idx_carries p os Hca), sizeof_option_str_spec, size_t_id by lia.
  unfold encoded_size in *. zcase; [done|]. zcase; [|lia].
  cbn [mbind option_bind]. zcase; [done|]. zcase; [done|lia].
Qed.

Lemma add_option_check_carries p os rlen :
  carries p os -> 0 <= rlen -> encoded_size os + 2 + rlen <= sizeof_options ->
  add_option_check p rlen = Some (zlen (encode_opts os)).
Proof.
  intros Hca Hr Hroom. unfold add_option_check.
  rewrite (get_end_option_idx_carries p os Hca). unfold encoded_size in *. zlen_pos.
  cbn [mbind option_bind]. repeat (zcase; try lia). done.
Qed.

Lemma add_u8_option_carries p os code v :
  carries p os -> opt_ok (code, [v]) = true ->
  encoded_size os + 3 <= sizeof_options ->
  exists o, add_u8_option p code v = Some (3, p <| options := o |>) /\
            carries (p <| options := o |>) (os ++ [(code, [v])]).
Proof.
  intros Hca Hd Hroom. destruct (carries_append p os code [v]) as (o & Ho & Hco); [done|done|zlen_lia|].
  exists o. split; [|done]. unfold add_u8_option.
  rewrite (add_option_check_carries p os) by (done || lia). zlen_pos.
  cbn [mbind option_bind]. zcase; [lia|].
  rewrite wr_as_range. rewrite !wr_range_wr by zlen_lia. cbn [app].
  change (zlen [v]) with 1 in Ho. cbn [app] in Ho. rewrite Ho. done.
Qed.

Lemma add_u16_option_carries p os code v :
  carries p os -> 1 <= code < 255 ->
  encoded_size os + 4 <= sizeof_options ->
  exists o, add_u16_option p code v = Some (4, p <| options := o |>) /\
            carries (p <| options := o |>) (os ++ [(code, le16 v)]).
Proof.
  intros Hca Hc Hroom. destruct (carries_append p os code (le16 v)) as (o & Ho & Hco);
    [done| |rewrite le16_len; lia|].
  { unfold opt_ok. cbn [fst snd]. rewrite le16_ok, le16_len. lia. }
  exists o. split; [|done]. unfold add_u16_option.
  rewrite (add_option_check_carries p os) by (done || lia). zlen_pos.
  cbn [mbind option_bind]. zcase; [lia|].
  rewrite wr_as_range. rewrite wr_range_wr by zlen_lia. 
  change (rd (le16 v) 0) with (Some (u8 v)).
  change (rd (le16 v) 1) with (Some (u8 (Z.shiftr v 8))). cbn [mbind option_bind].
  rewrite !wr_range_wr by zlen_lia. cbn [app].
  change (zlen (le16 v)) with 2 in Ho. cbn [app le16] in Ho. rewrite Ho. done.
Qed.

Lemma add_u32_option_carries p os code v :
  carries p os -> 1 <= code < 255 ->
  encoded_size os + 6 <= sizeof_options ->
  exists o, add_u32_option p code v = Some (6, p <| options := o |>) /\
            carries (p <| options := o |>) (os ++ [(code, le32 v)]).
Proof.
  intros Hca Hc Hroom. destruct (carries_append p os code (le32 v)) as (o & Ho & Hco);
    [done| |rewrite le32_len; lia|].
  { unfold opt_ok. cbn [fst snd]. rewrite le32_ok, le32_len. lia. }
  exists o. split; [|done]. unfold add_u32_option.
  rewrite (add_option_check_carries p os) by (done || lia). zlen_pos.
  cbn [mbind option_bind]. zcase; [lia|].
  rewrite wr_as_range. rewrite wr_range_wr by zlen_lia. 
  change (rd (le32 v) 0) with (Some (u8 v)).
  change (rd (le32 v) 1) with (Some (u8 (Z.shiftr v 8))).
  change (rd (le32 v) 2) with (Some (u8 (Z.shiftr v 16))).
  change (rd (le32 v) 3) with (Some (u8 (Z.shiftr v 24))). cbn [mbind option_bind].
  rewrite !wr_range_wr by zlen_lia. cbn [app].
  change (zlen (le32 v)) with 4 in Ho. cbn [app le32] in Ho. rewrite Ho. done.
Qed.
End Carries.

Lemma encoded_size_nil : encoded_size [] = 1.
Proof. reflexivity. Qed.
Lemma encoded_size_app os1 os2 :
  encoded_size (os1 ++ os2) = encoded_size os1 + encoded_size os2 - 1.
Proof. unfold encoded_size. rewrite encode_opts_app. zlen_lia. Qed.
Lemma encoded_size_cons o os : encoded_size (o :: os) = 2 + zlen o.2 + encoded_size os.
Proof. unfold encoded_size. rewrite encode_opts_cons, zlen_app, encode1_len. lia. Qed.
Lemma reqdata_len : zlen Codec.reqdata = 6.
Proof. reflexivity. Qed.
#[export] Hint Rewrite reqdata_len encoded_size_nil encoded_size_app encoded_size_cons le16_len le32_len : buf.
Lemma opt_ok_intro code d :
  1 <= code < 255 -> zlen d <= 255 -> bytes_ok d = true -> opt_ok (code, d) = true.
Proof. intros Hc Hl Hb. unfold opt_ok. cbn [fst snd]. rewrite Hb. lia. Qed.

(** * Building a message

    [builds r base os]: the construction [r] succeeds, its result is the message
    [base] with an options field that says [os]. *)
Definition builds (r : option dhcpmsg) (base : dhcpmsg) (os : list opt) : Prop :=
  exists o, r = Some (base <| options := o |>) /\ carries (base <| options := o |>) os.

Section Builds.
Import Codec.

Lemma builds_ret base o os :
  carries (base <| options := o |>) os -> builds (Some (base <| options := o |>)) base os.
Proof. intros H. by exists o. Qed.

(** One option is appended, and the construction goes on with [k]. *)
Lemma builds_string base o os code str k os' :
  carries (base <| options := o |>) os -> opt_ok (code, str) = true ->
  encoded_size os + 2 + zlen str <= sizeof_options ->
  (forall o', carries (base <| options := o' |>) (os ++ [(code, str)]) ->
     builds (k (base <| options := o' |>)) base os') ->
  builds ((snd <$> add_option_string (base <| options := o |>) code str) ≫= k) base os'.
Proof.
  intros Hc Hok Hs Hk. destruct (add_option_string_carries _ _ _ _ Hc Hok Hs) as (o' & -> & Hc').
  exact (Hk o' Hc').
Qed.
Lemma builds_u8 base o os code v k os' :
  carries (base <| options := o |>) os -> 1 <= code < 255 -> 0 <= v < 256 ->
  encoded_size os + 3 <= sizeof_options ->
  (forall o', carries (base <| options := o' |>) (os ++ [(code, [v])]) ->
     builds (k (base <| options := o' |>)) base os') ->
  builds ((snd <$> add_u8_option (base <| options := o |>) code v) ≫= k) base os'.
Proof.
  intros Hc Hcode Hv Hs Hk.
  destruct (add_u8_option_carries _ _ code v Hc) as (o' & -> & Hc'); [|done|exact (Hk o' Hc')].
  apply opt_ok_intro; [done|done|]. cbn. unfold byte_ok. lia.
Qed.
Lemma builds_u16 base o os code v k os' :
  carries (base <| options := o |>) os -> 1 <= code < 255 ->
  encoded_size os + 4 <= sizeof_options ->
  (forall o', carries (base <| options := o' |>) (os ++ [(code, le16 v)]) ->
     builds (k (base <| options := o' |>)) base os') ->
  builds ((snd <$> add_u16_option (base <| options := o |>) code v) ≫= k) base os'.
Proof.
  intros Hc Hcode Hs Hk.
  destruct (add_u16_option_carries _ _ code v Hc) as (o' & -> & Hc'); [done..|exact (Hk o' Hc')].
Qed.
Lemma builds_u32 base o os code v k os' :
  carries (base <| options := o |>) os -> 1 <= code < 255 ->
  encoded_size os + 6 <= sizeof_options ->
  (forall o', carries (base <| options := o' |>) (os ++ [(code, le32 v)]) ->
     builds (k (base <| options := o' |>)) base os') ->
  builds ((snd <$> add_u32_option (base <| options := o |>) code v) ≫= k) base os'.
Proof.
  intros Hc Hcode Hs Hk.
  destruct (add_u32_option_carries _ _ code v Hc) as (o' & -> & Hc'); [done..|exact (Hk o' Hc')].
Qed.
(** The last option of a message. *)
Lemma builds_last (r : option dhcpmsg) base os :
  builds (r ≫= fun p => Some p) base os -> builds r base os.
Proof. by destruct r. Qed.
End Builds.

(** The empty options field every outgoing message starts from. *)
Lemma carries_fresh p :
  opt_bufs_ok p -> (exists tail, options p = DCODE_END :: tail) -> carries p [].
Proof. intros Hp [tail Ht]. split; [done|]. split; [done|]. by exists tail. Qed.

(** * The codec's correctness *)

(** C12. Whatever bytes a received message holds, reading an option stays inside the
    message's buffers, terminates, and never writes more than the [dlen] bytes
    of the destination buffer. *)
Theorem get_dhcp_opt_in_bounds (p : dhcpmsg) (code dlen : Z) :
  dhcpmsg_ok p = true -> 0 <= dlen ->
  exists d, Codec.get_dhcp_opt p code dlen = Some d /\ zlen d <= dlen /\ bytes_ok d = true.
Proof. intros Hp. apply get_dhcp_opt_total. by apply dhcpmsg_ok_bufs. Qed.

Lemma get_dhcp_opt_in_bounds_witness :
  exists d, Codec.get_dhcp_opt (dhcpmsg_zero <| options := replicate 308 52 |>) 53 3 = Some d /\
            zlen d <= 3 /\ bytes_ok d = true.
Proof. apply get_dhcp_opt_in_bounds; [vm_compute; reflexivity|lia]. Defined.

(** C13. Writing an option and reading it back: as long as there is room,
    [add_option_string] appends exactly the given field to the message, returns
    the bytes it used, changes no other field of the message, and a later
    [get_dhcp_opt] of any code returns the data of all the fields with that
    code, the new one last. *)
Theorem add_then_get (p : dhcpmsg) (os : list (Z * list Z)) (code : Z) (str : list Z) :
  carries p os -> Forall (fun o => o.1 <> DCODE_OVERLOAD) os ->
  opt_ok (code, str) = true -> code <> DCODE_OVERLOAD ->
  encoded_size os + 2 + zlen str <= sizeof_options ->
  exists o, Codec.add_option_string p code str = Some (2 + zlen str, p <| options := o |>) /\
    carries (p <| options := o |>) (os ++ [(code, str)]) /\
    forall c dlen, 1 <= c < 255 ->
      zlen (opt_data c os) + zlen str <= dlen ->
      Codec.get_dhcp_opt (p <| options := o |>) c dlen
      = Some (opt_data c os ++ if code =? c then str else []).
Proof.
  intros Hca Hno Hd Hcode Hroom.
  destruct (add_option_string_carries p os code str) as (o & Ho & Hco); [done..|].
  exists o. split; [done|]. split; [done|]. intros c dlen Hc Hl.
  assert (Hdata : opt_data c (os ++ [(code, str)]) = opt_data c os ++ if code =? c then str else []).
  { rewrite opt_data_app, opt_data_cons. by rewrite app_nil_r. }
  rewrite (get_dhcp_opt_carries _ (os ++ [(code, str)])); [|done| |done].
  - rewrite collect_fits, Hdata; [done|]. rewrite Hdata, zlen_nil. zcase; zlen_lia.
  - apply Forall_app. split; [done|]. by repeat constructor.
Qed.

Lemma add_then_get_witness :
  let p := dhcpmsg_zero <| options := DCODE_END :: zeros 307 |> in
  exists o, Codec.add_option_string p 12 [104; 111] = Some (4, p <| options := o |>) /\
    carries (p <| options := o |>) [(12, [104; 111])] /\
    forall c dlen, 1 <= c < 255 -> 0 + 2 <= dlen ->
      Codec.get_dhcp_opt (p <| options := o |>) c dlen
      = Some ([] ++ if 12 =? c then [104; 111] else []).
Proof.
  apply (add_then_get _ []).
  - apply carries_fresh; [|by eexists].
    apply dhcpmsg_ok_bufs. vm_compute. reflexivity.
  - constructor.
  - reflexivity.
  - discriminate.
  - vm_compute. discriminate.
Defined.

(** C19. Option overload (RFC 2131): the [file] and [sname] buffers are searched
    exactly when the overload option of the [options] field says so, in that
    order, and the data found is the concatenation over the three buffers. *)
Theorem get_dhcp_opt_overload (p : dhcpmsg) (os fs ss : list (Z * list Z)) (code dlen : Z) :
  carries p os -> says (file p) fs -> says (sname p) ss ->
  Forall (fun o => o.1 <> DCODE_OVERLOAD) fs -> Forall (fun o => o.1 <> DCODE_OVERLOAD) ss ->
  1 <= code < 255 ->
  let ol := overload_bits 0 os in
  let all := opt_data code os ++ (if Z.testbit ol 0 then opt_data code fs else [])
               ++ (if Z.testbit ol 1 then opt_data code ss else []) in
  zlen all <= dlen -> Codec.get_dhcp_opt p code dlen = Some all.
Proof.
  intros [Hp Hos] Hfs Hss Hnf Hns Hc ol all Hl. unfold Codec.get_dhcp_opt.
  pose proof (ok_options p Hp) as Ho. pose proof (ok_file p Hp) as Hf.
  pose proof (ok_sname p Hp) as Hsn.
  assert (Hov : Codec.overload_value p = Some ol).
  { unfold Codec.overload_value. rewrite <- Ho, <- Hf, <- Hsn.
    rewrite overload_scan_says with (os := os) by done. fold ol. cbn [mbind option_bind].
    rewrite (overload_scan_says _ fs), (overload_scan_says _ ss) by done.
    rewrite !overload_bits_none by done. cbn [mbind option_bind]. rewrite Z.lor_diag.
    by destruct (Z.testbit ol 0), (Z.testbit ol 1). }
  rewrite Hov. cbn [mbind option_bind]. rewrite <- Ho, <- Hf, <- Hsn.
  rewrite (get_scan_says _ os) by (done || rewrite Ho; done).
  subst all. rewrite !zlen_app in Hl.
  rewrite collect_fits by (zlen_pos; rewrite zlen_nil; lia).
  cbn [fst mbind option_bind app].
  destruct (Z.testbit ol 0).
  - rewrite (get_scan_says _ fs) by (done || rewrite Hf; done).
    rewrite collect_fits by (zlen_pos; lia). cbn [fst mbind option_bind].
    destruct (Z.testbit ol 1); [|by rewrite app_nil_r].
    rewrite (get_scan_says _ ss) by (done || rewrite Hsn; done).
    rewrite collect_fits by (rewrite zlen_app; lia). by rewrite app_assoc.
  - cbn [mbind option_bind]. destruct (Z.testbit ol 1); [|by rewrite !app_nil_r].
    rewrite (get_scan_says _ ss) by (done || rewrite Hsn; done).
    rewrite collect_fits by (rewrite zlen_nil in Hl; lia). done.
Qed.

Lemma get_dhcp_opt_overload_witness :
  let p := dhcpmsg_zero <| options := [52; 1; 1; 12; 1; 97; 255] ++ zeros 301 |>
             <| file := [12; 1; 98; 255] ++ zeros 124 |> <| sname := 255 :: zeros 63 |> in
  Codec.get_dhcp_opt p 12 500 = Some [97; 98].
Proof.
  apply (get_dhcp_opt_overload _ [(52, [1]); (12, [97])] [(12, [98])] []).
  - split; [apply dhcpmsg_ok_bufs; vm_compute; reflexivity|]. split; [reflexivity|].
    eexists. reflexivity.
  - split; [reflexivity|]. eexists. reflexivity.
  - split; [reflexivity|]. eexists. reflexivity.
  - repeat constructor. discriminate.
  - constructor.
  - lia.
  - vm_compute. discriminate.
Defined.

(** A field that does not fit (the options field is full, or the data is longer
    than a length byte can say) is refused: nothing is written and 0 is
    returned. *)
Theorem add_option_string_refuses (p : dhcpmsg) (os : list (Z * list Z)) (code : Z) (str : list Z) :
  carries p os -> 1 <= code < 255 -> zlen str < 2 ^ 32 ->
  sizeof_options < encoded_size os + 2 + zlen str \/ 255 < zlen str ->
  Codec.add_option_string p code str = Some (0, p).
Proof. intros. by apply (add_option_string_noroom p os). Qed.

Lemma add_option_string_refuses_witness :
  let p := dhcpmsg_zero <| options := DCODE_END :: zeros 307 |> in
  Codec.add_option_string p 60 (zeros 256) = Some (0, p).
Proof.
  apply (add_option_string_refuses _ []).
  - apply carries_fresh; [|by eexists].
    apply dhcpmsg_ok_bufs. vm_compute. reflexivity.
  - lia.
  - vm_compute. reflexivity.
  - right. vm_compute. reflexivity.
Defined.
