(* ===== verification/World.v ===== *)
(** The state of the ndhc-master process, the outside world it talks to, and
    the monad in which its functions run.

    - [World]: the global and static variables of the master process, together
      with the list of externally visible actions it has performed.
    - [Env]: everything that is not decided by the program: the clock, the random
      generator, the results of system calls, the replies of the ndhc-ifch and
      ndhc-sockd processes.  The answers are functions of the number of external
      calls made so far, so that a theorem for every [Env] covers every
      interleaving of external behaviour.
    - [M A]: a computation that may return, or leave the process ([exit],
      [suicide]), or run into undefined behaviour ([HUndef]); [M] is the instance
      at [World] of [St S], the same monad over any process state [S].
    - [wp]: the weakest precondition calculus used by the proofs, and [keeps],
      the frame rule for relations that every operation preserves. *)

From S2P Require Import Prelude Types.

(** * Actions the process performs on the outside *)

Inductive action :=
| ASockd (req : list Z)                        (** request to ndhc-sockd *)
| AIfch (cmd : list Z)                         (** command to ndhc-ifch *)
| AEpollAdd (fd : Z) | AEpollDel (fd : Z) | AClose (fd : Z)
| AConnect (fd addr port : Z)
| AUnicast (fd : Z) (payload : list Z)         (** [safe_write] of a DHCP message *)
| ARaw (fd : Z) (frame : list Z)               (** [safe_sendto] of an IP packet *)
| AArp (fd : Z) (msg : arpMsg)                 (** [safe_sendto] of an ARP frame *)
| ANl (fd : Z) (msg : list Z)                  (** [safe_sendto] of a netlink message *)
| ALease (text : list Z)                       (** the lease file's new content *)
| ADaemon | AWritePid.

(** * External behaviour *)

(** What [request_sockd_fd] finds on the socket to ndhc-sockd. *)
Inductive sockd_reply :=
| SockdWriteFails (r : Z)       (** [safe_write] returned something else than the length *)
| SockdEof | SockdRecvFails     (** [safe_recvmsg] returned 0 or an error *)
| SockdNoFd                     (** a reply without SCM_RIGHTS control message *)
| SockdFd (repc fd : Z).        (** reply character and descriptor *)

(** What [ifchwrite] finds on the socket to ndhc-ifch. *)
Inductive ifch_reply :=
| IfchWriteFails | IfchEof | IfchRecvFails
| IfchData (data : list Z).

(** What [safe_read] returns. *)
Inductive read_reply :=
| ReadAgain                     (** -1 with EAGAIN or EWOULDBLOCK *)
| ReadFails                     (** -1 with another errno *)
| ReadData (data : list Z).     (** the bytes received; none at end of file *)

(** What [nl_recv_buf] finds on the netlink socket. *)
Inductive nl_reply :=
| NlAgain | NlFails              (** -1 with EAGAIN or EWOULDBLOCK, -1 with another errno *)
| NlBadAddr (data : list Z)      (** a datagram whose sender is no netlink address *)
| NlData (data : list Z).

(** What [epoll_wait] returns: the loop asks for one event at a time. *)
Inductive epoll_reply :=
| EpIntr | EpFails | EpTimeout
| EpEvent (fd : Z) (in_ hup : bool).  (** EPOLLIN; EPOLLHUP, EPOLLERR or EPOLLRDHUP *)

Class Env := {
  env_clock : nat -> option (Z * Z);   (** CLOCK_MONOTONIC: seconds, nanoseconds *)
  env_random : nat -> Z;               (** [nk_random_u32] *)
  env_sockd : nat -> sockd_reply;
  env_ifch : nat -> ifch_reply;
  env_send : nat -> Z;                 (** result of [safe_write] / [safe_sendto] *)
  env_connect : nat -> bool;
  env_read : nat -> read_reply;
  env_epoll_ctl : nat -> bool;
  env_ftruncate : nat -> bool;         (** final result, after the EINTR retries *)
  env_daemon : nat -> bool;
  env_nl : nat -> nl_reply;
  env_epoll_wait : nat -> epoll_reply;
  env_open : nat -> Z;                 (** [epoll_create1], [signalfd]: a descriptor *)
  env_fuel : nat;                      (** fuel of the loops that the clock or another
                                           process ends: [quit_after_lease_handler],
                                           [nl_event_get] *)
  net_checksum161c : list Z -> Z;      (** ncmlib's checksum routines *)
  net_checksum161c_add : Z -> Z -> Z
}.

(** * The process state *)

(** Where the coroutine [dhcp_handle] resumes: its start, the loop of one of
    the protocol states, or the statement after a failed deconfiguration. *)
Inductive scr_label :=
| SCR_START | SCR_SELECTING | SCR_REQUESTING | SCR_COLLISION | SCR_BOUND
| SCR_DECONFIG_FAILED | SCR_RELEASED.
#[export] Instance scr_label_eq_dec : EqDecision scr_label.
Proof. solve_decision. Defined.

Record World := mk_World {
  cs : client_state_t;                 (** [ndhc.c: cs] *)
  client_config : client_config_t;     (** [ndhc.c: client_config] *)
  garp : arp_data;                     (** [arp.c: garp] *)
  arp_probe_wait : Z; arp_probe_num : Z; arp_probe_min : Z; arp_probe_max : Z;
  cfg_packet : dhcpmsg;                (** [ifchange.c: cfg_packet] *)
  leasefilefd : Z;                     (** [leasefile.c: leasefilefd] *)
  ifchStream0 : Z; sockdStream0 : Z;   (** [ndhc.c: ifchStream[0]], [sockdStream[0]] *)
  write_pid_enabled : bool;            (** [ndhc.c: write_pid_enabled] *)
  background_called : bool;            (** [background: called] *)
  rfkill_set : bool;                   (** [do_ndhc_work: rfkill_set] *)
  rfkill_nl_carrier_wentup : bool;
  scrLine : scr_label;                 (** [dhcp_handle: scrLine] *)
  tick : nat;                          (** external calls made so far *)
  trace : list action                  (** actions performed, latest first *)
}.
#[export] Instance World_eta : Eta World := fun r =>
  mk_World (cs r) (client_config r) (garp r) (arp_probe_wait r) (arp_probe_num r)
    (arp_probe_min r) (arp_probe_max r) (cfg_packet r) (leasefilefd r)
    (ifchStream0 r) (sockdStream0 r)
    (write_pid_enabled r) (background_called r) (rfkill_set r)
    (rfkill_nl_carrier_wentup r) (scrLine r) (tick r) (trace r).

(** * Computations *)

(** [exit], [suicide], undefined behaviour, and a loop that has not ended within
    the fuel of its model. *)
Inductive halt := HExit (status : Z) | HSuicide (why : string) | HUndef | HFuel.
Inductive outcome (A : Type) := Ret (a : A) | Halt (h : halt).
Arguments Ret {A} a.
Arguments Halt {A} h.

(** Computations over a process state [S]: the master's is [World], the helper
    processes have smaller ones. *)
Definition St (S A : Type) : Type := S -> outcome A * S.

#[export] Instance M_ret {S} : MRet (St S) := fun A a w => (Ret a, w).
#[export] Instance M_bind {S} : MBind (St S) := fun A B f m w =>
  match m w with
  | (Ret a, w') => f a w'
  | (Halt h, w') => (Halt h, w')
  end.

Definition gets {S A} (f : S -> A) : St S A := fun w => (Ret (f w), w).
Definition modify {S} (f : S -> S) : St S unit := fun w => (Ret tt, f w).
Definition fatal {S A} (h : halt) : St S A := fun w => (Halt h, w).
Definition suicide {S A} (why : string) : St S A := fatal (HSuicide why).
Definition exit {S A} (status : Z) : St S A := fatal (HExit status).

Notation M := (St World).
Definition emit (a : action) : M unit := modify (fun w => w <| trace ::= cons a |>).
(** One external call: its answer is the one for the current tick. *)
Definition ask {A} (f : nat -> A) : M A :=
  fun w => (Ret (f (tick w)), w <| tick ::= S |>).
(** [None] of the buffer operations is undefined behaviour. *)
Definition ub {S A} (o : option A) : St S A :=
  match o with Some a => mret a | None => fatal HUndef end.

Definition set_cs (f : client_state_t -> client_state_t) : M unit :=
  modify (fun w => w <| cs ::= f |>).
Definition set_garp (f : arp_data -> arp_data) : M unit :=
  modify (fun w => w <| garp ::= f |>).

(** [fn_update f k v]: the array [f] with [f[k] = v]. *)
Definition fn_update {K V} `{EqDecision K} (f : K -> V) (k : K) (v : V) : K -> V :=
  fun k' => if decide (k = k') then v else f k'.

Lemma fn_update_eq {K V} `{EqDecision K} (f : K -> V) k v : fn_update f k v k = v.
Proof. unfold fn_update. by rewrite decide_True. Qed.
Lemma fn_update_ne {K V} `{EqDecision K} (f : K -> V) k v k' :
  k <> k' -> fn_update f k v k' = f k'.
Proof. intros. unfold fn_update. by rewrite decide_False. Qed.

(** Running a computation step by step, as equations. *)
Section Steps.
Context {S A B C : Type}.
Implicit Types (f : A -> St S B) (w : S).
Lemma run_ret (a : A) f w : (mret a ≫= f) w = f a w.
Proof. reflexivity. Qed.
Lemma run_bind (m : St S C) (g : C -> St S A) f w : ((m ≫= g) ≫= f) w = (m ≫= fun c => g c ≫= f) w.
Proof. unfold mbind, M_bind. by destruct (m w) as [[c|h] w']. Qed.
Lemma run_ub (a : A) f w : (ub (Some a) ≫= f) w = f a w.
Proof. reflexivity. Qed.
Lemma run_gets (g : S -> A) f w : (gets g ≫= f) w = f (g w) w.
Proof. reflexivity. Qed.
Lemma run_modify g (f : unit -> St S B) w : (modify g ≫= f) w = f tt (g w).
Proof. reflexivity. Qed.
Lemma run_cong (m m' : St S A) f f' w :
  m w = m' w -> (forall a w', f a w' = f' a w') -> (m ≫= f) w = (m' ≫= f') w.
Proof. unfold mbind, M_bind. intros -> Hf. by destruct (m' w) as [[a|h] w']. Qed.
(** The same when only the states [m] reaches matter. *)
Lemma run_after (m : St S A) f f' w :
  (forall a w', m w = (Ret a, w') -> f a w' = f' a w') -> (m ≫= f) w = (m ≫= f') w.
Proof. unfold mbind, M_bind. intros Hf. destruct (m w) as [[a|h] w']; [by apply Hf|done]. Qed.
Lemma run_val (m : St S A) f w a w' : m w = (Ret a, w') -> (m ≫= f) w = f a w'.
Proof. unfold mbind, M_bind. by intros ->. Qed.
End Steps.
(** Executes the primitive operations at the head of both sides' left. *)
Ltac st_run :=
  repeat (cbv beta; first
    [ rewrite run_ret | rewrite run_ub | rewrite run_gets | rewrite run_modify | rewrite run_bind ]);
  cbv beta.

(** * Weakest preconditions *)

Definition wp {S A} (m : St S A) (Q : A -> S -> Prop) (H : halt -> S -> Prop)
    (w : S) : Prop :=
  match m w with
  | (Ret a, w') => Q a w'
  | (Halt h, w') => H h w'
  end.

Section WP.
Context {S A B : Type}.
Implicit Types (Q : A -> S -> Prop) (H : halt -> S -> Prop) (w : S).

Lemma wp_ret (a : A) Q H w : wp (mret a) Q H w = Q a w.
Proof. reflexivity. Qed.
Lemma wp_bind (m : St S B) (f : B -> St S A) Q H w :
  wp (m ≫= f) Q H w = wp m (fun b w' => wp (f b) Q H w') H w.
Proof. unfold wp, mbind, M_bind. by destruct (m w) as [[b|h] w']. Qed.
Lemma wp_gets (f : S -> A) Q H w : wp (gets f) Q H w = Q (f w) w.
Proof. reflexivity. Qed.
Lemma wp_fatal h Q H w : wp (fatal h) Q H w = H h w.
Proof. reflexivity. Qed.
Lemma wp_suicide s Q H w : wp (suicide s) Q H w = H (HSuicide s) w.
Proof. reflexivity. Qed.
Lemma wp_exit s Q H w : wp (exit s) Q H w = H (HExit s) w.
Proof. reflexivity. Qed.
Lemma wp_ub_some (a : A) Q H w : wp (ub (Some a)) Q H w = Q a w.
Proof. reflexivity. Qed.
Lemma wp_mono (m : St S A) Q Q' H H' w :
  wp m Q H w -> (forall a w', Q a w' -> Q' a w') -> (forall h w', H h w' -> H' h w') ->
  wp m Q' H' w.
Proof. unfold wp. destruct (m w) as [[a|h] w']; auto. Qed.
Lemma wp_eq (m m' : St S A) Q H w : m w = m' w -> wp m' Q H w -> wp m Q H w.
Proof. unfold wp. by intros ->. Qed.
Lemma wp_at (m m' : St S A) Q H w w1 : m w = m' w1 -> wp m' Q H w1 -> wp m Q H w.
Proof. unfold wp. by intros ->. Qed.
Lemma wp_and (m : St S A) Q Q' H H' w :
  wp m Q H w -> wp m Q' H' w ->
  wp m (fun a w' => Q a w' /\ Q' a w') (fun h w' => H h w' /\ H' h w') w.
Proof. unfold wp. destruct (m w) as [[a|h] w']; auto. Qed.
End WP.

Lemma wp_ask {A} (f : nat -> A) (Q : A -> World -> Prop) H w : wp (ask f) Q H w = Q (f (tick w)) (w <| tick ::= S |>).
Proof. reflexivity. Qed.
Lemma wp_modify {S} f (Q : unit -> S -> Prop) H w : wp (modify f) Q H w = Q tt (f w).
Proof. reflexivity. Qed.
Lemma wp_set_cs f (Q : unit -> World -> Prop) H w : wp (set_cs f) Q H w = Q tt (w <| cs ::= f |>).
Proof. reflexivity. Qed.
Lemma wp_set_garp f (Q : unit -> World -> Prop) H w : wp (set_garp f) Q H w = Q tt (w <| garp ::= f |>).
Proof. reflexivity. Qed.
Lemma wp_emit a (Q : unit -> World -> Prop) H w : wp (emit a) Q H w = Q tt (w <| trace ::= cons a |>).
Proof. reflexivity. Qed.

(** [wp_run] executes the primitive operations at the head of a [wp] goal; it
    never unfolds a definition of the program. *)
Ltac wp_run :=
  repeat (cbv beta;
    match goal with
    | |- wp (_ ≫= _) _ _ _ => rewrite wp_bind
    | |- wp (mret _) _ _ _ => rewrite wp_ret
    | |- wp (gets _) _ _ _ => rewrite wp_gets
    | |- wp (modify _) _ _ _ => rewrite wp_modify
    | |- wp (set_cs _) _ _ _ => rewrite wp_set_cs
    | |- wp (set_garp _) _ _ _ => rewrite wp_set_garp
    | |- wp (emit _) _ _ _ => rewrite wp_emit
    | |- wp (ask _) _ _ _ => rewrite wp_ask
    | |- wp (ub (Some _)) _ _ _ => rewrite wp_ub_some
    | |- wp (suicide _) _ _ _ => rewrite wp_suicide
    | |- wp (exit _) _ _ _ => rewrite wp_exit
    | |- wp (fatal _) _ _ _ => rewrite wp_fatal
    end); cbv beta.

(** * Frames: relations every operation preserves

    [keeps R m]: whatever [m] does, returning or leaving, the world before and
    after are related by the preorder [R]. *)

Definition keeps {S A} (R : S -> S -> Prop) (m : St S A) : Prop :=
  forall w, R w (snd (m w)).

Section Keeps.
Context {S : Type} (R : S -> S -> Prop) `{!PreOrder R}.

Lemma keeps_ret {A} (a : A) : keeps R (mret a).
Proof. intros w. cbn. reflexivity. Qed.
Lemma keeps_bind {A B} (m : St S A) (f : A -> St S B) :
  keeps R m -> (forall a, keeps R (f a)) -> keeps R (m ≫= f).
Proof.
  intros Hm Hf w. unfold mbind, M_bind. specialize (Hm w).
  destruct (m w) as [[a|h] w']; [|done]. cbn in Hm. etrans; [exact Hm|apply Hf].
Qed.
Lemma keeps_gets {A} (f : S -> A) : keeps R (gets f).
Proof. intros w. cbn. reflexivity. Qed.
Lemma keeps_fatal {A} h : keeps R (@fatal S A h).
Proof. intros w. cbn. reflexivity. Qed.
Lemma keeps_ub {A} (o : option A) : keeps R (ub o).
Proof. intros w. destruct o; cbn; reflexivity. Qed.
Lemma keeps_modify f : (forall w, R w (f w)) -> keeps R (modify f).
Proof. intros Hf w. apply Hf. Qed.
Lemma keeps_wp {A} (m : St S A) Q H w :
  keeps R m -> wp m Q H w ->
  wp m (fun a w' => R w w' /\ Q a w') (fun h w' => R w w' /\ H h w') w.
Proof. unfold wp. intros Hm. specialize (Hm w). by destruct (m w) as [[a|h] w']. Qed.
End Keeps.

(** * Partial correctness

    [pwp m Q w]: if [m] returns from [w], its result satisfies [Q]. *)

Definition pwp {A} (m : M A) (Q : A -> World -> Prop) (w : World) : Prop :=
  wp m Q (fun _ _ => True) w.

Section Pwp.
Context {A B : Type}.
Implicit Types Q : A -> World -> Prop.
Lemma pwp_bind (m : M B) (f : B -> M A) Q w :
  pwp (m ≫= f) Q w = pwp m (fun b w' => pwp (f b) Q w') w.
Proof. apply wp_bind. Qed.
Lemma pwp_ret (a : A) Q w : pwp (mret a) Q w = Q a w.
Proof. reflexivity. Qed.
Lemma pwp_gets (f : World -> A) Q w : pwp (gets f) Q w = Q (f w) w.
Proof. reflexivity. Qed.
Lemma pwp_ask (f : nat -> A) Q w : pwp (ask f) Q w = Q (f (tick w)) (w <| tick ::= S |>).
Proof. reflexivity. Qed.
Lemma pwp_fatal h Q w : pwp (fatal h) Q w = True.
Proof. reflexivity. Qed.
Lemma pwp_suicide s Q w : pwp (suicide s) Q w = True.
Proof. reflexivity. Qed.
Lemma pwp_exit s Q w : pwp (exit s) Q w = True.
Proof. reflexivity. Qed.
Lemma pwp_mono (m : M A) Q Q' w :
  pwp m Q w -> (forall a w', Q a w' -> Q' a w') -> pwp m Q' w.
Proof. intros. by eapply wp_mono. Qed.
Lemma pwp_true (m : M A) w : pwp m (fun _ _ => True) w.
Proof. unfold pwp, wp. by destruct (m w) as [[a|h] w']. Qed.
Lemma pwp_ub (o : option A) Q w : (forall a, o = Some a -> Q a w) -> pwp (ub o) Q w.
Proof. intros H. destruct o; [by apply H|done]. Qed.
(** The result of a run that returned. *)
Lemma pwp_ran (m : M A) Q w a w' : pwp m Q w -> m w = (Ret a, w') -> Q a w'.
Proof. unfold pwp, wp. intros H E. by rewrite E in H. Qed.
Lemma ran_pwp (m : M A) Q w : (forall a w', m w = (Ret a, w') -> Q a w') -> pwp m Q w.
Proof. unfold pwp, wp. intros H. destruct (m w) as [[a|h] w'] eqn:E; [by apply H|done]. Qed.
End Pwp.
Lemma pwp_modify f (Q : unit -> World -> Prop) w : pwp (modify f) Q w = Q tt (f w).
Proof. reflexivity. Qed.
Lemma pwp_set_cs f (Q : unit -> World -> Prop) w : pwp (set_cs f) Q w = Q tt (w <| cs ::= f |>).
Proof. reflexivity. Qed.
Lemma pwp_set_garp f (Q : unit -> World -> Prop) w : pwp (set_garp f) Q w = Q tt (w <| garp ::= f |>).
Proof. reflexivity. Qed.
Lemma pwp_emit a (Q : unit -> World -> Prop) w : pwp (emit a) Q w = Q tt (w <| trace ::= cons a |>).
Proof. reflexivity. Qed.

(** Executes the primitive operations at the head of a goal; never unfolds a
    definition of the program. *)
Ltac pwp_run :=
  repeat (cbv beta;
    match goal with
    | |- pwp (_ ≫= _) _ _ => rewrite pwp_bind
    | |- pwp (mret _) _ _ => rewrite pwp_ret
    | |- pwp (gets _) _ _ => rewrite pwp_gets
    | |- pwp (modify _) _ _ => rewrite pwp_modify
    | |- pwp (set_cs _) _ _ => rewrite pwp_set_cs
    | |- pwp (set_garp _) _ _ => rewrite pwp_set_garp
    | |- pwp (emit _) _ _ => rewrite pwp_emit
    | |- pwp (ask _) _ _ => rewrite pwp_ask
    | |- pwp (suicide _) _ _ => exact I
    | |- pwp (exit _) _ _ => exact I
    | |- pwp (fatal _) _ _ => exact I
    end); cbv beta.

(** * Computations that only talk to the outside

    [io_only m]: [m] changes nothing of the process state; it performs actions
    and consumes external answers. *)

Definition io_rel (w w' : World) : Prop :=
  exists t tr, w' = w <| tick := t |> <| trace := tr ++ trace w |>.
#[export] Instance io_rel_preorder : PreOrder io_rel.
Proof.
  split.
  - intros w. exists (tick w), []. by destruct w.
  - intros w1 w2 w3 (t & tr & ->) (t' & tr' & ->). exists t', (tr' ++ tr).
    rsimpl. by rewrite <- app_assoc.
Qed.
Definition io_only {A} (m : M A) : Prop := keeps io_rel m.

Section Io.
Context {A B : Type}.
Lemma io_ret (a : A) : io_only (mret a).
Proof. apply keeps_ret, _. Qed.
Lemma io_bind (m : M B) (f : B -> M A) :
  io_only m -> (forall b, io_only (f b)) -> io_only (m ≫= f).
Proof. apply keeps_bind, _. Qed.
Lemma io_gets (f : World -> A) : io_only (gets f).
Proof. apply keeps_gets, _. Qed.
Lemma io_fatal h : io_only (@fatal World A h).
Proof. apply keeps_fatal, _. Qed.
Lemma io_suicide s : io_only (@suicide World A s).
Proof. apply io_fatal. Qed.
Lemma io_exit s : io_only (@exit World A s).
Proof. apply io_fatal. Qed.
Lemma io_ub (o : option A) : io_only (ub o).
Proof. apply keeps_ub, _. Qed.
Lemma io_ask (f : nat -> A) : io_only (ask f).
Proof. intros w. exists (S (tick w)), []. by destruct w. Qed.
Lemma io_pwp (m : M A) Q w :
  io_only m ->
  (forall a t tr, Q a (w <| tick := t |> <| trace := tr ++ trace w |>)) -> pwp m Q w.
Proof.
  intros Hm HQ. apply ran_pwp. intros a w' E. specialize (Hm w). rewrite E in Hm.
  cbn in Hm. destruct Hm as (t & tr & ->). apply HQ.
Qed.
End Io.
Lemma io_emit a : io_only (emit a).
Proof. intros w. exists (tick w), [a]. by destruct w. Qed.

Create HintDb io discriminated.
#[export] Hint Constants Opaque : io.
#[export] Hint Resolve io_ret io_gets io_fatal io_suicide io_exit io_ub io_ask io_emit : io.
(** Decomposes a computation; the hints of [io] end it. *)
Ltac io_tac :=
  repeat (cbv zeta;
    match goal with
    | |- io_only (_ ≫= _) => apply io_bind; [|intros ?]
    | |- forall _, _ => intros ?
    | |- io_only (if ?b then _ else _) => destruct b
    | |- io_only (match ?x with _ => _ end) => destruct x
    | |- io_only _ => solve [auto with io]
    end).

(** * Framing

    [frames proj m]: [m] leaves the part [proj] of the state as it is. *)

Definition frames {A T} (proj : World -> T) (m : M A) : Prop :=
  keeps (fun w w' => proj w' = proj w) m.
#[export] Instance proj_preorder {T} (proj : World -> T) :
  PreOrder (fun w w' => proj w' = proj w).
Proof. split; [by intros ?|]. intros ? ? ? E1 E2. by rewrite E2. Qed.

Section Frames.
Context {T : Type} (proj : World -> T).
Lemma frames_ret {A} (a : A) : frames proj (mret a).
Proof. apply keeps_ret, _. Qed.
Lemma frames_bind {A B} (m : M B) (f : B -> M A) :
  frames proj m -> (forall b, frames proj (f b)) -> frames proj (m ≫= f).
Proof. apply keeps_bind, _. Qed.
Lemma frames_gets {A} (f : World -> A) : frames proj (gets f).
Proof. apply keeps_gets, _. Qed.
Lemma frames_fatal {A} h : frames proj (@fatal World A h).
Proof. apply keeps_fatal, _. Qed.
Lemma frames_suicide {A} s : frames proj (@suicide World A s).
Proof. apply frames_fatal. Qed.
Lemma frames_exit {A} s : frames proj (@exit World A s).
Proof. apply frames_fatal. Qed.
Lemma frames_ub {A} (o : option A) : frames proj (ub o).
Proof. apply keeps_ub, _. Qed.
Lemma frames_modify f : (forall w, proj (f w) = proj w) -> frames proj (modify f).
Proof. intros Hf w. apply Hf. Qed.
Lemma frames_set_cs f : (forall w, proj (w <| cs ::= f |>) = proj w) -> frames proj (set_cs f).
Proof. apply frames_modify. Qed.
Lemma frames_set_garp f : (forall w, proj (w <| garp ::= f |>) = proj w) -> frames proj (set_garp f).
Proof. apply frames_modify. Qed.
Lemma frames_io {A} (m : M A) :
  (forall w t tr, proj (w <| tick := t |> <| trace := tr |>) = proj w) -> io_only m -> frames proj m.
Proof. intros Hp Hm w. destruct (Hm w) as (t & tr & ->). apply Hp. Qed.
Lemma frames_pwp {A} (m : M A) Q w :
  frames proj m -> pwp m Q w -> pwp m (fun a w' => proj w' = proj w /\ Q a w') w.
Proof.
  intros Hf HQ. eapply wp_mono; [by apply (keeps_wp _ m Q _ w Hf HQ)| |done]. naive_solver.
Qed.
Lemma frames_pwp_0 {A} (m : M A) w : frames proj m -> pwp m (fun _ w' => proj w' = proj w) w.
Proof. intros Hf. eapply pwp_mono; [by apply frames_pwp, pwp_true|]. by intros ? ? []. Qed.
End Frames.
Lemma frames_compose {A T U} (proj : World -> T) (g : T -> U) (m : M A) :
  frames proj m -> frames (fun w => g (proj w)) m.
Proof. intros Hm w. by rewrite (Hm w). Qed.

Create HintDb frames discriminated.
#[export] Hint Constants Opaque : frames.
(** Decomposes a computation; the hints of [frames] and [io] end it. *)
Ltac frames_tac :=
  repeat (cbv zeta;
    match goal with
    | |- frames _ (_ ≫= _) => apply frames_bind; [|intros ?]
    | |- forall _, _ => intros ?
    | |- frames _ (if ?b then _ else _) => destruct b
    | |- frames _ (match ?x with _ => _ end) => destruct x
    | |- frames _ (gets _) => apply frames_gets
    | |- frames _ (mret _) => apply frames_ret
    | |- frames _ (ub _) => apply frames_ub
    | |- frames _ (suicide _) => apply frames_suicide
    | |- frames _ (exit _) => apply frames_exit
    | |- frames _ (fatal _) => apply frames_fatal
    | |- frames _ (set_cs _) => apply frames_set_cs; reflexivity
    | |- frames _ (set_garp _) => apply frames_set_garp; reflexivity
    | |- frames _ (modify _) => apply frames_modify; reflexivity
    | |- frames _ _ => solve [auto with frames]
    | |- frames _ _ => apply frames_io; [reflexivity|solve [auto with io]]
    end).

(** * Safety

    [safe I m Q]: from a state where the invariant [I] holds, [m] neither runs
    into undefined behaviour nor reaches one of the code's "bad state" checks;
    when it returns, [I] holds again and [Q] of the result.  A loop the outside
    world ends is allowed to exhaust its fuel only when [f] says so. *)

Definition halt_ok (may_spin : World -> bool) (h : halt) (w : World) : Prop :=
  match h with
  | HUndef => False
  | HFuel => may_spin w = true
  | HSuicide s => s <> "bad state"%string
  | HExit _ => True
  end.

Definition safe {A} (I : World -> Prop) (m : M A) (Q : A -> Prop) : Prop :=
  forall w, I w ->
  wp m (fun a w' => I w' /\ Q a) (halt_ok (fun w => quit_after_lease (client_config w))) w.

Section Safe.
Context (I : World -> Prop).
Lemma safe_ret {A} (a : A) (Q : A -> Prop) : Q a -> safe I (mret a) Q.
Proof. intros HQ w Hw. done. Qed.
Lemma safe_bind {A B} (m : M A) (f : A -> M B) R Q :
  safe I m R -> (forall a, R a -> safe I (f a) Q) -> safe I (m ≫= f) Q.
Proof.
  intros Hm Hf w Hw. rewrite wp_bind. eapply wp_mono; [by apply Hm| |done].
  intros a w' [Hw' Ha]. by apply Hf.
Qed.
Lemma safe_mono {A} (m : M A) (Q Q' : A -> Prop) :
  safe I m Q -> (forall a, Q a -> Q' a) -> safe I m Q'.
Proof. intros Hm HQ w Hw. eapply wp_mono; [by apply Hm| |done]. naive_solver. Qed.
Lemma safe_gets {A} (f : World -> A) : safe I (gets f) (fun a => exists w, I w /\ a = f w).
Proof. intros w Hw. rewrite wp_gets. eauto. Qed.
Lemma safe_ask {A} (f : nat -> A) :
  (forall w n, I w -> I (w <| tick := n |>)) -> safe I (ask f) (fun _ => True).
Proof. intros HI w Hw. rewrite wp_ask. split; [by apply (HI w)|done]. Qed.
Lemma safe_modify f : (forall w, I w -> I (f w)) -> safe I (modify f) (fun _ => True).
Proof. intros HI w Hw. rewrite wp_modify. auto. Qed.
Lemma safe_suicide {A} s (Q : A -> Prop) : s <> "bad state"%string -> safe I (suicide s) Q.
Proof. intros Hs w Hw. by rewrite wp_suicide. Qed.
Lemma safe_exit {A} s (Q : A -> Prop) : safe I (exit s) Q.
Proof. intros w Hw. by rewrite wp_exit. Qed.
Lemma safe_ub {A} (o : option A) (Q : A -> Prop) :
  (exists a, o = Some a /\ Q a) -> safe I (ub o) Q.
Proof. intros (a & -> & HQ) w Hw. by rewrite wp_ub_some. Qed.
End Safe.

(** * The invariant of the process state *)

(** The configuration holds arrays of the declared sizes, strings that end in a
    NUL and a client id that fits its array. *)
Record config_ok (cc : client_config_t) : Prop := {
  ok_interface : zlen (interface cc) = 16;
  ok_interface_nul : is_Some (strlen (interface cc));
  ok_arp : zlen (arp cc) = 6;
  ok_arp_bytes : bytes_ok (arp cc) = true;
  ok_clientid : zlen (clientid cc) = 64;
  ok_clientid_bytes : bytes_ok (clientid cc) = true;
  ok_clientid_len : 0 <= clientid_len cc <= 64;
  ok_vendor : zlen (vendor cc) = 64;
  ok_vendor_bytes : bytes_ok (vendor cc) = true;
  ok_vendor_nul : is_Some (strlen (vendor cc));
  ok_hostname : zlen (hostname cc) = 64;
  ok_hostname_bytes : bytes_ok (hostname cc) = true;
  ok_hostname_nul : is_Some (strlen (hostname cc))
}.

Record world_ok (w : World) : Prop := {
  ok_config : config_ok (client_config w);
  ok_dhcp_packet : opt_bufs_ok (dhcp_packet (garp w));
  ok_cfg_packet : opt_bufs_ok (cfg_packet w)
}.

Lemma strlen_bound s n : strlen s = Some n -> 0 <= n < zlen s.
Proof.
  revert n. induction s as [|c s IH]; [done|]. intros n. cbn [strlen].
  zcase; [intros [= <-]; zlen_lia|].
  destruct (strlen s) as [m|]; [|done]. cbn. intros [= <-].
  specialize (IH m eq_refl). zlen_lia.
Qed.

(** Strings in arrays. *)
Lemma strlen_string s rest : 0 ∉ s -> strlen (s ++ 0 :: rest) = Some (zlen s).
Proof.
  induction s as [|c s IH]; [done|]. rewrite not_elem_of_cons. intros [Hc Hs]. cbn [app strlen].
  zcase; [done|]. rewrite IH by done. cbn. f_equal. zlen_lia.
Qed.
Lemma cstr_string s rest : 0 ∉ s -> cstr (s ++ 0 :: rest) = Some s.
Proof. intros H. unfold cstr. rewrite strlen_string by done. by apply (rd_range_at [] s). Qed.
Lemma strlen_first_nul a n : strlen a = Some n -> 0 <= n < zlen a /\ a !! Z.to_nat n = Some 0 /\ 0 ∉ take (Z.to_nat n) a.
Proof.
  revert n. induction a as [|c a IH]; intros n; [done|]. cbn [strlen]. zcase.
  - intros [= <-]. split; [unfold zlen; cbn [length]; lia|].
    subst c. split; [done|apply not_elem_of_nil].
  - destruct (strlen a) as [m|] eqn:E; [|done]. cbn. intros [= <-].
    destruct (IH m eq_refl) as (Hm & Hl & Hn). split; [unfold zlen in *; cbn; lia|].
    replace (Z.to_nat (1 + m)) with (S (Z.to_nat m)) by lia. split; [done|]. cbn [take].
    rewrite not_elem_of_cons. done.
Qed.
(** An array that holds a string. *)
Lemma cstr_inv a s : cstr a = Some s -> exists rest, a = s ++ 0 :: rest /\ 0 ∉ s.
Proof.
  unfold cstr. destruct (strlen a) as [n|] eqn:E; [|done]. cbn [mbind option_bind].
  apply strlen_first_nul in E as (Hn & Hl & H0). unfold rd_range.
  replace (_ && _) with true by (unfold zlen in *; lia). intros [= <-]. rewrite drop_0 in *.
  exists (drop (S (Z.to_nat n)) a). split; [|done]. by rewrite take_drop_middle.
Qed.

(** The invariant depends on three parts of the state only. *)
Lemma world_ok_same w w' :
  client_config w' = client_config w -> dhcp_packet (garp w') = dhcp_packet (garp w) ->
  cfg_packet w' = cfg_packet w -> world_ok w -> world_ok w'.
Proof. intros E1 E2 E3 [H1 H2 H3]. constructor; by rewrite ?E1, ?E2, ?E3. Qed.

Lemma safe_wok_modify f :
  (forall w, client_config (f w) = client_config w) ->
  (forall w, dhcp_packet (garp (f w)) = dhcp_packet (garp w)) ->
  (forall w, cfg_packet (f w) = cfg_packet w) ->
  safe world_ok (modify f) (fun _ => True).
Proof. intros. apply safe_modify. intros w. by apply world_ok_same. Qed.
Lemma safe_set_cs f : safe world_ok (set_cs f) (fun _ => True).
Proof. by apply safe_wok_modify. Qed.
Lemma safe_set_garp f :
  (forall g, dhcp_packet (f g) = dhcp_packet g) -> safe world_ok (set_garp f) (fun _ => True).
Proof. intros Hf. apply safe_wok_modify; try done. intros w. apply Hf. Qed.
Lemma safe_emit a : safe world_ok (emit a) (fun _ => True).
Proof. by apply safe_wok_modify. Qed.
Lemma safe_wok_ask {A} (f : nat -> A) : safe world_ok (ask f) (fun _ => True).
Proof. apply safe_ask. intros w n. by apply world_ok_same. Qed.
Lemma safe_true {A} (m : M A) Q : safe world_ok m Q -> safe world_ok m (fun _ => True).
Proof. intros H. by eapply safe_mono. Qed.
Lemma safe_wok_suicide {A} s (Q : A -> Prop) :
  String.eqb s "bad state" = false -> safe world_ok (suicide s) Q.
Proof. intros Hs. apply safe_suicide. by apply String.eqb_neq. Qed.

Create HintDb safe discriminated.
#[export] Hint Constants Opaque : safe.
#[export] Hint Resolve safe_set_cs safe_emit safe_wok_ask safe_exit : safe.
#[export] Hint Extern 1 (safe world_ok (set_garp _) _) => apply safe_set_garp; reflexivity : safe.
#[export] Hint Extern 1 (safe world_ok (modify _) _) =>
  apply safe_wok_modify; intros; reflexivity : safe.
#[export] Hint Extern 1 (safe world_ok (suicide _) _) =>
  apply safe_wok_suicide; reflexivity : safe.

(** One step of a safety proof; a computation with a known specification is
    looked up in [safe]. *)
Ltac safe_step :=
  cbv zeta;
  match goal with
  | |- safe _ (gets _ ≫= _) _ =>
      let w := fresh "w" in let Hw := fresh "Hw" in
      eapply safe_bind; [apply safe_gets | intros ? (w & Hw & ->)]
  | |- safe _ ((if ?b then _ else _) ≫= _) _ =>
      eapply (safe_bind _ _ _ (fun _ => True)); [|intros ? _]
  | |- safe _ ((match ?x with _ => _ end) ≫= _) _ =>
      eapply (safe_bind _ _ _ (fun _ => True)); [|intros ? _]
  | |- safe _ ((_ ≫= _) ≫= _) _ =>
      eapply (safe_bind _ _ _ (fun _ => True)); [|intros ? _]
  | |- safe _ (_ ≫= _) _ => eapply safe_bind; [solve [eauto with safe] | intros ? ?]
  | |- safe _ (if ?b then _ else _) _ => let E := fresh "E" in destruct b eqn:E
  | |- safe _ (match ?x with _ => _ end) _ => let E := fresh "E" in destruct x eqn:E
  | |- safe _ (mret _) _ => apply safe_ret
  | |- safe _ _ _ => solve [eauto with safe]
  | |- safe _ _ (fun _ => True) => eapply safe_true; solve [eauto with safe]
  | |- safe _ _ _ => eapply safe_mono; [solve [eauto with safe] |]
  end.
Ltac safe_tac := repeat safe_step; try done.
