(* ===== verification/Samples.v ===== *)
(** A concrete environment, configuration and state, for running the model. *)

From S2P Require Import Prelude Types Options World.

(** Every request succeeds: ndhc-sockd answers [repc] with descriptor 9 (the
    answer may depend on the number of external calls so far), ndhc-ifch answers
    '+', sockets accept what is sent; nothing is received. *)
Definition sample_env_by (repc : nat -> Z) (sent : Z) : Env := {|
  env_clock := fun n => Some (1000 + Z.of_nat n, 0);
  env_random := fun n => 123456789 + Z.of_nat n;
  env_sockd := fun n => SockdFd (repc n) 9;
  env_ifch := fun _ => IfchData [ch "+"%char];
  env_send := fun _ => sent;
  env_connect := fun _ => true;
  env_read := fun _ => ReadAgain;
  env_epoll_ctl := fun _ => true;
  env_ftruncate := fun _ => true;
  env_daemon := fun _ => true;
  env_nl := fun _ => NlAgain;
  env_epoll_wait := fun _ => EpTimeout;
  env_open := fun _ => 5;
  env_fuel := 100;
  net_checksum161c := fun _ => 0;
  net_checksum161c_add := fun _ _ => 0
|}.
Definition sample_env (repc sent : Z) : Env := sample_env_by (fun _ => repc) sent.

Definition sample_config : client_config_t := {|
  interface := chars "eth0" ++ zeros 12;
  clientid := [1; 2; 17; 34; 51; 68; 85] ++ zeros 57;
  hostname := chars "host" ++ zeros 60;
  vendor := zeros 64;
  arp := [2; 17; 34; 51; 68; 85];
  rfkillIdx := 0; metric := 0; ifindex := 2; clientid_len := 7;
  quit_after_lease := false; abort_if_no_lease := false; background_if_no_lease := false;
  enable_rfkill := false
|}.

(** [ndhc.c: cs] as it is initialised, with the netlink socket open. *)
Definition initial_cs : client_state_t := {|
  leaseStartTime := 0; renewTime := 0; rebindTime := 0; dhcp_wake_ts := -1; ifDeconfig := 0;
  epollFd := -1; signalFd := -1; listenFd := -1; arpFd := -1; nlFd := 3; rfkillFd := -1;
  nlPortId := 0; num_dhcp_requests := 0; clientAddr := 0; serverAddr := 0; srcAddr := 0;
  routerAddr := 0; lease := 0; cs_xid := 0; routerArp := zeros 6; serverArp := zeros 6;
  using_dhcp_bpf := false; got_router_arp := false; got_server_arp := false;
  arp_is_defense := false; check_fingerprint := false; program_init := true;
  sent_gw_query := false; sent_first_announce := false; sent_second_announce := false;
  init_fingerprint_inprogress := false
|}.

(** [arp.c: garp] as it is initialised. *)
Definition initial_garp : arp_data := {|
  dhcp_packet := dhcpmsg_zero; reply := arpMsg_zero;
  send_stats := fun _ => {| ts := 0; count := 0 |}; wake_ts := fun _ => -1;
  last_conflict_ts := 0; arp_check_start_ts := 0; total_conflicts := 0;
  gw_check_initpings := 0; probe_wait_time := 0; using_bpf := false; relentless_def := false;
  router_replied := false; server_replied := false
|}.

(** The state of the process when [ndhc_main] starts, with the default probe
    parameters of [arp.c]. *)
Definition sample_world : World := {|
  cs := initial_cs; client_config := sample_config; garp := initial_garp;
  arp_probe_wait := 1000; arp_probe_num := 3; arp_probe_min := 1000; arp_probe_max := 2000;
  cfg_packet := dhcpmsg_zero; leasefilefd := -1; ifchStream0 := 7; sockdStream0 := 8;
  write_pid_enabled := false; background_called := false; rfkill_set := false;
  rfkill_nl_carrier_wentup := false; scrLine := SCR_START; tick := 0; trace := []
|}.

Lemma sample_config_ok : config_ok sample_config.
Proof. constructor; try (vm_compute; reflexivity); try (vm_compute; split; congruence); by eexists. Qed.

Lemma sample_world_ok : world_ok sample_world.
Proof. constructor; [apply sample_config_ok|by apply dhcpmsg_ok_bufs..]. Qed.

(** A message from 192.168.0.1 that offers or grants 192.168.0.9. *)
Definition sample_message (type : Z) (opts : list Z) : dhcpmsg :=
  let o := [53; 1; type; 54; 4; 192; 168; 0; 1] ++ opts ++ [255] in
  dhcpmsg_zero <| op := 2 |> <| htype := 1 |> <| hlen := 6 |>
    <| yiaddr := of_le [192; 168; 0; 9] |>
    <| chaddr := arp sample_config ++ zeros 10 |>
    <| cookie := htonl DHCP_MAGIC |>
    <| options := o ++ zeros (308 - length o) |>.
