(* ===== verification/Ipc.v ===== *)
(** The master process's system interface: the clock and epoll wrappers of
    [sys.c], the client side of the ndhc-sockd protocol ([request_sockd_fd] of
    [sockd.c]) and of the ndhc-ifch protocol ([ifchwrite], [carrier_isup] of
    [ifchange.c]). *)

From S2P Require Import Prelude Types World.

Section Ipc.
Context `{!Env}.

(** [curms()]: the monotonic clock in milliseconds. *)
Definition curms : M Z :=
  t ← ask env_clock;
  match t with
  | None => suicide "clock_gettime failed"
  | Some (sec, nsec) => mret (sec * 1000 + nsec / 1000000)
  end.

(** [nk_random_u32(&cs->rnd_state)]: ncmlib's generator returns a uint32_t. *)
Definition nk_random_u32 : M Z := r ← ask env_random; mret (u32 r).

Definition epoll_add (fd : Z) : M unit :=
  emit (AEpollAdd fd);;
  ok ← ask env_epoll_ctl;
  if ok : bool then mret tt else suicide "epoll_add failed".

Definition epoll_del (fd : Z) : M unit :=
  emit (AEpollDel fd);;
  ok ← ask env_epoll_ctl;
  if ok : bool then mret tt else suicide "epoll_del failed".

Definition close (fd : Z) : M unit := emit (AClose fd).

(** Returns the descriptor and the reply character; [response] says whether
    the caller passes a pointer for the latter.  (With an empty request C
    leaves [*response] unset; no caller sends one.) *)
Definition request_sockd_fd (buf : list Z) (response : bool) : M (Z * Z) :=
  match buf with
  | [] => mret (-1, 0)
  | b0 :: _ =>
    emit (ASockd buf);;
    r ← ask env_sockd;
    match r with
    | SockdWriteFails _ => suicide "request_sockd_fd: write failed"
    | SockdEof => suicide "request_sockd_fd: recvmsg received EOF"
    | SockdRecvFails => suicide "request_sockd_fd: recvmsg failed"
    | SockdNoFd => suicide "request_sockd_fd: sockd reply did not include a fd"
    | SockdFd repc fd =>
      if negb response && negb (repc =? b0)
      then suicide "request_sockd_fd: unexpected sockd reply"
      else mret (fd, repc)
    end
  end.

(** 0 when ndhc-ifch answers with the single character '+'. *)
Definition ifchwrite (buf : list Z) : M Z :=
  emit (AIfch buf);;
  r ← ask env_ifch;
  match r with
  | IfchWriteFails => mret (-1)
  | IfchEof => exit 0
  | IfchRecvFails => suicide "ifchwrite: recvmsg failed"
  | IfchData data => mret (if bytes_eqb data [ch "+"%char] then 0 else -1)
  end.

Definition carrier_isup : M bool :=
  r ← ifchwrite (chars "carrier:;");
  mret (r =? 0).

End Ipc.

(** * What these operations preserve *)

Section IpcLemmas.
Context `{!Env}.

Lemma curms_io : io_only curms.
Proof. unfold curms. io_tac. Qed.
Lemma nk_random_u32_io : io_only nk_random_u32.
Proof. unfold nk_random_u32. io_tac. Qed.
Lemma epoll_add_io fd : io_only (epoll_add fd).
Proof. unfold epoll_add. io_tac. Qed.
Lemma epoll_del_io fd : io_only (epoll_del fd).
Proof. unfold epoll_del. io_tac. Qed.
Lemma close_io fd : io_only (close fd).
Proof. apply io_emit. Qed.
Lemma request_sockd_fd_io buf resp : io_only (request_sockd_fd buf resp).
Proof. unfold request_sockd_fd. io_tac. Qed.
Lemma ifchwrite_io buf : io_only (ifchwrite buf).
Proof. unfold ifchwrite. io_tac. Qed.
#[local] Hint Resolve ifchwrite_io : io.
Lemma carrier_isup_io : io_only carrier_isup.
Proof. unfold carrier_isup. io_tac. Qed.

Lemma curms_safe : safe world_ok curms (fun _ => True).
Proof. unfold curms. safe_tac. Qed.
Lemma nk_random_u32_safe : safe world_ok nk_random_u32 (fun r => 0 <= r < 2 ^ 32).
Proof. unfold nk_random_u32. safe_tac. apply u32_range. Qed.
Lemma epoll_add_safe fd : safe world_ok (epoll_add fd) (fun _ => True).
Proof. unfold epoll_add. safe_tac. Qed.
Lemma epoll_del_safe fd : safe world_ok (epoll_del fd) (fun _ => True).
Proof. unfold epoll_del. safe_tac. Qed.
Lemma close_safe fd : safe world_ok (close fd) (fun _ => True).
Proof. apply safe_emit. Qed.
Lemma request_sockd_fd_safe buf resp : safe world_ok (request_sockd_fd buf resp) (fun _ => True).
Proof. unfold request_sockd_fd. safe_tac. Qed.
Lemma ifchwrite_safe buf : safe world_ok (ifchwrite buf) (fun r => r = 0 \/ r = -1).
Proof. unfold ifchwrite. safe_tac; auto. zcases; auto. destruct (bytes_eqb _ _); auto. Qed.
#[local] Hint Resolve ifchwrite_safe : safe.
Lemma carrier_isup_safe : safe world_ok carrier_isup (fun _ => True).
Proof. unfold carrier_isup. safe_tac. Qed.
End IpcLemmas.
#[export] Hint Resolve curms_io nk_random_u32_io epoll_add_io epoll_del_io close_io
  request_sockd_fd_io ifchwrite_io carrier_isup_io : io.
#[export] Hint Resolve curms_safe nk_random_u32_safe epoll_add_safe epoll_del_safe close_safe
  request_sockd_fd_safe ifchwrite_safe carrier_isup_safe : safe.
