(* ===== verification/Ifchange.v ===== *)
(** Interface reconfiguration requests of [ifchange.c].

    The text of a command is the list of its characters; a helper that returns
    -1 in C returns [None] here, and an access outside a buffer is the outer
    [None] of the helpers that index buffers. *)

From S2P Require Import Prelude Types Options World Samples Ipc.
Import Codec.

Definition INET_ADDRSTRLEN : Z := 16.

(** * Printing: what the code uses of [snprintf] and [inet_ntop] *)

Fixpoint dec_loop (fuel : nat) (n : Z) (acc : list Z) : list Z :=
  match fuel with
  | O => acc
  | S fuel =>
    let acc := (48 + n mod 10) :: acc in
    if n / 10 =? 0 then acc else dec_loop fuel (n / 10) acc
  end.
(** [%u] of a number below 10^20. *)
Definition dec (n : Z) : list Z := dec_loop 20 n [].
(** [%d] of a 32-bit pattern. *)
Definition sdec32 (v : Z) : list Z :=
  if v <? 2 ^ 31 then dec v else ch "-"%char :: dec (2 ^ 32 - v).

(** [inet_ntop(AF_INET, ...)] of four address bytes in memory order. *)
Definition inet_ntop (b : list Z) : option (list Z) :=
  b0 ← rd b 0; b1 ← rd b 1; b2 ← rd b 2; b3 ← rd b 3;
  Some (dec b0 ++ ch "."%char :: dec b1 ++ ch "."%char :: dec b2 ++ ch "."%char :: dec b3).

(** What [%.*s] prints of [n] available characters: up to the first NUL. *)
Fixpoint until_nul (s : list Z) : list Z :=
  match s with
  | [] => []
  | c :: s => if c =? 0 then [] else c :: until_nul s
  end.

(** * Building commands *)

(** ["%s:%.*s;"], refused when it might not fit in [buflen] bytes. *)
Definition ifcmd_raw (buflen : Z) (optname optdata : list Z) : option (list Z) :=
  let optlen := zlen optdata in
  if INT_MAX <? optlen then None
  else if buflen <? size_t (zlen optname + optlen + 3) then None
  else
    let out := optname ++ ch ":"%char :: until_nul optdata ++ [ch ";"%char] in
    if buflen <=? zlen out then None else Some out.

Definition ifcmd_bytes (buflen : Z) (optname optdata : list Z) : option (list Z) :=
  ifcmd_raw buflen optname optdata.

Definition ifcmd_u8 (buflen : Z) (optname optdata : list Z) : option (option (list Z)) :=
  if zlen optdata <? 1 then Some None
  else c ← rd optdata 0; Some (ifcmd_raw buflen optname (until_nul [c])).

Definition ifcmd_u16 (buflen : Z) (optname optdata : list Z) : option (option (list Z)) :=
  if zlen optdata <? 2 then Some None
  else
    v ← rd_range optdata 0 2;
    Some (ifcmd_raw buflen optname (dec (ntohs (of_le v)))).

Definition ifcmd_s32 (buflen : Z) (optname optdata : list Z) : option (option (list Z)) :=
  if zlen optdata <? 4 then Some None
  else
    v ← rd_range optdata 0 4;
    Some (ifcmd_raw buflen optname (sdec32 (ntohl (of_le v)))).

Definition ifcmd_ip (buflen : Z) (optname optdata : list Z) : option (option (list Z)) :=
  if zlen optdata <? 4 then Some None
  else ip ← inet_ntop optdata; Some (ifcmd_raw buflen optname ip).

(** The [while] loop of [ifcmd_iplist]: [acc] is the text in [buf], its length
    is [bufoff].  The code hands [snprintf] the size of the whole of [buf]
    (2048) at every offset, so a text that runs past the end of [buf] is
    undefined behaviour, not truncation. *)
Fixpoint iplist_loop (fuel : nat) (optdata : list Z) (optoff : Z) (acc : list Z)
  : option (list Z) :=
  match fuel with
  | O => None
  | S fuel =>
    if 4 + optoff <=? zlen optdata then
      a ← rd_range optdata optoff 4;
      ip ← inet_ntop a;
      let acc := acc ++ ch ","%char :: ip in
      if 2048 <=? zlen acc then None
      else iplist_loop fuel optdata (optoff + 4) acc
    else Some acc
  end.

Definition ifcmd_iplist (outlen : Z) (optname optdata : list Z) : option (option (list Z)) :=
  if zlen optdata <? 4 then Some None
  else
    ip ← inet_ntop optdata;
    buf ← iplist_loop (S (length optdata)) optdata 4 ip;
    Some (ifcmd_raw outlen optname buf).

Definition ifchd_cmd (bl : Z) (od : list Z) (code : Z) : option (option (list Z)) :=
  if code =? DCODE_ROUTER then ifcmd_ip bl (chars "routr") od
  else if code =? DCODE_DNS then ifcmd_iplist bl (chars "dns") od
  else if code =? DCODE_LPRSVR then ifcmd_iplist bl (chars "lpr") od
  else if code =? DCODE_NTPSVR then ifcmd_iplist bl (chars "ntp") od
  else if code =? DCODE_WINS then ifcmd_iplist bl (chars "wins") od
  else if code =? DCODE_HOSTNAME then Some (ifcmd_bytes bl (chars "host") od)
  else if code =? DCODE_DOMAIN then Some (ifcmd_bytes bl (chars "dom") od)
  else if code =? DCODE_TIMEZONE then ifcmd_s32 bl (chars "tzone") od
  else if code =? DCODE_MTU then ifcmd_u16 bl (chars "mtu") od
  else if code =? DCODE_IPTTL then ifcmd_u8 bl (chars "ipttl") od
  else Some None.

(** Is the option in [packet] and different from the one in [cfg]? *)
Definition option_changed (cfg packet : dhcpmsg) (code : Z) (optdata : list Z)
  : option bool :=
  olddata ← get_dhcp_opt cfg code MAX_DOPT_SIZE;
  Some (negb (zlen olddata =? zlen optdata) || negb (bytes_eqb optdata olddata)).

(** The text written to [out]; [cfg] is the static [cfg_packet]. *)
Definition send_client_ip (olen : Z) (cfg packet : dhcpmsg) : option (list Z) :=
  let change_ipaddr := negb (yiaddr packet =? yiaddr cfg) in
  ip ← inet_ntop (le32 (yiaddr packet));
  snopt ← get_dhcp_opt packet DCODE_SUBNET MAX_DOPT_SIZE;
  let have_subnet := 4 <=? zlen snopt in
  sn ← (if have_subnet then Some <$> inet_ntop snopt else Some None);
  change_subnet ← (if have_subnet then option_changed cfg packet DCODE_SUBNET snopt
                   else Some false);
  bcopt ← get_dhcp_opt packet DCODE_BROADCAST MAX_DOPT_SIZE;
  let have_bcast := 4 <=? zlen bcopt in
  bc ← (if have_bcast then Some <$> inet_ntop bcopt else Some None);
  change_bcast ← (if have_bcast then option_changed cfg packet DCODE_BROADCAST bcopt
                  else Some false);
  if negb change_ipaddr && negb change_subnet && negb change_bcast then Some []
  else
    let sn := default (chars "255.255.255.0") sn in
    let text := chars "ip4:" ++ ip ++ ch ","%char :: sn ++
                (match bc with Some bc => ch ","%char :: bc | None => [] end) ++ [ch ";"%char] in
    Some (if olen <=? zlen text then [] else text).

Definition send_cmd (olen : Z) (cfg packet : dhcpmsg) (code : Z) : option (list Z) :=
  optdata ← get_dhcp_opt packet code MAX_DOPT_SIZE;
  if zlen optdata =? 0 then Some []
  else
    olddata ← get_dhcp_opt cfg code MAX_DOPT_SIZE;
    if (zlen olddata =? zlen optdata) && bytes_eqb optdata olddata then Some []
    else
      r ← ifchd_cmd olen optdata code;
      Some (default [] r).

(** [bo += send_cmd(buf + bo, sizeof buf - bo, packet, code)] for each code. *)
Fixpoint send_cmds (cfg packet : dhcpmsg) (codes : list Z) (buf : list Z)
  : option (list Z) :=
  match codes with
  | [] => Some buf
  | code :: codes =>
    t ← send_cmd (size_t (2048 - zlen buf)) cfg packet code;
    send_cmds cfg packet codes (buf ++ t)
  end.

Definition bind_codes : list Z :=
  [DCODE_ROUTER; DCODE_DNS; DCODE_HOSTNAME; DCODE_DOMAIN; DCODE_MTU; DCODE_WINS].

(** The contents of [ifchange_bind]'s [buf]. *)
Definition bind_command (cfg packet : dhcpmsg) : option (list Z) :=
  t ← send_client_ip 2048 cfg packet;
  send_cmds cfg packet bind_codes t.

(** * The two requests *)

Section Ifchange.
Context `{!Env}.

Definition deconfig_command : list Z := chars "ip4:0.0.0.0,255.255.255.255;".

Definition ifchange_deconfig : M Z :=
  d ← gets (fun w => ifDeconfig (cs w));
  if negb (d =? 0) then mret 0
  else
    ret ← ifchwrite deconfig_command;
    (if 0 <=? ret then
       set_cs (fun c => c <| ifDeconfig := 1 |>);;
       modify (fun w => w <| cfg_packet := dhcpmsg_zero |>)
     else mret tt);;
    mret ret.

Definition ifchange_bind (packet : dhcpmsg) : M Z :=
  cfg ← gets cfg_packet;
  buf ← ub (bind_command cfg packet);
  ret ← (if zlen buf =? 0 then mret (-1) else ifchwrite buf);
  (if 0 <=? ret then
     set_cs (fun c => c <| ifDeconfig := 0 |>);;
     modify (fun w => w <| cfg_packet := packet |>)
   else mret tt);;
  mret ret.

End Ifchange.

(** * Lengths of the printed texts *)

Lemma dec_loop_len fuel k n acc :
  (0 < k)%nat -> 0 <= n < 10 ^ Z.of_nat k ->
  zlen (dec_loop fuel n acc) <= Z.of_nat k + zlen acc.
Proof.
  revert k n acc. induction fuel as [|fuel IH]; intros k n acc Hk Hn; cbn [dec_loop]; [zlen_lia|].
  destruct (Z.eqb_spec (n / 10) 0); [zlen_lia|].
  destruct k as [|[|k]]; [lia| |].
  - change (10 ^ Z.of_nat 1) with 10 in Hn. exfalso. apply n0. apply Z.div_small. lia.
  - etrans; [apply (IH (S k)); [lia|]|zlen_lia].
    rewrite Nat2Z.inj_succ, Z.pow_succ_r in Hn by lia.
    split; [apply Z.div_pos; lia|apply Z.div_lt_upper_bound; lia].
Qed.

Lemma dec_len k n : (0 < k)%nat -> 0 <= n < 10 ^ Z.of_nat k -> zlen (dec n) <= Z.of_nat k.
Proof.
  intros Hk Hn. unfold dec. pose proof (dec_loop_len 20 k n [] Hk Hn) as H.
  rewrite zlen_nil in H. lia.
Qed.

Lemma inet_ntop_total b :
  bytes_ok b = true -> 4 <= zlen b -> exists s, inet_ntop b = Some s /\ zlen s < INET_ADDRSTRLEN.
Proof.
  intros Hb Hl. unfold inet_ntop.
  assert (Hd : forall i, 0 <= i < 4 -> exists c, rd b i = Some c /\ zlen (dec c) <= 3).
  { intros i Hi. destruct (rd_Some b i) as (c & Hc & Hin); [lia|]. exists c. split; [done|].
    apply (dec_len 3); [lia|]. pose proof (bytes_ok_elem _ _ Hb Hin). lia. }
  destruct (Hd 0) as (c0 & -> & H0); [lia|]. destruct (Hd 1) as (c1 & -> & H1); [lia|].
  destruct (Hd 2) as (c2 & -> & H2); [lia|]. destruct (Hd 3) as (c3 & -> & H3); [lia|].
  cbn [mbind option_bind]. eexists; split; [done|]. unfold INET_ADDRSTRLEN. zlen_lia.
Qed.

Lemma inet_ntop_le32 v : exists s, inet_ntop (le32 v) = Some s /\ zlen s < INET_ADDRSTRLEN.
Proof. apply inet_ntop_total; [apply le32_ok|by rewrite le32_len]. Qed.

(** The list of addresses stays inside the 2048 bytes of [buf] because an
    option is at most 500 bytes long. *)
Lemma iplist_loop_total fuel od optoff acc :
  bytes_ok od = true -> 0 <= optoff -> 4 * zlen acc <= 60 + 16 * (optoff - 4) ->
  zlen od <= MAX_DOPT_SIZE -> zlen od - optoff < Z.of_nat fuel -> (0 < fuel)%nat ->
  exists t, iplist_loop fuel od optoff acc = Some t.
Proof.
  intros Hb. revert optoff acc. induction fuel as [|fuel IH]; intros o acc Ho Ha Hl Hf H0; [lia|].
  cbn [iplist_loop]. zcase; [|eauto].
  destruct (rd_range_Some od o 4) as (a & Hr & Hal); [lia..|]. rewrite Hr. cbn [mbind option_bind].
  destruct (inet_ntop_total a) as (ip & -> & Hip); [by eapply bytes_ok_rd_range|lia|].
  cbn [mbind option_bind]. unfold INET_ADDRSTRLEN, MAX_DOPT_SIZE in *.
  zcase; [zlen_lia|]. apply IH; zlen_lia.
Qed.

Lemma ifcmd_raw_fits bl name od t : ifcmd_raw bl name od = Some t -> zlen t < bl.
Proof. unfold ifcmd_raw. zcases. by intros [= <-]. Qed.

(** A helper does not leave its buffers, and what it prints fits. *)
Definition cmd_fits (bl : Z) (r : option (option (list Z))) : Prop :=
  exists o, r = Some o /\ forall t, o = Some t -> zlen t < bl.

Lemma cmd_fits_raw bl name od : cmd_fits bl (Some (ifcmd_raw bl name od)).
Proof. eexists; split; [done|]. apply ifcmd_raw_fits. Qed.
Lemma cmd_fits_none bl : cmd_fits bl (Some None).
Proof. by eexists. Qed.

Lemma ifcmd_ip_fits bl name od : bytes_ok od = true -> cmd_fits bl (ifcmd_ip bl name od).
Proof.
  intros Hb. unfold ifcmd_ip. zcase; [apply cmd_fits_none|].
  destruct (inet_ntop_total od) as (s & -> & _); [done..|]. apply cmd_fits_raw.
Qed.
Lemma ifcmd_iplist_fits bl name od :
  bytes_ok od = true -> zlen od <= MAX_DOPT_SIZE -> cmd_fits bl (ifcmd_iplist bl name od).
Proof.
  intros Hb Hl. unfold ifcmd_iplist. zcase; [apply cmd_fits_none|].
  destruct (inet_ntop_total od) as (s & -> & Hs); [done..|]. cbn [mbind option_bind].
  destruct (iplist_loop_total (S (length od)) od 4 s) as (t & ->);
    [done|lia|unfold INET_ADDRSTRLEN in Hs; lia|done|unfold zlen; lia|lia|].
  apply cmd_fits_raw.
Qed.
Lemma ifcmd_u8_fits bl name od : cmd_fits bl (ifcmd_u8 bl name od).
Proof.
  unfold ifcmd_u8. zcase; [apply cmd_fits_none|].
  destruct (rd_Some od 0) as (c & -> & _); [lia|]. apply cmd_fits_raw.
Qed.
Lemma ifcmd_u16_fits bl name od : cmd_fits bl (ifcmd_u16 bl name od).
Proof.
  unfold ifcmd_u16. zcase; [apply cmd_fits_none|].
  destruct (rd_range_Some od 0 2) as (c & -> & _); [lia..|]. apply cmd_fits_raw.
Qed.
Lemma ifcmd_s32_fits bl name od : cmd_fits bl (ifcmd_s32 bl name od).
Proof.
  unfold ifcmd_s32. zcase; [apply cmd_fits_none|].
  destruct (rd_range_Some od 0 4) as (c & -> & _); [lia..|]. apply cmd_fits_raw.
Qed.

Lemma ifchd_cmd_fits bl od code :
  bytes_ok od = true -> zlen od <= MAX_DOPT_SIZE -> cmd_fits bl (ifchd_cmd bl od code).
Proof.
  intros Hb Hl. unfold ifchd_cmd.
  repeat (zcase; [first [by apply ifcmd_ip_fits | by apply ifcmd_iplist_fits | apply cmd_fits_raw
    | apply ifcmd_s32_fits | apply ifcmd_u16_fits | apply ifcmd_u8_fits]|]).
  apply cmd_fits_none.
Qed.

Lemma get_opt_total p code :
  opt_bufs_ok p ->
  exists d, get_dhcp_opt p code MAX_DOPT_SIZE = Some d /\ zlen d <= MAX_DOPT_SIZE /\ bytes_ok d = true.
Proof. intros Hp. by apply get_dhcp_opt_total. Qed.

Lemma option_changed_total cfg p code d :
  opt_bufs_ok cfg -> exists b, option_changed cfg p code d = Some b.
Proof.
  intros Hc. unfold option_changed. destruct (get_opt_total cfg code Hc) as (? & -> & _). cbn. eauto.
Qed.

Lemma send_client_ip_fits olen cfg p :
  0 < olen -> opt_bufs_ok cfg -> opt_bufs_ok p ->
  exists t, send_client_ip olen cfg p = Some t /\ zlen t < olen.
Proof.
  intros Ho Hc Hp. unfold send_client_ip.
  destruct (inet_ntop_le32 (yiaddr p)) as (ip & -> & _). cbn [mbind option_bind].
  destruct (get_opt_total p DCODE_SUBNET Hp) as (sd & -> & _ & Hsb). cbn [mbind option_bind].
  assert (exists sn, (if 4 <=? zlen sd then Some <$> inet_ntop sd else Some None) = Some sn) as (sn & ->).
  { zcase; [|eauto]. destruct (inet_ntop_total sd) as (s & -> & _); [done..|]. cbn. eauto. }
  cbn [mbind option_bind].
  assert (exists b, (if 4 <=? zlen sd then option_changed cfg p DCODE_SUBNET sd else Some false) = Some b)
    as (b1 & ->).
  { zcase; [|eauto]. by apply option_changed_total. }
  cbn [mbind option_bind].
  destruct (get_opt_total p DCODE_BROADCAST Hp) as (bd & -> & _ & Hbb). cbn [mbind option_bind].
  assert (exists bc, (if 4 <=? zlen bd then Some <$> inet_ntop bd else Some None) = Some bc) as (bc & ->).
  { zcase; [|eauto]. destruct (inet_ntop_total bd) as (s & -> & _); [done..|]. cbn. eauto. }
  cbn [mbind option_bind].
  assert (exists b, (if 4 <=? zlen bd then option_changed cfg p DCODE_BROADCAST bd else Some false) = Some b)
    as (b2 & ->).
  { zcase; [|eauto]. by apply option_changed_total. }
  cbn [mbind option_bind].
  destruct (_ && _); [by exists []|]. eexists; split; [done|]. zcase; [done|lia].
Qed.

Lemma send_cmd_fits olen cfg p code :
  0 < olen -> opt_bufs_ok cfg -> opt_bufs_ok p ->
  exists t, send_cmd olen cfg p code = Some t /\ zlen t < olen.
Proof.
  intros Ho Hc Hp. unfold send_cmd.
  destruct (get_opt_total p code Hp) as (d & -> & Hdl & Hdb). cbn [mbind option_bind].
  zcase; [by exists []|]. destruct (get_opt_total cfg code Hc) as (old & -> & _).
  cbn [mbind option_bind]. destruct (_ && _); [by exists []|].
  destruct (ifchd_cmd_fits olen d code Hdb Hdl) as ([t|] & -> & Ht); cbn; eauto.
Qed.

Lemma send_cmds_fits cfg p codes buf :
  opt_bufs_ok cfg -> opt_bufs_ok p -> zlen buf < 2048 ->
  exists t, send_cmds cfg p codes buf = Some t /\ zlen t < 2048.
Proof.
  intros Hc Hp. revert buf. induction codes as [|code codes IH]; intros buf Hb; [eauto|].
  cbn [send_cmds]. rewrite size_t_id by zlen_lia.
  destruct (send_cmd_fits (2048 - zlen buf) cfg p code) as (t & -> & Ht); [lia|done..|].
  cbn [mbind option_bind]. apply IH. zlen_lia.
Qed.

Lemma bind_command_total cfg p :
  opt_bufs_ok cfg -> opt_bufs_ok p -> exists t, bind_command cfg p = Some t /\ zlen t < 2048.
Proof.
  intros Hc Hp. unfold bind_command.
  destruct (send_client_ip_fits 2048 cfg p) as (t & -> & Ht); [lia|done..|].
  by apply send_cmds_fits.
Qed.

(** Against itself a packet has nothing to change. *)
Lemma option_changed_same p code d :
  get_dhcp_opt p code MAX_DOPT_SIZE = Some d -> option_changed p p code d = Some false.
Proof.
  intros Hd. unfold option_changed. rewrite Hd. cbn [mbind option_bind].
  rewrite Z.eqb_refl. unfold bytes_eqb. by rewrite bool_decide_eq_true_2.
Qed.

Lemma send_cmds_same p codes : opt_bufs_ok p -> send_cmds p p codes [] = Some [].
Proof.
  intros Hp. induction codes as [|code codes IH]; [done|]. cbn [send_cmds].
  assert (Hs : forall olen, send_cmd olen p p code = Some []).
  { intros olen. unfold send_cmd. destruct (get_opt_total p code Hp) as (d & Hd & _). rewrite Hd.
    cbn [mbind option_bind]. zcase; [done|]. rewrite Z.eqb_refl. unfold bytes_eqb.
    by rewrite bool_decide_eq_true_2. }
  by rewrite Hs.
Qed.

Lemma bind_command_same p : opt_bufs_ok p -> bind_command p p = Some [].
Proof.
  intros Hp. unfold bind_command, send_client_ip.
  destruct (inet_ntop_le32 (yiaddr p)) as (ip & -> & _). cbn [mbind option_bind].
  destruct (get_opt_total p DCODE_SUBNET Hp) as (sd & Hsd & _ & Hsb).
  destruct (get_opt_total p DCODE_BROADCAST Hp) as (bd & Hbd & _ & Hbb).
  rewrite Hsd, Hbd. cbn [mbind option_bind].
  assert (Hn : forall d, bytes_ok d = true ->
    exists s, (if 4 <=? zlen d then Some <$> inet_ntop d else Some None) = Some s).
  { intros d Hdb. zcase; [|eauto]. destruct (inet_ntop_total d) as (s & -> & _); [done..|]. cbn. eauto. }
  destruct (Hn sd Hsb) as (sn & ->). destruct (Hn bd Hbb) as (bc & ->). cbn [mbind option_bind].
  rewrite (option_changed_same _ _ _ Hsd), (option_changed_same _ _ _ Hbd), Z.eqb_refl.
  assert (Hf : forall b : bool, (if b then Some false else Some false) = Some false) by (by intros []).
  rewrite !Hf. cbn [mbind option_bind negb andb].
  by apply send_cmds_same.
Qed.

Lemma zero_bufs_ok : opt_bufs_ok dhcpmsg_zero.
Proof. by apply dhcpmsg_ok_bufs. Qed.

(** * The requests *)

Section Requests.
Context `{!Env}.

Lemma ifchange_deconfig_safe : safe world_ok ifchange_deconfig (fun _ => True).
Proof.
  unfold ifchange_deconfig. safe_tac.
  apply safe_modify. intros w' Hw'. destruct Hw'. constructor; [done..|apply zero_bufs_ok].
Qed.

Lemma ifchange_bind_safe p : opt_bufs_ok p -> safe world_ok (ifchange_bind p) (fun _ => True).
Proof.
  intros Hp. unfold ifchange_bind. safe_step.
  eapply safe_bind.
  { apply (safe_ub _ _ (fun _ => True)).
    destruct (bind_command_total (cfg_packet w) p) as (t & -> & _); [apply Hw|done|eauto]. }
  intros t _. safe_tac.
  apply safe_modify. intros w' [H1 H2 H3]. by constructor.
Qed.
End Requests.
#[export] Hint Resolve ifchange_deconfig_safe ifchange_bind_safe : safe.

(** * The requests' correctness *)

(** For every received packet and every previous configuration the bind command
    is built without leaving a buffer, and it fits the 2048 bytes of [buf]:
    neither long options nor long address lists can overflow it. *)
Theorem bind_command_fits (cfg packet : dhcpmsg) :
  dhcpmsg_ok cfg = true -> dhcpmsg_ok packet = true ->
  exists t, bind_command cfg packet = Some t /\ zlen t < 2048.
Proof. intros Hc Hp. by apply bind_command_total; apply dhcpmsg_ok_bufs. Qed.

Lemma bind_command_fits_witness :
  exists t, bind_command dhcpmsg_zero (sample_message 5 [6; 8; 10; 0; 0; 1; 10; 0; 0; 2]) = Some t /\
            zlen t < 2048.
Proof. apply bind_command_fits; vm_compute; reflexivity. Defined.

(** How a request to ndhc-ifch can leave the process: the other end is gone. *)
Definition ifch_gone `{!Env} (w : World) (h : halt) : Prop :=
  match env_ifch (tick w) with
  | IfchEof => h = HExit 0
  | IfchRecvFails => exists why, h = HSuicide why
  | _ => False
  end.

(** Binding is a transaction: at most one command is sent, the one built from
    the difference between the previous configuration and the packet; when
    ndhc-ifch confirms it, the packet becomes the current configuration and the
    interface counts as configured; in every other case nothing changes.  The
    process ends only when ndhc-ifch is gone. *)
Theorem ifchange_bind_transaction `{!Env} (packet : dhcpmsg) (w : World) :
  opt_bufs_ok (cfg_packet w) -> opt_bufs_ok packet ->
  exists text, bind_command (cfg_packet w) packet = Some text /\
  wp (ifchange_bind packet) (fun r w' =>
      trace w' = (if zlen text =? 0 then [] else [AIfch text]) ++ trace w /\
      client_config w' = client_config w /\ garp w' = garp w /\ scrLine w' = scrLine w /\
      (r = 0 /\ text <> [] /\ env_ifch (tick w) = IfchData [ch "+"%char] /\
         cs w' = (cs w) <| ifDeconfig := 0 |> /\ cfg_packet w' = packet \/
       r = -1 /\ cs w' = cs w /\ cfg_packet w' = cfg_packet w))
    (fun h _ => text <> [] /\ ifch_gone w h) w.
Proof.
  intros Hc Hp. destruct (bind_command_total _ _ Hc Hp) as (text & Ht & _).
  exists text. split; [done|]. unfold ifchange_bind. wp_run. rewrite Ht. wp_run.
  destruct (Z.eqb_spec (zlen text) 0) as [Hz|Hz]; wp_run; [cbn; auto 10|].
  assert (Hne : text <> []) by (intros ->; by rewrite zlen_nil in Hz).
  unfold ifchwrite, ifch_gone. wp_run. rsimpl.
  destruct (env_ifch (tick w)) as [| | |data] eqn:Ei; wp_run; [cbn; by auto 10|done|by eauto|].
  unfold bytes_eqb. case_bool_decide as Hd; cbn [Z.leb Z.compare]; wp_run.
  - split_and!; try done. left. subst. by split_and!.
  - split_and!; try done. by right.
Qed.

Lemma ifchange_bind_transaction_witness :
  let E := sample_env 0 0 in
  exists text, bind_command dhcpmsg_zero (sample_message 5 []) = Some text /\
  wp (ifchange_bind (sample_message 5 [])) (fun r w' =>
      trace w' = (if zlen text =? 0 then [] else [AIfch text]) ++ trace sample_world /\
      client_config w' = client_config sample_world /\ garp w' = garp sample_world /\
      scrLine w' = scrLine sample_world /\
      (r = 0 /\ text <> [] /\ env_ifch 0 = IfchData [ch "+"%char] /\
         cs w' = (cs sample_world) <| ifDeconfig := 0 |> /\ cfg_packet w' = sample_message 5 [] \/
       r = -1 /\ cs w' = cs sample_world /\ cfg_packet w' = cfg_packet sample_world))
    (fun h _ => text <> [] /\ ifch_gone sample_world h) sample_world.
Proof.
  intros E. apply (ifchange_bind_transaction (sample_message 5 []) sample_world);
    by apply dhcpmsg_ok_bufs.
Defined.

(** A lease that asks for what the interface already has cannot be bound: no
    command is sent, the result is -1 and nothing changes -- which the caller,
    [arp_collision_timeout], treats as a fatal failure. *)
Theorem ifchange_bind_unchanged_fails `{!Env} (packet : dhcpmsg) (w : World) :
  opt_bufs_ok packet -> cfg_packet w = packet -> ifchange_bind packet w = (Ret (-1), w).
Proof.
  intros Hp Hc. unfold ifchange_bind.
  assert (Hb : bind_command packet packet = Some []) by by apply bind_command_same.
  unfold gets, mbind, M_bind. rewrite Hc, Hb. reflexivity.
Qed.

Lemma ifchange_bind_unchanged_fails_witness :
  @ifchange_bind (sample_env 0 0) (sample_message 5 [])
    (sample_world <| cfg_packet := sample_message 5 [] |>)
  = (Ret (-1), sample_world <| cfg_packet := sample_message 5 [] |>).
Proof.
  apply ifchange_bind_unchanged_fails; [apply dhcpmsg_ok_bufs; vm_compute; reflexivity|reflexivity].
Defined.

(** Deconfiguration happens once: the command is sent only while the interface
    counts as configured; after a confirmed deconfiguration the remembered
    configuration is empty, a second request succeeds without a command, and a
    failed one leaves everything as it was. *)
Theorem ifchange_deconfig_once `{!Env} (w : World) :
  wp ifchange_deconfig (fun r w' =>
    if negb (ifDeconfig (cs w) =? 0) then r = 0 /\ w' = w
    else trace w' = AIfch deconfig_command :: trace w /\
      (r = 0 /\ cfg_packet w' = dhcpmsg_zero /\ ifchange_deconfig w' = (Ret 0, w') \/
       r = -1 /\ cs w' = cs w /\ cfg_packet w' = cfg_packet w))
    (fun h _ => ifDeconfig (cs w) = 0 /\ ifch_gone w h) w.
Proof.
  unfold ifchange_deconfig at 1. wp_run.
  destruct (Z.eqb_spec (ifDeconfig (cs w)) 0) as [Hd|Hd]; cbn [negb]; [|by wp_run].
  unfold ifchwrite, ifch_gone. wp_run. rsimpl.
  destruct (env_ifch (tick w)) as [| | |data] eqn:Ei; wp_run;
    [cbn [Z.leb Z.compare]; wp_run; split; [done|by right]|done|by eauto|].
  unfold bytes_eqb. case_bool_decide; cbn [Z.leb Z.compare]; wp_run; (split; [done|]); [left|by right].
  split_and!; done.
Qed.
