(* ===== verification/Leasefile.v ===== *)
(** Writing the current address to the lease file ([leasefile.c]). *)

From S2P Require Import Prelude Types Options World Samples Ipc Ifchange.

Section Leasefile.
Context `{!Env}.

(** [ipnum] is the address as stored ([s_addr]).  The EINTR retry loop around
    [ftruncate] is one external call that yields its final result. *)
Definition write_leasefile (ipnum : Z) : M unit :=
  fd ← gets leasefilefd;
  if fd <? 0 then mret tt
  else
    ip ← ub (inet_ntop (le32 ipnum));
    let out := ip ++ [10] in
    let olen := zlen out in
    if INET_ADDRSTRLEN <=? olen then mret tt
    else
      ok ← ask env_ftruncate;
      if ok : bool then
        emit (ALease out);;
        _ ← ask env_send;
        mret tt
      else mret tt.

End Leasefile.

Lemma write_leasefile_io `{!Env} ipnum : io_only (write_leasefile ipnum).
Proof. unfold write_leasefile. io_tac. Qed.
Lemma write_leasefile_safe `{!Env} ipnum : safe world_ok (write_leasefile ipnum) (fun _ => True).
Proof.
  unfold write_leasefile. safe_step. safe_step; [by safe_tac|].
  eapply safe_bind; [|intros ip _; by safe_tac].
  apply (safe_ub _ _ (fun _ => True)). destruct (inet_ntop_le32 ipnum) as (s & -> & _). eauto.
Qed.
#[export] Hint Resolve write_leasefile_io : io.
#[export] Hint Resolve write_leasefile_safe : safe.

(** * Properties *)

(** With a lease file open, the address taken becomes the file's whole
    content, followed by a newline, once the old content has been cut off; but an
    address of fifteen characters is never written, although the buffer has room
    for it, and the file keeps the previous lease. *)
Theorem lease_file_content `{!Env} (ipnum : Z) (s : list Z) (w : World) :
  0 <= leasefilefd w -> inet_ntop (le32 ipnum) = Some s ->
  write_leasefile ipnum w =
    (Ret tt,
     if 15 <=? zlen s then w
     else if env_ftruncate (tick w)
          then w <| tick ::= (fun t => S (S t)) |> <| trace ::= cons (ALease (s ++ [10])) |>
          else w <| tick ::= S |>).
Proof.
  intros Hfd Hs. unfold write_leasefile, mbind, M_bind, gets. replace (_ <? 0) with false by lia.
  rewrite Hs. cbn [ub mret M_ret]. rewrite zlen_app, zlen_cons, zlen_nil. unfold INET_ADDRSTRLEN.
  replace (16 <=? zlen s + (1 + 0)) with (15 <=? zlen s) by lia.
  destruct (15 <=? zlen s); [done|]. unfold ask.
  destruct (env_ftruncate (tick w)); [|done]. reflexivity.
Qed.

(** 192.168.0.9 is written, 192.168.100.100 is not. *)
Lemma lease_file_content_witness :
  let E := sample_env 0 0 in
  let w := sample_world <| leasefilefd := 4 |> in
  write_leasefile (of_le [192; 168; 0; 9]) w =
    (Ret tt, w <| tick := 2%nat |> <| trace := [ALease (chars "192.168.0.9" ++ [10])] |>) /\
  write_leasefile (of_le [192; 168; 100; 100]) w = (Ret tt, w).
Proof.
  intros E w. split.
  - exact (lease_file_content (of_le [192; 168; 0; 9]) (chars "192.168.0.9") w ltac:(vm_compute; discriminate) ltac:(vm_compute; reflexivity)).
  - exact (lease_file_content (of_le [192; 168; 100; 100]) (chars "192.168.100.100") w ltac:(vm_compute; discriminate) ltac:(vm_compute; reflexivity)).
Defined.
