(* ===== verification/Dhcp.v ===== *)
(** The DHCP transport of [dhcp.c]: building and sending client messages,
    receiving and validating server messages, opening and closing the listening
    socket. *)

From S2P Require Import Prelude Types Options World Samples Ipc.
Import Codec.

(** * Memory images *)

(** The bytes of a [struct dhcpmsg]. *)
Definition dhcpmsg_bytes (p : dhcpmsg) : list Z :=
  [op p; htype p; hlen p; hops p] ++ le32 (xid p) ++ le16 (secs p) ++ le16 (flags p) ++
  le32 (ciaddr p) ++ le32 (yiaddr p) ++ le32 (siaddr p) ++ le32 (giaddr p) ++
  chaddr p ++ sname p ++ file p ++ le32 (cookie p) ++ options p.

(** The [struct dhcpmsg] stored in 548 bytes. *)
Definition dhcpmsg_of_bytes (b : list Z) : option dhcpmsg :=
  b0 ← rd b 0; b1 ← rd b 1; b2 ← rd b 2; b3 ← rd b 3;
  x ← rd_range b 4 4; sc ← rd_range b 8 2; fl ← rd_range b 10 2;
  ci ← rd_range b 12 4; yi ← rd_range b 16 4; si ← rd_range b 20 4; gi ← rd_range b 24 4;
  ca ← rd_range b 28 16; sn ← rd_range b 44 64; fi ← rd_range b 108 128;
  co ← rd_range b 236 4; os ← rd_range b 240 308;
  Some {| op := b0; htype := b1; hlen := b2; hops := b3; xid := of_le x; secs := of_le sc;
          flags := of_le fl; ciaddr := of_le ci; yiaddr := of_le yi; siaddr := of_le si;
          giaddr := of_le gi; chaddr := ca; sname := sn; file := fi; cookie := of_le co;
          options := os |}.

(** The fields of [struct iphdr] the code sets or reads, at their offsets. *)
Definition iphdr_bytes (version ihl tot_len ttl protocol check saddr daddr : Z) : list Z :=
  [version * 16 + ihl; 0] ++ le16 tot_len ++ [0; 0; 0; 0; ttl; protocol] ++ le16 check ++
  le32 saddr ++ le32 daddr.
Definition udphdr_bytes (source dest len check : Z) : list Z :=
  le16 source ++ le16 dest ++ le16 len ++ le16 check.

Definition IPVERSION : Z := 4.
Definition IPDEFTTL : Z := 64.
Definition IPPROTO_UDP : Z := 17.
Definition INADDR_ANY : Z := 0.
Definition INADDR_BROADCAST : Z := 0xffffffff.

(** [struct ip_udp_dhcp_packet]: its 576 bytes and its fields. *)
Definition ip_version (b : list Z) : option Z := v ← rd b 0; Some (v / 16).
Definition ip_ihl (b : list Z) : option Z := v ← rd b 0; Some (v mod 16).
Definition ip_tot_len (b : list Z) : option Z := of_le <$> rd_range b 2 2.
Definition ip_protocol (b : list Z) : option Z := rd b 9.
Definition ip_saddr (b : list Z) : option Z := of_le <$> rd_range b 12 4.
Definition ip_daddr (b : list Z) : option Z := of_le <$> rd_range b 16 4.
Definition udp_dest (b : list Z) : option Z := of_le <$> rd_range b 22 2.
Definition udp_len (b : list Z) : option Z := of_le <$> rd_range b 24 2.
Definition udp_check (b : list Z) : option Z := of_le <$> rd_range b 26 2.

Definition min_size_t (a b : Z) : Z := if a <? b then a else b.

(** * The messages of the client *)

Definition add_options_vendor_hostname (cc : client_config_t) (packet : dhcpmsg)
  : option dhcpmsg :=
  vlen ← strlen (vendor cc);
  hlen ← strlen (hostname cc);
  packet ← (if vlen =? 0 then add_option_vendor packet (chars "ndhc")
            else v ← rd_range (vendor cc) 0 vlen; add_option_vendor packet v);
  h ← rd_range (hostname cc) 0 hlen;
  add_option_hostname packet h.

Definition init_packet (cc : client_config_t) (packet : dhcpmsg) (type : Z)
  : option dhcpmsg :=
  let packet := packet <| op := 1 |> <| htype := 1 |> <| hlen := 6 |>
                       <| cookie := htonl DHCP_MAGIC |> in
  o ← wr (options packet) 0 DCODE_END;
  packet ← add_option_msgtype (packet <| options := o |>) type;
  a ← rd_range (arp cc) 0 6;
  ca ← wr_range (chaddr packet) 0 a;
  cid ← rd_range (clientid cc) 0 (clientid_len cc);
  add_option_clientid (packet <| chaddr := ca |>) cid.

Definition discover_packet (cc : client_config_t) (c : client_state_t) : option dhcpmsg :=
  packet ← init_packet cc (dhcpmsg_zero <| xid := cs_xid c |>) DHCPDISCOVER;
  packet ← (if clientAddr c =? 0 then Some packet
            else add_option_reqip packet (clientAddr c));
  packet ← add_option_maxsize packet;
  packet ← snd <$> add_option_request_list packet;
  add_options_vendor_hostname cc packet.

Definition selecting_request (cc : client_config_t) (c : client_state_t) : option dhcpmsg :=
  packet ← init_packet cc (dhcpmsg_zero <| xid := cs_xid c |>) DHCPREQUEST;
  packet ← add_option_reqip packet (clientAddr c);
  packet ← add_option_serverid packet (serverAddr c);
  packet ← add_option_maxsize packet;
  packet ← snd <$> add_option_request_list packet;
  add_options_vendor_hostname cc packet.

Definition renew_request (cc : client_config_t) (c : client_state_t) : option dhcpmsg :=
  packet ← init_packet cc (dhcpmsg_zero <| xid := cs_xid c |>) DHCPREQUEST;
  packet ← add_option_maxsize (packet <| ciaddr := clientAddr c |>);
  packet ← snd <$> add_option_request_list packet;
  add_options_vendor_hostname cc packet.

Definition rebind_request (cc : client_config_t) (c : client_state_t) : option dhcpmsg :=
  packet ← init_packet cc (dhcpmsg_zero <| xid := cs_xid c |>) DHCPREQUEST;
  packet ← add_option_reqip (packet <| ciaddr := clientAddr c |>) (clientAddr c);
  packet ← add_option_maxsize packet;
  packet ← snd <$> add_option_request_list packet;
  add_options_vendor_hostname cc packet.

Definition decline_packet (cc : client_config_t) (c : client_state_t) (server : Z)
  : option dhcpmsg :=
  packet ← init_packet cc (dhcpmsg_zero <| xid := cs_xid c |>) DHCPDECLINE;
  packet ← add_option_reqip packet (clientAddr c);
  add_option_serverid packet server.

Definition release_packet (cc : client_config_t) (c : client_state_t) (x : Z)
  : option dhcpmsg :=
  packet ← init_packet cc (dhcpmsg_zero <| xid := x |>) DHCPRELEASE;
  packet ← add_option_reqip (packet <| ciaddr := clientAddr c |>) (clientAddr c);
  add_option_serverid packet (serverAddr c).

(** * Sockets *)

Section Dhcp.
Context `{!Env}.

Definition get_udp_unicast_socket : M Z :=
  a ← gets (fun w => clientAddr (cs w));
  r ← request_sockd_fd (ch "u"%char :: le32 a) false;
  mret r.1.

Definition get_raw_broadcast_socket : M Z :=
  r ← request_sockd_fd (chars "s") false;
  mret r.1.

Definition get_raw_listen_socket : M Z :=
  r ← request_sockd_fd (chars "L") true;
  let '(fd, resp) := r in
  (if resp =? ch "L"%char then set_cs (fun c => c <| using_dhcp_bpf := true |>)
   else if resp =? ch "l"%char then set_cs (fun c => c <| using_dhcp_bpf := false |>)
   else suicide "get_raw_listen_socket: expected l or L sockd reply");;
  mret fd.

Definition start_dhcp_listen : M unit :=
  l ← gets (fun w => listenFd (cs w));
  if 0 <=? l then mret tt
  else
    fd ← get_raw_listen_socket;
    set_cs (fun c => c <| listenFd := fd |>);;
    if fd <? 0 then suicide "FATAL: Couldn't listen on socket"
    else epoll_add fd.

Definition stop_dhcp_listen : M unit :=
  l ← gets (fun w => listenFd (cs w));
  if l <? 0 then mret tt
  else
    epoll_del l;;
    close l;;
    set_cs (fun c => c <| listenFd := -1 |>).

(** * Sending *)

Definition send_dhcp_unicast (payload : dhcpmsg) : M Z :=
  fd ← get_udp_unicast_socket;
  if fd <? 0 then mret (-1)
  else
    server ← gets (fun w => serverAddr (cs w));
    emit (AConnect fd server (htons DHCP_SERVER_PORT));;
    ok ← ask env_connect;
    if negb ok then close fd;; mret (-1)
    else
      endloc ← ub (get_end_option_idx payload);
      if endloc <? 0 then close fd;; mret (-1)
      else
        let el := endloc + 1 in
        if sizeof_options <? el then close fd;; mret (-1)
        else
          let payload_len := sizeof_dhcpmsg - (sizeof_options - el) in
          up ← carrier_isup;
          if negb up then close fd;; mret (-99)
          else
            data ← ub (rd_range (dhcpmsg_bytes payload) 0 payload_len);
            emit (AUnicast fd data);;
            ret ← ask env_send;
            close fd;;
            mret ret.

(** The IP packet [send_dhcp_raw] builds around a message whose last option
    byte is at [el - 1]. *)
Definition raw_frame (payload : dhcpmsg) (el : Z) : option (list Z) :=
  let padding := sizeof_options - el in
  let iud_len := sizeof_ip_udp_dhcp_packet - padding in
  let ud_len := sizeof_udp_dhcp_packet - padding in
  let ph := iphdr_bytes 0 0 (htons (u16 ud_len)) 0 IPPROTO_UDP 0 INADDR_ANY INADDR_BROADCAST in
  let udp0 := udphdr_bytes (htons DHCP_CLIENT_PORT) (htons DHCP_SERVER_PORT)
                (htons (u16 ud_len)) 0 ++ dhcpmsg_bytes payload in
  udpd ← rd_range udp0 0 ud_len;
  let udpcs := net_checksum161c udpd in
  let phcs := net_checksum161c ph in
  let ucheck := u16 (net_checksum161c_add udpcs phcs) in
  let ip0 := iphdr_bytes IPVERSION 5 (htons (u16 iud_len)) IPDEFTTL IPPROTO_UDP 0
               INADDR_ANY INADDR_BROADCAST in
  let icheck := u16 (net_checksum161c ip0) in
  let iudmsg :=
    iphdr_bytes IPVERSION 5 (htons (u16 iud_len)) IPDEFTTL IPPROTO_UDP icheck
      INADDR_ANY INADDR_BROADCAST ++
    udphdr_bytes (htons DHCP_CLIENT_PORT) (htons DHCP_SERVER_PORT) (htons (u16 ud_len)) ucheck ++
    dhcpmsg_bytes payload in
  rd_range iudmsg 0 iud_len.

Definition send_dhcp_raw (payload : dhcpmsg) : M Z :=
  fd ← get_raw_broadcast_socket;
  if fd <? 0 then mret (-1)
  else
    endloc ← ub (get_end_option_idx payload);
    if endloc <? 0 then close fd;; mret (-1)
    else
      let el := endloc + 1 in
      if sizeof_options <? el then close fd;; mret (-1)
      else
        frame ← ub (raw_frame payload el);
        up ← carrier_isup;
        if negb up then close fd;; mret (-99)
        else
          emit (ARaw fd frame);;
          ret ← ask env_send;
          close fd;;
          mret ret.

(** Builds a message from the configuration and the client state. *)
Definition build (f : client_config_t -> client_state_t -> option dhcpmsg) : M dhcpmsg :=
  w ← gets (fun w => (client_config w, cs w));
  ub (f w.1 w.2).

Definition send_discover : M Z := p ← build discover_packet; send_dhcp_raw p.
Definition send_selecting : M Z := p ← build selecting_request; send_dhcp_raw p.
Definition send_renew : M Z := p ← build renew_request; send_dhcp_unicast p.
Definition send_rebind : M Z := p ← build rebind_request; send_dhcp_raw p.
Definition send_decline (server : Z) : M Z :=
  p ← build (fun cc c => decline_packet cc c server); send_dhcp_raw p.
Definition send_release : M Z :=
  x ← nk_random_u32;
  p ← build (fun cc c => release_packet cc c x); send_dhcp_unicast p.

(** * Receiving *)

(** The functions below work on the 576 bytes of the received packet. *)
Definition ip_checksum (packet : list Z) : option bool :=
  h ← rd_range packet 0 sizeof_iphdr;
  Some (net_checksum161c h =? 0).

Definition udp_checksum (packet : list Z) : option bool :=
  saddr ← ip_saddr packet; daddr ← ip_daddr packet; protocol ← ip_protocol packet;
  len ← udp_len packet;
  let ph := iphdr_bytes 0 0 len 0 protocol 0 saddr daddr in
  d ← rd_range packet sizeof_iphdr
        (min_size_t (ntohs len) (sizeof_ip_udp_dhcp_packet - sizeof_iphdr));
  let udpcs := u16 (net_checksum161c d) in
  let hdrcs := u16 (net_checksum161c ph) in
  Some (u16 (net_checksum161c_add udpcs hdrcs) =? 0).

Definition get_raw_packet_validate_bpf (packet : list Z) : option bool :=
  version ← ip_version packet;
  if negb (version =? IPVERSION) then Some false
  else
    ihl ← ip_ihl packet;
    if negb (ihl =? 5) then Some false
    else
      protocol ← ip_protocol packet;
      if negb (protocol =? IPPROTO_UDP) then Some false
      else
        dest ← udp_dest packet;
        if negb (ntohs dest =? DHCP_CLIENT_PORT) then Some false
        else
          len ← udp_len packet;
          tot ← ip_tot_len packet;
          Some (ntohs len =? size_t (ntohs tot - sizeof_iphdr)).

(** What [get_raw_packet] makes of a packet whose first [inc] bytes were
    received: the result, the payload after the call, the source address. *)
Definition parse_raw_packet (using_bpf : bool) (inc : Z) (packet : list Z)
    (payload : dhcpmsg) : option (Z * dhcpmsg * Z) :=
  tot ← ip_tot_len packet;
  let iphdrlen := ntohs tot in
  let transient := Some (-2, payload, 0) in
  if inc <? iphdrlen then transient
  else
    v ← (if using_bpf then Some true else get_raw_packet_validate_bpf packet);
    if negb v then transient
    else
      ipok ← ip_checksum packet;
      if negb ipok then transient
      else if iphdrlen <=? sizeof_iphdr + sizeof_udphdr then transient
      else
        let l := iphdrlen - sizeof_iphdr - sizeof_udphdr in
        if sizeof_dhcpmsg <? l then transient
        else
          check ← udp_check packet;
          udpok ← (if check =? 0 then Some true else udp_checksum packet);
          if negb udpok then transient
          else
            saddr ← ip_saddr packet;
            data ← rd_range packet (sizeof_iphdr + sizeof_udphdr) l;
            bytes ← wr_range (dhcpmsg_bytes payload) 0 data;
            payload ← dhcpmsg_of_bytes bytes;
            Some (l, payload, saddr).

(** Returns -1 on a fatal, -2 on a transient error; the source address is
    meaningful for a non-negative result only. *)
Definition get_raw_packet (payload : dhcpmsg) : M (Z * dhcpmsg * Z) :=
  r ← ask env_read;
  match r with
  | ReadAgain => mret (-2, payload, 0)
  | ReadFails => mret (-1, payload, 0)
  | ReadData data =>
    let data := take (Z.to_nat sizeof_ip_udp_dhcp_packet) (List.map u8 data) in
    let packet := data ++ zeros (Z.to_nat sizeof_ip_udp_dhcp_packet - length data) in
    bpf ← gets (fun w => using_dhcp_bpf (cs w));
    ub (parse_raw_packet bpf (zlen data) packet payload)
  end.

(** The result and [*msgtype] (0 when the call returns before setting it). *)
Definition validate_dhcp_packet (cc : client_config_t) (our_xid : Z) (len : Z)
    (packet : dhcpmsg) : option (bool * Z) :=
  if len <? offsetof_options then Some (false, 0)
  else if negb (ntohl (cookie packet) =? DHCP_MAGIC) then Some (false, 0)
  else if negb (xid packet =? our_xid) then Some (false, 0)
  else
    ca ← rd_range (chaddr packet) 0 6;
    if negb (bytes_eqb ca (arp cc)) then Some (false, 0)
    else
      endloc ← get_end_option_idx packet;
      if endloc <? 0 then Some (false, 0)
      else
        msgtype ← get_option_msgtype packet;
        if msgtype =? 0 then Some (false, msgtype)
        else
          cid ← get_option_clientid packet MAX_DOPT_SIZE;
          if zlen cid =? 0 then Some (true, msgtype)
          else
            let n := min_size_t (zlen cid) (clientid_len cc) in
            ours ← rd_range (clientid cc) 0 n;
            theirs ← rd_range cid 0 n;
            Some (bytes_eqb ours theirs, msgtype).

(** Result, the packet buffer, the message type and the source address. *)
Definition dhcp_packet_get (packet : dhcpmsg) : M (bool * dhcpmsg * Z * Z) :=
  l ← gets (fun w => listenFd (cs w));
  if l <? 0 then mret (false, packet, 0, 0)
  else
    rp ← get_raw_packet packet;
    let '(r, packet, srcaddr) := rp in
    if r <? 0 then
      (if negb (r =? -2) then stop_dhcp_listen;; start_dhcp_listen else mret tt);;
      mret (false, packet, 0, srcaddr)
    else
      w ← gets (fun w => (client_config w, cs_xid (cs w)));
      v ← ub (validate_dhcp_packet w.1 w.2 r packet);
      mret (v.1, packet, v.2, srcaddr).

End Dhcp.

(** * What the messages say *)

(** The header every client message starts with. *)
Definition client_header (cc : client_config_t) (x ci : Z) : dhcpmsg :=
  dhcpmsg_zero <| xid := x |> <| ciaddr := ci |> <| op := 1 |> <| htype := 1 |> <| hlen := 6 |>
    <| cookie := htonl DHCP_MAGIC |> <| chaddr := arp cc ++ zeros 10 |>.

Definition opt_clientid (cc : client_config_t) : list Z :=
  take (Z.to_nat (clientid_len cc)) (clientid cc).
Definition opt_vendor (cc : client_config_t) : list Z :=
  let v := default [] (cstr (vendor cc)) in if zlen v =? 0 then chars "ndhc" else v.
Definition opt_hostname (cc : client_config_t) : list opt :=
  let h := default [] (cstr (hostname cc)) in
  if zlen h =? 0 then [] else [(DCODE_HOSTNAME, h)].

(** The options of each message, in the order they are sent. *)
Definition init_opts (cc : client_config_t) (type : Z) : list opt :=
  [(DCODE_MSGTYPE, [type])] ++ [(DCODE_CLIENT_ID, opt_clientid cc)].
Definition common_opts (cc : client_config_t) : list opt :=
  [(DCODE_MAX_SIZE, le16 (htons sizeof_ip_udp_dhcp_packet))] ++ [(DCODE_PARAM_REQ, reqdata)] ++
  [(DCODE_VENDOR, opt_vendor cc)] ++ opt_hostname cc.
Definition opt_reqip (a : Z) : list opt := [(DCODE_REQIP, le32 a)].
Definition opt_serverid (a : Z) : list opt := [(DCODE_SERVER_ID, le32 a)].

Lemma opt_reqip_size a : encoded_size (opt_reqip a) = 7.
Proof. reflexivity. Qed.
Lemma opt_serverid_size a : encoded_size (opt_serverid a) = 7.
Proof. reflexivity. Qed.
#[local] Hint Rewrite opt_reqip_size opt_serverid_size : buf.

Definition discover_opts (cc : client_config_t) (c : client_state_t) : list opt :=
  init_opts cc DHCPDISCOVER ++
  (if clientAddr c =? 0 then [] else opt_reqip (clientAddr c)) ++ common_opts cc.
Definition selecting_opts (cc : client_config_t) (c : client_state_t) : list opt :=
  init_opts cc DHCPREQUEST ++ opt_reqip (clientAddr c) ++ opt_serverid (serverAddr c) ++ common_opts cc.
Definition renew_opts (cc : client_config_t) : list opt :=
  init_opts cc DHCPREQUEST ++ common_opts cc.
Definition rebind_opts (cc : client_config_t) (c : client_state_t) : list opt :=
  init_opts cc DHCPREQUEST ++ opt_reqip (clientAddr c) ++ common_opts cc.
Definition decline_opts (cc : client_config_t) (c : client_state_t) (server : Z) : list opt :=
  init_opts cc DHCPDECLINE ++ opt_reqip (clientAddr c) ++ opt_serverid server.
Definition release_opts (cc : client_config_t) (c : client_state_t) : list opt :=
  init_opts cc DHCPRELEASE ++ opt_reqip (clientAddr c) ++ opt_serverid (serverAddr c).

Lemma cstr_spec s : is_Some (strlen s) -> bytes_ok s = true ->
  exists n, strlen s = Some n /\ 0 <= n < zlen s /\
    rd_range s 0 n = Some (default [] (cstr s)) /\ zlen (default [] (cstr s)) = n /\
    bytes_ok (default [] (cstr s)) = true.
Proof.
  intros [n Hn] Hb. exists n. pose proof (strlen_bound _ _ Hn) as Hr.
  unfold cstr. rewrite Hn. cbn [mbind option_bind].
  destruct (rd_range_Some s 0 n) as (d & Hd & Hl); [lia..|]. rewrite Hd. cbn [default].
  repeat split; try done; try lia. by eapply bytes_ok_rd_range.
Qed.

Section Config.
Context (cc : client_config_t) (Hcc : config_ok cc).

Lemma opt_clientid_spec :
  rd_range (clientid cc) 0 (clientid_len cc) = Some (opt_clientid cc) /\
  zlen (opt_clientid cc) = clientid_len cc /\ bytes_ok (opt_clientid cc) = true.
Proof using Hcc.
  destruct Hcc. unfold opt_clientid.
  assert (H : rd_range (clientid cc) 0 (clientid_len cc)
              = Some (take (Z.to_nat (clientid_len cc)) (clientid cc))).
  { unfold rd_range. zcases. }
  split; [done|]. split; [by eapply rd_range_len|by apply bytes_ok_take].
Qed.

Lemma opt_vendor_spec :
  1 <= zlen (opt_vendor cc) <= 63 /\ bytes_ok (opt_vendor cc) = true.
Proof using Hcc.
  destruct Hcc. unfold opt_vendor.
  destruct (cstr_spec (vendor cc)) as (n & _ & Hn & _ & Hl & Hb); [done..|].
  zcase; [done|]. split; [lia|done].
Qed.

Lemma init_packet_builds x ci type os' :
  forall k, 0 <= type < 256 ->
  (forall o, carries ((client_header cc x ci) <| options := o |>) (init_opts cc type) ->
     builds (k ((client_header cc x ci) <| options := o |>)) (client_header cc x ci) os') ->
  builds (init_packet cc (dhcpmsg_zero <| xid := x |> <| ciaddr := ci |>) type ≫= k)
         (client_header cc x ci) os'.
Proof using Hcc.
  intros k Ht Hk. pose proof opt_clientid_spec as (Hr & Hl & Hb).
  pose proof (ok_arp _ Hcc) as Ha. pose proof (ok_clientid_len _ Hcc).
  unfold init_packet. cbv zeta. rsimpl.
  change (wr (options dhcpmsg_zero) 0 DCODE_END) with (Some (DCODE_END :: zeros 307)).
  cbn [mbind option_bind].
  set (base := dhcpmsg_zero <| xid := x |> <| ciaddr := ci |> <| op := 1 |> <| htype := 1 |>
                 <| hlen := 6 |> <| cookie := htonl DHCP_MAGIC |>).
  assert (Hf : carries (base <| options := DCODE_END :: zeros 307 |>) []).
  { apply carries_fresh; [|by eexists]. by constructor. }
  destruct (add_u8_option_carries _ _ DCODE_MSGTYPE type Hf) as (o1 & Ho1 & Hc1);
    [apply opt_ok_intro; [done|done|cbn; unfold byte_ok; lia]|done|].
  unfold add_option_msgtype. rewrite Ho1. cbn [fmap option_fmap option_map mbind option_bind snd].
  assert (Hra : rd_range (arp cc) 0 6 = Some (arp cc)).
  { rewrite <- (app_nil_r (arp cc)) at 1. by apply (rd_range_at [] (arp cc) []). }
  rewrite Hra. cbn [mbind option_bind].
  match goal with |- context [chaddr ?p] => change (chaddr p) with (zeros 6 ++ zeros 10) end.
  rewrite (wr_range_at [] (zeros 6) (arp cc) (zeros 10)) by (done || by rewrite Ha).
  cbn [mbind option_bind]. rewrite Hr. cbn [mbind option_bind]. unfold add_option_clientid.
  apply (builds_string (client_header cc x ci) o1 [(DCODE_MSGTYPE, [type])]).
  - destruct Hc1 as [[] Hs]. split; [by constructor|exact Hs].
  - apply opt_ok_intro; [done|lia|done].
  - unfold sizeof_options. zlen_lia.
  - exact Hk.
Qed.

Lemma vendor_hostname_builds base o os :
  carries (base <| options := o |>) os -> encoded_size os <= 178 ->
  builds (add_options_vendor_hostname cc (base <| options := o |>)) base
         (os ++ [(DCODE_VENDOR, opt_vendor cc)] ++ opt_hostname cc).
Proof using Hcc.
  intros Hc Hs. unfold add_options_vendor_hostname.
  pose proof opt_vendor_spec as [Hvl Hvb]. destruct Hcc.
  destruct (cstr_spec (vendor cc)) as (v & Hv & Hvr & Hvd & Hvn & _); [done..|].
  destruct (cstr_spec (hostname cc)) as (h & Hh & Hhr & Hhd & Hhn & Hhb); [done..|].
  rewrite Hv, Hh. cbn [mbind option_bind]. rewrite Hvd, Hhd. cbn [mbind option_bind].
  assert (E : (if v =? 0 then add_option_vendor (base <| options := o |>) (chars "ndhc")
               else add_option_vendor (base <| options := o |>) (default [] (cstr (vendor cc))))
              = snd <$> add_option_string (base <| options := o |>) DCODE_VENDOR (opt_vendor cc)).
  { unfold opt_vendor, add_option_vendor. rewrite Hvn. by destruct (v =? 0) eqn:E; rewrite ?E. }
  rewrite E. apply (builds_string _ _ os); [done|apply opt_ok_intro; (done || lia)| |].
  { unfold sizeof_options. lia. }
  intros o' Hc'. unfold add_option_hostname, opt_hostname. rewrite Hhn.
  zcase; [rewrite app_nil_r; by apply builds_ret|]. apply builds_last.
  eapply builds_string; [exact Hc'|apply opt_ok_intro; (done || lia)| |].
  - unfold sizeof_options. zlen_lia.
  - intros o'' Hc''. rewrite <- app_assoc in Hc''. by apply builds_ret.
Qed.

Lemma common_builds base o os :
  carries (base <| options := o |>) os -> encoded_size os <= 166 ->
  builds (packet ← add_option_maxsize (base <| options := o |>);
          packet ← snd <$> add_option_request_list packet;
          add_options_vendor_hostname cc packet) base (os ++ common_opts cc).
Proof using Hcc.
  intros Hc Hs. unfold add_option_maxsize, add_option_request_list.
  apply (builds_u16 _ _ os); [done|done|unfold sizeof_options; lia|]. intros o1 Hc1.
  eapply builds_string; [exact Hc1|done|unfold sizeof_options; zlen_lia|]. intros o2 Hc2.
  unfold common_opts. rewrite !(app_assoc os), (app_assoc (os ++ _)).
  apply vendor_hostname_builds; [done|]. zlen_lia.
Qed.

Lemma init_opts_size type : encoded_size (init_opts cc type) <= 70.
Proof using Hcc.
  pose proof opt_clientid_spec as (_ & Hl & _). pose proof (ok_clientid_len _ Hcc).
  unfold init_opts. zlen_lia.
Qed.

Ltac init_builds :=
  apply init_packet_builds; [done|]; intros o1 Hc1;
  match goal with _ : carries _ (init_opts cc ?t) |- _ => pose proof (init_opts_size t) end.

Lemma discover_builds c :
  builds (discover_packet cc c) (client_header cc (cs_xid c) 0) (discover_opts cc c).
Proof using Hcc.
  unfold discover_packet.
  change (dhcpmsg_zero <| xid := cs_xid c |>)
    with (dhcpmsg_zero <| xid := cs_xid c |> <| ciaddr := 0 |>).
  init_builds. unfold discover_opts. zcase; cbn [app mbind option_bind].
  - apply common_builds; [done|lia].
  - eapply builds_u32; [done|done|unfold sizeof_options; lia|]. intros o2 Hc2.
    rewrite app_assoc. apply common_builds; [done|zlen_lia].
Qed.

Lemma selecting_builds c :
  builds (selecting_request cc c) (client_header cc (cs_xid c) 0) (selecting_opts cc c).
Proof using Hcc.
  unfold selecting_request.
  change (dhcpmsg_zero <| xid := cs_xid c |>)
    with (dhcpmsg_zero <| xid := cs_xid c |> <| ciaddr := 0 |>).
  init_builds. unfold selecting_opts, add_option_reqip, add_option_serverid.
  eapply builds_u32; [done|done|unfold sizeof_options; lia|]. intros o2 Hc2.
  eapply builds_u32; [done|done|unfold sizeof_options; zlen_lia|]. intros o3 Hc3.
  rewrite !app_assoc. apply common_builds; [done|zlen_lia].
Qed.

(** The header of a renewal is completed after [init_packet]. *)
Lemma header_ciaddr x ci o :
  (client_header cc x 0) <| options := o |> <| ciaddr := ci |> = (client_header cc x ci) <| options := o |>.
Proof. reflexivity. Qed.

Lemma init_packet_ciaddr x ci type os' :
  forall k, 0 <= type < 256 ->
  (forall o, carries ((client_header cc x ci) <| options := o |>) (init_opts cc type) ->
     builds (k ((client_header cc x ci) <| options := o |>)) (client_header cc x ci) os') ->
  builds (packet ← init_packet cc (dhcpmsg_zero <| xid := x |>) type; k (packet <| ciaddr := ci |>))
         (client_header cc x ci) os'.
Proof using Hcc.
  intros k Ht Hk.
  destruct (init_packet_builds x 0 type (init_opts cc type) Some Ht) as (o & Ho & Hc).
  { intros o Hc. by apply builds_ret. }
  change (dhcpmsg_zero <| xid := x |>) with (dhcpmsg_zero <| xid := x |> <| ciaddr := 0 |>).
  destruct (init_packet cc _ type) as [p|]; [|done].
  cbn [mbind option_bind] in *. injection Ho as ->. rewrite header_ciaddr. apply Hk.
  destruct Hc as [[] Hs]. split; [by constructor|exact Hs].
Qed.

Lemma renew_builds c :
  builds (renew_request cc c) (client_header cc (cs_xid c) (clientAddr c)) (renew_opts cc).
Proof using Hcc.
  unfold renew_request.
  apply (init_packet_ciaddr _ _ _ _ (fun packet =>
    packet ← add_option_maxsize packet;
    packet ← snd <$> add_option_request_list packet;
    add_options_vendor_hostname cc packet)); [done|]. intros o1 Hc1.
  pose proof (init_opts_size DHCPREQUEST). apply common_builds; [done|lia].
Qed.

Lemma rebind_builds c :
  builds (rebind_request cc c) (client_header cc (cs_xid c) (clientAddr c)) (rebind_opts cc c).
Proof using Hcc.
  unfold rebind_request.
  apply (init_packet_ciaddr _ _ _ _ (fun packet =>
    packet ← add_option_reqip packet (clientAddr c);
    packet ← add_option_maxsize packet;
    packet ← snd <$> add_option_request_list packet;
    add_options_vendor_hostname cc packet)); [done|]. intros o1 Hc1.
  pose proof (init_opts_size DHCPREQUEST). unfold add_option_reqip.
  eapply builds_u32; [done|done|unfold sizeof_options; lia|]. intros o2 Hc2.
  unfold rebind_opts. rewrite app_assoc. apply common_builds; [done|zlen_lia].
Qed.

Lemma decline_builds c server :
  builds (decline_packet cc c server) (client_header cc (cs_xid c) 0) (decline_opts cc c server).
Proof using Hcc.
  unfold decline_packet.
  change (dhcpmsg_zero <| xid := cs_xid c |>)
    with (dhcpmsg_zero <| xid := cs_xid c |> <| ciaddr := 0 |>).
  init_builds. unfold decline_opts, add_option_reqip, add_option_serverid.
  eapply builds_u32; [done|done|unfold sizeof_options; lia|]. intros o2 Hc2.
  apply builds_last. eapply builds_u32; [done|done|unfold sizeof_options; zlen_lia|]. intros o3 Hc3.
  rewrite <- app_assoc in Hc3. by apply builds_ret.
Qed.

Lemma release_builds c x :
  builds (release_packet cc c x) (client_header cc x (clientAddr c)) (release_opts cc c).
Proof using Hcc.
  unfold release_packet.
  apply (init_packet_ciaddr _ _ _ _ (fun packet =>
    packet ← add_option_reqip packet (clientAddr c);
    add_option_serverid packet (serverAddr c))); [done|]. intros o1 Hc1.
  pose proof (init_opts_size DHCPRELEASE). unfold release_opts, add_option_reqip, add_option_serverid.
  eapply builds_u32; [done|done|unfold sizeof_options; lia|]. intros o2 Hc2.
  apply builds_last. eapply builds_u32; [done|done|unfold sizeof_options; zlen_lia|]. intros o3 Hc3.
  rewrite <- app_assoc in Hc3. by apply builds_ret.
Qed.
End Config.

(** * Memory images *)

(** A message whose memory image is 548 bytes. *)
Record msg_ok (p : dhcpmsg) : Prop := {
  msg_bufs : opt_bufs_ok p;
  msg_chaddr : zlen (chaddr p) = sizeof_chaddr;
  msg_header : 0 <= op p < 256 /\ 0 <= htype p < 256 /\ 0 <= hlen p < 256 /\ 0 <= hops p < 256;
  msg_chaddr_bytes : bytes_ok (chaddr p) = true
}.

Lemma dhcpmsg_ok_msg p : dhcpmsg_ok p = true -> msg_ok p.
Proof.
  intros H. pose proof (dhcpmsg_ok_bufs p H). unfold dhcpmsg_ok, byte_ok in H.
  bool_hyps. constructor; (done || lia).
Qed.

Lemma dhcpmsg_bytes_len p : msg_ok p -> zlen (dhcpmsg_bytes p) = sizeof_dhcpmsg.
Proof.
  intros [[] ? ?]. unfold dhcpmsg_bytes, sizeof_options, sizeof_file, sizeof_sname,
    sizeof_chaddr, sizeof_dhcpmsg in *. zlen_lia.
Qed.

Lemma dhcpmsg_bytes_ok p : msg_ok p -> bytes_ok (dhcpmsg_bytes p) = true.
Proof.
  intros [[] ? (? & ? & ? & ?) ?]. unfold dhcpmsg_bytes.
  rewrite !bytes_ok_app, !le32_ok, !le16_ok.
  repeat match goal with H : bytes_ok _ = true |- _ => rewrite H; clear H end.
  unfold bytes_ok. cbn [forallb]. unfold byte_ok. lia.
Qed.

Lemma rd_range_next b i n j d :
  j = i + n -> rd_range b i n = Some d -> drop (Z.to_nat i) b = d ++ drop (Z.to_nat j) b.
Proof.
  intros ->. unfold rd_range. zcases; cbn. intros [= <-].
  replace (Z.to_nat (i + n)) with (Z.to_nat i + Z.to_nat n)%nat by lia.
  by rewrite <- drop_drop, take_drop.
Qed.
Lemma rd_next b i j c :
  j = i + 1 -> rd b i = Some c -> drop (Z.to_nat i) b = c :: drop (Z.to_nat j) b.
Proof.
  intros ->. unfold rd. zcases. intros H. replace (Z.to_nat (i + 1)) with (S (Z.to_nat i)) by lia.
  by apply drop_S.
Qed.

Lemma le32_of_le_len d : zlen d = 4 -> bytes_ok d = true -> le32 (of_le d) = d.
Proof.
  destruct d as [|a [|b [|c [|e [|]]]]]; intros Hl Hb;
    try (exfalso; unfold zlen in Hl; cbn [length] in Hl; lia). by apply le32_of_le.
Qed.
Lemma le16_of_le_len d : zlen d = 2 -> bytes_ok d = true -> le16 (of_le d) = d.
Proof.
  destruct d as [|a [|b [|]]]; intros Hl Hb;
    try (exfalso; unfold zlen in Hl; cbn [length] in Hl; lia). by apply le16_of_le.
Qed.

(** Reading 548 bytes as a message loses nothing. *)
Lemma dhcpmsg_of_bytes_total b :
  zlen b = sizeof_dhcpmsg -> bytes_ok b = true ->
  exists p, dhcpmsg_of_bytes b = Some p /\ msg_ok p /\ dhcpmsg_bytes p = b.
Proof.
  unfold sizeof_dhcpmsg. intros Hl Hb. unfold dhcpmsg_of_bytes.
  destruct (rd_Some b 0) as (b0 & E0 & I0); [lia|]. destruct (rd_Some b 1) as (b1 & E1 & I1); [lia|].
  destruct (rd_Some b 2) as (b2 & E2 & I2); [lia|]. destruct (rd_Some b 3) as (b3 & E3 & I3); [lia|].
  rewrite E0, E1, E2, E3. cbn [mbind option_bind].
  destruct (rd_range_Some b 4 4) as (x & Ex & Lx); [lia..|].
  destruct (rd_range_Some b 8 2) as (sc & Es & Ls); [lia..|].
  destruct (rd_range_Some b 10 2) as (fl & Ef & Lf); [lia..|].
  destruct (rd_range_Some b 12 4) as (ci & Ec & Lc); [lia..|].
  destruct (rd_range_Some b 16 4) as (yi & Ey & Ly); [lia..|].
  destruct (rd_range_Some b 20 4) as (si & Ei & Li); [lia..|].
  destruct (rd_range_Some b 24 4) as (gi & Eg & Lg); [lia..|].
  destruct (rd_range_Some b 28 16) as (ca & Ea & La); [lia..|].
  destruct (rd_range_Some b 44 64) as (sn & En & Ln); [lia..|].
  destruct (rd_range_Some b 108 128) as (fi & Efi & Lfi); [lia..|].
  destruct (rd_range_Some b 236 4) as (co & Eco & Lco); [lia..|].
  destruct (rd_range_Some b 240 308) as (os & Eo & Lo); [lia..|].
  rewrite Ex, Es, Ef, Ec, Ey, Ei, Eg, Ea, En, Efi, Eco, Eo. cbn [mbind option_bind].
  eexists. split; [reflexivity|].
  split.
  - repeat first [constructor | exact Ln | exact Lfi | exact Lo | exact La
      | by eapply bytes_ok_rd_range | by eapply (bytes_ok_elem _ _ Hb)]; cbn;
      try match goal with |- 0 <= ?v < 256 => eapply (bytes_ok_elem b v Hb); assumption end;
      try match goal with |- 0 <= ?v => eapply (bytes_ok_elem b v Hb); assumption end;
      try match goal with |- ?v < 256 => eapply (bytes_ok_elem b v Hb); assumption end.
  - unfold dhcpmsg_bytes. cbn [op htype hlen hops xid secs flags ciaddr yiaddr siaddr giaddr
      chaddr sname file cookie options].
    rewrite !le32_of_le_len, !le16_of_le_len by (done || by eapply bytes_ok_rd_range).
    change b with (drop (Z.to_nat 0) b) at 1.
    rewrite (rd_next b 0 1 _ eq_refl E0), (rd_next b 1 2 _ eq_refl E1), (rd_next b 2 3 _ eq_refl E2), (rd_next b 3 4 _ eq_refl E3).
    cbn [app]. do 4 f_equal.
    rewrite (rd_range_next b 4 4 8 _ eq_refl Ex), (rd_range_next b 8 2 10 _ eq_refl Es), (rd_range_next b 10 2 12 _ eq_refl Ef),
      (rd_range_next b 12 4 16 _ eq_refl Ec), (rd_range_next b 16 4 20 _ eq_refl Ey), (rd_range_next b 20 4 24 _ eq_refl Ei),
      (rd_range_next b 24 4 28 _ eq_refl Eg), (rd_range_next b 28 16 44 _ eq_refl Ea), (rd_range_next b 44 64 108 _ eq_refl En),
      (rd_range_next b 108 128 236 _ eq_refl Efi), (rd_range_next b 236 4 240 _ eq_refl Eco), (rd_range_next b 240 308 548 _ eq_refl Eo).
    rewrite drop_ge, app_nil_r; [done|]. unfold zlen in Hl. lia.
Qed.

Lemma app_inj_len {A} (a b c d : list A) :
  zlen a = zlen b -> a ++ c = b ++ d -> a = b /\ c = d.
Proof. unfold zlen. intros Hl H. apply app_inj_1; [lia|done]. Qed.

Lemma le32_inj v w : 0 <= v < 2 ^ 32 -> 0 <= w < 2 ^ 32 -> le32 v = le32 w -> v = w.
Proof. intros Hv Hw H. by rewrite <- (of_le_le32 v), H, of_le_le32. Qed.
Lemma le16_inj v w : 0 <= v < 2 ^ 16 -> 0 <= w < 2 ^ 16 -> le16 v = le16 w -> v = w.
Proof. intros Hv Hw H. by rewrite <- (of_le_le16 v), H, of_le_le16. Qed.

Lemma dhcpmsg_bytes_inj p q :
  dhcpmsg_ok p = true -> dhcpmsg_ok q = true -> dhcpmsg_bytes p = dhcpmsg_bytes q -> p = q.
Proof.
  unfold dhcpmsg_ok. intros Hp Hq. bool_hyps. unfold dhcpmsg_bytes. intros E.
  apply app_inj_len in E as [E0 E]; [|reflexivity]. injection E0 as E0 E1 E2 E3.
  repeat match type of E with
  | _ ++ _ = _ ++ _ =>
      let F := fresh "F" in apply app_inj_len in E as [F E]; [|(reflexivity || lia)]
  end.
  repeat match goal with
  | H : le32 _ = le32 _ |- _ => apply le32_inj in H; [|lia..]
  | H : le16 _ = le16 _ |- _ => apply le16_inj in H; [|lia..]
  end.
  repeat match goal with H : _ = true |- _ => clear H end.
  destruct p, q. cbn [Types.op Types.htype Types.hlen Types.hops Types.xid Types.secs Types.flags
    Types.ciaddr Types.yiaddr Types.siaddr Types.giaddr Types.chaddr Types.sname Types.file
    Types.cookie Types.options] in *.
  by subst.
Qed.

Lemma of_le_4 d : zlen d = 4 -> bytes_ok d = true -> 0 <= of_le d < 2 ^ 32.
Proof. intros Hl Hb. pose proof (of_le_range d Hb) as H. rewrite Hl in H. exact H. Qed.
Lemma of_le_2 d : zlen d = 2 -> bytes_ok d = true -> 0 <= of_le d < 2 ^ 16.
Proof. intros Hl Hb. pose proof (of_le_range d Hb) as H. rewrite Hl in H. exact H. Qed.

(** What is read from bytes is a well-formed message. *)
Lemma dhcpmsg_of_bytes_ok b p :
  bytes_ok b = true -> dhcpmsg_of_bytes b = Some p -> dhcpmsg_ok p = true.
Proof.
  intros Hb. unfold dhcpmsg_of_bytes. intros E.
  repeat match type of E with
  | (rd b ?i ≫= _) = _ => let H := fresh "B" in destruct (rd b i) eqn:H; [|done]; cbn [mbind option_bind] in E
  | (rd_range b ?i ?n ≫= _) = _ => let H := fresh "R" in destruct (rd_range b i n) eqn:H; [|done]; cbn [mbind option_bind] in E
  end.
  injection E as <-. unfold dhcpmsg_ok.
  cbn [op htype hlen hops xid secs flags ciaddr yiaddr siaddr giaddr chaddr sname file cookie options].
  repeat match goal with
  | H : rd b _ = Some ?v |- _ => apply rd_elem, (bytes_ok_elem _ _ Hb) in H
  | H : rd_range b _ 4 = Some ?d |- _ =>
      pose proof (of_le_4 d (rd_range_len _ _ _ _ H) (bytes_ok_rd_range _ _ _ _ Hb H)); clear H
  | H : rd_range b _ 2 = Some ?d |- _ =>
      pose proof (of_le_2 d (rd_range_len _ _ _ _ H) (bytes_ok_rd_range _ _ _ _ Hb H)); clear H
  | H : rd_range b _ _ = Some ?d |- _ =>
      rewrite (rd_range_len _ _ _ _ H), (bytes_ok_rd_range _ _ _ _ Hb H); clear H
  end.
  unfold byte_ok, sizeof_chaddr, sizeof_sname, sizeof_file, sizeof_options.
  change (2 ^ 32) with 4294967296 in *. change (2 ^ 16) with 65536 in *. lia.
Qed.

(** * Transport: bounds of what is sent and received *)

Lemma iphdr_bytes_len a b c d e f g h : zlen (iphdr_bytes a b c d e f g h) = 20.
Proof. reflexivity. Qed.
Lemma udphdr_bytes_len a b c d : zlen (udphdr_bytes a b c d) = 8.
Proof. reflexivity. Qed.

Section Transport.
Context `{!Env}.

(** The frame is the IP and UDP headers followed by the message up to and with
    its end marker. *)
Lemma raw_frame_spec payload el :
  msg_ok payload -> 0 <= el <= sizeof_options ->
  exists ip udp, raw_frame payload el
      = Some (ip ++ udp ++ take (Z.to_nat (offsetof_options + el)) (dhcpmsg_bytes payload)) /\
    zlen ip = sizeof_iphdr /\ zlen udp = sizeof_udphdr /\
    ip_version ip = Some IPVERSION /\ ip_ihl ip = Some 5 /\ ip_protocol ip = Some IPPROTO_UDP /\
    ip_tot_len ip = Some (htons (sizeof_iphdr + sizeof_udphdr + offsetof_options + el)) /\
    ip_saddr ip = Some INADDR_ANY /\ ip_daddr ip = Some INADDR_BROADCAST.
Proof.
  intros Hp Hel. pose proof (dhcpmsg_bytes_len payload Hp) as Hl.
  unfold raw_frame, sizeof_ip_udp_dhcp_packet, sizeof_udp_dhcp_packet, sizeof_iphdr, sizeof_udphdr,
    sizeof_dhcpmsg, sizeof_options, offsetof_options in *. cbv zeta.
  set (udp0 := udphdr_bytes _ _ _ 0 ++ dhcpmsg_bytes payload).
  assert (Hu0 : zlen udp0 = 556) by (subst udp0; rewrite zlen_app, udphdr_bytes_len; lia).
  destruct (rd_range_Some udp0 0 (8 + 548 - (308 - el))) as (ud & -> & _); [lia..|].
  cbn [mbind option_bind].
  set (ip := iphdr_bytes IPVERSION 5 _ _ _ _ _ _). set (udp := udphdr_bytes _ _ _ _).
  exists ip, udp. split; [|split; [reflexivity|split; [reflexivity|]]].
  - unfold rd_range. rewrite !zlen_app, Hl.
    change (zlen ip) with 20. change (zlen udp) with 8.
    zcases; cbn [andb]. change (drop (Z.to_nat 0) ?l) with l. f_equal.
    replace (Z.to_nat (20 + 8 + 548 - (308 - el))) with (length ip + (length udp + Z.to_nat (240 + el)))%nat
      by (change (length ip) with 20%nat; change (length udp) with 8%nat; lia).
    by rewrite !take_app_add.
  - subst ip. rewrite u16_id by lia. repeat (split; [reflexivity|]).
    split; [|split; reflexivity].
    unfold ip_tot_len, iphdr_bytes. cbn [app le16].
    change (rd_range (_ :: _ :: ?a :: ?b :: _) 2 2) with (Some [a; b]). cbn.
    replace (20 + 8 + 548 - (308 - el)) with (20 + 8 + 240 + el) by lia.
    change (of_le (le16 ?v)) with (of_le [u8 v; u8 (Z.shiftr v 8)]).
    f_equal. exact (of_le_le16 _ (htons_range _)).
Qed.
End Transport.

Lemma ip_field_total (b : list Z) i :
  zlen b = sizeof_ip_udp_dhcp_packet -> bytes_ok b = true -> 0 <= i <= 574 ->
  exists v, (of_le <$> rd_range b i 2) = Some v /\ 0 <= v < 2 ^ 16.
Proof.
  unfold sizeof_ip_udp_dhcp_packet, sizeof_iphdr, sizeof_udphdr, sizeof_dhcpmsg.
  intros Hl Hb Hi. destruct (rd_range_Some b i 2) as (d & Hd & Hdl); [lia..|]. rewrite Hd.
  eexists; split; [done|]. apply of_le_2; [done|]. by eapply bytes_ok_rd_range.
Qed.
Lemma ip_addr_total (b : list Z) i :
  zlen b = sizeof_ip_udp_dhcp_packet -> bytes_ok b = true -> 0 <= i <= 572 ->
  exists v, (of_le <$> rd_range b i 4) = Some v /\ 0 <= v < 2 ^ 32.
Proof.
  unfold sizeof_ip_udp_dhcp_packet, sizeof_iphdr, sizeof_udphdr, sizeof_dhcpmsg.
  intros Hl Hb Hi. destruct (rd_range_Some b i 4) as (d & Hd & Hdl); [lia..|]. rewrite Hd.
  eexists; split; [done|]. apply of_le_4; [done|]. by eapply bytes_ok_rd_range.
Qed.

Lemma min_size_t_min a b : min_size_t a b = Z.min a b.
Proof. unfold min_size_t. zcases. Qed.

Section Receive.
Context `{!Env}.
Context (packet : list Z) (Hl : zlen packet = sizeof_ip_udp_dhcp_packet)
        (Hb : bytes_ok packet = true).

Lemma udp_checksum_total : exists v, udp_checksum packet = Some v.
Proof using Hl Hb.
  unfold udp_checksum, ip_saddr, ip_daddr, ip_protocol, udp_len.
  destruct (ip_addr_total packet 12 Hl Hb) as (sa & -> & _); [lia|].
  destruct (ip_addr_total packet 16 Hl Hb) as (da & -> & _); [lia|].
  destruct (rd_Some packet 9) as (pr & -> & _); [rewrite Hl; split; reflexivity + done|].
  destruct (ip_field_total packet 24 Hl Hb) as (le & -> & _); [lia|].
  cbn [mbind option_bind]. cbv zeta. rewrite min_size_t_min.
  pose proof (htons_range le). unfold ntohs.
  unfold sizeof_ip_udp_dhcp_packet, sizeof_iphdr, sizeof_udphdr, sizeof_dhcpmsg in *.
  destruct (rd_range_Some packet 20 (Z.min (htons le) (20 + 8 + 548 - 20))) as (d & -> & _); [lia..|].
  cbn. eauto.
Qed.

Lemma validate_bpf_total : exists v, get_raw_packet_validate_bpf packet = Some v.
Proof using Hl Hb.
  unfold get_raw_packet_validate_bpf, ip_version, ip_ihl, ip_protocol, udp_dest, udp_len, ip_tot_len.
  destruct (rd_Some packet 0) as (v & -> & _); [rewrite Hl; split; reflexivity + done|].
  destruct (rd_Some packet 9) as (pr & -> & _); [rewrite Hl; split; reflexivity + done|].
  destruct (ip_field_total packet 22 Hl Hb) as (de & -> & _); [lia|].
  destruct (ip_field_total packet 24 Hl Hb) as (le & -> & _); [lia|].
  destruct (ip_field_total packet 2 Hl Hb) as (to & -> & _); [lia|].
  cbn [mbind option_bind]. repeat (case_match; [by eauto|]). eauto.
Qed.

(** Whatever was received, parsing stays inside the packet and the payload; a
    positive result [l] is the length the IP header claims less the headers, at
    most the message's size and at most what was received; the payload then
    starts with the [l] bytes that follow the headers. *)
Lemma parse_raw_packet_total bpf inc payload :
  msg_ok payload ->
  exists r p' src, parse_raw_packet bpf inc packet payload = Some (r, p', src) /\ msg_ok p' /\
    (r = -2 /\ p' = payload \/
     0 < r <= sizeof_dhcpmsg /\ sizeof_iphdr + sizeof_udphdr + r <= inc /\
     ntohs (default 0 (ip_tot_len packet)) = sizeof_iphdr + sizeof_udphdr + r /\
     ip_saddr packet = Some src /\
     exists data, rd_range packet (sizeof_iphdr + sizeof_udphdr) r = Some data /\
       dhcpmsg_bytes p' = data ++ drop (Z.to_nat r) (dhcpmsg_bytes payload)).
Proof using Hl Hb.
  intros Hp. unfold parse_raw_packet.
  destruct (ip_field_total packet 2 Hl Hb) as (tot & Ht & _); [lia|].
  unfold ip_tot_len at 1. rewrite Ht. cbn [mbind option_bind]. cbv zeta.
  assert (Htr : exists r p' src, Some (-2, payload, 0) = Some (r, p', src) /\ msg_ok p' /\
     (r = -2 /\ p' = payload \/ 0 < r <= sizeof_dhcpmsg /\ sizeof_iphdr + sizeof_udphdr + r <= inc /\
     ntohs (default 0 (ip_tot_len packet)) = sizeof_iphdr + sizeof_udphdr + r /\
     ip_saddr packet = Some src /\
     exists data, rd_range packet (sizeof_iphdr + sizeof_udphdr) r = Some data /\
       dhcpmsg_bytes p' = data ++ drop (Z.to_nat r) (dhcpmsg_bytes payload))) by eauto 10.
  zcase; [done|].
  assert (exists v, (if bpf then Some true else get_raw_packet_validate_bpf packet) = Some v)
    as (v & ->) by (destruct bpf; eauto using validate_bpf_total).
  cbn [mbind option_bind]. destruct v; [|done]. cbn [negb].
  unfold ip_checksum.
  destruct (rd_range_Some packet 0 sizeof_iphdr) as (h & -> & _); [rewrite ?Hl; done..|].
  cbn [mbind option_bind]. zcase; cbn [negb]; [|done].
  zcase; [done|]. zcase; [done|].
  destruct (ip_field_total packet 26 Hl Hb) as (ck & Hck & _); [lia|].
  unfold udp_check. rewrite Hck. cbn [mbind option_bind].
  assert (exists v, (if ck =? 0 then Some true else udp_checksum packet) = Some v)
    as (v & ->) by (destruct (ck =? 0); eauto using udp_checksum_total).
  cbn [mbind option_bind]. destruct v; [|done]. cbn [negb].
  destruct (ip_addr_total packet 12 Hl Hb) as (sa & Hsa & _); [lia|].
  unfold ip_saddr at 1. rewrite Hsa. cbn [mbind option_bind].
  set (r := ntohs tot - sizeof_iphdr - sizeof_udphdr) in *.
  pose proof (dhcpmsg_bytes_len payload Hp) as Hpl.
  destruct (rd_range_Some packet (sizeof_iphdr + sizeof_udphdr) r) as (data & Hd & Hdl);
    [done|lia|unfold sizeof_ip_udp_dhcp_packet in Hl; lia|].
  rewrite Hd. cbn [mbind option_bind].
  change (dhcpmsg_bytes payload) with ([] ++ dhcpmsg_bytes payload) at 1.
  rewrite wr_range_tail by (done || lia). cbn [app mbind option_bind].
  destruct (dhcpmsg_of_bytes_total (data ++ drop (length data) (dhcpmsg_bytes payload)))
    as (p' & -> & Hp' & Hpb).
  { unfold zlen in *. rewrite length_app, length_drop. lia. }
  { rewrite bytes_ok_app, (bytes_ok_rd_range _ _ _ _ Hb Hd). cbn [andb].
    by apply bytes_ok_drop, dhcpmsg_bytes_ok. }
  cbn [mbind option_bind]. exists r, p', sa. split; [done|]. split; [done|]. right.
  split; [lia|]. split; [lia|].
  split; [unfold ip_tot_len; rewrite Ht; change (default 0 (Some tot)) with tot; subst r; lia|].
  split; [by unfold ip_saddr|]. exists data. split; [done|]. rewrite Hpb.
  unfold zlen in Hdl. by replace (Z.to_nat r) with (length data) by lia.
Qed.
End Receive.

(** A message that can be sent. *)
Definition sendable (p : dhcpmsg) : Prop := msg_ok p /\ exists os, carries p os.

Lemma builds_sendable r cc x ci os :
  config_ok cc -> builds r (client_header cc x ci) os -> exists p, r = Some p /\ sendable p.
Proof.
  intros Hcc (o & -> & Hc). eexists. split; [done|]. split; [|eauto].
  pose proof (ok_arp _ Hcc). pose proof (ok_arp_bytes _ Hcc) as Hab.
  destruct Hc as [Hb _]. constructor; [done| | |]; cbn.
  - unfold sizeof_chaddr. zlen_lia.
  - lia.
  - rewrite bytes_ok_app. by rewrite Hab.
Qed.

Lemma sendable_end p : sendable p ->
  exists e, get_end_option_idx p = Some e /\ 0 <= e < sizeof_options.
Proof.
  intros [Hm [os Hc]]. exists (zlen (encode_opts os)).
  split; [by apply get_end_option_idx_carries|].
  destruct Hc as [Hb [_ [tail Ht]]]. pose proof (ok_options p Hb) as Hl. rewrite Ht in Hl. zlen_lia.
Qed.

Lemma take_recv (data : list Z) :
  let d := take (Z.to_nat sizeof_ip_udp_dhcp_packet) (List.map u8 data) in
  let packet := d ++ zeros (Z.to_nat sizeof_ip_udp_dhcp_packet - length d) in
  zlen packet = sizeof_ip_udp_dhcp_packet /\ bytes_ok packet = true.
Proof.
  cbv zeta. set (d := take _ _).
  assert (Hd : (length d <= 576)%nat) by (subst d; rewrite length_take; apply Nat.le_min_l).
  change (Z.to_nat sizeof_ip_udp_dhcp_packet) with 576%nat. split.
  - unfold zlen, zeros. rewrite length_app, length_replicate. 
    unfold sizeof_ip_udp_dhcp_packet, sizeof_iphdr, sizeof_udphdr, sizeof_dhcpmsg. lia.
  - rewrite bytes_ok_app. apply andb_true_intro. split.
    + apply bytes_ok_take, bytes_ok_Forall, List.Forall_map, List.Forall_forall.
      intros x _. apply u8_range.
    + apply bytes_ok_Forall. unfold zeros. by apply Forall_replicate.
Qed.

(** The answer to "is this a message for us?", decided on the message alone. *)
Lemma validate_dhcp_packet_total cc our_xid len p :
  config_ok cc -> msg_ok p -> exists r, validate_dhcp_packet cc our_xid len p = Some r.
Proof.
  intros Hcc [Hb Hca _ Hcb]. unfold validate_dhcp_packet. unfold sizeof_chaddr in Hca.
  zcase; [eauto|]. destruct (negb _); [eauto|]. destruct (negb _); [eauto|].
  destruct (rd_range_Some (chaddr p) 0 6) as (ca & -> & _); [lia..|]. cbn [mbind option_bind].
  destruct (negb _); [eauto|].
  destruct (get_end_option_idx_total p Hb) as (e & -> & _). cbn [mbind option_bind].
  zcase; [eauto|].
  assert (exists t, get_option_msgtype p = Some t) as (t & ->).
  { unfold get_option_msgtype.
    destruct (get_dhcp_opt_total p DCODE_MSGTYPE MAX_DOPT_SIZE Hb) as (d & -> & _); [done|].
    cbn [mbind option_bind]. zcase; [|eauto]. destruct (rd_Some d 0) as (v & -> & _); [lia|eauto]. }
  cbn [mbind option_bind]. zcase; [eauto|].
  destruct (get_dhcp_opt_total p DCODE_CLIENT_ID MAX_DOPT_SIZE Hb) as (cid & Hcid & _); [done|].
  unfold get_option_clientid. change (MAX_DOPT_SIZE <? 1) with false. cbv iota. rewrite Hcid.
  cbn [mbind option_bind]. zcase; [eauto|]. cbv zeta. rewrite min_size_t_min.
  destruct Hcc. zlen_pos.
  destruct (rd_range_Some (clientid cc) 0 (Z.min (zlen cid) (clientid_len cc))) as (o & -> & _); [lia..|].
  destruct (rd_range_Some cid 0 (Z.min (zlen cid) (clientid_len cc))) as (t' & -> & _); [lia..|].
  cbn. eauto.
Qed.

Section DhcpOps.
Context `{!Env}.

Lemma get_raw_broadcast_socket_io : io_only get_raw_broadcast_socket.
Proof. unfold get_raw_broadcast_socket. io_tac. Qed.
Lemma get_udp_unicast_socket_io : io_only get_udp_unicast_socket.
Proof. unfold get_udp_unicast_socket. io_tac. Qed.
#[local] Hint Resolve get_raw_broadcast_socket_io get_udp_unicast_socket_io : io.
Lemma send_dhcp_raw_io p : io_only (send_dhcp_raw p).
Proof. unfold send_dhcp_raw. io_tac. Qed.
Lemma send_dhcp_unicast_io p : io_only (send_dhcp_unicast p).
Proof. unfold send_dhcp_unicast. io_tac. Qed.
Lemma build_io f : io_only (build f).
Proof. unfold build. io_tac. Qed.
#[local] Hint Resolve send_dhcp_raw_io send_dhcp_unicast_io build_io : io.
Lemma send_discover_io : io_only send_discover.
Proof. unfold send_discover. io_tac. Qed.
Lemma send_selecting_io : io_only send_selecting.
Proof. unfold send_selecting. io_tac. Qed.
Lemma send_renew_io : io_only send_renew.
Proof. unfold send_renew. io_tac. Qed.
Lemma send_rebind_io : io_only send_rebind.
Proof. unfold send_rebind. io_tac. Qed.
Lemma send_decline_io s : io_only (send_decline s).
Proof. unfold send_decline. io_tac. Qed.
Lemma send_release_io : io_only send_release.
Proof. unfold send_release. io_tac. Qed.

Lemma get_raw_broadcast_socket_safe : safe world_ok get_raw_broadcast_socket (fun _ => True).
Proof. unfold get_raw_broadcast_socket. safe_tac. Qed.
Lemma get_udp_unicast_socket_safe : safe world_ok get_udp_unicast_socket (fun _ => True).
Proof. unfold get_udp_unicast_socket. safe_tac. Qed.
Lemma get_raw_listen_socket_safe : safe world_ok get_raw_listen_socket (fun _ => True).
Proof. unfold get_raw_listen_socket. safe_tac. Qed.
#[local] Hint Resolve get_raw_broadcast_socket_safe get_udp_unicast_socket_safe
  get_raw_listen_socket_safe : safe.
Lemma start_dhcp_listen_safe : safe world_ok start_dhcp_listen (fun _ => True).
Proof. unfold start_dhcp_listen. safe_tac. Qed.
Lemma stop_dhcp_listen_safe : safe world_ok stop_dhcp_listen (fun _ => True).
Proof. unfold stop_dhcp_listen. safe_tac. Qed.
#[local] Hint Resolve start_dhcp_listen_safe stop_dhcp_listen_safe : safe.

Lemma ub_end_safe p : sendable p ->
  safe world_ok (ub (get_end_option_idx p)) (fun e => 0 <= e < sizeof_options).
Proof. intros Hs. apply safe_ub. destruct (sendable_end p Hs) as (e & He & Hr). eauto. Qed.

Lemma send_dhcp_raw_safe p : sendable p -> safe world_ok (send_dhcp_raw p) (fun _ => True).
Proof.
  intros Hs. unfold send_dhcp_raw. safe_step. safe_step; [safe_tac|].
  eapply safe_bind; [by apply ub_end_safe|]. intros e He.
  safe_step; [safe_tac|]. safe_step; [safe_tac|].
  eapply safe_bind.
  { apply (safe_ub _ _ (fun _ => True)).
    destruct (raw_frame_spec p (e + 1)) as (ip & udp & -> & _); [apply Hs|lia|eauto]. }
  intros fr _. safe_tac.
Qed.

Lemma send_dhcp_unicast_safe p : sendable p -> safe world_ok (send_dhcp_unicast p) (fun _ => True).
Proof.
  intros Hs. unfold send_dhcp_unicast. safe_step. safe_step; [safe_tac|].
  safe_step. safe_step. safe_step. safe_step; [safe_tac|].
  eapply safe_bind; [by apply ub_end_safe|]. intros e He.
  safe_step; [safe_tac|]. safe_step; [safe_tac|]. safe_step. safe_step; [safe_tac|].
  eapply safe_bind.
  { apply (safe_ub _ _ (fun _ => True)).
    unfold sizeof_dhcpmsg, sizeof_options in *. pose proof (dhcpmsg_bytes_len p (proj1 Hs)) as Hl.
    unfold sizeof_dhcpmsg in Hl.
    destruct (rd_range_Some (dhcpmsg_bytes p) 0 (548 - (308 - (e + 1)))) as (d & -> & _); [lia..|eauto]. }
  intros d _. safe_tac.
Qed.

Lemma build_safe f :
  (forall cc c, config_ok cc -> exists p, f cc c = Some p /\ sendable p) ->
  safe world_ok (build f) sendable.
Proof.
  intros Hf. unfold build. safe_step. apply safe_ub. cbn. apply Hf, Hw.
Qed.

Ltac send_tac builds := eapply safe_bind;
  [apply build_safe; intros; eapply builds_sendable; [done|by apply builds]
  |intros ? ?; first [by apply send_dhcp_raw_safe | by apply send_dhcp_unicast_safe]].
Lemma send_discover_safe : safe world_ok send_discover (fun _ => True).
Proof. unfold send_discover. send_tac discover_builds. Qed.
Lemma send_selecting_safe : safe world_ok send_selecting (fun _ => True).
Proof. unfold send_selecting. send_tac selecting_builds. Qed.
Lemma send_renew_safe : safe world_ok send_renew (fun _ => True).
Proof. unfold send_renew. send_tac renew_builds. Qed.
Lemma send_rebind_safe : safe world_ok send_rebind (fun _ => True).
Proof. unfold send_rebind. send_tac rebind_builds. Qed.
Lemma send_decline_safe s : safe world_ok (send_decline s) (fun _ => True).
Proof. unfold send_decline. send_tac decline_builds. Qed.
Lemma send_release_safe : safe world_ok send_release (fun _ => True).
Proof. unfold send_release. safe_step. send_tac release_builds. Qed.

Lemma get_raw_packet_safe p :
  msg_ok p -> safe world_ok (get_raw_packet p) (fun r => msg_ok (snd (fst r))).
Proof.
  intros Hp. unfold get_raw_packet. safe_step. safe_step; [by safe_tac..|].
  safe_step. apply safe_ub. pose proof (take_recv data) as [Hl Hb].
  destruct (parse_raw_packet_total _ Hl Hb (using_dhcp_bpf (cs w))
    (zlen (take (Z.to_nat sizeof_ip_udp_dhcp_packet) (List.map u8 data))) p Hp)
    as (r & p' & src & Hr & Hp' & _). eauto.
Qed.

Lemma dhcp_packet_get_safe p :
  msg_ok p -> safe world_ok (dhcp_packet_get p) (fun r => msg_ok (snd (fst (fst r)))).
Proof.
  intros Hp. unfold dhcp_packet_get. safe_step. safe_step; [by safe_tac|].
  eapply safe_bind; [by apply get_raw_packet_safe|]. intros [[r p'] src] Hp'. cbn in Hp'.
  safe_step; [by safe_tac|]. safe_step.
  eapply safe_bind; [|intros v _; by safe_tac].
  apply (safe_ub _ _ (fun _ => True)). cbn [fst snd].
  destruct (validate_dhcp_packet_total (client_config w0) (cs_xid (cs w0)) r p') as (v & ->);
    [apply Hw0|done|eauto].
Qed.
End DhcpOps.
#[export] Hint Resolve get_raw_broadcast_socket_io get_udp_unicast_socket_io
  send_discover_io send_selecting_io send_renew_io send_rebind_io send_decline_io send_release_io : io.
#[export] Hint Resolve start_dhcp_listen_safe stop_dhcp_listen_safe send_discover_safe
  send_selecting_safe send_renew_safe send_rebind_safe send_decline_safe send_release_safe : safe.

(** * The transport's correctness *)

(** C28. Every message the client builds succeeds, fits the options field, and says
    exactly the options meant for it, in order: message type and client id, then
    (by message) the requested address and the server id, then maximum size,
    parameter list, vendor and host name.  The header carries the transaction id,
    the hardware address and, for renewals and releases, the client address. *)
Theorem client_messages_carry (cc : client_config_t) (c : client_state_t) (server x : Z) :
  config_ok cc ->
  builds (discover_packet cc c) (client_header cc (cs_xid c) 0) (discover_opts cc c) /\
  builds (selecting_request cc c) (client_header cc (cs_xid c) 0) (selecting_opts cc c) /\
  builds (renew_request cc c) (client_header cc (cs_xid c) (clientAddr c)) (renew_opts cc) /\
  builds (rebind_request cc c) (client_header cc (cs_xid c) (clientAddr c)) (rebind_opts cc c) /\
  builds (decline_packet cc c server) (client_header cc (cs_xid c) 0) (decline_opts cc c server) /\
  builds (release_packet cc c x) (client_header cc x (clientAddr c)) (release_opts cc c).
Proof.
  intros Hcc. split_and!; [by apply discover_builds|by apply selecting_builds|by apply renew_builds
    |by apply rebind_builds|by apply decline_builds|by apply release_builds].
Qed.

Lemma client_messages_carry_witness :
  builds (selecting_request sample_config initial_cs) (client_header sample_config 0 0)
         (selecting_opts sample_config initial_cs).
Proof. apply (client_messages_carry sample_config initial_cs 0 0 sample_config_ok). Defined.

(** The memory image of a message and the message are two views of the same 548
    bytes: reading back what was written gives the message, writing what was
    read gives the bytes. *)
Theorem dhcpmsg_image_roundtrip (p : dhcpmsg) (b : list Z) :
  dhcpmsg_ok p = true -> zlen b = sizeof_dhcpmsg -> bytes_ok b = true ->
  dhcpmsg_of_bytes (dhcpmsg_bytes p) = Some p /\
  exists q, dhcpmsg_of_bytes b = Some q /\ dhcpmsg_bytes q = b.
Proof.
  intros Hp Hl Hb. pose proof (dhcpmsg_ok_msg p Hp) as Hm. split.
  - destruct (dhcpmsg_of_bytes_total (dhcpmsg_bytes p)) as (q & Hq & _ & Hqb);
      [by apply dhcpmsg_bytes_len|by apply dhcpmsg_bytes_ok|].
    rewrite Hq. f_equal. apply dhcpmsg_bytes_inj; [|done|done].
    eapply dhcpmsg_of_bytes_ok; [|exact Hq]. by apply dhcpmsg_bytes_ok.
  - destruct (dhcpmsg_of_bytes_total b Hl Hb) as (q & Hq & _ & Hqb). eauto.
Qed.

Lemma dhcpmsg_image_roundtrip_witness :
  dhcpmsg_of_bytes (dhcpmsg_bytes (sample_message 5 [])) = Some (sample_message 5 []) /\
  exists q, dhcpmsg_of_bytes (replicate 548 255) = Some q /\ dhcpmsg_bytes q = replicate 548 255.
Proof. apply dhcpmsg_image_roundtrip; vm_compute; reflexivity. Defined.

(** The IP packet sent for a message is an IPv4 header without options, a UDP
    header and the message up to and including its end marker, nothing more:
    from 0.0.0.0 to the broadcast address, with the total length of exactly
    these bytes. *)
Theorem raw_frame_layout `{!Env} (payload : dhcpmsg) (os : list (Z * list Z)) :
  msg_ok payload -> carries payload os ->
  exists ip udp, raw_frame payload (encoded_size os)
      = Some (ip ++ udp ++
              take (Z.to_nat (offsetof_options + encoded_size os)) (dhcpmsg_bytes payload)) /\
    zlen ip = sizeof_iphdr /\ zlen udp = sizeof_udphdr /\
    ip_version ip = Some IPVERSION /\ ip_ihl ip = Some 5 /\ ip_protocol ip = Some IPPROTO_UDP /\
    ip_tot_len ip
      = Some (htons (sizeof_iphdr + sizeof_udphdr + offsetof_options + encoded_size os)) /\
    ip_saddr ip = Some INADDR_ANY /\ ip_daddr ip = Some INADDR_BROADCAST.
Proof.
  intros Hm Hc. apply raw_frame_spec; [done|]. destruct Hc as [Hb [_ [tail Ht]]].
  pose proof (ok_options _ Hb) as Hl. rewrite Ht in Hl. unfold encoded_size. zlen_lia.
Qed.

Lemma raw_frame_layout_witness :
  let _ := sample_env 0 0 in
  let p := dhcpmsg_zero <| options := [53; 1; 1; 255] ++ zeros 304 |> in
  exists ip udp, raw_frame p 4 = Some (ip ++ udp ++ take 244 (dhcpmsg_bytes p)) /\
    zlen ip = 20 /\ zlen udp = 8 /\ ip_version ip = Some 4 /\ ip_ihl ip = Some 5 /\
    ip_protocol ip = Some 17 /\ ip_tot_len ip = Some (htons (20 + 8 + 240 + 4)) /\
    ip_saddr ip = Some 0 /\ ip_daddr ip = Some 0xffffffff.
Proof.
  intros env p. apply (raw_frame_layout (H := env) p [(53, [1])]).
  - apply dhcpmsg_ok_msg. vm_compute. reflexivity.
  - split; [apply dhcpmsg_ok_bufs; vm_compute; reflexivity|]. split; [reflexivity|].
    eexists. reflexivity.
Defined.

(** C14. Whatever arrives on the raw socket, whatever the checksum routines answer:
    parsing it stays inside the received packet and the 548-byte message.  The
    packet is dropped (-2, the message untouched) or accepted with the payload
    length [r] that its IP header claims, never more than was received; then the
    message starts with the [r] bytes after the headers and keeps the rest. *)
Theorem parse_raw_packet_in_bounds `{!Env} (bpf : bool) (inc : Z) (packet : list Z)
    (payload : dhcpmsg) :
  zlen packet = sizeof_ip_udp_dhcp_packet -> bytes_ok packet = true -> msg_ok payload ->
  exists r p' src, parse_raw_packet bpf inc packet payload = Some (r, p', src) /\ msg_ok p' /\
    (r = -2 /\ p' = payload \/
     0 < r <= sizeof_dhcpmsg /\ sizeof_iphdr + sizeof_udphdr + r <= inc /\
     ntohs (default 0 (ip_tot_len packet)) = sizeof_iphdr + sizeof_udphdr + r /\
     ip_saddr packet = Some src /\
     exists data, rd_range packet (sizeof_iphdr + sizeof_udphdr) r = Some data /\
       dhcpmsg_bytes p' = data ++ drop (Z.to_nat r) (dhcpmsg_bytes payload)).
Proof. intros Hl Hb Hp. by apply parse_raw_packet_total. Qed.

Lemma parse_raw_packet_in_bounds_witness :
  let _ := sample_env 0 0 in
  let packet := [69; 0; 1; 0] ++ replicate 572 7 in
  exists r p' src, parse_raw_packet true 300 packet dhcpmsg_zero = Some (r, p', src) /\ msg_ok p' /\
    (r = -2 /\ p' = dhcpmsg_zero \/
     0 < r <= 548 /\ 20 + 8 + r <= 300 /\
     ntohs (default 0 (ip_tot_len packet)) = 20 + 8 + r /\
     ip_saddr packet = Some src /\
     exists data, rd_range packet (20 + 8) r = Some data /\
       dhcpmsg_bytes p' = data ++ drop (Z.to_nat r) (dhcpmsg_bytes dhcpmsg_zero)).
Proof.
  intros env packet.
  apply (parse_raw_packet_in_bounds (H := env)); [vm_compute; reflexivity..|].
  by apply dhcpmsg_ok_msg.
Defined.

(** Walking over the fields of [o] from [i] on leads to an END marker. *)
Inductive ends_options (o : list Z) : Z -> Prop :=
| eo_end i : rd o i = Some DCODE_END -> ends_options o i
| eo_padding i : rd o i = Some DCODE_PADDING -> ends_options o (i + 1) -> ends_options o i
| eo_field i c n :
    rd o i = Some c -> c <> DCODE_END -> c <> DCODE_PADDING -> rd o (i + 1) = Some n ->
    ends_options o (i + 2 + n) -> ends_options o i.

(** [end_option_scan] finds the END marker exactly when there is one. *)
Lemma end_option_scan_iff fuel o i :
  zlen o = sizeof_options -> bytes_ok o = true -> 0 <= i -> sizeof_options - i < Z.of_nat fuel -> (0 < fuel)%nat ->
  exists e, end_option_scan fuel o i = Some e /\ (0 <= e <-> ends_options o i).
Proof.
  intros Hl Hb. revert i. induction fuel as [|fuel IH]; intros i Hi Hf Hpos; [lia|]. cbn [end_option_scan].
  assert (Hnot : sizeof_options <= i -> ~ ends_options o i).
  { intros Hge He. inversion He as [? H1|? H1|? ? ? H1]; subst; apply rd_bound in H1; lia. }
  zcase; [|exists (-1); split; [done|]; split; [lia|intros He; by apply Hnot in He; lia]].
  destruct (rd_Some o i) as (c & Hc & Hin); [lia|]. rewrite Hc. cbn [mbind option_bind].
  zcase; [exists i; split; [done|]; subst; split; [intros _; by apply eo_end|done]|].
  zcase.
  { destruct (IH (i + 1)) as (e & -> & He); [lia..|]. exists e. split; [done|]. rewrite He. subst c.
    split; [intros; by apply eo_padding|]. intros Hx. inversion Hx; subst; congruence. }
  zcase.
  { exists (-1). split; [done|]. split; [lia|]. intros Hx.
    inversion Hx as [? H1|? H1|? ? ? ? ? ? H1]; subst; [congruence..|]. apply rd_bound in H1. lia. }
  destruct (rd_Some o (i + 1)) as (n & Hn & Hin'); [lia|]. rewrite Hn. cbn [mbind option_bind].
  pose proof (bytes_ok_elem _ _ Hb Hin').
  destruct (IH (i + (n + 1) + 1)) as (e & -> & He); [lia..|]. exists e. split; [done|]. rewrite He.
  replace (i + (n + 1) + 1) with (i + 2 + n) by lia.
  split; [intros; by eapply eo_field|]. intros Hx. inversion Hx; subst; congruence.
Qed.
Lemma get_end_option_idx_iff p :
  opt_bufs_ok p -> exists e, get_end_option_idx p = Some e /\ (0 <= e <-> ends_options (options p) 0).
Proof.
  intros Hp. apply end_option_scan_iff; [apply Hp|apply Hp|lia|apply scan_fuel_gt; lia|apply scan_fuel_pos].
Qed.

(** What [validate_dhcp_packet] demands of a message. *)
Record acceptable (cc : client_config_t) (our_xid len : Z) (p : dhcpmsg) (type : Z) : Prop := {
  acc_len : offsetof_options <= len;
  acc_cookie : ntohl (cookie p) = DHCP_MAGIC;
  acc_xid : xid p = our_xid;
  acc_chaddr : take 6 (chaddr p) = arp cc;
  acc_end : ends_options (options p) 0;
  acc_type : get_dhcp_opt p DCODE_MSGTYPE MAX_DOPT_SIZE = Some [type] /\ type <> 0;
  (* a client id, when there is one, agrees with ours as far as both go *)
  acc_clientid : exists cid, get_dhcp_opt p DCODE_CLIENT_ID MAX_DOPT_SIZE = Some cid /\
    let n := Z.to_nat (Z.min (zlen cid) (clientid_len cc)) in
    take n cid = take n (clientid cc)
}.

Lemma rd_range_0 l n : 0 <= n <= zlen l -> rd_range l 0 n = Some (take (Z.to_nat n) l).
Proof. intros. unfold rd_range. zcases. Qed.

(** C15. A received message of any content is accepted exactly when it is long enough, has
    the DHCP cookie, our transaction id and our hardware address, options that lead to
    an END marker, a one-byte message type that is not zero, and no client id that
    contradicts ours; the type handed to the state machine is the one the message
    carries. *)
Theorem validate_accepts_iff (cc : client_config_t) (our_xid len : Z) (p : dhcpmsg) (type : Z) :
  config_ok cc -> msg_ok p ->
  validate_dhcp_packet cc our_xid len p = Some (true, type) <-> acceptable cc our_xid len p type.
Proof.
  intros Hcc [Hb Hca _ _]. unfold sizeof_chaddr in Hca.
  destruct (get_dhcp_opt_total p DCODE_MSGTYPE MAX_DOPT_SIZE Hb) as (ty & Hty & _); [done|].
  destruct (get_dhcp_opt_total p DCODE_CLIENT_ID MAX_DOPT_SIZE Hb) as (cid & Hcid & _); [done|].
  destruct (get_end_option_idx_iff p Hb) as (e & He & Hend).
  unfold validate_dhcp_packet, get_option_msgtype, get_option_clientid.
  change (MAX_DOPT_SIZE <? 1) with false. cbv iota. rewrite Hty, Hcid, He, (rd_range_0 (chaddr p)) by lia.
  cbn [mbind option_bind].
  zcase; [split; [done|intros []; lia]|].
  zcase; cbn [negb]; [|split; [done|by intros []]].
  zcase; cbn [negb]; [|split; [done|by intros []]].
  unfold bytes_eqb at 1. case_bool_decide as Hch; cbn [negb]; [|split; [done|by intros []]].
  zcase; [split; [done|intros [_ _ _ _ Hx _ _]; apply Hend in Hx; lia]|].
  assert (Hx : ends_options (options p) 0) by (apply Hend; lia).
  destruct ty as [|t [|t2 l]];
    [split; [done|intros [_ _ _ _ _ [Ht _] _]; congruence]| |].
  2: { destruct (Z.eqb_spec (zlen (t :: t2 :: l)) 1); [exfalso; zlen_lia|].
    split; [done|intros [_ _ _ _ _ [Ht _] _]; congruence]. }
  change (zlen [t] =? 1) with true. cbv iota. change (rd [t] 0) with (Some t). cbn [mbind option_bind].
  zcase; [split; [done|intros [_ _ _ _ _ [Ht ?] _]; congruence]|].
  pose proof (ok_clientid_len _ Hcc). pose proof (ok_clientid _ Hcc). zlen_pos.
  zcase.
  - split.
    + intros [= <-]. constructor; try done. exists cid. split; [done|]. cbv zeta. rewrite Z.min_l by lia. by rewrite Hz4.
    + intros [_ _ _ _ _ [Ht ?] _]. congruence.
  - cbv zeta. rewrite min_size_t_min.
    rewrite !rd_range_0 by lia. cbn [mbind option_bind]. unfold bytes_eqb. split.
    + intros [= Hc <-]. apply bool_decide_eq_true in Hc. constructor; try done. by exists cid.
    + intros [_ _ _ _ _ [Ht ?] (cid' & Hc' & Hc)]. assert (cid' = cid) as -> by congruence.
      rewrite bool_decide_eq_true_2 by done. congruence.
Qed.

(** A good message, and the same without the END marker. *)
Lemma validate_accepts_iff_witness :
  let p := sample_message 5 [] in
  let q := p <| options := [53; 1; 5; 54; 4; 192; 168; 0; 1] ++ zeros 299 |> in
  (validate_dhcp_packet sample_config 0 300 p = Some (true, 5) <-> acceptable sample_config 0 300 p 5) /\
  (validate_dhcp_packet sample_config 0 300 q = Some (true, 5) <-> acceptable sample_config 0 300 q 5) /\
  validate_dhcp_packet sample_config 0 300 p = Some (true, 5) /\
  validate_dhcp_packet sample_config 0 300 q = Some (false, 0).
Proof.
  intros p q. split; [|split].
  - apply (validate_accepts_iff sample_config 0 300 p 5); [apply sample_config_ok|by apply dhcpmsg_ok_msg].
  - apply (validate_accepts_iff sample_config 0 300 q 5); [apply sample_config_ok|by apply dhcpmsg_ok_msg].
  - split; by vm_compute.
Defined.
