(* ===== verification/Arp.v ===== *)
(** The ARP engine of [arp.c]: the ARP socket, the messages it sends, the
    collision check before a lease is taken, the fingerprint of the network's
    gateway and DHCP server, address announcement and defense, the timers.

    The [long long] time stamps are unbounded integers: milliseconds since boot
    never come near [2^63].  The [int] counters wrap as the build's
    [-fno-strict-overflow] makes them. *)

From S2P Require Import Prelude Types Options World Samples Ipc Ifchange Leasefile Dhcp.
Import Codec.

Definition ARP_MSG_SIZE : Z := 0x2a.
Definition ARP_RETRANS_DELAY : Z := 5000.
Definition ANNOUNCE_WAIT : Z := 2000.
Definition DEFEND_INTERVAL : Z := 10000.

Definition ARPR_OK : Z := 0.
Definition ARPR_FREE : Z := 1.
Definition ARPR_CONFLICT : Z := -1.
Definition ARPR_FAIL : Z := -2.

Definition EXIT_FAILURE : Z := 1.

(** [garp.wake_ts[s] = t]. *)
Definition set_wake_ts (s : arp_state_t) (t : Z) : M unit :=
  set_garp (fun g => g <| wake_ts ::= (fun f => fn_update f s t) |>).
Definition get_wake_ts (s : arp_state_t) : M Z := gets (fun w => wake_ts (garp w) s).
Definition get_send_stats (s : arp_send_t) : M arp_stats :=
  gets (fun w => send_stats (garp w) s).

(** * Messages *)

(** [BASE_ARPMSG()] with [our_mac] for [client_config.arp]. *)
Definition BASE_ARPMSG (our_mac : list Z) : arpMsg :=
  arpMsg_zero
    <| h_proto := htons ETH_P_ARP |> <| a_htype := htons ARPHRD_ETHER |>
    <| a_ptype := htons ETH_P_IP |> <| a_hlen := 6 |> <| a_plen := 4 |>
    <| operation := htons ARPOP_REQUEST |>
    <| h_source := our_mac |> <| h_dest := replicate 6 0xff |> <| smac := our_mac |>.

(** [arp_validate_bpf]: 1 is [true]. *)
Definition arp_validate_bpf (am : arpMsg) : bool :=
  if negb (h_proto am =? htons ETH_P_ARP) then false
  else if negb (a_htype am =? htons ARPHRD_ETHER) then false
  else if negb (a_ptype am =? htons ETH_P_IP) then false
  else if negb (a_hlen am =? 6) then false
  else if negb (a_plen am =? 4) then false
  else true.

Definition arp_validate_bpf_defense (cc : client_config_t) (c : client_state_t)
    (am : arpMsg) : bool :=
  if negb (bytes_eqb (sip4 am) (le32 (clientAddr c))) then false
  else if bytes_eqb (smac am) (arp cc) then false
  else true.

Definition arp_is_query_reply (cc : client_config_t) (am : arpMsg) : bool :=
  if negb (operation am =? htons ARPOP_REPLY) then false
  else if negb (bytes_eqb (h_dest am) (arp cc)) then false
  else if negb (bytes_eqb (dmac am) (arp cc)) then false
  else true.

(** [arp_get_wake_ts]: the loop over the timers from [mt = -1]. *)
Definition arp_wake_step (f : arp_state_t -> Z) (mt : Z) (i : arp_state_t) : Z :=
  if f i <? 0 then mt
  else if (mt <? 0) || (f i <? mt) then f i
  else mt.
Definition arp_get_wake_ts (g : arp_data) : Z :=
  fold_left (arp_wake_step (wake_ts g)) arp_states (-1).

Section Arp.
Context `{!Env}.

(** * The socket *)

Definition arp_min_close_fd : M unit :=
  fd ← gets (fun w => arpFd (cs w));
  if fd <? 0 then mret tt
  else
    epoll_del fd;;
    close fd;;
    set_cs (fun c => c <| arpFd := -1 |> <| arp_is_defense := false |>).

Definition arp_close_fd : M unit :=
  arp_min_close_fd;;
  set_garp (fun g => g <| wake_ts := fun _ => -1 |>).

Definition arp_reset_state : M unit :=
  arp_close_fd;;
  set_garp (fun g => g
    <| reply := arpMsg_zero |> <| last_conflict_ts := 0 |> <| gw_check_initpings := 0 |>
    <| arp_check_start_ts := 0 |> <| total_conflicts := 0 |> <| probe_wait_time := 0 |>
    <| server_replied := false |> <| router_replied := false |>
    <| send_stats := fun _ => {| ts := 0; count := 0 |} |>).

Definition get_arp_basic_socket : M Z :=
  r ← request_sockd_fd (chars "a") true;
  let '(fd, resp) := r in
  (if resp =? ch "A"%char then set_garp (fun g => g <| using_bpf := true |>)
   else if resp =? ch "a"%char then set_garp (fun g => g <| using_bpf := false |>)
   else suicide "get_arp_basic_socket: expected a or A sockd reply");;
  set_cs (fun c => c <| arp_is_defense := false |>);;
  mret fd.

Definition get_arp_defense_socket : M Z :=
  a ← gets (fun w => (clientAddr (cs w), arp (client_config w)));
  mac ← ub (rd_range a.2 0 6);
  r ← request_sockd_fd (ch "d"%char :: le32 a.1 ++ mac) true;
  let '(fd, resp) := r in
  (if resp =? ch "D"%char then set_garp (fun g => g <| using_bpf := true |>)
   else if resp =? ch "d"%char then set_garp (fun g => g <| using_bpf := false |>)
   else suicide "get_arp_defense_socket: expected d or D sockd reply");;
  set_cs (fun c => c <| arp_is_defense := true |>);;
  mret fd.

Definition arp_open_fd (defense : bool) : M Z :=
  c ← gets cs;
  if (0 <=? arpFd c) && Bool.eqb defense (arp_is_defense c) then mret 0
  else
    arp_min_close_fd;;
    fd ← (if defense then get_arp_defense_socket else get_arp_basic_socket);
    set_cs (fun c => c <| arpFd := fd |>);;
    if fd <? 0 then mret (-1)
    else epoll_add fd;; mret 0.

Definition arp_send (msg : arpMsg) : M Z :=
  fd ← gets (fun w => arpFd (cs w));
  if fd <? 0 then mret (-1)
  else
    up ← carrier_isup;
    if negb up then mret (-99)
    else
      emit (AArp fd msg);;
      ret ← ask env_send;
      if (ret <? 0) || negb (ret =? sizeof_arpMsg) then mret ret
      else mret 0.

(** [send_stats[s].count++; send_stats[s].ts = curms();] *)
Definition count_send (s : arp_send_t) : M unit :=
  set_garp (fun g => g <| send_stats ::= (fun f =>
    fn_update f s ((f s) <| count ::= (fun n => i32 (n + 1)) |>)) |>);;
  now ← curms;
  set_garp (fun g => g <| send_stats ::= (fun f => fn_update f s ((f s) <| ts := now |>)) |>).

Definition base_arpmsg : M arpMsg := gets (fun w => BASE_ARPMSG (arp (client_config w))).

Definition arp_ping (test_ip : Z) : M Z :=
  base ← base_arpmsg;
  addr ← gets (fun w => clientAddr (cs w));
  r ← arp_send (base <| sip4 := le32 addr |> <| dip4 := le32 test_ip |>);
  if r <? 0 then mret r
  else count_send ASEND_GW_PING;; mret 0.

Definition arp_ip_anon_ping (test_ip : Z) : M Z :=
  base ← base_arpmsg;
  r ← arp_send (base <| dip4 := le32 test_ip |>);
  if r <? 0 then mret r
  else count_send ASEND_COLLISION_CHECK;; mret 0.

Definition arp_announcement : M Z :=
  base ← base_arpmsg;
  addr ← gets (fun w => clientAddr (cs w));
  r ← arp_send (base <| sip4 := le32 addr |> <| dip4 := le32 addr |>);
  if r <? 0 then mret r
  else count_send ASEND_ANNOUNCE;; mret 0.

(** * Starting the checks *)

Definition arp_check (packet : dhcpmsg) : M Z :=
  set_garp (fun g => g <| dhcp_packet := packet |>);;
  r ← arp_open_fd false;
  if r <? 0 then mret (-1)
  else
    r ← arp_ip_anon_ping (yiaddr packet);
    if r <? 0 then mret (-1)
    else
      st ← get_send_stats ASEND_COLLISION_CHECK;
      set_garp (fun g => g <| arp_check_start_ts := ts st |>);;
      pw ← gets arp_probe_wait;
      set_garp (fun g => g <| probe_wait_time := u16 pw |>);;
      set_wake_ts AS_COLLISION_CHECK (ts st + u16 pw);;
      mret 0.

(** [wake_ts[s] = send_stats[ASEND_GW_PING].ts + d] *)
Definition wake_after_ping (s : arp_state_t) (d : Z) : M unit :=
  st ← get_send_stats ASEND_GW_PING;
  set_wake_ts s (ts st + d).

Definition arp_gw_check : M Z :=
  r ← arp_open_fd false;
  if r <? 0 then mret (-1)
  else
    st ← get_send_stats ASEND_GW_PING;
    set_garp (fun g => g <| gw_check_initpings := count st |> <| server_replied := false |>);;
    set_cs (fun c => c <| check_fingerprint := true |>);;
    c ← gets cs;
    r ← arp_ping (srcAddr c);
    if r <? 0 then mret r
    else
      r ← (if negb (routerAddr c =? 0) then
             set_garp (fun g => g <| router_replied := false |>);;
             arp_ping (routerAddr c)
           else
             set_garp (fun g => g <| router_replied := true |>);;
             mret 0);
      if r <? 0 then mret r
      else
        wake_after_ping AS_GW_CHECK (ARP_RETRANS_DELAY + 250);;
        mret 0.

Definition arp_get_gw_hwaddr : M Z :=
  r ← arp_open_fd false;
  if r <? 0 then mret (-1)
  else
    set_cs (fun c => c <| got_server_arp := false |>);;
    c ← gets cs;
    r ← arp_ping (srcAddr c);
    if r <? 0 then mret (-1)
    else
      r ← (if negb (routerAddr c =? 0) then
             set_cs (fun c => c <| got_router_arp := false |>);;
             arp_ping (routerAddr c)
           else
             set_cs (fun c => c <| got_router_arp := true |>);;
             mret 0);
      if r <? 0 then mret (-1)
      else
        wake_after_ping AS_GW_QUERY (ARP_RETRANS_DELAY + 250);;
        mret 0.

Definition arp_set_defense_mode : M Z := arp_open_fd true.

Definition arp_gw_success : M Z :=
  r ← arp_open_fd true;
  if r <? 0 then mret ARPR_FAIL
  else
    set_wake_ts AS_GW_CHECK (-1);;
    r ← arp_announcement;
    mret (if r <? 0 then ARPR_FAIL else ARPR_FREE).

Definition arp_gen_probe_wait : M Z :=
  w ← gets (fun w => (arp_probe_min w, arp_probe_max w));
  let range := i32 (w.2 - w.1) in
  let range := if range <? 1000 then 1000 else range in
  r ← nk_random_u32;
  mret (i32 (w.1 + r mod range)).

(** * Timeouts *)

Definition arp_defense_timeout : M Z :=
  t ← get_wake_ts AS_DEFENSE;
  if negb (t =? -1) then
    set_wake_ts AS_DEFENSE (-1);;
    arp_announcement
  else mret 0.

(** [if (!replied && arp_ping(cs, addr) < 0) return ARPR_FAIL;]: false on failure. *)
Definition ping_unless (replied : World -> bool) (addr : client_state_t -> Z) : M bool :=
  done ← gets replied;
  if done : bool then mret true
  else
    a ← gets (fun w => addr (cs w));
    r ← arp_ping a;
    mret (0 <=? r).

Definition arp_gw_check_timeout (nowts : Z) : M Z :=
  st ← get_send_stats ASEND_GW_PING;
  init ← gets (fun w => gw_check_initpings (garp w));
  if i32 (init + 6) <=? count st then
    set_wake_ts AS_GW_CHECK (-1);;
    mret ARPR_CONFLICT
  else
    let rtts := ts st + ARP_RETRANS_DELAY in
    if nowts <? rtts then set_wake_ts AS_GW_CHECK rtts;; mret ARPR_OK
    else
      ok ← ping_unless (fun w => router_replied (garp w)) routerAddr;
      if negb ok then mret ARPR_FAIL
      else
        ok ← ping_unless (fun w => server_replied (garp w)) srcAddr;
        if negb ok then mret ARPR_FAIL
        else
          wake_after_ping AS_GW_CHECK ARP_RETRANS_DELAY;;
          mret ARPR_OK.

Definition arp_gw_query_timeout (nowts : Z) : M Z :=
  st ← get_send_stats ASEND_GW_PING;
  let rtts := ts st + ARP_RETRANS_DELAY in
  if nowts <? rtts then set_wake_ts AS_GW_QUERY rtts;; mret ARPR_OK
  else
    ok ← ping_unless (fun w => got_router_arp (cs w)) routerAddr;
    if negb ok then mret ARPR_FAIL
    else
      ok ← ping_unless (fun w => got_server_arp (cs w)) srcAddr;
      if negb ok then mret ARPR_FAIL
      else
        wake_after_ping AS_GW_QUERY ARP_RETRANS_DELAY;;
        mret ARPR_OK.

(** The [for (;;)] loop; it never returns to its caller. *)
Fixpoint quit_loop {A} (fuel : nat) (init_ts : Z) : M A :=
  match fuel with
  | O => fatal HFuel
  | S fuel =>
    r ← arp_announcement;
    if 0 <=? r then exit EXIT_SUCCESS
    else
      now ← curms;
      if 60 * 1000 <? now - init_ts then exit EXIT_FAILURE
      else quit_loop fuel init_ts
  end.
Definition quit_after_lease_handler {A} : M A :=
  init_ts ← curms;
  quit_loop env_fuel init_ts.

Definition arp_collision_timeout (nowts : Z) : M Z :=
  g ← gets garp;
  num ← gets arp_probe_num;
  let st := send_stats g ASEND_COLLISION_CHECK in
  if (arp_check_start_ts g + ANNOUNCE_WAIT <=? nowts) || (num <=? count st) then
    set_cs (fun c => c <| clientAddr := yiaddr (dhcp_packet g) |> <| program_init := false |>);;
    set_garp (fun g => g <| last_conflict_ts := 0 |>);;
    set_wake_ts AS_COLLISION_CHECK (-1);;
    r ← ifchange_bind (dhcp_packet g);
    if r <? 0 then suicide "Failed to set the interface IP address and properties!"
    else
      ra ← ub (get_option_router (dhcp_packet g));
      set_cs (fun c => c <| routerAddr := ra |>);;
      stop_dhcp_listen;;
      write_leasefile (yiaddr (dhcp_packet g));;
      quit ← gets (fun w => quit_after_lease (client_config w));
      if quit : bool then quit_after_lease_handler
      else mret ARPR_FREE
  else
    let rtts := ts st + probe_wait_time g in
    if nowts <? rtts then set_wake_ts AS_COLLISION_CHECK rtts;; mret ARPR_OK
    else
      r ← arp_ip_anon_ping (yiaddr (dhcp_packet g));
      if r <? 0 then mret ARPR_FAIL
      else
        wait ← arp_gen_probe_wait;
        set_garp (fun g => g <| probe_wait_time := u16 wait |>);;
        st ← get_send_stats ASEND_COLLISION_CHECK;
        set_wake_ts AS_COLLISION_CHECK (ts st + u16 wait);;
        mret ARPR_OK.

Definition arp_query_gateway : M Z :=
  sent ← gets (fun w => sent_gw_query (cs w));
  if sent : bool then set_wake_ts AS_QUERY_GW_SEND (-1);; mret ARPR_OK
  else
    r ← arp_get_gw_hwaddr;
    if r <? 0 then
      now ← curms;
      set_wake_ts AS_QUERY_GW_SEND (now + ARP_RETRANS_DELAY);;
      mret ARPR_FAIL
    else
      set_cs (fun c => c <| sent_gw_query := true |> <| init_fingerprint_inprogress := true |>);;
      set_wake_ts AS_QUERY_GW_SEND (-1);;
      mret ARPR_OK.

Definition arp_query_gateway_timeout (nowts : Z) : M Z :=
  rtts ← get_wake_ts AS_QUERY_GW_SEND;
  if rtts =? -1 then mret 0
  else if nowts <? rtts then mret 1
  else
    r ← arp_query_gateway;
    mret (if r =? ARPR_OK then 0 else -1).

Definition arp_announce : M Z :=
  c ← gets cs;
  if sent_first_announce c && sent_second_announce c then
    set_wake_ts AS_ANNOUNCE (-1);; mret ARPR_OK
  else
    r ← arp_announcement;
    if r <? 0 then
      now ← curms;
      set_wake_ts AS_ANNOUNCE (now + ARP_RETRANS_DELAY);;
      mret ARPR_FAIL
    else
      c ← gets cs;
      (if negb (sent_first_announce c) then set_cs (fun c => c <| sent_first_announce := true |>)
       else if negb (sent_second_announce c) then set_cs (fun c => c <| sent_second_announce := true |>)
       else mret tt);;
      c ← gets cs;
      (if negb (sent_first_announce c) || negb (sent_second_announce c) then
         now ← curms;
         set_wake_ts AS_ANNOUNCE (now + ARP_RETRANS_DELAY)
       else set_wake_ts AS_ANNOUNCE (-1));;
      mret ARPR_OK.

Definition arp_announce_timeout (nowts : Z) : M Z :=
  rtts ← get_wake_ts AS_ANNOUNCE;
  if rtts =? -1 then mret 0
  else if nowts <? rtts then mret 1
  else
    r ← arp_announce;
    mret (if r =? ARPR_OK then 0 else -1).

(** * Reacting to a received message, [garp.reply] *)

Definition arp_do_defense : M Z :=
  w ← gets id;
  if negb (arp_validate_bpf_defense (client_config w) (cs w) (reply (garp w)))
  then mret ARPR_OK
  else
    nowts ← curms;
    set_wake_ts AS_DEFENSE (-1);;
    g ← gets garp;
    let account :=
      set_garp (fun g => g <| total_conflicts ::= (fun n => u32 (n + 1)) |>
                           <| last_conflict_ts := nowts |>);;
      mret ARPR_OK in
    if (last_conflict_ts g =? 0) || (nowts - last_conflict_ts g <? DEFEND_INTERVAL) then
      r ← arp_announcement;
      if r <? 0 then mret ARPR_FAIL else account
    else if negb (relentless_def g) then
      _ ← send_release;
      mret ARPR_CONFLICT
    else
      set_wake_ts AS_DEFENSE (ts (send_stats g ASEND_ANNOUNCE) + DEFEND_INTERVAL);;
      account.

(** Both addresses are known: stop asking and switch to the defense socket. *)
Definition gw_query_complete : M Z :=
  set_wake_ts AS_GW_QUERY (-1);;
  r ← arp_open_fd true;
  mret (if r <? 0 then ARPR_FAIL else ARPR_FREE).

(** The code at [server_is_router] in [arp_do_gw_query]. *)
Definition gw_query_server (am : arpMsg) : M Z :=
  set_cs (fun c => c <| serverArp := smac am |> <| got_server_arp := true |>);;
  got ← gets (fun w => got_router_arp (cs w));
  if got : bool then gw_query_complete else mret ARPR_OK.

Definition arp_do_gw_query : M Z :=
  w ← gets id;
  let am := reply (garp w) in
  if negb (arp_is_query_reply (client_config w) am) then mret ARPR_OK
  else if bytes_eqb (sip4 am) (le32 (routerAddr (cs w))) then
    set_cs (fun c => c <| routerArp := smac am |> <| got_router_arp := true |>);;
    if routerAddr (cs w) =? srcAddr (cs w) then gw_query_server am
    else if got_server_arp (cs w) then gw_query_complete
    else mret ARPR_OK
  else if bytes_eqb (sip4 am) (le32 (srcAddr (cs w))) then gw_query_server am
  else mret ARPR_OK.

Definition arp_do_collision_check : M Z :=
  w ← gets id;
  let am := reply (garp w) in
  if negb (arp_is_query_reply (client_config w) am) then mret ARPR_OK
  else if bytes_eqb (sip4 am) (le32 (yiaddr (dhcp_packet (garp w)))) &&
          bytes_eqb (arp (client_config w)) (smac am) then
    set_garp (fun g => g <| total_conflicts ::= (fun n => u32 (n + 1)) |>);;
    set_wake_ts AS_COLLISION_CHECK (-1);;
    r ← send_decline (yiaddr (dhcp_packet (garp w)));
    mret (if r <? 0 then ARPR_FAIL else ARPR_CONFLICT)
  else mret ARPR_OK.

(** The code at [server_is_router] in [arp_do_gw_check]. *)
Definition gw_check_server (am : arpMsg) : M Z :=
  w ← gets id;
  if bytes_eqb (serverArp (cs w)) (smac am) then
    set_garp (fun g => g <| server_replied := true |>);;
    if router_replied (garp w) then arp_gw_success else mret ARPR_OK
  else
    set_wake_ts AS_GW_CHECK (-1);;
    mret ARPR_CONFLICT.

Definition arp_do_gw_check : M Z :=
  w ← gets id;
  let am := reply (garp w) in
  if negb (arp_is_query_reply (client_config w) am) then mret ARPR_OK
  else if bytes_eqb (sip4 am) (le32 (routerAddr (cs w))) then
    if bytes_eqb (routerArp (cs w)) (smac am) then
      set_garp (fun g => g <| router_replied := true |>);;
      if routerAddr (cs w) =? srcAddr (cs w) then gw_check_server am
      else if server_replied (garp w) then arp_gw_success
      else mret ARPR_OK
    else
      set_wake_ts AS_GW_CHECK (-1);;
      mret ARPR_CONFLICT
  else if bytes_eqb (sip4 am) (le32 (srcAddr (cs w))) then gw_check_server am
  else mret ARPR_OK.

(** The bytes of [amsg] that a short frame does not reach are whatever the
    stack held; the model takes them to be zero.  They are the trailing [pad],
    which no code reads. *)
Definition arp_packet_get : M bool :=
  r ← ask env_read;
  match r with
  | ReadAgain | ReadFails =>
    arp_min_close_fd;;
    def ← gets (fun w => arp_is_defense (cs w));
    r ← arp_open_fd def;
    if r <? 0 then suicide "arp_packet_get: Failed to reopen ARP fd"
    else mret false
  | ReadData data =>
    let data := take (Z.to_nat sizeof_arpMsg) (List.map u8 data) in
    if zlen data <? ARP_MSG_SIZE then mret false
    else
      amsg ← ub (arpMsg_of_bytes (data ++ zeros (Z.to_nat sizeof_arpMsg - length data)));
      w ← gets id;
      if negb (using_bpf (garp w)) &&
         (negb (arp_validate_bpf amsg) ||
          (arp_is_defense (cs w) &&
           negb (arp_validate_bpf_defense (client_config w) (cs w) amsg)))
      then mret false
      else set_garp (fun g => g <| reply := amsg |>);; mret true
  end.

End Arp.

(** * Safety and result codes *)

Lemma arpMsg_of_bytes_total b : zlen b = sizeof_arpMsg -> exists m, arpMsg_of_bytes b = Some m.
Proof.
  unfold sizeof_arpMsg. intros Hl. unfold arpMsg_of_bytes.
  repeat match goal with
  | |- context [ rd_range b ?i ?n ] =>
      let d := fresh "d" in
      destruct (rd_range_Some b i n) as (d & -> & _); [lia..|]; cbn [mbind option_bind]
  | |- context [ rd b ?i ] =>
      let d := fresh "d" in
      destruct (rd_Some b i) as (d & -> & _); [lia..|]; cbn [mbind option_bind]
  end.
  eauto.
Qed.

(** [one_of l r]: the result [r] is one of [l]. *)
Definition one_of (l : list Z) (r : Z) : Prop := r ∈ l.
Ltac one_of_tac :=
  unfold one_of in *; rewrite ?elem_of_cons in *; rewrite ?elem_of_nil in *; naive_solver.

Section ArpSafe.
Context `{!Env}.

Lemma arp_send_io m : io_only (arp_send m).
Proof. unfold arp_send. io_tac. Qed.

Lemma set_wake_ts_safe s t : safe world_ok (set_wake_ts s t) (fun _ => True).
Proof. unfold set_wake_ts. safe_tac. Qed.
Lemma count_send_safe s : safe world_ok (count_send s) (fun _ => True).
Proof. unfold count_send. safe_tac. Qed.
#[local] Hint Resolve set_wake_ts_safe count_send_safe : safe.
#[local] Hint Unfold get_wake_ts get_send_stats base_arpmsg : safe.

Lemma arp_min_close_fd_safe : safe world_ok arp_min_close_fd (fun _ => True).
Proof. unfold arp_min_close_fd. safe_tac. Qed.
#[local] Hint Resolve arp_min_close_fd_safe : safe.
Lemma arp_close_fd_safe : safe world_ok arp_close_fd (fun _ => True).
Proof. unfold arp_close_fd. safe_tac. Qed.
#[local] Hint Resolve arp_close_fd_safe : safe.
Lemma arp_reset_state_safe : safe world_ok arp_reset_state (fun _ => True).
Proof. unfold arp_reset_state. safe_tac. Qed.
Lemma get_arp_basic_socket_safe : safe world_ok get_arp_basic_socket (fun _ => True).
Proof. unfold get_arp_basic_socket. safe_tac. Qed.
Lemma get_arp_defense_socket_safe : safe world_ok get_arp_defense_socket (fun _ => True).
Proof.
  unfold get_arp_defense_socket. safe_step.
  eapply safe_bind; [|intros mac _; by safe_tac].
  apply (safe_ub _ _ (fun _ => True)). cbn [fst snd].
  pose proof (ok_arp _ (ok_config _ Hw)) as Ha.
  destruct (rd_range_Some (arp (client_config w)) 0 6) as (d & -> & _); [lia..|eauto].
Qed.
#[local] Hint Resolve get_arp_basic_socket_safe get_arp_defense_socket_safe : safe.
Lemma arp_open_fd_safe d : safe world_ok (arp_open_fd d) (fun _ => True).
Proof. unfold arp_open_fd. safe_tac. Qed.
Lemma arp_send_safe m : safe world_ok (arp_send m) (fun _ => True).
Proof. unfold arp_send. safe_tac. Qed.
#[local] Hint Resolve arp_open_fd_safe arp_send_safe : safe.
Lemma arp_ping_safe a : safe world_ok (arp_ping a) (fun _ => True).
Proof. unfold arp_ping, base_arpmsg. safe_tac. Qed.
Lemma arp_ip_anon_ping_safe a : safe world_ok (arp_ip_anon_ping a) (fun _ => True).
Proof. unfold arp_ip_anon_ping, base_arpmsg. safe_tac. Qed.
Lemma arp_announcement_safe : safe world_ok arp_announcement (fun _ => True).
Proof. unfold arp_announcement, base_arpmsg. safe_tac. Qed.
#[local] Hint Resolve arp_ping_safe arp_ip_anon_ping_safe arp_announcement_safe : safe.

Lemma arp_check_safe p : opt_bufs_ok p -> safe world_ok (arp_check p) (fun _ => True).
Proof.
  intros Hp. unfold arp_check, get_send_stats.
  eapply safe_bind; [|intros ? _; by safe_tac].
  apply safe_modify. intros w [H1 H2 H3]. by constructor.
Qed.
Lemma wake_after_ping_safe s d : safe world_ok (wake_after_ping s d) (fun _ => True).
Proof. unfold wake_after_ping, get_send_stats. safe_tac. Qed.
#[local] Hint Resolve wake_after_ping_safe : safe.
Lemma arp_gw_check_safe : safe world_ok arp_gw_check (fun _ => True).
Proof. unfold arp_gw_check, get_send_stats. safe_tac. Qed.
Lemma arp_get_gw_hwaddr_safe : safe world_ok arp_get_gw_hwaddr (fun _ => True).
Proof. unfold arp_get_gw_hwaddr. safe_tac. Qed.
Lemma arp_set_defense_mode_safe : safe world_ok arp_set_defense_mode (fun _ => True).
Proof. apply arp_open_fd_safe. Qed.
Lemma arp_gw_success_safe : safe world_ok arp_gw_success (one_of [ARPR_FREE; ARPR_FAIL]).
Proof. unfold arp_gw_success. safe_tac; try case_match; one_of_tac. Qed.
Lemma arp_gen_probe_wait_safe : safe world_ok arp_gen_probe_wait (fun _ => True).
Proof. unfold arp_gen_probe_wait. safe_tac. Qed.
#[local] Hint Resolve arp_gw_check_safe arp_get_gw_hwaddr_safe arp_set_defense_mode_safe
  arp_gw_success_safe arp_gen_probe_wait_safe : safe.
Lemma arp_defense_timeout_safe : safe world_ok arp_defense_timeout (fun _ => True).
Proof. unfold arp_defense_timeout, get_wake_ts. safe_tac. Qed.
Lemma ping_unless_safe f a : safe world_ok (ping_unless f a) (fun _ => True).
Proof. unfold ping_unless. safe_tac. Qed.
#[local] Hint Resolve ping_unless_safe : safe.
Lemma arp_gw_check_timeout_safe t :
  safe world_ok (arp_gw_check_timeout t) (one_of [ARPR_OK; ARPR_CONFLICT; ARPR_FAIL]).
Proof. unfold arp_gw_check_timeout, get_send_stats. safe_tac; one_of_tac. Qed.
Lemma arp_gw_query_timeout_safe t :
  safe world_ok (arp_gw_query_timeout t) (one_of [ARPR_OK; ARPR_FAIL]).
Proof. unfold arp_gw_query_timeout, get_send_stats. safe_tac; one_of_tac. Qed.

(** The handler that waits for the clock is entered only in the mode that quits. *)
Definition same_config (w w' : World) : Prop := client_config w' = client_config w.
#[local] Instance same_config_preorder : PreOrder same_config.
Proof. split; [by intros ?|]. unfold same_config. intros ? ? ? ? ?. by etrans. Qed.
Lemma io_same_config {A} (m : M A) : io_only m -> keeps same_config m.
Proof. intros Hm w. destruct (Hm w) as (t & tr & ->). done. Qed.
Lemma count_send_config s : keeps same_config (count_send s).
Proof.
  unfold count_send. apply keeps_bind; [apply _|by apply keeps_modify|intros _].
  apply keeps_bind; [apply _|apply io_same_config, curms_io|intros now]. by apply keeps_modify.
Qed.
Lemma arp_announcement_config : keeps same_config arp_announcement.
Proof.
  unfold arp_announcement. apply keeps_bind; [apply _|by apply keeps_gets, _|intros base].
  apply keeps_bind; [apply _|by apply keeps_gets, _|intros addr].
  apply keeps_bind; [apply _|apply io_same_config, arp_send_io|intros r].
  destruct (r <? 0); [apply keeps_ret, _|].
  apply keeps_bind; [apply _|apply count_send_config|intros _]. apply keeps_ret, _.
Qed.

Definition quitting (w : World) : Prop := world_ok w /\ quit_after_lease (client_config w) = true.

Lemma safe_quitting {A} (m : M A) Q :
  keeps same_config m -> safe world_ok m Q -> safe quitting m Q.
Proof.
  intros Hk Hs w [Hw Hq]. eapply wp_mono.
  - apply (keeps_wp same_config); [exact Hk|]. by apply Hs.
  - unfold same_config. intros a w' (Hc & Hw' & Ha). split; [split; [done|by rewrite Hc]|done].
  - intros h w' [_ Hh]. exact Hh.
Qed.

Lemma quit_loop_safe {A} fuel t (Q : A -> Prop) : safe quitting (quit_loop fuel t) Q.
Proof.
  induction fuel as [|fuel IH]; cbn [quit_loop].
  { intros w [Hw Hq]. exact Hq. }
  eapply safe_bind; [apply safe_quitting; [apply arp_announcement_config|apply arp_announcement_safe]|].
  intros r _. destruct (0 <=? r); [apply safe_exit|].
  eapply safe_bind; [apply safe_quitting; [apply io_same_config, curms_io|apply curms_safe]|].
  intros now _. destruct (_ <? _); [apply safe_exit|apply IH].
Qed.

Lemma quit_after_lease_handler_safe {A} (Q : A -> Prop) :
  safe quitting quit_after_lease_handler Q.
Proof.
  unfold quit_after_lease_handler.
  eapply safe_bind; [apply safe_quitting; [apply io_same_config, curms_io|apply curms_safe]|].
  intros t _. apply quit_loop_safe.
Qed.

Lemma maybe_quit_safe (Q : Z -> Prop) r :
  Q r ->
  safe world_ok (quit ← gets (fun w => quit_after_lease (client_config w));
                 if quit : bool then quit_after_lease_handler else mret r) Q.
Proof.
  intros HQ w Hw. rewrite wp_bind, wp_gets.
  destruct (quit_after_lease (client_config w)) eqn:E; [|by rewrite wp_ret].
  eapply wp_mono; [by apply (quit_after_lease_handler_safe Q)| |done].
  intros a w' [[H1 _] H2]. done.
Qed.

Lemma get_option_router_total p : opt_bufs_ok p -> exists a, get_option_router p = Some a.
Proof.
  intros Hp. unfold get_option_router.
  destruct (get_dhcp_opt_total p DCODE_ROUTER MAX_DOPT_SIZE Hp) as (d & -> & _); [done|]. cbn. eauto.
Qed.

Lemma arp_collision_timeout_safe t :
  safe world_ok (arp_collision_timeout t) (one_of [ARPR_FREE; ARPR_OK; ARPR_FAIL]).
Proof.
  unfold arp_collision_timeout, get_send_stats. safe_step. pose proof (ok_dhcp_packet _ Hw) as Hp.
  safe_step. cbv zeta. safe_step.
  - do 3 safe_step.
    eapply safe_bind; [by apply ifchange_bind_safe|intros r _]. safe_step; [by safe_tac|].
    eapply safe_bind; [apply (safe_ub _ _ (fun _ => True));
      destruct (get_option_router_total _ Hp) as (? & ->); by eauto|intros ra _].
    do 3 safe_step. apply maybe_quit_safe. one_of_tac.
  - safe_tac; one_of_tac.
Qed.

Lemma arp_query_gateway_safe : safe world_ok arp_query_gateway (fun _ => True).
Proof. unfold arp_query_gateway. safe_tac. Qed.
Lemma arp_announce_safe : safe world_ok arp_announce (fun _ => True).
Proof. unfold arp_announce. safe_tac. Qed.
#[local] Hint Resolve arp_query_gateway_safe arp_announce_safe : safe.
Lemma arp_query_gateway_timeout_safe t : safe world_ok (arp_query_gateway_timeout t) (fun _ => True).
Proof. unfold arp_query_gateway_timeout, get_wake_ts. safe_tac. Qed.
Lemma arp_announce_timeout_safe t : safe world_ok (arp_announce_timeout t) (fun _ => True).
Proof. unfold arp_announce_timeout, get_wake_ts. safe_tac. Qed.

Lemma arp_do_defense_safe :
  safe world_ok arp_do_defense (one_of [ARPR_OK; ARPR_CONFLICT; ARPR_FAIL]).
Proof. unfold arp_do_defense. safe_tac; one_of_tac. Qed.
Lemma gw_query_complete_safe :
  safe world_ok gw_query_complete (one_of [ARPR_OK; ARPR_FREE; ARPR_FAIL]).
Proof. unfold gw_query_complete. safe_tac. case_match; one_of_tac. Qed.
#[local] Hint Resolve gw_query_complete_safe : safe.
Lemma gw_query_server_safe m :
  safe world_ok (gw_query_server m) (one_of [ARPR_OK; ARPR_FREE; ARPR_FAIL]).
Proof. unfold gw_query_server. safe_tac; one_of_tac. Qed.
#[local] Hint Resolve gw_query_server_safe : safe.
Lemma arp_do_gw_query_safe :
  safe world_ok arp_do_gw_query (one_of [ARPR_OK; ARPR_FREE; ARPR_FAIL]).
Proof. unfold arp_do_gw_query. safe_tac; one_of_tac. Qed.
Lemma arp_do_collision_check_safe :
  safe world_ok arp_do_collision_check (one_of [ARPR_OK; ARPR_CONFLICT; ARPR_FAIL]).
Proof. unfold arp_do_collision_check. safe_tac; try case_match; one_of_tac. Qed.
Lemma arp_gw_success_safe' :
  safe world_ok arp_gw_success (one_of [ARPR_OK; ARPR_FREE; ARPR_CONFLICT; ARPR_FAIL]).
Proof. eapply safe_mono; [apply arp_gw_success_safe|]. intros r. one_of_tac. Qed.
#[local] Hint Resolve arp_gw_success_safe' : safe.
Lemma gw_check_server_safe m :
  safe world_ok (gw_check_server m) (one_of [ARPR_OK; ARPR_FREE; ARPR_CONFLICT; ARPR_FAIL]).
Proof. unfold gw_check_server. safe_tac; one_of_tac. Qed.
#[local] Hint Resolve gw_check_server_safe : safe.
Lemma arp_do_gw_check_safe :
  safe world_ok arp_do_gw_check (one_of [ARPR_OK; ARPR_FREE; ARPR_CONFLICT; ARPR_FAIL]).
Proof. unfold arp_do_gw_check. safe_tac; one_of_tac. Qed.

Lemma arp_packet_get_safe : safe world_ok arp_packet_get (fun _ => True).
Proof.
  unfold arp_packet_get. safe_step. safe_step; [by safe_tac..|]. cbv zeta.
  destruct (_ <? _); [by safe_tac|].
  eapply safe_bind; [|intros am _; by safe_tac]. apply (safe_ub _ _ (fun _ => True)).
  set (d := take _ _). assert (length d <= 60)%nat by (subst d; rewrite length_take; apply Nat.le_min_l).
  destruct (arpMsg_of_bytes_total (d ++ zeros (Z.to_nat sizeof_arpMsg - length d))) as (am & ->).
  { change (Z.to_nat sizeof_arpMsg) with 60%nat. unfold zlen, zeros, sizeof_arpMsg.
    rewrite length_app, length_replicate. lia. }
  eauto.
Qed.
End ArpSafe.
#[export] Hint Resolve arp_send_io : io.
#[export] Hint Resolve set_wake_ts_safe arp_reset_state_safe arp_gw_check_safe arp_set_defense_mode_safe
  arp_defense_timeout_safe arp_gw_check_timeout_safe arp_gw_query_timeout_safe
  arp_collision_timeout_safe arp_query_gateway_safe arp_announce_safe arp_query_gateway_timeout_safe
  arp_announce_timeout_safe arp_do_defense_safe arp_do_gw_query_safe arp_do_collision_check_safe
  arp_do_gw_check_safe arp_packet_get_safe : safe.

(** * Properties *)

(** The fold of [arp_get_wake_ts] over any timers, from any start. *)
Lemma arp_wake_fold f l mt :
  let t := fold_left (arp_wake_step f) l mt in
  (mt < 0 -> t = mt /\ Forall (fun s => f s < 0) l \/ 0 <= t /\ (exists s, s ∈ l /\ f s = t)) /\
  (0 <= mt -> 0 <= t <= mt /\ (t = mt \/ exists s, s ∈ l /\ f s = t)) /\
  Forall (fun s => 0 <= f s -> t <= f s) l.
Proof.
  revert mt. induction l as [|s l IH]; intros mt; cbn [fold_left]; cbv zeta.
  { split_and!; [by left; split|intros; lia|constructor]. }
  specialize (IH (arp_wake_step f mt s)). cbv zeta in IH. destruct IH as (I1 & I2 & I3).
  set (t := fold_left _ _ _) in *. clearbody t. unfold arp_wake_step in *.
  assert (Hx : forall x, (exists y, y ∈ l /\ f y = x) -> exists y, y ∈ s :: l /\ f y = x).
  { intros x (y & Hy & E). exists y. split; [by apply elem_of_cons; right|done]. }
  assert (Hs : f s = t -> exists y, y ∈ s :: l /\ f y = t).
  { intros E. exists s. split; [apply elem_of_cons; by left|done]. }
  destruct (Z.ltb_spec (f s) 0).
  - split_and!.
    + intros Hm. destruct (I1 Hm) as [[? ?]|[? ?]]; [left; split; [done|by constructor]|right; auto].
    + intros Hm. destruct (I2 Hm) as [? [?|?]]; auto.
    + constructor; [lia|done].
  - destruct (Z.ltb_spec mt 0); cbn [orb] in *; [|destruct (Z.ltb_spec (f s) mt)].
    + destruct I2 as [? Ht]; [lia|]. split_and!; [intros _|lia|constructor; [lia|done]].
      right. split; [lia|]. destruct Ht as [->|?]; auto.
    + destruct I2 as [? Ht]; [lia|]. split_and!; [lia| |constructor; [lia|done]].
      intros _. split; [lia|]. right. destruct Ht as [->|?]; auto.
    + split_and!; [lia| |constructor; [destruct I2; lia|done]].
      intros Hm. destruct (I2 Hm) as [? [?|?]]; auto.
Qed.

(** [arp_get_wake_ts] is the earliest armed ARP timer: -1 exactly when none
    is armed, and otherwise the value of an armed timer that no other armed timer
    precedes, whichever timers the engine has. *)
Theorem arp_get_wake_ts_earliest (g : arp_data) :
  let t := arp_get_wake_ts g in
  (t = -1 /\ forall s, wake_ts g s < 0) \/
  (0 <= t /\ (exists s, wake_ts g s = t) /\ forall s, 0 <= wake_ts g s -> t <= wake_ts g s).
Proof.
  cbv zeta. unfold arp_get_wake_ts.
  destruct (arp_wake_fold (wake_ts g) arp_states (-1)) as (H1 & _ & H3).
  assert (Hall : forall s, s ∈ arp_states).
  { intros s. unfold arp_states. rewrite !elem_of_cons. destruct s; auto 10. }
  rewrite Forall_forall in H3.
  destruct H1 as [[-> H1]|(H1 & s & _ & H2)]; [lia| |right].
  - left. rewrite Forall_forall in H1. split; [done|]. intros s. by apply H1.
  - split_and!; [done|by exists s|]. intros s' Hs'. by apply H3.
Qed.

(** The collision check before a lease is taken reacts to replies that carry
    the client's own hardware address only: a reply from any other host that uses
    the probed address changes nothing. *)
Theorem collision_check_ignores_other_hosts `{!Env} (w : World) :
  smac (reply (garp w)) <> arp (client_config w) ->
  arp_do_collision_check w = (Ret ARPR_OK, w).
Proof.
  intros Hm. unfold arp_do_collision_check, mbind, M_bind, gets, id.
  assert (E : bytes_eqb (arp (client_config w)) (smac (reply (garp w))) = false)
    by (apply bool_decide_eq_false; congruence).
  rewrite E, andb_false_r. by destruct (negb _).
Qed.

(** Another host answers the probe for 192.168.0.9. *)
Definition foreign_reply : arpMsg :=
  (BASE_ARPMSG [2; 9; 9; 9; 9; 9]) <| operation := htons ARPOP_REPLY |>
    <| h_dest := arp sample_config |> <| dmac := arp sample_config |> <| sip4 := [192; 168; 0; 9] |>.

Lemma collision_check_ignores_other_hosts_witness :
  let E := sample_env 0 60 in
  let w := sample_world <| garp := initial_garp <| reply := foreign_reply |>
             <| dhcp_packet := sample_message DHCPACK [] |> |> in
  arp_is_query_reply sample_config foreign_reply = true /\
  arp_do_collision_check w = (Ret ARPR_OK, w).
Proof.
  intros E w. split; [vm_compute; reflexivity|].
  apply (collision_check_ignores_other_hosts w). vm_compute. congruence.
Defined.

Lemma pwp_curms `{!Env} (Q : Z -> World -> Prop) w sec ns :
  env_clock (tick w) = Some (sec, ns) ->
  Q (sec * 1000 + ns / 1000000) (w <| tick ::= S |>) -> pwp curms Q w.
Proof. intros Hc HQ. unfold curms. pwp_run. rewrite Hc. exact HQ. Qed.

(** The defense of the address in use: the client gives it up (and sends a
    release) exactly when an earlier conflict is on record, at least
    DEFEND_INTERVAL has passed since it, and defense is not relentless.  Within
    the interval it defends the address, however often it is attacked. *)
Theorem arp_do_defense_gives_up_iff `{!Env} (w : World) (sec ns : Z) :
  arp_validate_bpf_defense (client_config w) (cs w) (reply (garp w)) = true ->
  env_clock (tick w) = Some (sec, ns) ->
  let since := sec * 1000 + ns / 1000000 - last_conflict_ts (garp w) in
  pwp arp_do_defense (fun r _ =>
    r = ARPR_CONFLICT <->
    last_conflict_ts (garp w) <> 0 /\ DEFEND_INTERVAL <= since /\ relentless_def (garp w) = false) w.
Proof.
  intros Hv Hc since. unfold arp_do_defense. pwp_run. unfold id. rewrite Hv. cbn [negb].
  pwp_run. eapply pwp_curms; [exact Hc|]. unfold set_wake_ts. pwp_run. cbv zeta. rsimpl.
  fold since. unfold DEFEND_INTERVAL.
  destruct (Z.eqb_spec (last_conflict_ts (garp w)) 0) as [E|E]; cbn [orb].
  - pwp_run. eapply pwp_mono; [apply pwp_true|]. intros r w' _. zcase; pwp_run; unfold ARPR_FAIL, ARPR_OK, ARPR_CONFLICT; lia.
  - destruct (Z.ltb_spec since 10000).
    + pwp_run. eapply pwp_mono; [apply pwp_true|]. intros r w' _. zcase; pwp_run; unfold ARPR_FAIL, ARPR_OK, ARPR_CONFLICT; lia.
    + destruct (relentless_def (garp w)); cbn [negb]; pwp_run.
      * unfold ARPR_OK, ARPR_CONFLICT. split; [lia|naive_solver].
      * eapply pwp_mono; [apply pwp_true|]. intros r w' _. pwp_run. done.
Qed.

(** The second attack comes one second after the first: the address is defended.
    Twenty seconds after it, it is given up. *)
Lemma arp_do_defense_gives_up_iff_witness :
  let E := sample_env (ch "u"%char) 60 in
  let w t := sample_world <| cs := initial_cs <| clientAddr := of_le [192; 168; 0; 9] |> <| arpFd := 6 |> |>
             <| garp := initial_garp <| reply := foreign_reply |> <| last_conflict_ts := t |> |> in
  pwp arp_do_defense (fun r _ => r = ARPR_CONFLICT <->
    999000 <> 0 /\ DEFEND_INTERVAL <= 1000 /\ false = false) (w 999000) /\
  pwp arp_do_defense (fun r _ => r = ARPR_CONFLICT <->
    980000 <> 0 /\ DEFEND_INTERVAL <= 20000 /\ false = false) (w 980000) /\
  wp arp_do_defense (fun r _ => r = ARPR_OK) (fun _ _ => False) (w 999000) /\
  wp arp_do_defense (fun r _ => r = ARPR_CONFLICT) (fun _ _ => False) (w 980000).
Proof.
  intros E w. split_and!.
  - apply (arp_do_defense_gives_up_iff (w 999000) 1000 0); reflexivity.
  - apply (arp_do_defense_gives_up_iff (w 980000) 1000 0); reflexivity.
  - vm_compute. reflexivity.
  - vm_compute. reflexivity.
Defined.

(** A reply that contradicts the network's fingerprint: it comes from the
    router's or the server's address, but not from the recorded hardware
    address. *)
Definition fingerprint_mismatch (c : client_state_t) (am : arpMsg) : bool :=
  let server := negb (bytes_eqb (serverArp c) (smac am)) in
  if bytes_eqb (sip4 am) (le32 (routerAddr c)) then
    negb (bytes_eqb (routerArp c) (smac am)) || ((routerAddr c =? srcAddr c) && server)
  else bytes_eqb (sip4 am) (le32 (srcAddr c)) && server.

Lemma arp_gw_success_code `{!Env} w :
  pwp arp_gw_success (fun r _ => r = ARPR_FREE \/ r = ARPR_FAIL) w.
Proof.
  unfold arp_gw_success. pwp_run. eapply pwp_mono; [apply pwp_true|]. intros r w1 _.
  zcase; pwp_run; [auto|]. unfold set_wake_ts. pwp_run.
  eapply pwp_mono; [apply pwp_true|]. intros r2 w2 _. zcase; pwp_run; auto.
Qed.

(** C40. Checking the fingerprint of the network after the link came back: a reply
    makes the client drop its lease exactly when it is a reply to the client's
    own query that contradicts the recorded fingerprint; and the network is
    accepted only on a reply that agrees with it. *)
Theorem arp_do_gw_check_verdict `{!Env} (w : World) :
  let am := reply (garp w) in
  let asked := arp_is_query_reply (client_config w) am in
  pwp arp_do_gw_check (fun r w' =>
    (r = ARPR_CONFLICT <-> asked = true /\ fingerprint_mismatch (cs w) am = true) /\
    (r = ARPR_FREE -> asked = true /\ fingerprint_mismatch (cs w) am = false)) w.
Proof.
  cbv zeta. unfold arp_do_gw_check, fingerprint_mismatch. pwp_run. unfold id.
  assert (Hok : forall b m, ARPR_OK = ARPR_CONFLICT <-> b = true /\ m = true -> 
    (ARPR_OK = ARPR_CONFLICT <-> b = true /\ m = true) /\ (ARPR_OK = ARPR_FREE -> b = true /\ m = false)).
  { intros b m Hb. split; [done|]. discriminate. }
  assert (Hbad : forall w', pwp (set_wake_ts AS_GW_CHECK (-1);; mret ARPR_CONFLICT) (fun r _ =>
    (r = ARPR_CONFLICT <-> true = true /\ true = true) /\ (r = ARPR_FREE -> true = true /\ true = false)) w').
  { intros w'. unfold set_wake_ts. pwp_run. split; [done|discriminate]. }
  assert (Hsucc : forall w', pwp arp_gw_success (fun r _ =>
    (r = ARPR_CONFLICT <-> true = true /\ false = true) /\ (r = ARPR_FREE -> true = true /\ false = false)) w').
  { intros w'. eapply pwp_mono; [apply arp_gw_success_code|]. cbv beta.
    intros r _ [-> | ->]; (split; [split; [discriminate|naive_solver]|done]). }
  assert (Hserver : forall w', serverArp (cs w') = serverArp (cs w) ->
    pwp (gw_check_server (reply (garp w))) (fun r _ =>
      (r = ARPR_CONFLICT <-> true = true /\ negb (bytes_eqb (serverArp (cs w)) (smac (reply (garp w)))) = true) /\
      (r = ARPR_FREE -> true = true /\ negb (bytes_eqb (serverArp (cs w)) (smac (reply (garp w)))) = false)) w').
  { intros w' Es. unfold gw_check_server. pwp_run. unfold id. rewrite Es.
    destruct (bytes_eqb (serverArp _) _); cbn [negb]; [|apply Hbad]. pwp_run.
    destruct (router_replied _); [apply Hsucc|]. pwp_run. apply Hok. split; [discriminate|naive_solver]. }
  destruct (arp_is_query_reply _ _); cbn [negb].
  2: { pwp_run. apply Hok. split; [discriminate|naive_solver]. }
  destruct (bytes_eqb (sip4 _) (le32 (routerAddr _))).
  - destruct (bytes_eqb (routerArp _) _); cbn [negb orb]; [|apply Hbad]. pwp_run.
    destruct (routerAddr _ =? _); cbn [andb]; [by apply Hserver|].
    destruct (server_replied _); [apply Hsucc|]. pwp_run. apply Hok. split; [discriminate|naive_solver].
  - destruct (bytes_eqb (sip4 _) _); cbn [andb]; [by apply Hserver|].
    pwp_run. apply Hok. split; [discriminate|naive_solver].
Qed.

(** The random wait between two probes lies in the configured range, widened
    to one second when it is narrower, and fits the 16-bit field it is stored
    in. *)
Theorem arp_gen_probe_wait_range `{!Env} (w : World) :
  0 <= arp_probe_min w -> arp_probe_max w <= 64535 -> arp_probe_min w <= arp_probe_max w ->
  wp arp_gen_probe_wait (fun r _ =>
    arp_probe_min w <= r < arp_probe_min w + Z.max 1000 (arp_probe_max w - arp_probe_min w) /\
    u16 r = r) (fun _ _ => False) w.
Proof.
  intros H1 H2 H3. unfold arp_gen_probe_wait, nk_random_u32. wp_run. cbn [fst snd].
  rewrite (i32_id (arp_probe_max w - _)) by (unfold INT_MAX, INT_MIN; lia). cbv zeta. wp_run.
  set (range := if _ <? 1000 then _ else _).
  assert (Hr : range = Z.max 1000 (arp_probe_max w - arp_probe_min w)) by (subst range; zcase; lia).
  clearbody range.
  match goal with |- context [?a mod range] => pose proof (Z.mod_pos_bound a range ltac:(lia)) end.
  rewrite i32_id by (unfold INT_MAX, INT_MIN; lia). split; [lia|]. apply u16_id. lia.
Qed.

Lemma arp_gen_probe_wait_range_witness :
  let E := sample_env 0 0 in
  wp arp_gen_probe_wait (fun r _ => 1000 <= r < 1000 + Z.max 1000 (2000 - 1000) /\ u16 r = r)
    (fun _ _ => False) sample_world.
Proof. intros E. apply (arp_gen_probe_wait_range sample_world); vm_compute; congruence. Defined.

(** ** Quitting after the first lease *)

(** The clock always answers, never runs backwards, and passes a minute within
    [env_fuel] external calls. *)
Record clock_ticks `{!Env} : Prop := {
  clock_total : forall n, is_Some (env_clock n);
  clock_mono : forall n m t t', (n <= m)%nat -> env_clock n = Some t -> env_clock m = Some t' ->
    t.1 * 1000 + t.2 / 1000000 <= t'.1 * 1000 + t'.2 / 1000000;
  clock_minute : forall n m t t', (n + env_fuel <= m)%nat -> env_clock n = Some t ->
    env_clock m = Some t' -> t.1 * 1000 + t.2 / 1000000 + 60000 < t'.1 * 1000 + t'.2 / 1000000
}.
Arguments clock_ticks : clear implicits.

(** External calls only move on. *)
Definition later (w w' : World) : Prop := (tick w <= tick w')%nat.
#[local] Instance later_preorder : PreOrder later.
Proof. split; [intros w|intros w1 w2 w3]; unfold later; lia. Qed.

Section Quit.
Context {E : Env} (Hclock : clock_ticks E).

Lemma wp_curms (Q : Z -> World -> Prop) H w :
  (forall t, env_clock (tick w) = Some t -> Q (t.1 * 1000 + t.2 / 1000000) (w <| tick ::= S |>)) ->
  wp curms Q H w.
Proof using Hclock.
  intros HQ. unfold curms. wp_run. destruct (clock_total Hclock (tick w)) as [[s n] Ht].
  rewrite Ht. wp_run. by apply (HQ (s, n)).
Qed.

Lemma ifchwrite_later buf : keeps later (ifchwrite buf).
Proof.
  unfold ifchwrite. apply keeps_bind; [apply _|apply keeps_modify; unfold later; done|intros _].
  apply keeps_bind; [apply _|intros w; unfold later; cbn; lia|intros r].
  destruct r; (apply keeps_ret, _) || (apply keeps_fatal, _).
Qed.

(** One announcement: later, and no loop of its own. *)
Lemma arp_announcement_later w :
  wp arp_announcement (fun _ w' => later w w') (fun h _ => h <> HFuel) w.
Proof using Hclock.
  assert (Hsend : forall m w, wp (arp_send m) (fun _ w' => later w w') (fun h _ => h <> HFuel) w).
  { intros m w0. unfold arp_send. wp_run. zcase; [wp_run; unfold later; lia|]. wp_run.
    unfold carrier_isup, ifchwrite. wp_run.
    destruct (env_ifch _); wp_run; try done; (destruct (negb _); wp_run; [unfold later; cbn; lia|];
      destruct (_ || _); wp_run; unfold later; cbn; lia). }
  unfold arp_announcement, base_arpmsg. wp_run. eapply wp_mono; [apply Hsend| |done].
  intros r w1 H1. zcase; wp_run; [done|]. unfold count_send. wp_run.
  apply wp_curms. intros t _. wp_run. unfold later in *. cbn. lia.
Qed.

Lemma quit_loop_ends {A} fuel t0 n0 w :
  env_clock n0 = Some t0 -> (n0 + env_fuel < tick w + fuel)%nat -> (0 < fuel)%nat ->
  wp (@quit_loop E A fuel (t0.1 * 1000 + t0.2 / 1000000)) (fun _ _ => False) (fun h _ => h <> HFuel) w.
Proof using Hclock.
  intros Ht0. revert w. induction fuel as [|fuel IH]; intros w Hf Hpos; [lia|].
  cbn [quit_loop]. wp_run. eapply wp_mono; [apply arp_announcement_later| |done].
  unfold later. intros r w1 H1. zcase; wp_run; [done|]. apply wp_curms. intros t Ht.
  zcase; wp_run; [done|]. destruct fuel as [|fuel].
  - pose proof (clock_minute Hclock n0 (tick w1) t0 t ltac:(lia) Ht0 Ht). lia.
  - apply IH; [cbn; lia|lia].
Qed.

Lemma quit_after_lease_ends {A} (w : World) :
  wp (@quit_after_lease_handler E A) (fun _ _ => False) (fun h _ => h <> HFuel) w.
Proof using Hclock.
  unfold quit_after_lease_handler. wp_run. apply wp_curms. intros t Ht.
  apply (quit_loop_ends env_fuel t (tick w)); [done|cbn; lia|].
  destruct (Nat.eq_dec env_fuel 0) as [E0|]; [|lia].
  pose proof (clock_minute Hclock (tick w) (tick w) t t ltac:(lia) Ht Ht). lia.
Qed.

(** The handler that announces the first lease and then quits does quit: it
    leaves the process as soon as an announcement succeeds, and after a minute of
    failures at the latest, so its loop cannot spin for ever. *)
Theorem quit_after_lease_quits {A} (w : World) :
  wp (@quit_after_lease_handler E A) (fun _ _ => False) (fun h _ => h <> HFuel) w.
Proof using Hclock. apply quit_after_lease_ends. Qed.
End Quit.

Lemma sample_clock_ticks repc sent : clock_ticks (sample_env repc sent).
Proof.
  constructor; cbn.
  - intros n. by eexists.
  - intros n m t t' Hnm [= <-] [= <-]. cbn [fst snd]. lia.
  - intros n m t t' Hnm [= <-] [= <-]. cbn [fst snd]. lia.
Qed.

(** Announcements that fail for want of a socket: the process leaves with status 1. *)
Lemma quit_after_lease_quits_witness :
  let E := sample_env 0 60 in
  clock_ticks E /\
  wp (@quit_after_lease_handler E Z) (fun _ _ => False) (fun h _ => h <> HFuel) sample_world /\
  wp (@quit_after_lease_handler E Z) (fun _ _ => False) (fun h _ => h = HExit EXIT_FAILURE) sample_world.
Proof.
  intros E. split_and!; [apply sample_clock_ticks| |vm_compute; reflexivity].
  apply (@quit_after_lease_quits E (sample_clock_ticks 0 60)).
Defined.

(** A frame becomes the current ARP reply only after it was checked: without
    a BPF filter in the kernel it must be an Ethernet/IPv4 ARP message, and on a
    defense socket one that comes from the client's address and another host. *)
Theorem arp_packet_get_validates `{!Env} (w : World) :
  pwp arp_packet_get (fun ok w' =>
    ok = true -> using_bpf (garp w) = false ->
    arp_validate_bpf (reply (garp w')) = true /\
    (arp_is_defense (cs w) = true ->
     arp_validate_bpf_defense (client_config w) (cs w) (reply (garp w')) = true)) w.
Proof.
  unfold arp_packet_get. pwp_run. destruct (env_read (tick w)) as [| |data].
  1-2: do 3 (rewrite ?pwp_bind; eapply pwp_mono; [apply pwp_true|]; intros; cbv beta);
    (zcase; pwp_run; discriminate).
  cbv zeta. zcase; [pwp_run; discriminate|]. rewrite pwp_bind. apply pwp_ub. intros am _. pwp_run.
  unfold id. rsimpl. destruct (using_bpf (garp w)) eqn:Eb; cbn [negb andb]; [pwp_run; congruence|].
  destruct (arp_validate_bpf am) eqn:Ev; cbn [negb orb]; [|pwp_run; discriminate].
  destruct (arp_is_defense (cs w)) eqn:Ed; cbn [andb].
  - destruct (arp_validate_bpf_defense _ _ am) eqn:Eq; cbn [negb]; [|pwp_run; discriminate].
    pwp_run. intros _ _. by split.
  - pwp_run. intros _ _. split; [exact Ev|discriminate].
Qed.
