(* ===== verification/State.v ===== *)
(** The DHCP client state machine of [state.c].

    [dhcp_handle] is a coroutine: the macro [scrReturn] stores the line at which
    the next call resumes.  Each [for (;;)] loop is one definition that runs the
    loop's body once and says how it ends: by [scrReturn], naming the place where
    the next call resumes, or by a [goto].  [dhcp_run] follows the gotos. *)

From S2P Require Import Prelude Types Options World Samples Ipc Ifchange Leasefile Dhcp Arp.
Import Codec.

Definition SEL_SUCCESS : Z := 0.
Definition SEL_FAIL : Z := -1.
Definition REQ_SUCCESS : Z := 0.
Definition REQ_TIMEOUT : Z := -1.
Definition REQ_FAIL : Z := -2.
Definition ANP_SUCCESS : Z := 0.
Definition ANP_IGNORE : Z := -1.
Definition ANP_REJECTED : Z := -2.
Definition ANP_CHECK_IP : Z := -3.
Definition BTO_WAIT : Z := 0.
Definition BTO_EXPIRED : Z := -1.
Definition BTO_HARDFAIL : Z := -2.
Definition IFUP_REVALIDATE : Z := 0.
Definition IFUP_NEWLEASE : Z := 1.
Definition IFUP_FAIL : Z := -1.
Definition COR_SUCCESS : Z := 0.
Definition COR_ERROR : Z := -1.
Definition SIGNAL_NONE : Z := 0.
Definition SIGNAL_RENEW : Z := 1.
Definition SIGNAL_RELEASE : Z := 2.

(** * Timers *)

Definition delay_tot : list Z := [4; 8; 16; 32; 64].

(** The base delay in seconds after [numpackets] retransmissions; the parameter
    is a [size_t]. *)
Definition delay_base (numpackets : Z) : option Z :=
  let numpackets := size_t numpackets in
  if numpackets <? zlen delay_tot then rd delay_tot numpackets else Some 64.

Definition is_renewing (c : client_state_t) (nowts : Z) : bool :=
  leaseStartTime c + renewTime c * 1000 <=? nowts.
Definition is_rebinding (c : client_state_t) (nowts : Z) : bool :=
  leaseStartTime c + rebindTime c * 1000 <=? nowts.

Section State.
Context `{!Env}.

Definition delay_timeout (numpackets : Z) : M Z :=
  to ← ub (delay_base numpackets);
  r ← nk_random_u32;
  mret (to * 1000 + r mod 1000).

(** [background()] of [ndhc.c]. *)
Definition background : M unit :=
  called ← gets background_called;
  (if called : bool then mret tt
   else
     modify (fun w => w <| background_called := true |>);;
     emit ADaemon;;
     ok ← ask env_daemon;
     if ok : bool then mret tt else exit EXIT_SUCCESS);;
  wp ← gets write_pid_enabled;
  if wp : bool then emit AWritePid else mret tt.

Definition set_dhcp_wake_ts (t : Z) : M unit := set_cs (fun c => c <| dhcp_wake_ts := t |>).

Definition reinit_shared_deconfig : M unit :=
  set_cs (fun c => c
    <| clientAddr := 0 |> <| num_dhcp_requests := 0 |> <| got_router_arp := false |>
    <| got_server_arp := false |> <| check_fingerprint := false |> <| sent_gw_query := false |>
    <| sent_first_announce := false |> <| sent_second_announce := false |>
    <| init_fingerprint_inprogress := false |>
    <| routerArp := zeros 6 |> <| serverArp := zeros 6 |>);;
  arp_reset_state.

Definition reinit_selecting (timeout : Z) : M unit :=
  reinit_shared_deconfig;;
  now ← curms;
  set_dhcp_wake_ts (now + timeout);;
  start_dhcp_listen.

Definition count_dhcp_request : M unit :=
  set_cs (fun c => c <| num_dhcp_requests ::= (fun n => u32 (n + 1)) |>).

Definition requesting_timeout (nowts : Z) : M Z :=
  n ← gets (fun w => num_dhcp_requests (cs w));
  if 5 <=? n then reinit_selecting 0;; mret REQ_TIMEOUT
  else
    r ← send_selecting;
    if r <? 0 then mret REQ_FAIL
    else
      d ← delay_timeout n;
      set_dhcp_wake_ts (nowts + d);;
      count_dhcp_request;;
      mret REQ_SUCCESS.

(** [cs->lease * 1000] is a 32-bit multiplication. *)
Definition lease_end (c : client_state_t) : Z := leaseStartTime c + u32 (lease c * 1000).

(** [ts0 < limit ? ts0 : limit] with [ts0] 50 to 69 seconds from now. *)
Definition set_retry_wake (nowts limit : Z) : M unit :=
  r ← nk_random_u32;
  let ts0 := nowts + (50 + r mod 20) * 1000 in
  set_dhcp_wake_ts (if ts0 <? limit then ts0 else limit).

Definition rebinding_timeout (nowts : Z) : M Z :=
  elt ← gets (fun w => lease_end (cs w));
  if elt <=? nowts then reinit_selecting 0;; mret BTO_EXPIRED
  else
    start_dhcp_listen;;
    r ← send_rebind;
    if r <? 0 then mret BTO_HARDFAIL
    else set_retry_wake nowts elt;; mret BTO_WAIT.

Definition renewing_timeout (nowts : Z) : M Z :=
  rbt ← gets (fun w => leaseStartTime (cs w) + rebindTime (cs w) * 1000);
  if rbt <=? nowts then rebinding_timeout nowts
  else
    start_dhcp_listen;;
    r ← send_renew;
    if r <? 0 then mret BTO_HARDFAIL
    else set_retry_wake nowts rbt;; mret BTO_WAIT.

Definition bound_timeout (nowts : Z) : M Z :=
  rnt ← gets (fun w => leaseStartTime (cs w) + renewTime (cs w) * 1000);
  if nowts <? rnt then set_dhcp_wake_ts rnt;; mret BTO_WAIT
  else renewing_timeout nowts.

(** * Packets *)

(** The server id option of a message; [None] when it has none. *)
Definition packet_serverid (packet : dhcpmsg) : M (option Z) :=
  r ← ub (get_option_serverid packet);
  mret (if r.1 : bool then Some r.2 else None).

Definition validate_serverid (packet : dhcpmsg) : M bool :=
  sid ← packet_serverid packet;
  a ← gets (fun w => serverAddr (cs w));
  mret (match sid with
        | None => false
        | Some sid => if negb (a =? sid) then false else true
        end).

(** The lease length the client uses for what the server sent. *)
Definition effective_lease (l : Z) : Z :=
  if l =? 0 then 60 * 60 else if l <? 60 then 60 else l.

Definition get_leasetime (packet : dhcpmsg) : M unit :=
  l ← ub (get_option_leasetime packet);
  now ← curms;
  let l := effective_lease l in
  let rnt := Z.shiftr l 1 in
  let rbt := u32 (Z.shiftr l 3 * 7) in
  set_cs (fun c => c <| lease := l |> <| leaseStartTime := now |>
                     <| renewTime := rnt |> <| rebindTime := rbt |>
                     <| dhcp_wake_ts := now + rnt * 1000 |>).

Definition extend_packet (packet : dhcpmsg) (msgtype : Z) : M Z :=
  if msgtype =? DHCPACK then
    ok ← validate_serverid packet;
    if negb ok then mret ANP_IGNORE
    else
      get_leasetime packet;;
      a ← gets (fun w => clientAddr (cs w));
      if negb (yiaddr packet =? a) then mret ANP_CHECK_IP
      else
        _ ← arp_set_defense_mode;
        stop_dhcp_listen;;
        mret ANP_SUCCESS
  else if msgtype =? DHCPNAK then
    ok ← validate_serverid packet;
    if negb ok then mret ANP_IGNORE
    else reinit_selecting 3000;; mret ANP_REJECTED
  else mret ANP_IGNORE.

Definition selecting_packet (packet : dhcpmsg) (msgtype srcaddr : Z) (is_requesting : bool)
  : M Z :=
  if negb is_requesting && (msgtype =? DHCPOFFER) then
    sid ← packet_serverid packet;
    match sid with
    | None => mret ANP_IGNORE
    | Some sid =>
      set_cs (fun c => c <| clientAddr := yiaddr packet |> <| serverAddr := sid |>
                         <| srcAddr := srcaddr |>);;
      now ← curms;
      set_cs (fun c => c <| dhcp_wake_ts := now |> <| num_dhcp_requests := 0 |>);;
      mret ANP_SUCCESS
    end
  else if is_requesting && (msgtype =? DHCPACK) then
    a ← gets (fun w => clientAddr (cs w));
    if yiaddr packet =? a then
      sid ← packet_serverid packet;
      match sid with
      | None => mret ANP_IGNORE
      | Some sid =>
        sa ← gets (fun w => serverAddr (cs w));
        (if negb (sa =? sid) then
           set_cs (fun c => c <| serverAddr := sid |> <| srcAddr := srcaddr |>)
         else mret tt);;
        get_leasetime packet;;
        mret ANP_CHECK_IP
      end
    else mret ANP_IGNORE
  else mret ANP_IGNORE.

Definition selecting_timeout (nowts : Z) : M Z :=
  c ← gets cs;
  cc ← gets client_config;
  (if program_init c && (2 <=? num_dhcp_requests c) then
     if background_if_no_lease cc then
       set_cs (fun c => c <| program_init := false |>);;
       background
     else if abort_if_no_lease cc then suicide "No lease; failing."
     else mret tt
   else mret tt);;
  (if num_dhcp_requests c =? 0 then
     x ← nk_random_u32; set_cs (fun c => c <| cs_xid := x |>)
   else mret tt);;
  r ← send_discover;
  if r <? 0 then mret SEL_FAIL
  else
    d ← delay_timeout (num_dhcp_requests c);
    set_dhcp_wake_ts (nowts + d);;
    count_dhcp_request;;
    mret SEL_SUCCESS.

(** * Signals and carrier changes *)

Definition print_release : M unit :=
  reinit_shared_deconfig;;
  set_dhcp_wake_ts (-1);;
  stop_dhcp_listen.

Definition xmit_release : M Z :=
  r ← send_release;
  if r <? 0 then mret (-1) else print_release;; mret 0.

Definition frenew (is_bound : bool) : M Z :=
  if is_bound then
    start_dhcp_listen;;
    r ← send_renew;
    mret (if r <? 0 then -1 else 0)
  else reinit_selecting 0;; mret 0.

Definition ifup_action : M Z :=
  c ← gets cs;
  if negb (routerAddr c =? 0) && negb (serverAddr c =? 0) then
    if init_fingerprint_inprogress c
    then suicide "Carrier lost during initial fingerprint.  Forcing restart."
    else
      r ← arp_gw_check;
      mret (if 0 <=? r then IFUP_REVALIDATE else IFUP_FAIL)
  else mret IFUP_NEWLEASE.

(** * The coroutine *)

(** The arguments of [dhcp_handle]. *)
Record event := mk_event {
  nowts : Z; sev_dhcp : bool; ev_packet : dhcpmsg; dhcp_msgtype : Z; dhcp_srcaddr : Z;
  sev_arp : bool; force_fingerprint : bool; dhcp_timeout : bool; arp_timeout : bool;
  sev_signal : Z
}.
#[export] Instance event_eta : Eta event := fun r =>
  mk_event (nowts r) (sev_dhcp r) (ev_packet r) (dhcp_msgtype r) (dhcp_srcaddr r)
    (sev_arp r) (force_fingerprint r) (dhcp_timeout r) (arp_timeout r) (sev_signal r).

(** The labels the gotos name: [reinit], [skip_to_requesting],
    [skip_to_released]; and the loops a call resumes in. *)
Inductive place :=
| Reinit | Selecting | Requesting | Collision | Bound | DeconfigFailed | Released.

(** How a loop body ends: [scrReturn(ret)], the next call resuming at the loop
    of [at_]; or a goto, the locals being those of [ev] from there on. *)
Inductive flow :=
| Return (ret : Z) (at_ : scr_label)
| Goto (l : place) (ev : event).

Definition BAD_STATE {A} : M A := suicide "bad state".

(** [sev_dhcp = false; goto reinit;] *)
Definition goto_reinit (ev : event) : M flow := mret (Goto Reinit (ev <| sev_dhcp := false |>)).

(** [block orelse rest]: a block that runs to its end is followed by [rest]. *)
Definition orelse (m : M (option flow)) (k : M flow) : M flow :=
  r ← m;
  match r with Some f => mret f | None => k end.
Notation "m 'orelse' k" := (orelse m k) (at level 100, k at level 200, right associativity).
Definition next : M (option flow) := mret None.
Definition ends (m : M flow) : M (option flow) := f ← m; mret (Some f).

Definition selecting_step (ev : event) : M flow :=
  if sev_signal ev =? SIGNAL_RELEASE then print_release;; mret (Goto Released ev)
  else
    (if sev_dhcp ev then
       r ← selecting_packet (ev_packet ev) (dhcp_msgtype ev) (dhcp_srcaddr ev) false;
       if r =? ANP_SUCCESS
       then mret (Some (Goto Requesting (ev <| sev_dhcp := false |>)))
       else next
     else next)
    orelse
    ret ← (if dhcp_timeout ev then
             r ← selecting_timeout (nowts ev);
             if r =? SEL_SUCCESS then mret COR_SUCCESS
             else if r =? SEL_FAIL then mret COR_ERROR
             else BAD_STATE
           else mret COR_SUCCESS);
    mret (Return ret SCR_SELECTING).

(** [if (dhcp_timeout)] of REQUESTING, which the collision check repeats. *)
Definition requesting_retry (ev : event) (at_ : scr_label) : M flow :=
  if dhcp_timeout ev then
    r ← requesting_timeout (nowts ev);
    if r =? REQ_SUCCESS then mret (Return COR_SUCCESS at_)
    else if r =? REQ_TIMEOUT then goto_reinit ev
    else if r =? REQ_FAIL then mret (Return COR_ERROR at_)
    else BAD_STATE
  else mret (Return COR_SUCCESS at_).

Definition requesting_step (ev : event) : M flow :=
  if sev_signal ev =? SIGNAL_RELEASE then print_release;; mret (Goto Released ev)
  else
    (if sev_dhcp ev then
       r ← selecting_packet (ev_packet ev) (dhcp_msgtype ev) (dhcp_srcaddr ev) true;
       if r =? ANP_IGNORE then next
       else if r =? ANP_CHECK_IP then
         r ← arp_check (ev_packet ev);
         if r <? 0 then reinit_selecting 3000;; ends (goto_reinit ev)
         else mret (Some (Return COR_SUCCESS SCR_COLLISION))
       else BAD_STATE
     else next)
    orelse
    requesting_retry ev SCR_REQUESTING.

Definition collision_arp (ev : event) : M (option flow) :=
  if sev_arp ev then
    r ← arp_do_collision_check;
    if r =? ARPR_OK then next
    else if r =? ARPR_CONFLICT then reinit_selecting 0;; ends (goto_reinit ev)
    else if r =? ARPR_FAIL then mret (Some (Return COR_ERROR SCR_COLLISION))
    else BAD_STATE
  else next.

Definition collision_arp_timeout (ev : event) : M (option flow) :=
  if arp_timeout ev then
    r ← arp_collision_timeout (nowts ev);
    if r =? ARPR_FREE then
      _ ← arp_query_gateway;
      _ ← arp_announce;
      mret (Some (Return COR_SUCCESS SCR_BOUND))
    else if r =? ARPR_OK then next
    else if r =? ARPR_FAIL then mret (Some (Return COR_ERROR SCR_COLLISION))
    else BAD_STATE
  else next.

Definition collision_step (ev : event) : M flow :=
  if sev_signal ev =? SIGNAL_RELEASE then print_release;; mret (Goto Released ev)
  else
    collision_arp ev orelse
    collision_arp_timeout ev orelse
    requesting_retry ev SCR_COLLISION.

(** ** BOUND, RENEWING and REBINDING *)

Definition bound_error : M (option flow) := mret (Some (Return COR_ERROR SCR_BOUND)).

Definition bound_signal (ev : event) : M (option flow) :=
  if sev_signal ev =? SIGNAL_RELEASE then
    r ← xmit_release;
    if negb (r =? 0) then bound_error else mret (Some (Goto Released ev))
  else if sev_signal ev =? SIGNAL_RENEW then
    r ← frenew true;
    if negb (r =? 0) then bound_error else next
  else next.

Definition bound_dhcp (ev : event) : M (option flow) :=
  c ← gets cs;
  if sev_dhcp ev && is_renewing c (nowts ev) then
    r ← extend_packet (ev_packet ev) (dhcp_msgtype ev);
    if (r =? ANP_SUCCESS) || (r =? ANP_IGNORE) then next
    else if r =? ANP_REJECTED then ends (goto_reinit ev)
    else if r =? ANP_CHECK_IP then
      r ← arp_check (ev_packet ev);
      if r <? 0 then reinit_selecting 3000;; ends (goto_reinit ev)
      else next
    else BAD_STATE
  else next.

Definition bound_gw_query : M (option flow) :=
  r ← arp_do_gw_query;
  if r =? ARPR_OK then next
  else if r =? ARPR_FREE then
    set_cs (fun c => c <| init_fingerprint_inprogress := false |>);; next
  else if r =? ARPR_FAIL then bound_error
  else BAD_STATE.

(** [cs->check_fingerprint = false; reinit_selecting(cs, 0); ... goto reinit;] *)
Definition fingerprint_conflict (ev : event) : M (option flow) :=
  set_cs (fun c => c <| check_fingerprint := false |>);;
  reinit_selecting 0;;
  ends (goto_reinit ev).

Definition bound_gw_check (ev : event) : M (option flow) :=
  r ← arp_do_gw_check;
  if r =? ARPR_OK then next
  else if r =? ARPR_FREE then set_cs (fun c => c <| check_fingerprint := false |>);; next
  else if r =? ARPR_CONFLICT then fingerprint_conflict ev
  else if r =? ARPR_FAIL then bound_error
  else BAD_STATE.

Definition bound_arp (ev : event) : M (option flow) :=
  if sev_arp ev then
    r ← arp_do_defense;
    if r =? ARPR_OK then
      c ← gets cs;
      if negb (got_router_arp c) || negb (got_server_arp c) then bound_gw_query
      else if check_fingerprint c then bound_gw_check ev
      else next
    else if r =? ARPR_CONFLICT then reinit_selecting 0;; ends (goto_reinit ev)
    else if r =? ARPR_FAIL then bound_error
    else BAD_STATE
  else next.

Definition bound_arp_timeout (ev : event) : M (option flow) :=
  if arp_timeout ev then
    c ← gets cs;
    _ ← (if sent_first_announce c && sent_second_announce c then arp_defense_timeout
         else arp_announce_timeout (nowts ev));
    c ← gets cs;
    if negb (sent_gw_query c) then _ ← arp_query_gateway_timeout (nowts ev); next
    else if negb (got_router_arp c) || negb (got_server_arp c) then
      r ← arp_gw_query_timeout (nowts ev);
      if r =? ARPR_OK then next
      else if r =? ARPR_FAIL then bound_error
      else BAD_STATE
    else if check_fingerprint c then
      r ← arp_gw_check_timeout (nowts ev);
      if r =? ARPR_OK then next
      else if r =? ARPR_CONFLICT then fingerprint_conflict ev
      else if r =? ARPR_FAIL then bound_error
      else BAD_STATE
    else next
  else next.

Definition bound_fingerprint (ev : event) : M (option flow) :=
  if force_fingerprint ev then
    r ← ifup_action;
    if r =? IFUP_REVALIDATE then next
    else if r =? IFUP_NEWLEASE then
      r ← ifchange_deconfig;
      if r <? 0 then mret (Some (Return COR_ERROR SCR_DECONFIG_FAILED))
      else reinit_selecting 0;; ends (goto_reinit ev)
    else if r =? IFUP_FAIL then bound_error
    else BAD_STATE
  else next.

Definition bound_dhcp_timeout (ev : event) : M flow :=
  if dhcp_timeout ev then
    c ← gets cs;
    r ← (if is_rebinding c (nowts ev) then rebinding_timeout (nowts ev)
         else if is_renewing c (nowts ev) then renewing_timeout (nowts ev)
         else bound_timeout (nowts ev));
    if r =? BTO_WAIT then mret (Return COR_SUCCESS SCR_BOUND)
    else if r =? BTO_EXPIRED then goto_reinit ev
    else if r =? BTO_HARDFAIL then mret (Return COR_ERROR SCR_BOUND)
    else BAD_STATE
  else mret (Return COR_SUCCESS SCR_BOUND).

Definition bound_step (ev : event) : M flow :=
  bound_signal ev orelse
  bound_dhcp ev orelse
  bound_arp ev orelse
  bound_arp_timeout ev orelse
  bound_fingerprint ev orelse
  bound_dhcp_timeout ev.

Definition released_step (ev : event) : M flow :=
  if sev_signal ev =? SIGNAL_RENEW then
    r ← frenew false;
    if negb (r =? 0) then mret (Return COR_ERROR SCR_RELEASED)
    else goto_reinit ev
  else mret (Return COR_SUCCESS SCR_RELEASED).

(** The code at a label or at the top of a loop, up to the next scrReturn or goto. *)
Definition place_step (l : place) (ev : event) : M flow :=
  match l with
  | Reinit =>
    x ← nk_random_u32;
    set_cs (fun c => c <| cs_xid := x |>);;
    selecting_step ev
  | Selecting => selecting_step ev
  | Requesting => requesting_step ev
  | Collision => collision_step ev
  | Bound => bound_step ev
  | DeconfigFailed => reinit_selecting 0;; goto_reinit ev
  | Released => released_step ev
  end.

Fixpoint dhcp_run (fuel : nat) (l : place) (ev : event) : M Z :=
  match fuel with
  | O => fatal HFuel
  | S fuel =>
    f ← place_step l ev;
    match f with
    | Return ret at_ => modify (fun w => w <| scrLine := at_ |>);; mret ret
    | Goto l ev => dhcp_run fuel l ev
    end
  end.

(** Where a call resumes. *)
Definition resume (l : scr_label) : place :=
  match l with
  | SCR_START => Reinit
  | SCR_SELECTING => Selecting
  | SCR_REQUESTING => Requesting
  | SCR_COLLISION => Collision
  | SCR_BOUND => Bound
  | SCR_DECONFIG_FAILED => DeconfigFailed
  | SCR_RELEASED => Released
  end.

(** A call passes through at most three places: see [rank]. *)
Definition dhcp_handle (ev : event) : M Z :=
  l ← gets scrLine;
  dhcp_run 3 (resume l) ev.

End State.

(** * Safety and result codes *)

(** A bound on the number of places a call still passes through. *)
Definition rank (l : place) (ev : event) : nat :=
  match l with
  | Released => if sev_signal ev =? SIGNAL_RENEW then 2 else 1
  | Reinit | Selecting =>
    if sev_signal ev =? SIGNAL_RELEASE then 2 else if sev_dhcp ev then 3 else 1
  | Requesting | Collision => 2
  | Bound | DeconfigFailed => 3
  end.

Lemma rank_le l ev : (rank l ev <= 3)%nat.
Proof. destruct l; cbn; repeat case_match; lia. Qed.

(** How a step from [l] may end. *)
Definition flow_ok (l : place) (ev : event) (f : flow) : Prop :=
  match f with
  | Return r _ => one_of [COR_SUCCESS; COR_ERROR] r
  | Goto l' ev' => ev_packet ev' = ev_packet ev /\ (rank l' ev' < rank l ev)%nat
  end.
Definition block_ok (l : place) (ev : event) (o : option flow) : Prop :=
  match o with Some f => flow_ok l ev f | None => True end.

Lemma flow_ok_return l ev at_ r :
  one_of [COR_SUCCESS; COR_ERROR] r -> flow_ok l ev (Return r at_).
Proof. done. Qed.

Lemma get_option_serverid_total p :
  opt_bufs_ok p -> exists r, get_option_serverid p = Some r.
Proof.
  intros Hp. unfold get_option_serverid.
  destruct (get_dhcp_opt_total p DCODE_SERVER_ID MAX_DOPT_SIZE Hp) as (d & -> & _); [done|]. cbn. eauto.
Qed.
Lemma get_option_leasetime_total p :
  opt_bufs_ok p -> exists r, get_option_leasetime p = Some r.
Proof.
  intros Hp. unfold get_option_leasetime.
  destruct (get_dhcp_opt_total p DCODE_LEASET MAX_DOPT_SIZE Hp) as (d & -> & _); [done|]. cbn. eauto.
Qed.

Lemma size_t_nonneg z : 0 <= size_t z.
Proof. unfold size_t. apply Z.mod_pos_bound. lia. Qed.

Lemma delay_base_range n : exists b, delay_base n = Some b /\ 4 <= b <= 64.
Proof.
  unfold delay_base. pose proof (size_t_nonneg n) as Hn. cbv zeta.
  set (m := size_t n) in *. clearbody m. zcase; [|eexists; split; [done|lia]].
  change (zlen delay_tot) with 5 in Hz.
  assert (m = 0 \/ m = 1 \/ m = 2 \/ m = 3 \/ m = 4) as [->|[->|[->|[->| ->]]]] by lia;
    (eexists; split; [reflexivity|lia]).
Qed.

Section StateSafe.
Context `{!Env}.

Lemma delay_timeout_safe n : safe world_ok (delay_timeout n) (fun d => 4000 <= d < 65000).
Proof.
  unfold delay_timeout. destruct (delay_base_range n) as (b & Hb & Hr).
  eapply safe_bind; [apply (safe_ub _ _ (fun b => 4 <= b <= 64)); eauto|]. intros to Hto.
  cbv beta in Hto. safe_tac. pose proof (Z.mod_pos_bound a 1000 eq_refl). lia.
Qed.
Lemma background_safe : safe world_ok background (fun _ => True).
Proof. unfold background. safe_tac. Qed.
Lemma set_dhcp_wake_ts_safe t : safe world_ok (set_dhcp_wake_ts t) (fun _ => True).
Proof. apply safe_set_cs. Qed.
Lemma count_dhcp_request_safe : safe world_ok count_dhcp_request (fun _ => True).
Proof. apply safe_set_cs. Qed.
Lemma reinit_shared_deconfig_safe : safe world_ok reinit_shared_deconfig (fun _ => True).
Proof. unfold reinit_shared_deconfig. safe_tac. Qed.
#[local] Hint Resolve delay_timeout_safe background_safe set_dhcp_wake_ts_safe
  count_dhcp_request_safe reinit_shared_deconfig_safe : safe.
Lemma reinit_selecting_safe t : safe world_ok (reinit_selecting t) (fun _ => True).
Proof. unfold reinit_selecting. safe_tac. Qed.
#[local] Hint Resolve reinit_selecting_safe : safe.
Lemma requesting_timeout_safe t :
  safe world_ok (requesting_timeout t) (one_of [REQ_SUCCESS; REQ_TIMEOUT; REQ_FAIL]).
Proof. unfold requesting_timeout. safe_tac; one_of_tac. Qed.
Lemma set_retry_wake_safe t l : safe world_ok (set_retry_wake t l) (fun _ => True).
Proof. unfold set_retry_wake. safe_tac. Qed.
#[local] Hint Resolve set_retry_wake_safe : safe.
Lemma rebinding_timeout_safe t :
  safe world_ok (rebinding_timeout t) (one_of [BTO_WAIT; BTO_EXPIRED; BTO_HARDFAIL]).
Proof. unfold rebinding_timeout. safe_tac; one_of_tac. Qed.
#[local] Hint Resolve rebinding_timeout_safe : safe.
Lemma renewing_timeout_safe t :
  safe world_ok (renewing_timeout t) (one_of [BTO_WAIT; BTO_EXPIRED; BTO_HARDFAIL]).
Proof. unfold renewing_timeout. safe_tac; one_of_tac. Qed.
#[local] Hint Resolve renewing_timeout_safe : safe.
Lemma bound_timeout_safe t :
  safe world_ok (bound_timeout t) (one_of [BTO_WAIT; BTO_EXPIRED; BTO_HARDFAIL]).
Proof. unfold bound_timeout. safe_tac; one_of_tac. Qed.

Lemma packet_serverid_safe p : opt_bufs_ok p -> safe world_ok (packet_serverid p) (fun _ => True).
Proof.
  intros Hp. unfold packet_serverid.
  eapply safe_bind; [apply (safe_ub _ _ (fun _ => True))|intros r _; by safe_tac].
  destruct (get_option_serverid_total p Hp) as (r & ->). eauto.
Qed.
Lemma get_leasetime_safe p : opt_bufs_ok p -> safe world_ok (get_leasetime p) (fun _ => True).
Proof.
  intros Hp. unfold get_leasetime.
  eapply safe_bind; [apply (safe_ub _ _ (fun _ => True))|intros r _; by safe_tac].
  destruct (get_option_leasetime_total p Hp) as (r & ->). eauto.
Qed.
#[local] Hint Resolve packet_serverid_safe get_leasetime_safe : safe.
Lemma validate_serverid_safe p : opt_bufs_ok p -> safe world_ok (validate_serverid p) (fun _ => True).
Proof. intros Hp. unfold validate_serverid. safe_tac. Qed.
#[local] Hint Resolve validate_serverid_safe : safe.
Lemma extend_packet_safe p t : opt_bufs_ok p ->
  safe world_ok (extend_packet p t) (one_of [ANP_SUCCESS; ANP_IGNORE; ANP_REJECTED; ANP_CHECK_IP]).
Proof. intros Hp. unfold extend_packet. safe_tac; one_of_tac. Qed.
Lemma selecting_packet_safe p t s : opt_bufs_ok p ->
  safe world_ok (selecting_packet p t s false) (one_of [ANP_SUCCESS; ANP_IGNORE]).
Proof. intros Hp. unfold selecting_packet. cbn [negb andb]. safe_tac; one_of_tac. Qed.
Lemma selecting_packet_req_safe p t s : opt_bufs_ok p ->
  safe world_ok (selecting_packet p t s true) (one_of [ANP_CHECK_IP; ANP_IGNORE]).
Proof. intros Hp. unfold selecting_packet. cbn [negb andb]. safe_tac; one_of_tac. Qed.
Lemma selecting_timeout_safe t :
  safe world_ok (selecting_timeout t) (one_of [SEL_SUCCESS; SEL_FAIL]).
Proof. unfold selecting_timeout. safe_tac; one_of_tac. Qed.
Lemma print_release_safe : safe world_ok print_release (fun _ => True).
Proof. unfold print_release. safe_tac. Qed.
#[local] Hint Resolve print_release_safe : safe.
Lemma xmit_release_safe : safe world_ok xmit_release (fun _ => True).
Proof. unfold xmit_release. safe_tac. Qed.
Lemma frenew_safe b : safe world_ok (frenew b) (fun _ => True).
Proof. unfold frenew. safe_tac. Qed.
Lemma ifup_action_safe :
  safe world_ok ifup_action (one_of [IFUP_REVALIDATE; IFUP_NEWLEASE; IFUP_FAIL]).
Proof. unfold ifup_action. safe_tac; try case_match; one_of_tac. Qed.

(** A result outside the listed codes would end in BAD_STATE. *)
Lemma orelse_safe l ev m k :
  safe world_ok m (block_ok l ev) -> safe world_ok k (flow_ok l ev) ->
  safe world_ok (orelse m k) (flow_ok l ev).
Proof.
  intros Hm Hk. unfold orelse. eapply safe_bind; [exact Hm|].
  intros [f|] Hf; [by apply safe_ret|done].
Qed.
Lemma next_safe l ev : safe world_ok next (block_ok l ev).
Proof. by apply safe_ret. Qed.
Lemma ends_safe l ev m : safe world_ok m (flow_ok l ev) -> safe world_ok (ends m) (block_ok l ev).
Proof. intros Hm. unfold ends. eapply safe_bind; [exact Hm|]. intros f Hf. by apply safe_ret. Qed.
#[local] Hint Resolve requesting_timeout_safe bound_timeout_safe selecting_timeout_safe
  print_release_safe xmit_release_safe frenew_safe ifup_action_safe next_safe ends_safe
  extend_packet_safe selecting_packet_safe selecting_packet_req_safe reinit_selecting_safe
  arp_check_safe rebinding_timeout_safe renewing_timeout_safe : safe.

Ltac code_cases :=
  repeat match goal with
  | H : one_of _ _ |- _ => unfold one_of in H; rewrite ?elem_of_cons, elem_of_nil in H
  end.
(** A result code that no branch handles contradicts its specification. *)
Ltac bad_state :=
  exfalso; code_cases; repeat match goal with H : (_ =? _) = false |- _ => apply Z.eqb_neq in H end;
  naive_solver.
Ltac flow_tac :=
  lazymatch goal with
  | |- block_ok _ _ None => exact I
  | |- flow_ok _ _ (Return _ _) => apply flow_ok_return; one_of_tac
  | |- block_ok _ _ (Some (Return _ _)) => apply flow_ok_return; one_of_tac
  | |- block_ok _ _ (Some (Goto _ _)) => split; [reflexivity|]
  | |- flow_ok _ _ (Goto _ _) => split; [reflexivity|]
  | |- safe _ BAD_STATE _ => bad_state
  | |- _ => idtac
  end.
(** The rank of the place a goto names. *)
Ltac rank_tac :=
  cbn [rank]; rsimpl; repeat match goal with H : (_ =? _) = _ |- _ => rewrite H; clear H end;
  repeat match goal with H : sev_dhcp _ = _ |- _ => rewrite H; clear H end;
  cbn; repeat case_match; lia.

Section Steps.
Context (ev : event) (Hev : opt_bufs_ok (ev_packet ev)).

Lemma goto_reinit_safe l :
  (rank Reinit (ev <| sev_dhcp := false |>) < rank l ev)%nat ->
  safe world_ok (goto_reinit ev) (flow_ok l ev).
Proof. intros Hr. apply safe_ret. by split. Qed.

Lemma release_excl s : (s =? SIGNAL_RELEASE) = true -> (s =? SIGNAL_RENEW) = false.
Proof. intros ->%Z.eqb_eq. reflexivity. Qed.

Lemma goto_released_ok l :
  (sev_signal ev =? SIGNAL_RELEASE) = true -> (1 < rank l ev)%nat -> flow_ok l ev (Goto Released ev).
Proof. intros E Hr. split; [done|]. cbn [rank]. by rewrite (release_excl _ E). Qed.

Lemma selecting_step_safe l :
  l = Reinit \/ l = Selecting -> safe world_ok (selecting_step ev) (flow_ok l ev).
Proof using Hev.
  intros Hl. unfold selecting_step. safe_step.
  { safe_step. apply safe_ret. apply goto_released_ok; [done|].
    destruct Hl; subst; cbn [rank]; rewrite E; lia. }
  apply orelse_safe.
  - safe_step; [|apply next_safe]. safe_step. safe_step; [|apply next_safe]. safe_step. flow_tac.
    destruct Hl; subst; cbn [rank]; rsimpl; rewrite E, E0; lia.
  - eapply (safe_bind _ _ _ (one_of [COR_SUCCESS; COR_ERROR])).
    + safe_tac; flow_tac; try one_of_tac.
    + intros r Hr. by apply safe_ret.
Qed.

Lemma requesting_retry_safe l at_ :
  (rank Reinit (ev <| sev_dhcp := false |>) < rank l ev)%nat ->
  safe world_ok (requesting_retry ev at_) (flow_ok l ev).
Proof using Hev.
  intros Hr. unfold requesting_retry.
  safe_step; [|by safe_step; flow_tac]. safe_step.
  safe_step; [by safe_step; flow_tac|]. safe_step; [by apply goto_reinit_safe|].
  safe_step; [by safe_step; flow_tac|]. flow_tac.
Qed.

Lemma requesting_step_safe : safe world_ok (requesting_step ev) (flow_ok Requesting ev).
Proof using Hev.
  unfold requesting_step. safe_step.
  { safe_step. apply safe_ret, goto_released_ok; [done|cbn; lia]. }
  assert (Hr : (rank Reinit (ev <| sev_dhcp := false |>) < rank Requesting ev)%nat)
    by (cbn [rank]; rsimpl; rewrite E; lia).
  apply orelse_safe; [|by apply requesting_retry_safe].
  safe_step; [|apply next_safe]. safe_step. safe_step; [apply next_safe|].
  safe_step; [|flow_tac]. safe_step. safe_step; [|by safe_step; flow_tac].
  safe_step. apply ends_safe. by apply goto_reinit_safe.
Qed.

Lemma collision_step_safe : safe world_ok (collision_step ev) (flow_ok Collision ev).
Proof using Hev.
  unfold collision_step. safe_step.
  { safe_step. apply safe_ret, goto_released_ok; [done|cbn; lia]. }
  assert (Hr : (rank Reinit (ev <| sev_dhcp := false |>) < rank Collision ev)%nat)
    by (cbn [rank]; rsimpl; rewrite E; lia).
  apply orelse_safe; [|apply orelse_safe; [|by apply requesting_retry_safe]].
  - unfold collision_arp. safe_step; [|apply next_safe]. safe_step. safe_step; [apply next_safe|].
    safe_step; [safe_step; by apply ends_safe, goto_reinit_safe|].
    safe_step; [by safe_step; flow_tac|flow_tac].
  - unfold collision_arp_timeout. safe_step; [|apply next_safe]. safe_step.
    safe_step; [by safe_step; safe_step; safe_step; flow_tac|].
    safe_step; [apply next_safe|]. safe_step; [by safe_step; flow_tac|flow_tac].
Qed.

Lemma bound_error_safe : safe world_ok bound_error (block_ok Bound ev).
Proof. apply safe_ret. flow_tac. Qed.
#[local] Hint Resolve bound_error_safe : safe.

Lemma reinit_rank l : l = Bound \/ l = DeconfigFailed ->
  (rank Reinit (ev <| sev_dhcp := false |>) < rank l ev)%nat.
Proof. intros [-> | ->]; cbn [rank]; rsimpl; destruct (_ =? _); lia. Qed.

Lemma bound_reinit_safe : safe world_ok (ends (goto_reinit ev)) (block_ok Bound ev).
Proof. apply ends_safe, goto_reinit_safe, reinit_rank. by left. Qed.
#[local] Hint Resolve bound_reinit_safe : safe.

Lemma fingerprint_conflict_safe : safe world_ok (fingerprint_conflict ev) (block_ok Bound ev).
Proof. unfold fingerprint_conflict. safe_tac. Qed.
#[local] Hint Resolve fingerprint_conflict_safe : safe.

Ltac block_tac := safe_tac; flow_tac.
Lemma bound_signal_safe : safe world_ok (bound_signal ev) (block_ok Bound ev).
Proof.
  unfold bound_signal. safe_step.
  - safe_step. safe_step; [apply bound_error_safe|]. safe_step.
    apply goto_released_ok; [done|cbn; lia].
  - block_tac.
Qed.
Lemma bound_dhcp_safe : safe world_ok (bound_dhcp ev) (block_ok Bound ev).
Proof using Hev. unfold bound_dhcp. block_tac. Qed.
Lemma bound_gw_query_safe : safe world_ok bound_gw_query (block_ok Bound ev).
Proof. unfold bound_gw_query. block_tac. Qed.
Lemma bound_gw_check_safe : safe world_ok (bound_gw_check ev) (block_ok Bound ev).
Proof. unfold bound_gw_check. block_tac. Qed.
#[local] Hint Resolve bound_gw_query_safe bound_gw_check_safe : safe.
Lemma bound_arp_safe : safe world_ok (bound_arp ev) (block_ok Bound ev).
Proof. unfold bound_arp. block_tac. Qed.
Lemma bound_arp_timeout_safe : safe world_ok (bound_arp_timeout ev) (block_ok Bound ev).
Proof. unfold bound_arp_timeout. block_tac. Qed.
Lemma bound_fingerprint_safe : safe world_ok (bound_fingerprint ev) (block_ok Bound ev).
Proof. unfold bound_fingerprint. block_tac. Qed.
Lemma bound_dhcp_timeout_safe : safe world_ok (bound_dhcp_timeout ev) (flow_ok Bound ev).
Proof.
  unfold bound_dhcp_timeout. safe_step; [|safe_step; flow_tac]. safe_step.
  eapply (safe_bind _ _ _ (one_of [BTO_WAIT; BTO_EXPIRED; BTO_HARDFAIL])); [safe_tac|intros r Hr].
  safe_step; [safe_step; flow_tac|].
  safe_step; [apply goto_reinit_safe, reinit_rank; by left|].
  safe_step; [safe_step; flow_tac|flow_tac].
Qed.

Lemma bound_step_safe : safe world_ok (bound_step ev) (flow_ok Bound ev).
Proof using Hev.
  unfold bound_step. repeat apply orelse_safe; auto using bound_signal_safe, bound_dhcp_safe,
    bound_arp_safe, bound_arp_timeout_safe, bound_fingerprint_safe, bound_dhcp_timeout_safe.
Qed.

Lemma released_step_safe : safe world_ok (released_step ev) (flow_ok Released ev).
Proof.
  unfold released_step. safe_step; [|safe_step; flow_tac]. safe_step.
  safe_step; [safe_step; flow_tac|]. apply goto_reinit_safe. cbn [rank]. rsimpl. rewrite E.
  apply Z.eqb_eq in E. rewrite E. cbn. lia.
Qed.

Lemma place_step_safe l : safe world_ok (place_step l ev) (flow_ok l ev).
Proof using Hev.
  destruct l; cbn [place_step].
  - safe_step. safe_step. apply selecting_step_safe. auto.
  - apply selecting_step_safe. auto.
  - apply requesting_step_safe.
  - apply collision_step_safe.
  - apply bound_step_safe.
  - safe_step. apply goto_reinit_safe, reinit_rank. auto.
  - apply released_step_safe.
Qed.
End Steps.

Lemma dhcp_run_safe fuel l ev :
  opt_bufs_ok (ev_packet ev) -> (rank l ev <= fuel)%nat ->
  safe world_ok (dhcp_run fuel l ev) (one_of [COR_SUCCESS; COR_ERROR]).
Proof.
  revert l ev. induction fuel as [|fuel IH]; intros l ev Hev Hf.
  { exfalso. destruct l; cbn in Hf; repeat case_match; lia. }
  cbn [dhcp_run]. eapply safe_bind; [by apply place_step_safe|]. intros [r at_|l' ev'] Hfl.
  - safe_tac.
  - destruct Hfl as [He Hr]. apply IH; [by rewrite He|lia].
Qed.

Lemma dhcp_handle_safe ev :
  opt_bufs_ok (ev_packet ev) ->
  safe world_ok (dhcp_handle ev) (one_of [COR_SUCCESS; COR_ERROR]).
Proof. intros Hev. unfold dhcp_handle. safe_step. by apply dhcp_run_safe, rank_le. Qed.
End StateSafe.

(** * Properties *)

(** A call without any event. *)
Definition quiet_event (now : Z) : event := {|
  nowts := now; sev_dhcp := false; ev_packet := dhcpmsg_zero; dhcp_msgtype := 0;
  dhcp_srcaddr := 0; sev_arp := false; force_fingerprint := false; dhcp_timeout := false;
  arp_timeout := false; sev_signal := SIGNAL_NONE |}.

(** A released client sleeps: until it is told to renew, no packet, no
    timer and no link event makes it send anything or change its state. *)
Theorem released_sleeps `{!Env} (ev : event) (w : World) :
  scrLine w = SCR_RELEASED -> sev_signal ev <> SIGNAL_RENEW ->
  dhcp_handle ev w = (Ret COR_SUCCESS, w).
Proof.
  intros Hl Hs. unfold dhcp_handle.
  unfold mbind, M_bind, gets. rewrite Hl. cbn [resume dhcp_run place_step].
  unfold released_step. apply Z.eqb_neq in Hs. rewrite Hs.
  cbn. f_equal. destruct w; cbn in *. by subst.
Qed.

Lemma released_sleeps_witness :
  let E := sample_env (ch "L"%char) 60 in
  let ev := (quiet_event 1000) <| sev_dhcp := true |> <| dhcp_msgtype := DHCPOFFER |>
              <| ev_packet := sample_message DHCPOFFER [] |> <| dhcp_timeout := true |> in
  let w := sample_world <| scrLine := SCR_RELEASED |> in
  dhcp_handle ev w = (Ret COR_SUCCESS, w).
Proof.
  intros E ev w. apply (released_sleeps ev w); [reflexivity|vm_compute; congruence].
Defined.

(** Retransmission backs off exponentially: after [n] transmissions the next
    one is due in 4, 8, 16, 32 and then 64 seconds, plus less than a second of
    jitter; computing the delay cannot fail. *)
Theorem delay_timeout_backoff `{!Env} (n : Z) (w : World) :
  0 <= n < 2 ^ 64 ->
  wp (delay_timeout n)
     (fun d _ => 4 * 2 ^ Z.min n 4 * 1000 <= d < 4 * 2 ^ Z.min n 4 * 1000 + 1000)
     (fun _ _ => False) w.
Proof.
  intros Hn. unfold delay_timeout, nk_random_u32.
  assert (Hb : delay_base n = Some (4 * 2 ^ Z.min n 4)).
  { unfold delay_base. rewrite size_t_id by done. change (zlen delay_tot) with 5. cbv zeta. zcase.
    - assert (n = 0 \/ n = 1 \/ n = 2 \/ n = 3 \/ n = 4) as [->|[->|[->|[->| ->]]]] by lia; reflexivity.
    - by rewrite Z.min_r by lia. }
  rewrite Hb. generalize (4 * 2 ^ Z.min n 4). intros b. wp_run.
  match goal with |- context [?a mod 1000] => pose proof (Z.mod_pos_bound a 1000 eq_refl) end. lia.
Qed.

Lemma delay_timeout_backoff_witness :
  let E := sample_env (ch "L"%char) 60 in
  0 <= 3 < 2 ^ 64 /\
  wp (delay_timeout 3) (fun d _ => 4 * 2 ^ Z.min 3 4 * 1000 <= d < 4 * 2 ^ Z.min 3 4 * 1000 + 1000)
     (fun _ _ => False) sample_world.
Proof. intros E. split; [lia|]. apply (delay_timeout_backoff 3 sample_world). lia. Defined.

Lemma effective_lease_range l : 0 <= l < 2 ^ 32 -> 60 <= effective_lease l < 2 ^ 32.
Proof. unfold effective_lease. intros. zcases. Qed.

Lemma get_option_leasetime_range p l : get_option_leasetime p = Some l -> 0 <= l < 2 ^ 32.
Proof.
  unfold get_option_leasetime. destruct (get_dhcp_opt _ _ _) as [d|]; [|done].
  cbn [mbind option_bind]. intros [= <-]. zcase; [|lia]. apply htonl_range.
Qed.

(** C17. The lease of a received ACK: the length the server sent, or an hour when
    it sent none, and at least a minute; renewing (T1) starts at half of it,
    rebinding (T2) at seven eighths, in this order and before it expires; the
    client sleeps until T1.  Reading it cannot fail while the clock answers. *)
Theorem lease_timers `{!Env} (p : dhcpmsg) (w : World) (sec ns : Z) :
  opt_bufs_ok p -> env_clock (tick w) = Some (sec, ns) ->
  wp (get_leasetime p) (fun _ w' =>
    exists l, get_option_leasetime p = Some l /\
    let c := cs w' in
    lease c = (if l =? 0 then 3600 else Z.max 60 l) /\ lease c < 2 ^ 32 /\
    renewTime c = lease c / 2 /\ rebindTime c = 7 * (lease c / 8) /\
    0 < renewTime c < rebindTime c /\ rebindTime c < lease c /\
    leaseStartTime c = sec * 1000 + ns / 1000000 /\
    dhcp_wake_ts c = leaseStartTime c + renewTime c * 1000)
    (fun _ _ => False) w.
Proof.
  intros Hp Hc. destruct (get_option_leasetime_total p Hp) as [l Hl].
  pose proof (get_option_leasetime_range p l Hl) as Hr.
  pose proof (effective_lease_range l Hr) as He.
  assert (Hd : effective_lease l = if l =? 0 then 3600 else Z.max 60 l)
    by (unfold effective_lease; repeat zcase; lia).
  unfold get_leasetime, curms. rewrite Hl. wp_run. rewrite Hc. wp_run. cbv zeta. rsimpl.
  exists l. split; [done|]. rewrite !Z.shiftr_div_pow2 by lia. change (2 ^ 1) with 2. change (2 ^ 3) with 8.
  rewrite u32_id by (Z.div_mod_to_equations; lia).
  split_and!; try done; try lia; Z.div_mod_to_equations; lia.
Qed.

Lemma lease_timers_witness :
  let E := sample_env 0 0 in
  let p := sample_message DHCPACK [51; 4; 0; 0; 14; 16] in
  wp (get_leasetime p) (fun _ w' =>
    exists l, get_option_leasetime p = Some l /\
    let c := cs w' in
    lease c = (if l =? 0 then 3600 else Z.max 60 l) /\ lease c < 2 ^ 32 /\
    renewTime c = lease c / 2 /\ rebindTime c = 7 * (lease c / 8) /\
    0 < renewTime c < rebindTime c /\ rebindTime c < lease c /\
    leaseStartTime c = 1000 * 1000 + 0 / 1000000 /\
    dhcp_wake_ts c = leaseStartTime c + renewTime c * 1000)
    (fun _ _ => False) sample_world /\
  wp (get_leasetime p) (fun _ w' => lease (cs w') = 3600 /\ dhcp_wake_ts (cs w') = 2800000)
    (fun _ _ => False) sample_world.
Proof.
  intros E p. split; [|vm_compute; done].
  apply (lease_timers p sample_world 1000 0); [by apply dhcpmsg_ok_bufs|reflexivity].
Defined.

(** The expiry time of the lease is computed with a 32-bit multiplication:
    it is the start of the lease plus its length exactly for leases of at most
    4294967 seconds (49.7 days); a longer one is taken to expire too early. *)
Theorem lease_end_exact_iff (c : client_state_t) :
  0 <= lease c < 2 ^ 32 ->
  (lease_end c = leaseStartTime c + lease c * 1000 <-> lease c <= 4294967) /\
  lease_end c <= leaseStartTime c + lease c * 1000.
Proof.
  intros Hl. unfold lease_end, u32. pose proof (Z.mod_pos_bound (lease c * 1000) (2 ^ 32) eq_refl).
  split; [split; intros ?|]; Z.div_mod_to_equations; lia.
Qed.

Lemma lease_end_exact_iff_witness :
  let c := initial_cs <| lease := 4294968 |> <| leaseStartTime := 1000 |> in
  lease_end c = 1704 /\
  (lease_end c = leaseStartTime c + lease c * 1000 <-> lease c <= 4294967) /\
  lease_end c <= leaseStartTime c + lease c * 1000.
Proof.
  intros c. split; [vm_compute; reflexivity|].
  apply (lease_end_exact_iff c). cbn. lia.
Defined.
