(* ===== verification/Terminates.v ===== *)
(** Termination of the coroutine.

    That a call of [dhcp_handle] ends, shown apart from its safety: of the loops below it
    only two are not bounded by a buffer. *)

From S2P Require Import Prelude Types Options World Samples Ipc Ifchange Dhcp Arp.
From S2P Require Import State.
Import Codec.

(** * Termination

    [finite m]: no loop of [m] runs out of fuel.  Only two loops could: [dhcp_run], whose
    rank falls, and that of [quit_after_lease_handler], which the clock ends. *)

Definition finite {A} (m : M A) : Prop := forall w, fst (m w) <> Halt HFuel.

Section Finite.
Context {A B : Type}.
Lemma finite_bind (m : M B) (f : B -> M A) : finite m -> (forall b, finite (f b)) -> finite (m ≫= f).
Proof.
  intros Hm Hf w. unfold mbind, M_bind. specialize (Hm w). destruct (m w) as [[b|h] w']; [apply Hf|].
  cbn in *. congruence.
Qed.
Lemma finite_ret (a : A) : finite (mret a).
Proof. by intros w. Qed.
Lemma finite_gets (f : World -> A) : finite (gets f).
Proof. by intros w. Qed.
Lemma finite_ask (f : nat -> A) : finite (ask f).
Proof. by intros w. Qed.
Lemma finite_ub (o : option A) : finite (ub o).
Proof. intros w. by destruct o. Qed.
Lemma finite_suicide s : finite (@suicide World A s).
Proof. by intros w. Qed.
Lemma finite_exit n : finite (@exit World A n).
Proof. by intros w. Qed.
End Finite.
Lemma finite_modify f : finite (modify f).
Proof. by intros w. Qed.

Create HintDb finite discriminated.
#[global] Hint Constants Opaque : finite.
#[global] Hint Resolve finite_ret finite_gets finite_ask finite_ub finite_suicide finite_exit finite_modify : finite.
Ltac head_of t := lazymatch t with ?f _ => head_of f | ?f => f end.
(** Takes a computation apart, down to its outside calls and the hints of [finite]. *)
Ltac finite_tac :=
  repeat (cbv zeta;
    match goal with
    | |- forall _, _ => intros ?
    | |- finite (_ ≫= _) => apply finite_bind; [|intros ?]
    | |- finite _ => solve [auto with finite nocore]
    | |- finite (if ?b then _ else _) => destruct b
    | |- finite (match ?x with _ => _ end) => destruct x
    | |- finite ?m => let h := head_of m in unfold h
    end).

Section Calls.
Context {E : Env}.

Lemma curms_finite : finite curms.
Proof. finite_tac. Qed.
Lemma ifchwrite_finite b : finite (ifchwrite b).
Proof. finite_tac. Qed.
Lemma request_sockd_fd_finite b r : finite (request_sockd_fd b r).
Proof. finite_tac. Qed.
#[local] Hint Resolve curms_finite ifchwrite_finite request_sockd_fd_finite : finite.
Lemma send_dhcp_raw_finite p : finite (send_dhcp_raw p).
Proof. finite_tac. Qed.
Lemma send_dhcp_unicast_finite p : finite (send_dhcp_unicast p).
Proof. finite_tac. Qed.
Lemma start_dhcp_listen_finite : finite start_dhcp_listen.
Proof. finite_tac. Qed.
Lemma stop_dhcp_listen_finite : finite stop_dhcp_listen.
Proof. finite_tac. Qed.
#[local] Hint Resolve send_dhcp_raw_finite send_dhcp_unicast_finite start_dhcp_listen_finite stop_dhcp_listen_finite : finite.
Lemma arp_open_fd_finite d : finite (arp_open_fd d).
Proof. finite_tac. Qed.
Lemma arp_send_finite m : finite (arp_send m).
Proof. finite_tac. Qed.
Lemma arp_reset_state_finite : finite arp_reset_state.
Proof. finite_tac. Qed.
#[local] Hint Resolve arp_open_fd_finite arp_send_finite arp_reset_state_finite : finite.
Lemma arp_ping_finite a : finite (arp_ping a).
Proof. finite_tac. Qed.
Lemma arp_announcement_finite : finite arp_announcement.
Proof. finite_tac. Qed.
Lemma arp_ip_anon_ping_finite a : finite (arp_ip_anon_ping a).
Proof. finite_tac. Qed.
#[local] Hint Resolve arp_ping_finite arp_announcement_finite arp_ip_anon_ping_finite : finite.
Lemma reinit_selecting_finite t : finite (reinit_selecting t).
Proof. finite_tac. Qed.
Lemma arp_query_gateway_finite : finite arp_query_gateway.
Proof. finite_tac. Qed.
Lemma arp_announce_finite : finite arp_announce.
Proof. finite_tac. Qed.
Lemma arp_gw_check_finite : finite arp_gw_check.
Proof. finite_tac. Qed.
#[local] Hint Resolve reinit_selecting_finite arp_query_gateway_finite arp_announce_finite arp_gw_check_finite : finite.

Context (Hclock : clock_ticks E).

Lemma quit_finite {A} : finite (@quit_after_lease_handler E A).
Proof using Hclock.
  intros w. pose proof (quit_after_lease_ends Hclock (A := A) w) as Hq. unfold wp in Hq.
  destruct (quit_after_lease_handler w) as [[a|h] w']; cbn in *; congruence.
Qed.
#[local] Hint Resolve quit_finite : finite.

Lemma arp_collision_timeout_finite t : finite (arp_collision_timeout t).
Proof using Hclock. finite_tac. Qed.
#[local] Hint Resolve arp_collision_timeout_finite : finite.

Lemma selecting_step_finite ev : finite (selecting_step ev).
Proof. finite_tac. Qed.
Lemma requesting_step_finite ev : finite (requesting_step ev).
Proof. finite_tac. Qed.
Lemma collision_step_finite ev : finite (collision_step ev).
Proof using Hclock. finite_tac. Qed.
Lemma bound_step_finite ev : finite (bound_step ev).
Proof. unfold bound_step, orelse. finite_tac. Qed.
#[local] Hint Resolve selecting_step_finite requesting_step_finite collision_step_finite bound_step_finite : finite.
Lemma place_step_finite l ev : finite (place_step l ev).
Proof using Hclock. destruct l; cbn [place_step]; finite_tac. Qed.

(** The rank of the place falls with each of the at most three places. *)
Lemma dhcp_run_finite fuel l ev w :
  opt_bufs_ok (ev_packet ev) -> world_ok w -> (rank l ev <= fuel)%nat ->
  wp (dhcp_run fuel l ev) (fun _ _ => True) (fun h _ => h <> HFuel) w.
Proof using Hclock.
  revert l ev w. induction fuel as [|fuel IH]; intros l ev w Hev Hw Hf.
  { exfalso. destruct l; cbn in Hf; repeat case_match; lia. }
  cbn [dhcp_run]. rewrite wp_bind. pose proof (place_step_safe ev Hev l w Hw) as Hs. pose proof (place_step_finite l ev w) as Hfin.
  unfold wp in Hs |- *. destruct (place_step l ev w) as [[[r at_|l' ev']|h] w1]; cbn in *; [done| |congruence].
  destruct Hs as [Hw1 [He Hr]]. apply IH; [by rewrite He|done|lia].
Qed.
End Calls.

(** * Property *)

(** C8. Termination: when the clock advances, every call of the coroutine ends.
    Whatever the event and the state, it passes through at most three places, none of
    its loops runs out of fuel, it returns COR_SUCCESS or COR_ERROR or leaves the process,
    never reaches a "bad state" check and never reads or writes outside a buffer.  The
    clock matters to one loop, that of a client that quits after its first lease: it
    announces the address until this succeeds or a minute is over. *)
Theorem dhcp_handle_ends {E : Env} (ev : event) (w : World) :
  clock_ticks E -> opt_bufs_ok (ev_packet ev) -> world_ok w ->
  wp (dhcp_handle ev)
     (fun r w' => world_ok w' /\ (r = COR_SUCCESS \/ r = COR_ERROR))
     (fun h w' => match h with
        | HUndef | HFuel => False
        | HSuicide s => s <> "bad state"%string
        | HExit _ => True
        end) w.
Proof.
  intros Hc Hev Hw. pose proof (dhcp_handle_safe ev Hev w Hw) as Hs.
  pose proof (dhcp_run_finite Hc 3 (resume (scrLine w)) ev w Hev Hw (rank_le _ _)) as Hfin.
  change (wp (dhcp_handle ev) (fun _ _ => True) (fun h _ => h <> HFuel) w) in Hfin. unfold wp in *.
  destruct (dhcp_handle ev w) as [[r|h] w']; cbn in *.
  - destruct Hs as [Hw' Hr]. split; [done|]. one_of_tac.
  - by destruct h.
Qed.

(** An address was probed, and the client is to quit after its first lease; the
    announcements fail, as the lease is new and no socket is open. *)
Lemma dhcp_handle_ends_witness :
  let E := sample_env (ch "L"%char) 60 in
  let w := sample_world <| scrLine := SCR_COLLISION |> <| client_config ::= (fun c => c <| quit_after_lease := true |>) |>
             <| garp ::= (fun g => g <| dhcp_packet := sample_message DHCPACK [] |>) |> in
  let ev := (quiet_event 1000000) <| arp_timeout := true |> in
  wp (dhcp_handle ev)
     (fun r w' => world_ok w' /\ (r = COR_SUCCESS \/ r = COR_ERROR))
     (fun h w' => match h with
        | HUndef | HFuel => False
        | HSuicide s => s <> "bad state"%string
        | HExit _ => True
        end) w /\
  wp (dhcp_handle ev) (fun _ _ => False) (fun h _ => h = HExit EXIT_FAILURE) w.
Proof.
  intros E w ev. split; [|vm_compute; reflexivity].
  apply (dhcp_handle_ends ev w); [apply sample_clock_ticks|by apply dhcpmsg_ok_bufs|].
  destruct sample_world_ok as [H1 H2 H3]. constructor; [|by apply dhcpmsg_ok_bufs|exact H3].
  destruct H1. by constructor.
Defined.
