(* ===== verification/Nl.v ===== *)
(** Netlink messages ([nl.c]) as sequences of bytes in a buffer: walking the
    messages of a buffer, walking the attributes of a message, appending an
    attribute.

    [len] and [rtlen] of the walks are [size_t] in the code, although the
    kernel's macros expect [int]: the subtraction in [NLMSG_NEXT] and [RTA_NEXT]
    wraps when the last element's length is not a multiple of four. *)

From S2P Require Import Prelude Types World.

Definition NLMSG_HDRLEN : Z := 16.
Definition NLMSG_MIN_TYPE : Z := 0x10.
Definition NLMSG_ERROR : Z := 2.
Definition NLMSG_DONE : Z := 3.
Definition RTM_NEWLINK : Z := 16.
Definition RTM_DELLINK : Z := 17.
Definition IFA_MAX : Z := 8.
Definition sizeof_rtattr : Z := 4.
Definition E2BIG : Z := 7.

(** [NLMSG_ALIGN] and [RTA_ALIGN]: the next multiple of four. *)
Definition NLMSG_ALIGN (n : Z) : Z := Z.land (n + 3) (Z.lnot 3).
Definition RTA_LENGTH (n : Z) : Z := sizeof_rtattr + n.

(** Fields at their offsets from a header at [i]. *)
Definition rd16 (b : list Z) (i : Z) : option Z := of_le <$> rd_range b i 2.
Definition rd32 (b : list Z) (i : Z) : option Z := of_le <$> rd_range b i 4.
Definition nlmsg_len (b : list Z) (i : Z) : option Z := rd32 b i.
Definition nlmsg_type (b : list Z) (i : Z) : option Z := rd16 b (i + 4).
Definition nlmsg_seq (b : list Z) (i : Z) : option Z := rd32 b (i + 8).
Definition nlmsg_pid (b : list Z) (i : Z) : option Z := rd32 b (i + 12).
Definition rta_len (b : list Z) (i : Z) : option Z := rd16 b i.
Definition rta_type (b : list Z) (i : Z) : option Z := rd16 b (i + 2).

(** * Memory images of the structs of <linux/netlink.h> and <linux/rtnetlink.h> *)

Definition RTM_GETLINK : Z := 18.
Definition RTM_GETADDR : Z := 22.
Definition NLM_F_REQUEST : Z := 0x1.
Definition NLM_F_ROOT : Z := 0x100.
Definition AF_INET : Z := 2.
Definition AF_INET6 : Z := 10.
Definition EBADMSG : Z := 74.
Definition sizeof_ifinfomsg : Z := 16.
Definition sizeof_ifaddrmsg : Z := 8.
Definition sizeof_nlmsgerr : Z := 20.

Definition nlmsghdr_image (len type flags seq : Z) : list Z :=
  le32 len ++ le16 type ++ le16 flags ++ le32 seq ++ le32 0.
(** [ifi_family], [ifi_type] are always zero in the messages of the program. *)
Definition ifinfomsg_image (index flags change : Z) : list Z :=
  zeros 4 ++ le32 index ++ le32 flags ++ le32 change.
Definition ifaddrmsg_image (family prefixlen flags scope index : Z) : list Z :=
  [u8 family; u8 prefixlen; u8 flags; u8 scope] ++ le32 index.

(** [nlmsg_get_error] ([nl.h]). *)
Definition nlmsg_get_error (b : list Z) (nlh : Z) : option Z :=
  ml ← nlmsg_len b nlh;
  if ml <? sizeof_nlmsgerr + NLMSG_HDRLEN then Some EBADMSG
  else e ← rd32 b (nlh + NLMSG_HDRLEN); Some (i32 (- i32 e)).

Section Foreach.
Context {A : Type}.

(** The loop of [nl_foreach_nlmsg]: [i] is the position of [nlh] in [buf], [len]
    the remaining length, [acc] what the callback accumulates.  [None] is an
    access outside [buf]. *)
Fixpoint foreach_loop (fuel : nat) (buf : list Z) (i len seq portid : Z)
    (pfn : list Z -> Z -> A -> option A) (acc : A) : option (Z * A) :=
  match fuel with
  | O => None
  | S fuel =>
    if negb (NLMSG_HDRLEN <=? len) then Some (0, acc)
    else
      ml ← nlmsg_len buf i;
      if negb ((NLMSG_HDRLEN <=? ml) && (ml <=? len)) then Some (0, acc)
      else
        pid ← nlmsg_pid buf i;
        sq ← nlmsg_seq buf i;
        ty ← nlmsg_type buf i;
        let continue :=
          foreach_loop fuel buf (i + NLMSG_ALIGN ml) (size_t (len - NLMSG_ALIGN ml)) seq portid pfn in
        if negb (pid =? 0) && negb (portid =? 0) && negb (pid =? portid) then continue acc
        else if negb (seq =? 0) && negb (sq =? seq) then continue acc
        else if NLMSG_MIN_TYPE <=? ty then acc ← pfn buf i acc; continue acc
        else if ty =? NLMSG_ERROR then Some (-1, acc)
        else if ty =? NLMSG_DONE then Some (0, acc)
        else continue acc
  end.

(** Every message is at least a header long, so the walk makes fewer steps than
    the buffer has bytes before it ends or leaves the buffer. *)
Definition nl_foreach_nlmsg (buf : list Z) (blen seq portid : Z)
    (pfn : list Z -> Z -> A -> option A) (acc : A) : option (Z * A) :=
  foreach_loop (S (length buf)) buf 0 blen seq portid pfn acc.

(** [nl_rtattr_parse]: [workfn] gets an attribute's position and type; [None]
    of its result pair stops the walk ([< 0] in C). *)
Fixpoint rtattr_loop (fuel : nat) (buf : list Z) (i rtlen : Z)
    (workfn : Z -> Z -> A -> option A) (acc : A) : option A :=
  match fuel with
  | O => None
  | S fuel =>
    if negb (sizeof_rtattr <=? rtlen) then Some acc
    else
      rl ← rta_len buf i;
      if negb ((sizeof_rtattr <=? rl) && (rl <=? rtlen)) then Some acc
      else
        ty ← rta_type buf i;
        match workfn i ty acc with
        | None => Some acc
        | Some acc =>
          rtattr_loop fuel buf (i + NLMSG_ALIGN rl) (size_t (rtlen - NLMSG_ALIGN rl)) workfn acc
        end
  end.

(** [nlh] is the position of the message in [buf]. *)
Definition nl_rtattr_parse (buf : list Z) (nlh offset : Z)
    (workfn : Z -> Z -> A -> option A) (acc : A) : option A :=
  ml ← nlmsg_len buf nlh;
  rtattr_loop (S (length buf)) buf (nlh + NLMSG_HDRLEN + NLMSG_ALIGN offset)
    (size_t (u32 (ml - NLMSG_HDRLEN) - NLMSG_ALIGN offset)) workfn acc.
End Foreach.

(** [rtattr_assign]: the table [tb] maps a type to the position of its attribute. *)
Definition rtattr_assign (attr type : Z) (tb : Z -> option Z) : option (Z -> option Z) :=
  if IFA_MAX <=? type then Some tb else Some (fn_update tb type (Some attr)).

(** [nl_add_rtattr]: the message is at the start of [buf], which is as long as
    the array behind [n]; the result code and the buffer. *)
Definition nl_add_rtattr (buf : list Z) (max_length type : Z) (data : list Z)
  : option (Z * list Z) :=
  let length := RTA_LENGTH (zlen data) in
  ml ← nlmsg_len buf 0;
  if max_length <? NLMSG_ALIGN ml + NLMSG_ALIGN length then Some (- E2BIG, buf)
  else
    let tail := NLMSG_ALIGN ml in
    buf ← wr_range buf (tail + 2) (le16 type);
    buf ← wr_range buf tail (le16 length);
    buf ← wr_range buf (tail + sizeof_rtattr) data;
    buf ← wr_range buf 0 (le32 (NLMSG_ALIGN ml + NLMSG_ALIGN length));
    Some (0, buf).

(** What [nl.c] needs of the process that calls it: [safe_sendto] and
    [safe_recvmsg] on a netlink socket.  Both the master and ndhc-ifch call it. *)
Class NlProc (S : Type) := {
  nl_sendto : Z -> list Z -> St S Z;
  nl_recvmsg : Z -> St S nl_reply
}.
#[export] Instance World_NlProc `{!Env} : NlProc World := {|
  nl_sendto := fun fd msg => emit (ANl fd msg);; ask env_send;
  nl_recvmsg := fun _ => ask env_nl
|}.

(** What the kernel leaves of a datagram in a receive buffer, and [nl_recv_buf]'s
    verdict on it: a datagram longer than the buffer is cut ([MSG_TRUNC]). *)
Definition received (buf data : list Z) : list Z :=
  let data := take (length buf) (List.map u8 data) in data ++ drop (length data) buf.
Definition truncated (buf data : list Z) : bool := zlen buf <? zlen data.

Section NlSend.
Context {S : Type} `{!NlProc S}.

(** [nl_recv_buf]: the result and the buffer after the call. *)
Definition nl_recv_buf (fd : Z) (buf : list Z) : St S (Z * list Z) :=
  r ← nl_recvmsg fd;
  mret (match r with
        | NlAgain => (0, buf)
        | NlFails => (-1, buf)
        | NlBadAddr data => (-1, received buf data)
        | NlData data => (if truncated buf data then -1 else zlen data, received buf data)
        end).

(** [safe_sendto] of a whole message, the common end of the request functions. *)
Definition nl_send_all (fd : Z) (msg : list Z) : St S Z :=
  r ← nl_sendto fd msg;
  mret (if (r <? 0) || negb (r =? zlen msg) then -1 else 0).

(** The bytes sent are the first [nlmsg_len] of the zeroed [nlbuf]. *)
Definition nl_sendgetlink_do (fd seq ifindex : Z) (by_ifindex : bool) : St S Z :=
  nl_send_all fd
    (nlmsghdr_image (NLMSG_HDRLEN + sizeof_ifinfomsg) RTM_GETLINK (Z.lor NLM_F_REQUEST NLM_F_ROOT) seq ++
     ifinfomsg_image (if by_ifindex then ifindex else 0) 0 0).
Definition nl_sendgetlinks (fd seq : Z) : St S Z := nl_sendgetlink_do fd seq 0 false.
Definition nl_sendgetlink (fd seq ifindex : Z) : St S Z := nl_sendgetlink_do fd seq ifindex true.

Definition nl_sendgetaddr_do (fd seq ifindex : Z) (by_ifindex : bool) (afamily : Z) (by_afamily : bool)
  : St S Z :=
  nl_send_all fd
    (nlmsghdr_image (NLMSG_HDRLEN + sizeof_ifaddrmsg) RTM_GETADDR (Z.lor NLM_F_REQUEST NLM_F_ROOT) seq ++
     ifaddrmsg_image (if by_afamily then afamily else 0) 0 0 0 (if by_ifindex then ifindex else 0)).
Definition nl_sendgetaddrs (fd seq : Z) : St S Z := nl_sendgetaddr_do fd seq 0 false 0 false.
Definition nl_sendgetaddrs4 (fd seq : Z) : St S Z := nl_sendgetaddr_do fd seq 0 false AF_INET true.
Definition nl_sendgetaddrs6 (fd seq : Z) : St S Z := nl_sendgetaddr_do fd seq 0 false AF_INET6 true.
Definition nl_sendgetaddr (fd seq ifindex : Z) : St S Z := nl_sendgetaddr_do fd seq ifindex true 0 false.
Definition nl_sendgetaddr4 (fd seq ifindex : Z) : St S Z := nl_sendgetaddr_do fd seq ifindex true AF_INET true.
Definition nl_sendgetaddr6 (fd seq ifindex : Z) : St S Z := nl_sendgetaddr_do fd seq ifindex true AF_INET6 true.
End NlSend.

(** [nl_foreach_nlmsg] with a callback that acts on the process and on the data
    [fnarg] points to; a callback that ends the process ends the walk. *)
Definition nl_foreach_st {S D : Type} (buf : list Z) (blen seq portid : Z)
    (pfn : list Z -> Z -> D -> St S D) (fnarg : D) : St S (Z * D) := fun s =>
  let each b i (acc : outcome D * S) :=
    Some (match acc with (Ret d, s) => pfn b i d s | halted => halted end) in
  match nl_foreach_nlmsg buf blen seq portid each (Ret fnarg, s) with
  | None => (Halt HUndef, s)
  | Some (r, (Ret d, s)) => (Ret (r, d), s)
  | Some (_, (Halt h, s)) => (Halt h, s)
  end.

Lemma nl_recv_buf_io `{!Env} fd buf : io_only (nl_recv_buf (S := World) fd buf).
Proof. unfold nl_recv_buf. cbn [nl_recvmsg World_NlProc]. io_tac. Qed.
#[export] Hint Resolve nl_recv_buf_io : io.

(** What the callback keeps, the walk keeps. *)
Lemma foreach_loop_inv {A} (P : A -> Prop) (pfn : list Z -> Z -> A -> option A) fuel buf i len seq portid acc r acc' :
  (forall b i a a', P a -> pfn b i a = Some a' -> P a') -> P acc ->
  foreach_loop fuel buf i len seq portid pfn acc = Some (r, acc') -> P acc'.
Proof.
  intros Hp. revert i len acc. induction fuel as [|fuel IH]; intros i len acc Ha; [done|]. cbn [foreach_loop].
  destruct (negb _); [by intros [= _ <-]|].
  destruct (nlmsg_len buf i) as [ml|]; [|done]. cbn [mbind option_bind].
  destruct (negb _); [by intros [= _ <-]|].
  destruct (nlmsg_pid buf i); [|done]. destruct (nlmsg_seq buf i); [|done]. destruct (nlmsg_type buf i); [|done].
  cbn [mbind option_bind]. cbv zeta. destruct (_ && _); [by apply IH|]. destruct (_ && _); [by apply IH|].
  destruct (_ <=? _).
  - destruct (pfn buf i acc) as [a|] eqn:E; [|done]. apply IH. by eapply Hp.
  - destruct (_ =? NLMSG_ERROR); [by intros [= _ <-]|]. destruct (_ =? NLMSG_DONE); [by intros [= _ <-]|by apply IH].
Qed.
Lemma keeps_foreach_st {S D : Type} (R : S -> S -> Prop) `{!PreOrder R} buf blen seq portid
    (pfn : list Z -> Z -> D -> St S D) d :
  (forall b i d, keeps R (pfn b i d)) -> keeps R (nl_foreach_st buf blen seq portid pfn d).
Proof.
  intros Hp s. unfold nl_foreach_st.
  destruct (nl_foreach_nlmsg _ _ _ _ _ _) as [[r acc]|] eqn:E; [|by cbn].
  apply (foreach_loop_inv (fun acc : outcome D * S => R s (snd acc))) in E; [|..|by cbn].
  - by destruct acc as [[d'|h] s'].
  - intros b i [[d1|h] s1] a' Hs [= <-]; [|done]. etrans; [exact Hs|]. apply (Hp b i d1 s1).
Qed.

(** * Walking stays inside the buffer *)

Lemma NLMSG_ALIGN_div n : NLMSG_ALIGN n = (n + 3) / 4 * 4.
Proof.
  unfold NLMSG_ALIGN. change (Z.lnot 3) with (Z.lnot (Z.ones 2)).
  rewrite <- Z.ldiff_land, Z.ldiff_ones_r by lia.
  by rewrite Z.shiftl_mul_pow2, Z.shiftr_div_pow2 by lia.
Qed.
Lemma NLMSG_ALIGN_bounds n : n <= NLMSG_ALIGN n <= n + 3 /\ NLMSG_ALIGN n mod 4 = 0.
Proof. rewrite NLMSG_ALIGN_div. split; [|apply Z.mod_mul; lia]. Z.div_mod_to_equations. lia. Qed.
(** An aligned end is not passed by aligning something before it. *)
Lemma NLMSG_ALIGN_le n m : n <= m -> m mod 4 = 0 -> NLMSG_ALIGN n <= m.
Proof. rewrite NLMSG_ALIGN_div. intros. Z.div_mod_to_equations. lia. Qed.

Lemma rd32_total b i : 0 <= i -> i + 4 <= zlen b -> exists v, rd32 b i = Some v.
Proof. intros. unfold rd32. destruct (rd_range_Some b i 4) as (d & -> & _); [lia..|]. cbn. eauto. Qed.
Lemma rd16_total b i : 0 <= i -> i + 2 <= zlen b -> exists v, rd16 b i = Some v.
Proof. intros. unfold rd16. destruct (rd_range_Some b i 2) as (d & -> & _); [lia..|]. cbn. eauto. Qed.

Lemma received_length buf data : zlen (received buf data) = zlen buf.
Proof. unfold received, zlen. rewrite length_app, length_drop, length_take. lia. Qed.

Section ForeachTotal.
Context {A : Type} (P : A -> Prop) (buf : list Z) (margin : Z)
  (pfn : list Z -> Z -> A -> option A)
  (Hpfn : forall i acc, 0 <= i -> i + NLMSG_HDRLEN + margin <= zlen buf -> P acc ->
          exists acc', pfn buf i acc = Some acc' /\ P acc')
  (Hm : 0 <= margin).

(** A buffer of whole aligned messages is walked to its end, as long as the
    callback stays within [margin] bytes after a header. *)
Lemma foreach_loop_total fuel i len seq portid acc :
  0 <= i -> 0 <= len < 2 ^ 64 -> len mod 4 = 0 -> i + len + margin <= zlen buf ->
  len < Z.of_nat fuel -> P acc ->
  exists r acc', foreach_loop fuel buf i len seq portid pfn acc = Some (r, acc') /\
    (r = 0 \/ r = -1) /\ P acc'.
Proof using Hpfn Hm.
  revert i len acc. induction fuel as [|fuel IH]; intros i len acc Hi Hlen Hal Hb Hf HP; [lia|].
  unfold NLMSG_HDRLEN in Hpfn. cbn [foreach_loop]. unfold NLMSG_HDRLEN.
  zcase; cbn [negb]; [|eauto 10].
  destruct (rd32_total buf i) as (ml & Hml); [lia..|].
  unfold nlmsg_len. rewrite Hml. cbn [mbind option_bind].
  zcase; cbn [andb negb]; [|eauto 10]. zcase; cbn [negb]; [|eauto 10].
  destruct (rd32_total buf (i + 12)) as (pid & Hpid); [lia..|].
  destruct (rd32_total buf (i + 8)) as (sq & Hsq); [lia..|].
  destruct (rd16_total buf (i + 4)) as (ty & Hty); [lia..|].
  unfold nlmsg_pid, nlmsg_seq, nlmsg_type. rewrite Hpid, Hsq, Hty. cbn [mbind option_bind].
  assert (Hnext : forall acc, P acc -> exists r acc',
     foreach_loop fuel buf (i + NLMSG_ALIGN ml) (size_t (len - NLMSG_ALIGN ml)) seq portid pfn acc
     = Some (r, acc') /\ (r = 0 \/ r = -1) /\ P acc').
  { intros a Ha. destruct (NLMSG_ALIGN_bounds ml) as [Hb1 Hb2].
    pose proof (NLMSG_ALIGN_le ml len ltac:(lia) Hal).
    rewrite size_t_id by lia. apply IH; try lia; [|done].
    Z.div_mod_to_equations. lia. }
  cbv zeta. destruct (_ && _); [by apply Hnext|]. destruct (_ && _); [by apply Hnext|].
  zcase; [|zcase; [eauto 10|zcase; [eauto 10|by apply Hnext]]].
  destruct (Hpfn i acc) as (a & Ha & HPa); [lia..|done|]. rewrite Ha. cbn [mbind option_bind].
  by apply Hnext.
Qed.

Lemma nl_foreach_nlmsg_total blen seq portid acc :
  0 <= blen < 2 ^ 64 -> blen mod 4 = 0 -> blen + margin <= zlen buf -> P acc ->
  exists r acc', nl_foreach_nlmsg buf blen seq portid pfn acc = Some (r, acc') /\
    (r = 0 \/ r = -1) /\ P acc'.
Proof using Hpfn Hm.
  intros. unfold nl_foreach_nlmsg. apply foreach_loop_total; try done; unfold zlen in *; lia.
Qed.
End ForeachTotal.

(** * Properties *)

(** Walking the messages of a received datagram stays inside the receive
    buffer and ends, for any content, as long as the datagram is a whole number of
    words and the callback reads no more than [margin] bytes behind a header: a
    forged length ends the walk instead of leading it outside. *)
Theorem nl_foreach_nlmsg_in_bounds {A : Type} (buf : list Z) (margin blen seq portid : Z)
    (pfn : list Z -> Z -> A -> option A) (acc : A) :
  (forall i a, 0 <= i -> i + NLMSG_HDRLEN + margin <= zlen buf -> is_Some (pfn buf i a)) ->
  0 <= margin -> 0 <= blen < 2 ^ 64 -> blen mod 4 = 0 -> blen + margin <= zlen buf ->
  exists r a, nl_foreach_nlmsg buf blen seq portid pfn acc = Some (r, a) /\ (r = 0 \/ r = -1).
Proof.
  intros Hp Hm Hb Hal Hbuf.
  destruct (nl_foreach_nlmsg_total (fun _ : A => True) buf margin pfn) with (blen := blen)
    (seq := seq) (portid := portid) (acc := acc) as (r & a & Hr & Hc & _); try done; [|eauto].
  intros i a Hi Hia _. destruct (Hp i a Hi Hia) as [a' Ha]. eauto.
Qed.

(** Counts the messages. *)
Definition count_msgs (_ : list Z) (_ : Z) (n : nat) : option nat := Some (S n).

(** A message of 20 bytes, then one whose length reaches beyond the datagram. *)
Lemma nl_foreach_nlmsg_in_bounds_witness :
  let buf := le32 20 ++ le16 RTM_NEWLINK ++ zeros 14 ++ le32 4000 ++ le16 RTM_NEWLINK ++ zeros 10 in
  (exists r a, nl_foreach_nlmsg buf 36 0 0 count_msgs 0%nat = Some (r, a) /\ (r = 0 \/ r = -1)) /\
  nl_foreach_nlmsg buf 36 0 0 count_msgs 0%nat = Some (0, 1%nat).
Proof.
  intros buf. split; [|vm_compute; reflexivity].
  apply (nl_foreach_nlmsg_in_bounds buf 0 36 0 0 count_msgs 0%nat); try done.
Defined.

(** The restriction to whole words is needed: the remaining length is a
    [size_t], and when the last message of a datagram that fills the buffer has
    an unaligned length the subtraction wraps, the walk goes on behind the end of
    the buffer and reads outside it. *)
Theorem nl_foreach_nlmsg_unaligned {A : Type} (buf : list Z) (blen : Z)
    (pfn : list Z -> Z -> A -> option A) (acc acc' : A) :
  NLMSG_HDRLEN <= blen -> blen mod 4 <> 0 -> zlen buf < NLMSG_ALIGN blen + 4 -> blen <= zlen buf ->
  zlen buf < 2 ^ 32 ->
  nlmsg_len buf 0 = Some blen -> nlmsg_type buf 0 = Some RTM_NEWLINK -> pfn buf 0 acc = Some acc' ->
  nl_foreach_nlmsg buf blen 0 0 pfn acc = None.
Proof.
  unfold NLMSG_HDRLEN. intros Hb Hal Hz Hlen Hmax Hml Hty Hp. unfold nl_foreach_nlmsg.
  destruct (length buf) as [|n] eqn:El; [unfold zlen in *; lia|]. cbn [foreach_loop].
  unfold NLMSG_HDRLEN. replace (16 <=? blen) with true by lia. cbn [negb].
  rewrite Hml, Hty. cbn [mbind option_bind].
  replace (16 <=? blen) with true by lia. replace (blen <=? blen) with true by lia. cbn [andb negb].
  destruct (rd32_total buf (0 + 12)) as (pid & Hpid); [lia..|].
  destruct (rd32_total buf (0 + 8)) as (sq & Hsq); [lia..|].
  unfold nlmsg_pid, nlmsg_seq. rewrite Hpid, Hsq. cbn [mbind option_bind].
  change (0 =? 0) with true. cbn [negb andb]. rewrite andb_false_r. cbn [andb].
  change (NLMSG_MIN_TYPE <=? RTM_NEWLINK) with true. cbv iota. rewrite Hp. cbn [mbind option_bind].
  destruct (NLMSG_ALIGN_bounds blen) as [Ha1 Ha2].
  assert (Hw : 16 <= size_t (blen - NLMSG_ALIGN blen)).
  { assert (blen <> NLMSG_ALIGN blen) by congruence. unfold size_t.
    rewrite <- (Z.mod_unique (blen - NLMSG_ALIGN blen) (2 ^ 64) (-1)
      (blen - NLMSG_ALIGN blen + 2 ^ 64)); lia. }
  replace (16 <=? _) with true by lia. cbn [negb].
  assert (Hn : nlmsg_len buf (0 + NLMSG_ALIGN blen) = None).
  { unfold nlmsg_len, rd32, rd_range. replace (_ && _) with false by lia. done. }
  by rewrite Hn.
Qed.

(** A datagram of 8189 bytes in the 8 KiB buffer. *)
Lemma nl_foreach_nlmsg_unaligned_witness :
  let buf := le32 8189 ++ le16 RTM_NEWLINK ++ zeros 8186 in
  nl_foreach_nlmsg buf 8189 0 0 count_msgs 0%nat = None.
Proof.
  intros buf. apply (nl_foreach_nlmsg_unaligned buf 8189 count_msgs 0%nat 1%nat);
    vm_compute; congruence.
Defined.
