(* ===== verification/Nlmsg.v ===== *)
(** Netlink messages as data, and what the walks of [nl.c] make of their memory
    images: a datagram of well-formed messages is walked message by message, the
    attributes of a message are found by their type, and an appended attribute is
    one more attribute of the message. *)

From S2P Require Import Prelude Types World Nl.

(** * Messages and their images *)

Record nlattr := mk_nlattr { at_type : Z; at_data : list Z }.
(** [m_fixed] is the struct behind the header ([struct ifaddrmsg] and the like). *)
Record nlmsg := mk_nlmsg {
  m_type : Z; m_flags : Z; m_seq : Z; m_pid : Z; m_fixed : list Z; m_attrs : list nlattr
}.

Definition pad (n : Z) : list Z := zeros (Z.to_nat (NLMSG_ALIGN n - n)).
Definition attr_image (a : nlattr) : list Z :=
  le16 (RTA_LENGTH (zlen (at_data a))) ++ le16 (at_type a) ++ at_data a ++ pad (zlen (at_data a)).
Definition attrs_image (l : list nlattr) : list Z := mjoin (attr_image <$> l).
Definition msg_body (m : nlmsg) : list Z := m_fixed m ++ attrs_image (m_attrs m).
Definition msg_len (m : nlmsg) : Z := NLMSG_HDRLEN + zlen (msg_body m).
Definition msg_image (m : nlmsg) : list Z :=
  le32 (msg_len m) ++ le16 (m_type m) ++ le16 (m_flags m) ++ le32 (m_seq m) ++ le32 (m_pid m) ++ msg_body m.
Definition datagram (ms : list nlmsg) : list Z := mjoin (msg_image <$> ms).

Definition attr_ok (a : nlattr) : Prop :=
  0 <= at_type a < 2 ^ 16 /\ bytes_ok (at_data a) = true /\ RTA_LENGTH (zlen (at_data a)) < 2 ^ 16.
Definition msg_ok (m : nlmsg) : Prop :=
  0 <= m_type m < 2 ^ 16 /\ 0 <= m_flags m < 2 ^ 16 /\ 0 <= m_seq m < 2 ^ 32 /\ 0 <= m_pid m < 2 ^ 32 /\
  bytes_ok (m_fixed m) = true /\ zlen (m_fixed m) mod 4 = 0 /\ Forall attr_ok (m_attrs m) /\
  msg_len m < 2 ^ 32.

#[export] Instance attr_ok_dec a : Decision (attr_ok a).
Proof. unfold attr_ok. apply _. Defined.
#[export] Instance msg_ok_dec m : Decision (msg_ok m).
Proof. unfold msg_ok. apply _. Defined.

(** * Sizes *)

Lemma align_pad n : 0 <= n -> n + zlen (pad n) = NLMSG_ALIGN n.
Proof.
  intros Hn. unfold pad. destruct (NLMSG_ALIGN_bounds n) as [Hb _].
  unfold zlen, zeros. rewrite length_replicate. lia.
Qed.
Lemma align_id n : n mod 4 = 0 -> NLMSG_ALIGN n = n.
Proof. rewrite NLMSG_ALIGN_div. intros. Z.div_mod_to_equations. lia. Qed.
Lemma align_add n m : n mod 4 = 0 -> NLMSG_ALIGN (n + m) = n + NLMSG_ALIGN m.
Proof. rewrite !NLMSG_ALIGN_div. intros. Z.div_mod_to_equations. lia. Qed.

Lemma attr_image_len a : zlen (attr_image a) = NLMSG_ALIGN (RTA_LENGTH (zlen (at_data a))).
Proof.
  unfold RTA_LENGTH, sizeof_rtattr. rewrite align_add by done. unfold attr_image.
  rewrite !zlen_app, !le16_len. pose proof (align_pad (zlen (at_data a)) (zlen_nonneg _)). lia.
Qed.
Lemma attr_image_aligned a : zlen (attr_image a) mod 4 = 0.
Proof. rewrite attr_image_len. apply NLMSG_ALIGN_bounds. Qed.
Lemma attrs_image_aligned l : zlen (attrs_image l) mod 4 = 0.
Proof.
  unfold attrs_image. induction l as [|a l IH]; [done|]. rewrite fmap_cons, mjoin_cons, zlen_app.
  pose proof (attr_image_aligned a). Z.div_mod_to_equations. lia.
Qed.
Lemma attrs_image_bytes l : Forall attr_ok l -> bytes_ok (attrs_image l) = true.
Proof.
  unfold attrs_image. induction 1 as [|a l (Ht & Hb & Hl) _ IH]; [done|]. rewrite fmap_cons, mjoin_cons, bytes_ok_app, IH.
  unfold attr_image, pad. by rewrite !bytes_ok_app, !le16_ok, Hb, bytes_ok_zeros.
Qed.
Lemma msg_image_bytes m : msg_ok m -> bytes_ok (msg_image m) = true.
Proof.
  intros (_ & _ & _ & _ & Hf & _ & Ha & _). unfold msg_image, msg_body.
  by rewrite !bytes_ok_app, !le32_ok, !le16_ok, Hf, attrs_image_bytes.
Qed.
Lemma datagram_bytes ms : Forall msg_ok ms -> bytes_ok (datagram ms) = true.
Proof.
  unfold datagram. induction 1 as [|m ms Hm _ IH]; [done|].
  by rewrite fmap_cons, mjoin_cons, bytes_ok_app, IH, msg_image_bytes.
Qed.
Lemma msg_image_len m : zlen (msg_image m) = msg_len m.
Proof. unfold msg_image, msg_len, NLMSG_HDRLEN. rewrite !zlen_app, !le32_len, !le16_len. lia. Qed.
Lemma msg_len_aligned m : msg_ok m -> msg_len m mod 4 = 0.
Proof.
  intros (_ & _ & _ & _ & _ & Hf & _). unfold msg_len, msg_body, NLMSG_HDRLEN. rewrite zlen_app.
  pose proof (attrs_image_aligned (m_attrs m)). Z.div_mod_to_equations. lia.
Qed.
Lemma msg_len_min m : NLMSG_HDRLEN <= msg_len m.
Proof. unfold msg_len. pose proof (zlen_nonneg (msg_body m)). lia. Qed.

(** * The fields of an image *)

Lemma rd16_at pre v post i : i = zlen pre -> 0 <= v < 2 ^ 16 -> rd16 (pre ++ le16 v ++ post) i = Some v.
Proof.
  intros -> Hv. unfold rd16. rewrite (rd_range_at pre (le16 v) post) by (done || by rewrite le16_len).
  cbn [fmap option_fmap option_map]. by rewrite of_le_le16.
Qed.
Lemma rd32_at pre v post i : i = zlen pre -> 0 <= v < 2 ^ 32 -> rd32 (pre ++ le32 v ++ post) i = Some v.
Proof.
  intros -> Hv. unfold rd32. rewrite (rd_range_at pre (le32 v) post) by (done || by rewrite le32_len).
  cbn [fmap option_fmap option_map]. by rewrite of_le_le32.
Qed.

Section Fields.
Context (pre post : list Z) (m : nlmsg) (Hm : msg_ok m).
Let buf := pre ++ msg_image m ++ post.

Lemma msg_image_nlmsg_len : nlmsg_len buf (zlen pre) = Some (msg_len m).
Proof using Hm.
  subst buf. unfold nlmsg_len, msg_image. rewrite <- app_assoc. apply rd32_at; [done|].
  pose proof (msg_len_min m). destruct Hm as (_ & _ & _ & _ & _ & _ & _ & ?). unfold NLMSG_HDRLEN in *. lia.
Qed.
Lemma msg_image_nlmsg_type : nlmsg_type buf (zlen pre) = Some (m_type m).
Proof using Hm.
  subst buf. unfold nlmsg_type, msg_image. rewrite <- !app_assoc, (app_assoc pre).
  apply rd16_at; [rewrite zlen_app, le32_len; lia|]. by destruct Hm.
Qed.
Lemma msg_image_nlmsg_seq : nlmsg_seq buf (zlen pre) = Some (m_seq m).
Proof using Hm.
  subst buf. unfold nlmsg_seq, msg_image.
  rewrite <- !app_assoc, (app_assoc pre), (app_assoc (pre ++ _)), (app_assoc ((pre ++ _) ++ _)).
  apply rd32_at; [rewrite !zlen_app, le32_len, !le16_len; lia|]. by destruct Hm as (_ & _ & ? & _).
Qed.
Lemma msg_image_nlmsg_pid : nlmsg_pid buf (zlen pre) = Some (m_pid m).
Proof using Hm.
  subst buf. unfold nlmsg_pid, msg_image.
  rewrite <- !app_assoc, (app_assoc pre), (app_assoc (pre ++ _)), (app_assoc ((pre ++ _) ++ _)),
    (app_assoc (((pre ++ _) ++ _) ++ _)).
  apply rd32_at; [rewrite !zlen_app, !le32_len, !le16_len; lia|]. by destruct Hm as (_ & _ & _ & ? & _).
Qed.
End Fields.

(** * Walking a datagram *)

Section Walk.
Context {A : Type} (seq : Z) (visit : Z -> nlmsg -> A -> option A).

(** What [nl_foreach_nlmsg] does with the messages [ms] from the position [i] on:
    those of another request are skipped, a status message ends the walk. *)
Fixpoint walk (i : Z) (ms : list nlmsg) (acc : A) : option (Z * A) :=
  match ms with
  | [] => Some (0, acc)
  | m :: ms =>
    if negb (seq =? 0) && negb (m_seq m =? seq) then walk (i + msg_len m) ms acc
    else if NLMSG_MIN_TYPE <=? m_type m then acc ← visit i m acc; walk (i + msg_len m) ms acc
    else if m_type m =? NLMSG_ERROR then Some (-1, acc)
    else if m_type m =? NLMSG_DONE then Some (0, acc)
    else walk (i + msg_len m) ms acc
  end.

Context (P : nlmsg -> Prop) (HP : forall m, P m -> msg_ok m).
Context (buf : list Z) (pfn : list Z -> Z -> A -> option A).
Context (Hpfn : forall pre m post acc, buf = pre ++ msg_image m ++ post -> P m -> NLMSG_MIN_TYPE <= m_type m ->
                pfn buf (zlen pre) acc = visit (zlen pre) m acc).

Lemma datagram_cons m ms : datagram (m :: ms) = msg_image m ++ datagram ms.
Proof. reflexivity. Qed.

Lemma foreach_walk fuel : forall ms pre post acc,
  buf = pre ++ datagram ms ++ post -> Forall P ms -> zlen (datagram ms) < Z.of_nat fuel ->
  zlen buf < 2 ^ 64 ->
  foreach_loop fuel buf (zlen pre) (zlen (datagram ms)) seq 0 pfn acc = walk (zlen pre) ms acc.
Proof using Hpfn HP.
  induction fuel as [|fuel IH]; intros ms pre post acc Hbuf Hms Hf H64; [zlen_lia|]. cbn [foreach_loop].
  destruct ms as [|m ms]; [done|]. apply Forall_cons in Hms as [HPm Hms]. pose proof (HP m HPm) as Hm.
  rewrite datagram_cons in Hbuf, Hf |- *. rewrite zlen_app in Hf |- *.
  rewrite <- app_assoc in Hbuf. pose proof (msg_image_len m) as Hlen. pose proof (msg_len_min m) as Hmin.
  pose proof (zlen_nonneg (datagram ms)) as H0. rewrite Hlen in *.
  zcase; cbn [negb]; [|lia].
  rewrite Hbuf at 1. rewrite (msg_image_nlmsg_len pre (datagram ms ++ post) m Hm). cbn [mbind option_bind].
  replace ((NLMSG_HDRLEN <=? msg_len m) && (msg_len m <=? msg_len m + zlen (datagram ms))) with true by lia.
  cbn [negb].
  rewrite Hbuf at 1. rewrite (msg_image_nlmsg_pid pre (datagram ms ++ post) m Hm). cbn [mbind option_bind].
  rewrite Hbuf at 1. rewrite (msg_image_nlmsg_seq pre (datagram ms ++ post) m Hm). cbn [mbind option_bind].
  rewrite Hbuf at 1. rewrite (msg_image_nlmsg_type pre (datagram ms ++ post) m Hm). cbn [mbind option_bind].
  change (0 =? 0) with true. cbn [negb andb]. rewrite andb_false_r. cbn [andb walk].
  assert (Hnext : forall a, foreach_loop fuel buf (zlen pre + NLMSG_ALIGN (msg_len m))
    (size_t (msg_len m + zlen (datagram ms) - NLMSG_ALIGN (msg_len m))) seq 0 pfn a = walk (zlen pre + msg_len m) ms a).
  { intros a. rewrite align_id by by apply msg_len_aligned. rewrite size_t_id.
    2: { apply (f_equal zlen) in Hbuf. rewrite !zlen_app, Hlen in Hbuf.
         pose proof (zlen_nonneg pre). pose proof (zlen_nonneg post). unfold NLMSG_HDRLEN in *. lia. }
    replace (msg_len m + zlen (datagram ms) - msg_len m) with (zlen (datagram ms)) by lia.
    replace (zlen pre + msg_len m) with (zlen (pre ++ msg_image m)) by (rewrite zlen_app, Hlen; lia).
    unfold NLMSG_HDRLEN in *. apply (IH ms _ post); [by rewrite <- app_assoc|done|lia|done]. }
  destruct (_ && _); [apply Hnext|]. destruct (Z.leb_spec NLMSG_MIN_TYPE (m_type m)); [|].
  - rewrite (Hpfn pre m (datagram ms ++ post)) by done. destruct (visit (zlen pre) m acc); [|done]. apply Hnext.
  - destruct (m_type m =? NLMSG_ERROR); [done|]. destruct (_ =? NLMSG_DONE); [done|]. apply Hnext.
Qed.
End Walk.

(** The same for a callback that acts on the process. *)
Section WalkSt.
Context {S D : Type} (seq : Z) (visit : nlmsg -> D -> St S D).

Fixpoint walk_st (ms : list nlmsg) (d : D) : St S (Z * D) :=
  match ms with
  | [] => mret (0, d)
  | m :: ms =>
    if negb (seq =? 0) && negb (m_seq m =? seq) then walk_st ms d
    else if NLMSG_MIN_TYPE <=? m_type m then d ← visit m d; walk_st ms d
    else if m_type m =? NLMSG_ERROR then mret (-1, d)
    else if m_type m =? NLMSG_DONE then mret (0, d)
    else walk_st ms d
  end.

Lemma foreach_st_walk (P : nlmsg -> Prop) ms post blen pfn d s :
  (forall m, P m -> msg_ok m) -> Forall P ms -> blen = zlen (datagram ms) -> zlen (datagram ms ++ post) < 2 ^ 64 ->
  (forall pre m post' d s, datagram ms ++ post = pre ++ msg_image m ++ post' -> P m -> NLMSG_MIN_TYPE <= m_type m ->
     pfn (datagram ms ++ post) (zlen pre) d s = visit m d s) ->
  nl_foreach_st (datagram ms ++ post) blen seq 0 pfn d s = walk_st ms d s.
Proof.
  intros HP Hms -> H64 Hp. unfold nl_foreach_st, nl_foreach_nlmsg.
  set (visit' := fun (_ : Z) m (acc : outcome D * S) =>
    Some (match acc with (Ret d, s) => visit m d s | halted => halted end)).
  rewrite (foreach_walk seq visit' P HP (datagram ms ++ post) _) with (pre := []) (post := post) (ms := ms); try done.
  - assert (Hhalt : forall ms i h s, exists r, walk seq visit' i ms (Halt h, s) = Some (r, (Halt h, s))).
    { clear. intros ms. induction ms as [|m ms IH]; intros i h s; cbn [walk]; [by eexists|].
      destruct (_ && _); [apply IH|]. destruct (_ <=? _); [apply IH|].
      destruct (_ =? NLMSG_ERROR); [by eexists|]. destruct (_ =? NLMSG_DONE); [by eexists|]. apply IH. }
    assert (Hrun : forall ms i d s, exists r acc, walk seq visit' i ms (Ret d, s) = Some (r, acc) /\
      (match acc with (Ret d, s) => (Ret (r, d), s) | (Halt h, s) => (Halt h, s) end) = walk_st ms d s).
    { clear -Hhalt. intros ms. induction ms as [|m ms IH]; intros i d s; cbn [walk walk_st]; [by eexists _, _|].
      destruct (_ && _); [apply IH|]. destruct (_ <=? _).
      - subst visit'. cbn [mbind option_bind]. unfold mbind, M_bind.
        destruct (visit m d s) as [[d'|h] s']; [apply IH|].
        destruct (Hhalt ms (i + msg_len m) h s') as [r Hr]. by exists r, (Halt h, s').
      - destruct (_ =? NLMSG_ERROR); [by eexists _, _|]. destruct (_ =? NLMSG_DONE); [by eexists _, _|]. apply IH. }
    by destruct (Hrun ms (zlen (@nil Z)) d s) as (r & [[d'|h] s'] & -> & Hr).
  - intros pre m post' [[d'|h] s'] Hb Hm Hmin; [|done]. unfold visit'. f_equal. by apply (Hp pre m post').
  - unfold zlen. rewrite length_app. lia.
Qed.
End WalkSt.

(** A callback that returns on every message leaves the walk returning, and what it
    preserves is preserved. *)
Lemma foreach_st_safe {S D : Type} (R : S -> S -> Prop) `{!PreOrder R} (I : S -> Prop)
    (P : nlmsg -> Prop) seq ms post blen (pfn : list Z -> Z -> D -> St S D) d s :
  (forall m, P m -> msg_ok m) -> Forall P ms -> blen = zlen (datagram ms) -> zlen (datagram ms ++ post) < 2 ^ 64 ->
  (forall pre m post' d s, datagram ms ++ post = pre ++ msg_image m ++ post' ->
     zlen pre + msg_len m <= zlen (datagram ms) -> P m -> NLMSG_MIN_TYPE <= m_type m -> I s ->
     wp (pfn (datagram ms ++ post) (zlen pre) d) (fun _ s' => R s s' /\ I s') (fun _ _ => False) s) ->
  I s ->
  wp (nl_foreach_st (datagram ms ++ post) blen seq 0 pfn d) (fun _ s' => R s s' /\ I s') (fun _ _ => False) s.
Proof.
  intros HP Hms -> H64 Hp Hs. unfold nl_foreach_st, nl_foreach_nlmsg, wp.
  set (buf := datagram ms ++ post) in *.
  set (visit' := fun i (m : nlmsg) (acc : outcome D * S) =>
    Some (match acc with (Ret d, s) => pfn buf i d s | halted => halted end)).
  rewrite (foreach_walk seq visit' P HP buf _) with (pre := []) (post := post) (ms := ms); try done.
  2: { unfold zlen. subst buf. rewrite length_app. lia. }
  assert (Hrun : forall l pre d s, datagram ms = pre ++ datagram l -> Forall P l -> I s ->
    exists r d' s', walk seq visit' (zlen pre) l (Ret d, s) = Some (r, (Ret d', s')) /\ R s s' /\ I s').
  { clear d s Hs. intros l. induction l as [|m l IH]; intros pre d s Hd Hl Hs; cbn [walk]; [by eexists _, _, _|].
    apply Forall_cons in Hl as [Hm Hl]. rewrite datagram_cons in Hd.
    assert (Hlen : zlen pre + msg_len m = zlen (pre ++ msg_image m)) by by rewrite zlen_app, msg_image_len.
    assert (Hd' : datagram ms = (pre ++ msg_image m) ++ datagram l) by by rewrite <- app_assoc.
    rewrite Hlen. destruct (_ && _); [by apply IH|].
    destruct (Z.leb_spec NLMSG_MIN_TYPE (m_type m)) as [Hty|Hty].
    - pose proof (Hp pre m (datagram l ++ post) d s) as Hone. unfold wp in Hone. subst visit'. cbn [mbind option_bind].
      destruct (pfn buf (zlen pre) d s) as [[d1|h] s1].
      + destruct Hone as [HR1 HI1]; [|rewrite Hlen, Hd', (zlen_app _ (datagram l)); pose proof (zlen_nonneg (datagram l)); lia|done..|].
        { subst buf. by rewrite Hd, <- !app_assoc. }
        destruct (IH (pre ++ msg_image m) d1 s1) as (r & d' & s' & Hw & HR2 & HI2); [done..|].
        exists r, d', s'. split_and!; [done|by etrans|done].
      + destruct Hone; [|rewrite Hlen, Hd', (zlen_app _ (datagram l)); pose proof (zlen_nonneg (datagram l)); lia|done..].
        subst buf. by rewrite Hd, <- !app_assoc.
    - destruct (_ =? NLMSG_ERROR); [by eexists _, _, _|]. destruct (_ =? NLMSG_DONE); [by eexists _, _, _|by apply IH]. }
  destruct (Hrun ms [] d s eq_refl Hms Hs) as (r & d' & s' & Hw & HR & HI).
  change (zlen (@nil Z)) with 0 in Hw |- *. by rewrite Hw.
Qed.

(** * Attributes *)

(** The data of the last attribute of a type: a later one replaces an earlier. *)
Fixpoint attr_data (l : list nlattr) (ty : Z) : option (list Z) :=
  match l with
  | [] => None
  | a :: l => match attr_data l ty with
              | Some d => Some d
              | None => if at_type a =? ty then Some (at_data a) else None
              end
  end.

(** [tb] is the table of the attributes [l] that lie in [buf]; types the table has no
    room for are left as they are in [tb0]. *)
Definition table_of (buf : list Z) (l : list nlattr) (tb0 tb : Z -> option Z) : Prop :=
  forall ty, ty < IFA_MAX ->
    match attr_data l ty with
    | Some d => exists p, tb ty = Some p /\ rd_range buf (p + sizeof_rtattr) (zlen d) = Some d /\
                rta_len buf p = Some (RTA_LENGTH (zlen d))
    | None => tb ty = tb0 ty
    end.

Lemma attrs_image_cons a l : attrs_image (a :: l) = attr_image a ++ attrs_image l.
Proof. reflexivity. Qed.

Lemma rtattr_loop_table fuel : forall l pre post buf tb0,
  buf = pre ++ attrs_image l ++ post -> Forall attr_ok l -> zlen (attrs_image l) < Z.of_nat fuel ->
  zlen buf < 2 ^ 64 ->
  exists tb, rtattr_loop fuel buf (zlen pre) (zlen (attrs_image l)) rtattr_assign tb0 = Some tb /\
    table_of buf l tb0 tb.
Proof.
  induction fuel as [|fuel IH]; intros l pre post buf tb0 Hbuf Hl Hf H64; [zlen_lia|]. cbn [rtattr_loop].
  destruct l as [|a l]; [by exists tb0|]. apply Forall_cons in Hl as [(Ht & Hb & Hlen) Hl].
  rewrite attrs_image_cons in Hbuf, Hf |- *. rewrite zlen_app in Hf |- *.
  pose proof (attr_image_len a) as Ha. rewrite Ha in *.
  set (rl := RTA_LENGTH (zlen (at_data a))) in *. pose proof (zlen_nonneg (at_data a)) as Hd0.
  assert (Hrl : 4 <= rl < 2 ^ 16) by (subst rl; unfold RTA_LENGTH, sizeof_rtattr in *; lia).
  destruct (NLMSG_ALIGN_bounds rl) as [Hal _]. pose proof (zlen_nonneg (attrs_image l)) as H0.
  unfold sizeof_rtattr in *. zcase; cbn [negb]; [|lia].
  assert (Hshape : buf = pre ++ le16 rl ++ le16 (at_type a) ++ at_data a ++
    (pad (zlen (at_data a)) ++ attrs_image l ++ post)).
  { rewrite Hbuf. unfold attr_image. fold rl. by rewrite <- !app_assoc. }
  assert (Hrta : rta_len buf (zlen pre) = Some rl) by (unfold rta_len; rewrite Hshape; apply rd16_at; [done|lia]).
  assert (Hrty : rta_type buf (zlen pre) = Some (at_type a)).
  { unfold rta_type. rewrite Hshape, (app_assoc pre). apply rd16_at; [rewrite zlen_app, le16_len; lia|done]. }
  rewrite Hrta, Hrty. cbn [mbind option_bind].
  replace ((4 <=? rl) && _) with true by lia. cbn [negb].
  set (tb1 := if IFA_MAX <=? at_type a then tb0 else fn_update tb0 (at_type a) (Some (zlen pre))).
  assert (Hassign : rtattr_assign (zlen pre) (at_type a) tb0 = Some tb1)
    by (unfold rtattr_assign; subst tb1; by destruct (_ <=? at_type a)).
  rewrite Hassign.
  destruct (IH l (pre ++ attr_image a) post buf tb1) as (tb & Htb & Htab).
  { rewrite Hbuf. by rewrite <- !app_assoc. } { done. } { lia. } { done. }
  exists tb. split.
  - rewrite <- Htb, zlen_app, Ha. f_equal.
    replace (NLMSG_ALIGN rl + zlen (attrs_image l) - NLMSG_ALIGN rl) with (zlen (attrs_image l)) by lia.
    apply size_t_id. apply (f_equal zlen) in Hbuf. rewrite !zlen_app, Ha in Hbuf.
    pose proof (zlen_nonneg pre). pose proof (zlen_nonneg post). lia.
  - intros ty Hty. specialize (Htab ty Hty). cbn [attr_data]. destruct (attr_data l ty) as [d|]; [done|].
    rewrite Htab. subst tb1. destruct (Z.eqb_spec (at_type a) ty) as [<-|Hne].
    + zcase; [lia|]. rewrite fn_update_eq. exists (zlen pre). split; [done|]. split; [|by rewrite Hrta]. unfold sizeof_rtattr.
      assert (Hd : buf = (pre ++ le16 rl ++ le16 (at_type a)) ++ at_data a ++
        (pad (zlen (at_data a)) ++ attrs_image l ++ post)) by (rewrite Hshape, <- !app_assoc; done).
      rewrite Hd. apply rd_range_at; [rewrite !zlen_app, !le16_len; lia|done].
    + zcase; [done|]. by rewrite fn_update_ne.
Qed.

(** [nl_rtattr_parse] on a message behind whose header there is a struct of
    [zlen (m_fixed m)] bytes. *)
Lemma rtattr_parse_table pre m post :
  let buf := pre ++ msg_image m ++ post in
  msg_ok m -> zlen buf < 2 ^ 64 ->
  exists tb, nl_rtattr_parse buf (zlen pre) (zlen (m_fixed m)) rtattr_assign (fun _ => None) = Some tb /\
    table_of buf (m_attrs m) (fun _ => None) tb.
Proof.
  intros buf Hm H64. unfold nl_rtattr_parse. subst buf.
  rewrite (msg_image_nlmsg_len pre post m Hm). cbn [mbind option_bind].
  pose proof Hm as (_ & _ & _ & _ & _ & Hfix & Hat & Hlen).
  rewrite (align_id (zlen (m_fixed m))) by done.
  set (hdr := le32 (msg_len m) ++ le16 (m_type m) ++ le16 (m_flags m) ++ le32 (m_seq m) ++ le32 (m_pid m)).
  assert (Hshape : pre ++ msg_image m ++ post = (pre ++ hdr ++ m_fixed m) ++ attrs_image (m_attrs m) ++ post).
  { subst hdr. unfold msg_image, msg_body. by rewrite <- !app_assoc. }
  assert (Hpos : zlen pre + NLMSG_HDRLEN + zlen (m_fixed m) = zlen (pre ++ hdr ++ m_fixed m)).
  { subst hdr. rewrite !zlen_app, !le32_len, !le16_len. unfold NLMSG_HDRLEN. lia. }
  assert (Hrest : size_t (u32 (msg_len m - NLMSG_HDRLEN) - zlen (m_fixed m)) = zlen (attrs_image (m_attrs m))).
  { unfold msg_len, msg_body in *. rewrite zlen_app in *. pose proof (zlen_nonneg (m_fixed m)).
    pose proof (zlen_nonneg (attrs_image (m_attrs m))). unfold NLMSG_HDRLEN in *.
    rewrite u32_id by lia. rewrite size_t_id by lia. lia. }
  rewrite Hpos, Hrest, Hshape. rewrite Hshape in H64.
  apply rtattr_loop_table with (post := post); [done|done| |done].
  unfold zlen. rewrite !length_app. lia.
Qed.

(** * Appending an attribute *)

Definition with_attr (m : nlmsg) (a : nlattr) : nlmsg :=
  mk_nlmsg (m_type m) (m_flags m) (m_seq m) (m_pid m) (m_fixed m) (m_attrs m ++ [a]).

Lemma attrs_image_snoc l a : attrs_image (l ++ [a]) = attrs_image l ++ attr_image a.
Proof.
  unfold attrs_image. rewrite fmap_app, join_app. by rewrite fmap_cons, mjoin_cons, app_nil_r.
Qed.
Lemma with_attr_len m a : msg_len (with_attr m a) = msg_len m + zlen (attr_image a).
Proof. unfold msg_len, msg_body, with_attr. cbn [m_fixed m_attrs]. rewrite attrs_image_snoc, !zlen_app. lia. Qed.
Lemma with_attr_ok m a : msg_ok m -> attr_ok a -> msg_len (with_attr m a) < 2 ^ 32 -> msg_ok (with_attr m a).
Proof.
  intros Hm Ha Hl. unfold msg_ok in *. change (m_attrs (with_attr m a)) with (m_attrs m ++ [a]).
  rewrite Forall_app, Forall_singleton. cbn [with_attr m_type m_flags m_seq m_pid m_fixed]. tauto.
Qed.

(** The message is at the start of a buffer that is zero behind it. *)
Lemma nl_add_rtattr_image m a (n : nat) :
  msg_ok m -> attr_ok a ->
  nl_add_rtattr (msg_image m ++ zeros n) (zlen (msg_image m ++ zeros n)) (at_type a) (at_data a) =
  if Z.of_nat n <? zlen (attr_image a) then Some (- E2BIG, msg_image m ++ zeros n)
  else Some (0, msg_image (with_attr m a) ++ zeros (n - length (attr_image a))).
Proof.
  intros Hm (Ht & Hb & Hal). unfold nl_add_rtattr.
  replace (nlmsg_len (msg_image m ++ zeros n) 0) with (Some (msg_len m))
    by (symmetry; exact (msg_image_nlmsg_len [] (zeros n) m Hm)).
  cbn [mbind option_bind].
  pose proof (attr_image_len a) as Ha. set (rl := RTA_LENGTH (zlen (at_data a))) in *.
  pose proof (msg_len_aligned m Hm) as Hmal. rewrite (align_id (msg_len m)) by done.
  rewrite <- Ha. rewrite zlen_app, msg_image_len.
  replace (zlen (zeros n)) with (Z.of_nat n) by (unfold zlen, zeros; by rewrite length_replicate).
  replace (msg_len m + Z.of_nat n <? msg_len m + zlen (attr_image a)) with (Z.of_nat n <? zlen (attr_image a))
    by (destruct (Z.ltb_spec (Z.of_nat n) (zlen (attr_image a))), (Z.ltb_spec (msg_len m + Z.of_nat n) (msg_len m + zlen (attr_image a))); lia).
  zcase; [done|]. cbv zeta.
  set (hdr := le16 (m_type m) ++ le16 (m_flags m) ++ le32 (m_seq m) ++ le32 (m_pid m) ++ msg_body m).
  assert (Him : msg_image m = le32 (msg_len m) ++ hdr) by done.
  set (ld := length (at_data a)). set (rest := zeros (n - length (attr_image a))).
  assert (Hlen : length (attr_image a) = (4 + ld + length (pad (zlen (at_data a))))%nat).
  { unfold attr_image. rewrite !length_app. subst ld. cbn [le16 length]. lia. }
  assert (Hzeros : zeros n = zeros 2 ++ zeros 2 ++ zeros ld ++ pad (zlen (at_data a)) ++ rest).
  { subst rest. unfold pad, zeros in *. rewrite length_replicate in Hlen.
    rewrite <- !replicate_add. f_equal. unfold zlen in *. lia. }
  rewrite Hzeros. pose proof (msg_image_len m) as Hml.
  rewrite (app_assoc (msg_image m)).
  rewrite (wr_range_at _ (zeros 2) (le16 (at_type a))) by (try done; rewrite zlen_app, Hml; done).
  cbn [mbind option_bind]. rewrite <- (app_assoc (msg_image m)).
  rewrite (wr_range_at (msg_image m) (zeros 2) (le16 rl)) by done. cbn [mbind option_bind].
  rewrite (app_assoc (le16 rl)), (app_assoc (msg_image m)).
  rewrite (wr_range_at _ (zeros ld) (at_data a)).
  2: { rewrite !zlen_app, !le16_len, Hml. done. } 2: { unfold zlen, zeros. by rewrite length_replicate. }
  cbn [mbind option_bind]. rewrite Him, <- !(app_assoc (le32 (msg_len m))).
  assert (Hhead : forall x y t, wr_range (le32 x ++ t) 0 (le32 y) = Some (le32 y ++ t))
    by (intros x y t; by apply (wr_range_at [] (le32 x) (le32 y) t)).
  rewrite Hhead. cbn [mbind option_bind]. do 2 f_equal. unfold msg_image. rewrite with_attr_len.
  unfold msg_body, with_attr. cbn [m_type m_flags m_seq m_pid m_fixed m_attrs]. rewrite attrs_image_snoc.
  subst hdr. unfold attr_image at 3, msg_body. fold rl. by rewrite <- !app_assoc.
Qed.

(** * Properties *)

(** C35. Appending an attribute and parsing attributes are inverse: when the message
    has room the attribute is found under its type with its data, the others as
    before; when it has none nothing is written and the error says so. *)
Theorem nl_rtattr_roundtrip (m : nlmsg) (a : nlattr) (n : nat) :
  msg_ok m -> attr_ok a -> at_type a < IFA_MAX -> msg_len m + zlen (attr_image a) + Z.of_nat n < 2 ^ 32 ->
  let buf := msg_image m ++ zeros n in
  exists r buf', nl_add_rtattr buf (zlen buf) (at_type a) (at_data a) = Some (r, buf') /\
    zlen buf' = zlen buf /\
    if Z.of_nat n <? zlen (attr_image a) then r = - E2BIG /\ buf' = buf
    else r = 0 /\
      exists tb, nl_rtattr_parse buf' 0 (zlen (m_fixed m)) rtattr_assign (fun _ => None) = Some tb /\
        (exists p, tb (at_type a) = Some p /\ rd_range buf' (p + sizeof_rtattr) (zlen (at_data a)) = Some (at_data a)) /\
        forall ty, ty < IFA_MAX -> ty <> at_type a ->
          match attr_data (m_attrs m) ty with
          | Some d => exists p, tb ty = Some p /\ rd_range buf' (p + sizeof_rtattr) (zlen d) = Some d
          | None => tb ty = None
          end.
Proof.
  intros Hm Ha Hty Hlen buf. subst buf. rewrite nl_add_rtattr_image by done.
  zcase; [by eexists _, _|]. eexists 0, _. split; [done|].
  pose proof (with_attr_len m a) as Hwl. pose proof (zlen_nonneg (attr_image a)) as Ha0.
  assert (Hok : msg_ok (with_attr m a)) by (apply with_attr_ok; [done..|lia]).
  split. { rewrite !zlen_app, !msg_image_len, Hwl. unfold zlen, zeros in *. rewrite !length_replicate. lia. }
  split; [done|].
  destruct (rtattr_parse_table [] (with_attr m a) (zeros (n - length (attr_image a))) Hok) as (tb & Htb & Htab).
  { cbn [app]. rewrite zlen_app, msg_image_len, Hwl. unfold zlen, zeros in *. rewrite length_replicate. lia. }
  exists tb. split; [exact Htb|].
  assert (Hsnoc : forall ty, attr_data (m_attrs (with_attr m a)) ty =
    if at_type a =? ty then Some (at_data a) else attr_data (m_attrs m) ty).
  { intros ty. cbn [with_attr m_attrs]. induction (m_attrs m) as [|b l IH]; cbn [app attr_data]; [done|].
    rewrite IH. by destruct (at_type a =? ty). }
  split.
  - specialize (Htab (at_type a) Hty). rewrite Hsnoc, Z.eqb_refl in Htab.
    destruct Htab as (p & ? & ? & _). by exists p.
  - intros ty Ht Hne. specialize (Htab ty Ht). rewrite Hsnoc in Htab.
    destruct (Z.eqb_spec (at_type a) ty); [done|].
    destruct (attr_data (m_attrs m) ty); [destruct Htab as (p & ? & ? & _); by exists p|exact Htab].
Qed.

(** An address request with a local address gets a broadcast address. *)
Lemma nl_rtattr_roundtrip_witness :
  let m := mk_nlmsg 20 5 1 0 (zeros 8) [mk_nlattr 2 [10; 0; 0; 9]] in
  let a := mk_nlattr 4 [10; 0; 0; 255] in
  let buf := msg_image m ++ zeros 8 in
  exists r buf', nl_add_rtattr buf (zlen buf) (at_type a) (at_data a) = Some (r, buf') /\
    zlen buf' = zlen buf /\
    if 8 <? zlen (attr_image a) then r = - E2BIG /\ buf' = buf
    else r = 0 /\
      exists tb, nl_rtattr_parse buf' 0 (zlen (m_fixed m)) rtattr_assign (fun _ => None) = Some tb /\
        (exists p, tb (at_type a) = Some p /\ rd_range buf' (p + sizeof_rtattr) (zlen (at_data a)) = Some (at_data a)) /\
        forall ty, ty < IFA_MAX -> ty <> at_type a ->
          match attr_data (m_attrs m) ty with
          | Some d => exists p, tb ty = Some p /\ rd_range buf' (p + sizeof_rtattr) (zlen d) = Some d
          | None => tb ty = None
          end.
Proof.
  intros m a buf. apply (nl_rtattr_roundtrip m a 8).
  - split_and!; try (vm_compute; congruence). by repeat constructor.
  - by split_and!.
  - done.
  - done.
Defined.
