(* ===== verification/Netlink.v ===== *)
(** Link state notifications and the lookup of the interface's index and
    hardware address ([netlink.c]), and rfkill events ([rfkill.c]). *)

From S2P Require Import Prelude Types World Ipc Nl.

Definition IFS_NONE : Z := 0.
Definition IFS_UP : Z := 1.
Definition IFS_DOWN : Z := 2.
Definition IFS_SHUT : Z := 3.
Definition IFS_REMOVED : Z := 4.
Definition IFF_UP : Z := 0x1.
Definition IFF_RUNNING : Z := 0x40.
Definition IFLA_ADDRESS : Z := 1.
Definition IFLA_IFNAME : Z := 3.
(** [char nlbuf[8192]] *)
Definition sizeof_nlbuf : Z := 8192.

Definition RFK_NONE : Z := 0.
Definition RFK_FAIL : Z := 1.
Definition RFK_ENABLED : Z := 2.
Definition RFK_DISABLED : Z := 3.
Definition RFKILL_OP_CHANGE : Z := 2.
Definition RFKILL_OP_CHANGE_ALL : Z := 3.
Definition RFKILL_EVENT_SIZE_V1 : Z := 8.

(** [struct ifinfomsg] in the payload of the message at [nlh]. *)
Definition ifi_index (b : list Z) (nlh : Z) : option Z := i32 <$> rd32 b (nlh + NLMSG_HDRLEN + 4).
Definition ifi_flags (b : list Z) (nlh : Z) : option Z := rd32 b (nlh + NLMSG_HDRLEN + 8).

(** [nl_process_msgs]: the new value of [nl_process_msgs_return]. *)
Definition nl_process_msgs (our_ifindex : Z) (buf : list Z) (nlh : Z) (state : Z) : option Z :=
  idx ← ifi_index buf nlh;
  if negb (idx =? our_ifindex) then Some state
  else
    ty ← nlmsg_type buf nlh;
    if ty =? RTM_NEWLINK then
      flags ← ifi_flags buf nlh;
      Some (if negb (Z.land flags IFF_UP =? 0) then
              if negb (Z.land flags IFF_RUNNING =? 0) then IFS_UP else IFS_DOWN
            else IFS_SHUT)
    else if ty =? RTM_DELLINK then Some IFS_REMOVED
    else Some state.

(** [strncmp(a, b, n) == 0] with [a] an array and [b] a string at [i] of [buf]. *)
Fixpoint strncmp_eq (n : nat) (a : list Z) (buf : list Z) (i : Z) : option bool :=
  match n, a with
  | O, _ => Some true
  | S n, c :: a =>
    d ← rd buf i;
    if negb (c =? d) then Some false
    else if c =? 0 then Some true
    else strncmp_eq n a buf (i + 1)
  | S _, [] => None
  end.

(** The three ways [get_if_index_and_mac] ends. *)
Inductive ifdata := IfOther | IfFound (cc : client_config_t) | IfSuicide.

Definition get_if_index_and_mac (cc : client_config_t) (buf : list Z) (nlh : Z)
  : option ifdata :=
  tb ← nl_rtattr_parse buf nlh sizeof_ifinfomsg rtattr_assign (fun _ => None);
  match tb IFLA_IFNAME with
  | None => Some IfOther
  | Some name =>
    same ← strncmp_eq 16 (interface cc) buf (name + sizeof_rtattr);
    if negb same then Some IfOther
    else
      idx ← ifi_index buf nlh;
      match tb IFLA_ADDRESS with
      | None => Some IfSuicide
      | Some addr =>
        len ← rta_len buf addr;
        if negb (len - 4 =? 6) then Some IfSuicide
        else
          mac ← rd_range buf (addr + sizeof_rtattr) 6;
          Some (IfFound (cc <| ifindex := idx |> <| arp := mac |>))
      end
  end.

(** [do_handle_getifdata]: configuration, [got_ifdata], and whether it left by
    [suicide] (the walk's remaining callbacks then do nothing). *)
Definition do_handle_getifdata (buf : list Z) (nlh : Z) (s : client_config_t * bool * bool)
  : option (client_config_t * bool * bool) :=
  let '(cc, got, dead) := s in
  if dead : bool then Some s
  else
    ty ← nlmsg_type buf nlh;
    if ty =? RTM_NEWLINK then
      r ← get_if_index_and_mac cc buf nlh;
      Some (match r with
            | IfOther => (cc, got, false)
            | IfFound cc => (cc, true, false)
            | IfSuicide => (cc, got, true)
            end)
    else Some s.

Section Netlink.
Context `{!Env}.

Definition nl_event_carrier_wentup (state : Z) : M bool :=
  if state =? IFS_UP then mret true
  else if state =? IFS_DOWN then mret false
  else if state =? IFS_SHUT then mret false
  else if state =? IFS_REMOVED then exit 0
  else mret false.

(** The [do ... while (ret > 0)] loop of [nl_event_get]. *)
Fixpoint nl_event_loop (fuel : nat) (nlbuf : list Z) (state : Z) : M Z :=
  match fuel with
  | O => fatal HFuel
  | S fuel =>
    fd ← gets (fun w => nlFd (cs w));
    r ← nl_recv_buf fd nlbuf;
    let '(ret, nlbuf) := r in
    if ret <? 0 then mret state
    else
      w ← gets (fun w => (ifindex (client_config w), nlPortId (cs w)));
      f ← ub (nl_foreach_nlmsg nlbuf ret 0 w.2 (nl_process_msgs w.1) state);
      if f.1 <? 0 then mret f.2
      else if 0 <? ret then nl_event_loop fuel nlbuf f.2
      else mret f.2
  end.

Definition nl_event_get : M Z :=
  fd ← gets (fun w => nlFd (cs w));
  if fd =? -1 then suicide "assertion failed"
  else nl_event_loop env_fuel (zeros (Z.to_nat sizeof_nlbuf)) IFS_NONE.

Fixpoint getifdata_loop (fuel : nat) (fd seq : Z) (nlbuf : list Z) (got_ifdata : bool) : M Z :=
  match fuel with
  | O => fatal HFuel
  | S fuel =>
    r ← nl_recv_buf fd nlbuf;
    let '(ret, nlbuf) := r in
    if ret <? 0 then mret (-1)
    else
      cc ← gets client_config;
      f ← ub (nl_foreach_nlmsg nlbuf ret seq 0 do_handle_getifdata (cc, got_ifdata, false));
      let '(code, (cc, got_ifdata, dead)) := f in
      modify (fun w => w <| client_config := cc |>);;
      if dead : bool then suicide "FATAL: adapter hardware address"
      else if code <? 0 then mret (-1)
      else if 0 <? ret then getifdata_loop fuel fd seq nlbuf got_ifdata
      else mret (if got_ifdata : bool then 0 else -1)
  end.
Definition handle_getifdata (fd seq : Z) : M Z :=
  getifdata_loop env_fuel fd seq (zeros (Z.to_nat sizeof_nlbuf)) false.

(** [rfkill_get]; [struct rfkill_event] is idx, type, op, soft, hard. *)
Definition rfkill_get (check_idx : bool) (rfkidx : Z) : M Z :=
  r ← ask env_read;
  match r with
  | ReadAgain | ReadFails => mret RFK_FAIL
  | ReadData data =>
    let event := take 8 (List.map u8 data) in
    if negb (zlen event =? RFKILL_EVENT_SIZE_V1) then mret RFK_FAIL
    else
      idx ← ub (rd32 event 0);
      op ← ub (rd event 5);
      soft ← ub (rd event 6);
      hard ← ub (rd event 7);
      if check_idx && negb (idx =? rfkidx) then mret RFK_NONE
      else if negb (op =? RFKILL_OP_CHANGE) && negb (op =? RFKILL_OP_CHANGE_ALL) then mret RFK_NONE
      else if negb (soft =? 0) || negb (hard =? 0) then mret RFK_ENABLED
      else mret RFK_DISABLED
  end.

End Netlink.

(** * Safety of the event handlers *)

(** What the code relies on of the kernel: a netlink datagram is a sequence of
    padded messages that leaves room for one [ifinfomsg] in the 8 KiB buffer, a
    non-blocking socket that is read often enough runs dry, and [epoll_wait]
    reports descriptors that are open. *)
Record env_ok `{!Env} : Prop := {
  env_nl_aligned : forall n data, env_nl n = NlData data ->
    zlen data mod 4 = 0 /\ zlen data + sizeof_ifinfomsg <= sizeof_nlbuf;
  env_nl_drains : forall n, exists k, (k < env_fuel)%nat /\
    match env_nl (n + k) with NlData (_ :: _) => False | _ => True end;
  env_epoll_fd : forall n fd i h, env_epoll_wait n = EpEvent fd i h -> 0 <= fd
}.
Arguments env_ok : clear implicits.

Definition ifs_code (s : Z) : Prop := IFS_NONE <= s <= IFS_REMOVED.

Lemma nl_process_msgs_total idx buf nlh s :
  0 <= nlh -> nlh + NLMSG_HDRLEN + sizeof_ifinfomsg <= zlen buf -> ifs_code s ->
  exists s', nl_process_msgs idx buf nlh s = Some s' /\ ifs_code s'.
Proof.
  unfold NLMSG_HDRLEN, sizeof_ifinfomsg. intros Hn Hb Hs. unfold nl_process_msgs, ifi_index, ifi_flags, nlmsg_type, NLMSG_HDRLEN.
  destruct (rd32_total buf (nlh + 16 + 4)) as (v & ->); [lia..|].
  destruct (rd32_total buf (nlh + 16 + 8)) as (f & ->); [lia..|].
  destruct (rd16_total buf (nlh + 4)) as (t & ->); [lia..|].
  cbn [fmap option_fmap option_map mbind option_bind].
  destruct (negb _); [eauto|]. unfold ifs_code in *.
  zcase; [eexists; split; [done|]; repeat case_match; done|].
  zcase; [by eexists|eauto].
Qed.

Section NetlinkSafe.
Context {E : Env} (Henv : env_ok E).

Lemma nl_event_loop_safe fuel nlbuf state w :
  world_ok w -> zlen nlbuf = sizeof_nlbuf -> ifs_code state ->
  (exists k, (k < fuel)%nat /\ match env_nl (tick w + k) with NlData (_ :: _) => False | _ => True end) ->
  wp (nl_event_loop fuel nlbuf state) (fun s w' => world_ok w' /\ ifs_code s)
     (halt_ok (fun w => quit_after_lease (client_config w))) w.
Proof using Henv.
  revert nlbuf state w. induction fuel as [|fuel IH]; intros nlbuf state w Hw Hl Hs (k & Hk & Hd); [lia|].
  cbn [nl_event_loop]. unfold nl_recv_buf. cbn [nl_recvmsg World_NlProc]. wp_run.
  assert (Hw' : world_ok (w <| tick ::= S |>)) by (by apply (world_ok_same w)).
  destruct (env_nl (tick w)) as [| |data|data] eqn:En; cbv iota.
  - (* nothing to read *)
    change (0 <? 0) with false. cbv iota. rewrite wp_bind, wp_gets. cbn [fst snd].
    rewrite wp_bind. change (nl_foreach_nlmsg ?b 0 0 ?p ?f ?a) with (Some (0, a)).
    rewrite wp_ub_some. cbn. done.
  - done.
  - done.
  - destruct (env_nl_aligned Henv _ _ En) as [Hal Hroom].
    unfold sizeof_nlbuf, sizeof_ifinfomsg in *. unfold truncated. rewrite Hl.
    replace (8192 <? zlen data) with false by lia.
    zlen_pos. zcase; [lia|]. rewrite wp_bind, wp_gets. cbn [fst snd]. rewrite wp_bind.
    set (b := received nlbuf data).
    assert (Hb : zlen b = 8192) by (subst b; rewrite received_length; lia).
    destruct (nl_foreach_nlmsg_total ifs_code b sizeof_ifinfomsg
      (nl_process_msgs (ifindex (client_config (w <| tick ::= S |>)))))
      with (blen := zlen data) (seq := 0) (portid := nlPortId (cs (w <| tick ::= S |>))) (acc := state)
      as (r & s' & Hr & Hrc & Hs'); try done; try (unfold sizeof_ifinfomsg; zlen_pos; lia).
    { intros i acc Hi Hm Ha. apply nl_process_msgs_total; done. }
    rewrite Hr, wp_ub_some. cbn [fst snd].
    destruct Hrc as [-> | ->]; [|change (-1 <? 0) with true; cbv iota; by rewrite wp_ret].
    change (0 <? 0) with false. cbv iota. zcase; [|by rewrite wp_ret].
    apply IH; [done|done|done|].
    destruct k as [|k].
    + rewrite Nat.add_0_r, En in Hd. destruct data as [|x data]; [|done].
      done.
    + exists k. split; [lia|]. rsimpl. by rewrite Nat.add_succ_comm.
Qed.

Lemma nl_event_get_safe : safe world_ok nl_event_get ifs_code.
Proof using Henv.
  unfold nl_event_get. safe_step. safe_step; [by safe_tac|].
  intros w' Hw'. apply nl_event_loop_safe; try done. apply (env_nl_drains Henv).
Qed.

Lemma nl_event_carrier_wentup_safe s : safe world_ok (nl_event_carrier_wentup s) (fun _ => True).
Proof. unfold nl_event_carrier_wentup. safe_tac. Qed.

Lemma rfkill_get_safe c i : safe world_ok (rfkill_get c i) (fun _ => True).
Proof.
  unfold rfkill_get. safe_step. safe_step; [by safe_tac..|]. cbv zeta.
  set (d := take 8 _). zcase; cbn [negb]; [|by safe_tac].
  assert (Hr : forall i, 0 <= i < 8 -> exists v, rd d i = Some v).
  { intros j Hj. destruct (rd_Some d j) as (v & Hv & _); [by rewrite Hz|eauto]. }
  destruct (rd32_total d 0) as (v0 & ->); [lia|by rewrite Hz|].
  destruct (Hr 5) as (v1 & ->); [lia|]. destruct (Hr 6) as (v2 & ->); [lia|].
  destruct (Hr 7) as (v3 & ->); [lia|].
  do 4 (eapply safe_bind; [by apply (safe_ub _ _ (fun _ => True)); eauto|intros ? _]).
  safe_tac.
Qed.
End NetlinkSafe.
#[export] Hint Resolve nl_event_carrier_wentup_safe rfkill_get_safe : safe.
