(* ===== verification/Ndhc.v ===== *)
(** The master process's main loop and the client id of [ndhc.c]. *)

From S2P Require Import Prelude Types Options World Samples Ipc Ifchange Dhcp Arp State Nl Netlink.

Definition SIGUSR1 : Z := 10.
Definition SIGUSR2 : Z := 12.
Definition SIGCHLD : Z := 17.
Definition SIGTERM : Z := 15.
Definition sizeof_signalfd_siginfo : Z := 128.

(** * The client id *)

Definition isxdigit (c : Z) : bool :=
  ((ch "0"%char <=? c) && (c <=? ch "9"%char)) ||
  ((ch "a"%char <=? c) && (c <=? ch "f"%char)) ||
  ((ch "A"%char <=? c) && (c <=? ch "F"%char)).

Definition xdigit_value (c : Z) : Z :=
  if c <=? ch "9"%char then c - ch "0"%char
  else if c <=? ch "F"%char then c - ch "A"%char + 10
  else c - ch "a"%char + 10.

(** [strtol(s, NULL, 16)] on a string that starts with a hexadecimal digit and
    not with "0x"; the caller's strings have at most two digits in a row. *)
Fixpoint strtol16 (s : list Z) (acc : Z) : Z :=
  match s with
  | [] => acc
  | c :: s => if isxdigit c then strtol16 s (16 * acc + xdigit_value c) else acc
  end.

Definition hwaddr_colons : list Z := [2; 5; 8; 11; 14].
Definition hwaddr_digits : list Z := [0; 1; 3; 4; 6; 7; 9; 10; 12; 13; 15; 16].

(** [str] without its NUL. *)
Definition is_string_hwaddr (str : list Z) : bool :=
  (zlen str =? 17) &&
  forallb (fun i => match rd str i with Some c => c =? ch ":"%char | None => false end) hwaddr_colons &&
  forallb (fun i => match rd str i with Some c => isxdigit c | None => false end) hwaddr_digits.

Definition hwaddr_bytes (str : list Z) : list Z :=
  List.map (fun i => u8 (strtol16 (drop (3 * i) str) 0)) (seq 0 6).

(** The result and the configuration: type 0 and the string, or type 1 and the
    hardware address it spells. *)
Definition get_clientid_string (cc : client_config_t) (str : list Z)
  : option (Z * client_config_t) :=
  let slen := zlen str in
  if slen =? 0 then Some (-1, cc)
  else if negb (is_string_hwaddr str) then
    c0 ← wr (clientid cc) 0 0;
    s ← rd_range str 0 (min_size_t slen (64 - 1));
    c1 ← wr_range c0 1 s;
    Some (0, cc <| clientid := c1 |> <| clientid_len := u8 (slen + 1) |>)
  else
    c0 ← wr (clientid cc) 0 1;
    c1 ← wr_range c0 1 (hwaddr_bytes str);
    Some (1, cc <| clientid := c1 |> <| clientid_len := 7 |>).

(** * The main loop *)

(** The locals of [do_ndhc_work] that live across iterations.  [pkt] starts
    uninitialised in C; the model starts from zeros, and nothing reads it before
    a packet was received. *)
Record loop_state := mk_loop_state { timeout : Z; pkt : dhcpmsg }.
#[export] Instance loop_state_eta : Eta loop_state := fun r =>
  mk_loop_state (timeout r) (pkt r).

(** What the event of one iteration was. *)
Record wakeup := mk_wakeup {
  had_event : bool; wk_dhcp : bool; wk_msgtype : Z; wk_srcaddr : Z; wk_packet : dhcpmsg;
  wk_arp : bool; wk_nl : Z; wk_rfk : Z; wk_signal : Z
}.
#[export] Instance wakeup_eta : Eta wakeup := fun r =>
  mk_wakeup (had_event r) (wk_dhcp r) (wk_msgtype r) (wk_srcaddr r) (wk_packet r)
    (wk_arp r) (wk_nl r) (wk_rfk r) (wk_signal r).

(** No event; [dhcp_msgtype] and [dhcp_srcaddr] are uninitialised in C and read
    only when [sev_dhcp] is set. *)
Definition no_wakeup (p : dhcpmsg) : wakeup :=
  {| had_event := false; wk_dhcp := false; wk_msgtype := 0; wk_srcaddr := 0; wk_packet := p;
     wk_arp := false; wk_nl := IFS_NONE; wk_rfk := RFK_NONE; wk_signal := SIGNAL_NONE |}.

(** The end of an iteration: the new [timeout] from the two wake-up times. *)
Definition next_timeout (arp_wake dhcp_wake now prev_timeout : Z) (had_event : bool) : Z :=
  if (arp_wake <? 0) && (dhcp_wake <? 0) then -1
  else
    let tt :=
      if arp_wake <? 0 then dhcp_wake - now
      else if dhcp_wake <? 0 then arp_wake - now
      else (if arp_wake <? dhcp_wake then arp_wake else dhcp_wake) - now in
    let tt := if INT_MAX <? tt then INT_MAX else tt in
    let tt := if tt <? INT_MIN then INT_MIN else tt in
    let t := if tt <? 0 then 0 else tt in
    if (t =? 0) && (prev_timeout =? 0) && negb had_event then 10000 else t.

Section Ndhc.
Context `{!Env}.

(** [sigprocmask] is folded into the [signalfd] result: both failures end in
    [suicide]. *)
Definition setup_signals_ndhc : M unit :=
  old ← gets (fun w => signalFd (cs w));
  (if 0 <=? old then epoll_del old;; close old else mret tt);;
  fd ← ask env_open;
  set_cs (fun c => c <| signalFd := fd |>);;
  if fd <? 0 then suicide "signalfd failed" else epoll_add fd.

Definition signal_dispatch : M Z :=
  r ← ask env_read;
  match r with
  | ReadAgain | ReadFails => mret SIGNAL_NONE
  | ReadData data =>
    let si := take (Z.to_nat sizeof_signalfd_siginfo) (List.map u8 data) in
    if zlen si <? sizeof_signalfd_siginfo then mret SIGNAL_NONE
    else
      signo ← ub (rd32 si 0);
      if signo =? SIGUSR1 then mret SIGNAL_RENEW
      else if signo =? SIGUSR2 then mret SIGNAL_RELEASE
      else if signo =? SIGCHLD then suicide "Subprocess terminated unexpectedly."
      else if signo =? SIGTERM then exit EXIT_SUCCESS
      else mret SIGNAL_NONE
  end.

(** Dispatch of one event by its descriptor. *)
Definition dispatch (fd : Z) (in_ hup : bool) (wk : wakeup) : M wakeup :=
  w ← gets id;
  let c := cs w in
  if fd =? signalFd c then
    if negb in_ then suicide "signalfd closed unexpectedly"
    else s ← signal_dispatch; mret (wk <| wk_signal := s |>)
  else if fd =? listenFd c then
    if negb in_ then suicide "listenfd closed unexpectedly"
    else
      r ← dhcp_packet_get (wk_packet wk);
      let '(ok, p, msgtype, srcaddr) := r in
      mret (wk <| wk_dhcp := ok |> <| wk_packet := p |> <| wk_msgtype := msgtype |>
               <| wk_srcaddr := srcaddr |>)
  else if fd =? arpFd c then
    if negb in_ then suicide "arpfd closed unexpectedly"
    else a ← arp_packet_get; mret (wk <| wk_arp := a |>)
  else if fd =? nlFd c then
    if negb in_ then suicide "nlfd closed unexpectedly"
    else s ← nl_event_get; mret (wk <| wk_nl := s |>)
  else if fd =? ifchStream0 w then
    if hup then exit EXIT_FAILURE else mret wk
  else if fd =? sockdStream0 w then
    if hup then exit EXIT_FAILURE else mret wk
  else if (fd =? rfkillFd c) && enable_rfkill (client_config w) then
    if negb in_ then suicide "rfkillfd closed unexpectedly"
    else s ← rfkill_get true (rfkillIdx (client_config w)); mret (wk <| wk_rfk := s |>)
  else suicide "epoll_wait: unknown fd".

(** The rfkill and carrier bookkeeping; the result is [force_fingerprint]. *)
Definition link_events (wk : wakeup) : M bool :=
  ff ← (if wk_rfk wk =? RFK_ENABLED then
          modify (fun w => w <| rfkill_set := true |> <| rfkill_nl_carrier_wentup := false |>);;
          mret false
        else if wk_rfk wk =? RFK_DISABLED then
          modify (fun w => w <| rfkill_set := false |>);;
          up ← gets rfkill_nl_carrier_wentup;
          if up : bool then carrier_isup else mret false
        else mret false);
  if negb (wk_nl wk =? IFS_NONE) then
    up ← nl_event_carrier_wentup (wk_nl wk);
    if up : bool then
      rfk ← gets rfkill_set;
      if negb rfk then mret true
      else modify (fun w => w <| rfkill_nl_carrier_wentup := true |>);; mret ff
    else mret ff
  else mret ff.

(** [2000 + (int)(nk_random_u32(&cs.rnd_state) % 3000)] *)
Definition retry_timeout : M Z := r ← nk_random_u32; mret (2000 + r mod 3000).

(** [rfkill_set || !carrier_isup()] *)
Definition iface_disabled : M bool :=
  rfk ← gets rfkill_set;
  if rfk : bool then mret true else up ← carrier_isup; mret (negb up).

Definition handle_event (s : loop_state) (wk : wakeup) : M loop_state :=
  ff ← link_events wk;
  down ← iface_disabled;
  if down : bool then
    t ← retry_timeout; mret (s <| timeout := t |> <| pkt := wk_packet wk |>)
  else
    now ← curms;
    w ← gets id;
    let arp_wake := arp_get_wake_ts (garp w) in
    dhcp_ok ← dhcp_handle {|
      nowts := now; sev_dhcp := wk_dhcp wk; ev_packet := wk_packet wk;
      dhcp_msgtype := wk_msgtype wk; dhcp_srcaddr := wk_srcaddr wk; sev_arp := wk_arp wk;
      force_fingerprint := ff; dhcp_timeout := dhcp_wake_ts (cs w) <=? now;
      arp_timeout := arp_wake <=? now; sev_signal := wk_signal wk |};
    if dhcp_ok =? COR_ERROR then
      t ← retry_timeout; mret (s <| timeout := t |> <| pkt := wk_packet wk |>)
    else
      w ← gets id;
      mret (s <| timeout := next_timeout (arp_get_wake_ts (garp w)) (dhcp_wake_ts (cs w)) now
                              (timeout s) (had_event wk) |>
              <| pkt := wk_packet wk |>).

(** One iteration of the [for (;;)] loop. *)
Definition ndhc_iter (s : loop_state) : M loop_state :=
  e ← ask env_epoll_wait;
  match e with
  | EpIntr => mret s
  | EpFails => suicide "epoll_wait failed"
  | EpTimeout => handle_event s (no_wakeup (pkt s))
  | EpEvent fd in_ hup =>
    wk ← dispatch fd in_ hup ((no_wakeup (pkt s)) <| had_event := true |>);
    handle_event s wk
  end.

(** [n] iterations. *)
Fixpoint ndhc_loop (n : nat) (s : loop_state) : M loop_state :=
  match n with
  | O => mret s
  | S n => s ← ndhc_iter s; ndhc_loop n s
  end.

(** [do_ndhc_work] up to its loop. *)
Definition ndhc_setup : M loop_state :=
  ep ← ask env_open;
  set_cs (fun c => c <| epollFd := ep |>);;
  (if ep <? 0 then suicide "epoll_create1 failed" else mret tt);;
  setup_signals_ndhc;;
  w ← gets id;
  epoll_add (nlFd (cs w));;
  epoll_add (ifchStream0 w);;
  epoll_add (sockdStream0 w);;
  (if enable_rfkill (client_config w) && negb (rfkillFd (cs w) =? -1)
   then epoll_add (rfkillFd (cs w)) else mret tt);;
  start_dhcp_listen;;
  mret {| timeout := 0; pkt := dhcpmsg_zero |}.

(** [do_ndhc_work] for [n] iterations. *)
Definition do_ndhc_work (n : nat) : M loop_state :=
  s ← ndhc_setup; ndhc_loop n s.

(** The end of [ndhc_main]: an interface without carrier is deconfigured first. *)
Definition ndhc_main_tail (n : nat) : M loop_state :=
  up ← carrier_isup;
  (if negb up then
     r ← ifchange_deconfig;
     if r <? 0 then suicide "ndhc_main: can't deconfigure interface settings" else mret tt
   else mret tt);;
  do_ndhc_work n.

End Ndhc.

(** * Safety of the main loop *)

Section NdhcSafe.
Context {E : Env} (Henv : env_ok E).

Lemma setup_signals_ndhc_safe : safe world_ok setup_signals_ndhc (fun _ => True).
Proof. unfold setup_signals_ndhc. safe_tac. Qed.

Lemma signal_dispatch_safe : safe world_ok signal_dispatch (fun _ => True).
Proof.
  unfold signal_dispatch. safe_step. safe_step; [by safe_tac..|]. cbv zeta.
  set (d := take _ _). zcase; [by safe_tac|].
  destruct (rd32_total d 0) as (v & ->); [lia|unfold sizeof_signalfd_siginfo in *; lia|].
  eapply safe_bind; [by apply (safe_ub _ _ (fun _ => True)); eauto|intros ? _]. safe_tac.
Qed.
#[local] Hint Resolve setup_signals_ndhc_safe signal_dispatch_safe : safe.

Definition wakeup_ok (wk : wakeup) : Prop := msg_ok (wk_packet wk).

Lemma dispatch_safe fd i h wk : wakeup_ok wk -> safe world_ok (dispatch fd i h wk) wakeup_ok.
Proof using Henv.
  intros Hwk. pose proof (nl_event_get_safe Henv) as Hnl. unfold dispatch. safe_step. cbv zeta.
  safe_step; [by safe_tac|].
  safe_step.
  { safe_step; [by safe_tac|].
    eapply safe_bind; [by apply dhcp_packet_get_safe|]. intros [[[ok p] t] s] Hp.
    by apply safe_ret. }
  safe_tac.
Qed.

Lemma link_events_safe wk : safe world_ok (link_events wk) (fun _ => True).
Proof. unfold link_events. safe_tac. Qed.
Lemma retry_timeout_safe : safe world_ok retry_timeout (fun t => 2000 <= t < 5000).
Proof.
  unfold retry_timeout. safe_tac. pose proof (Z.mod_pos_bound a 3000 eq_refl). lia.
Qed.
Lemma iface_disabled_safe : safe world_ok iface_disabled (fun _ => True).
Proof. unfold iface_disabled. safe_tac. Qed.
#[local] Hint Resolve link_events_safe retry_timeout_safe iface_disabled_safe : safe.

(** [epoll_wait]'s timeout: -1 (no limit) or a number of milliseconds. *)
Definition loop_ok (s : loop_state) : Prop :=
  -1 <= timeout s <= INT_MAX /\ msg_ok (pkt s).

Lemma next_timeout_range a d now prev had : -1 <= next_timeout a d now prev had <= INT_MAX.
Proof.
  unfold next_timeout, INT_MAX, INT_MIN. cbv zeta. repeat case_match; try lia;
    repeat match goal with H : (_ <? _) = false |- _ => apply Z.ltb_ge in H
    | H : (_ <? _) = true |- _ => apply Z.ltb_lt in H end; lia.
Qed.

Lemma handle_event_safe s wk : wakeup_ok wk -> safe world_ok (handle_event s wk) loop_ok.
Proof.
  intros Hwk. unfold handle_event. do 2 safe_step. safe_step.
  - safe_step. apply safe_ret. split; [|done]. rsimpl. unfold INT_MAX. cbv beta in *. lia.
  - safe_step. safe_step. cbv zeta.
    eapply safe_bind; [apply dhcp_handle_safe; apply Hwk|]. intros r Hr. safe_step.
    + safe_step. apply safe_ret. split; [|done]. rsimpl. unfold INT_MAX. cbv beta in *. lia.
    + safe_step. apply safe_ret. split; [|done]. rsimpl. apply next_timeout_range.
Qed.

Lemma ndhc_iter_safe s : loop_ok s -> safe world_ok (ndhc_iter s) loop_ok.
Proof using Henv.
  intros [Ht Hp]. unfold ndhc_iter. safe_step. safe_step.
  - by apply safe_ret.
  - by safe_tac.
  - by apply handle_event_safe.
  - eapply safe_bind; [by apply dispatch_safe|]. intros wk Hwk. by apply handle_event_safe.
Qed.

Lemma ndhc_loop_safe n s : loop_ok s -> safe world_ok (ndhc_loop n s) loop_ok.
Proof using Henv.
  revert s. induction n as [|n IH]; intros s Hs; cbn [ndhc_loop]; [by apply safe_ret|].
  eapply safe_bind; [by apply ndhc_iter_safe|]. intros s' Hs'. by apply IH.
Qed.

Lemma do_ndhc_work_safe n : safe world_ok (do_ndhc_work n) loop_ok.
Proof using Henv.
  unfold do_ndhc_work, ndhc_setup.
  eapply safe_bind; [|intros s Hs; by apply ndhc_loop_safe].
  do 2 safe_step. safe_step; [by safe_tac|]. safe_step. safe_step. do 3 safe_step. safe_step; [by safe_tac|].
  safe_step. apply safe_ret. split; [cbn; unfold INT_MAX; lia|]. by apply dhcpmsg_ok_msg.
Qed.
End NdhcSafe.

(** * Properties *)


Lemma sample_env_ok repc sent : env_ok (sample_env_by repc sent).
Proof. constructor; cbn; [done| |done]. intros n. exists 0%nat. split; [lia|done]. Qed.


(** The earliest of two timers, of which at least one is armed. *)
Definition earliest (a d : Z) : Z := if a <? 0 then d else if d <? 0 then a else Z.min a d.

(** The main loop never sleeps past a deadline that lies in the future: it
    waits exactly until the earlier armed timer (or the longest wait [epoll_wait]
    knows), without limit when no timer is armed, and not at all when a timer is
    overdue, except that an iteration without event right after a wait of zero is
    followed by a pause of ten seconds. *)
Theorem next_timeout_earliest (a d now prev : Z) (had : bool) :
  next_timeout a d now prev had =
    if (a <? 0) && (d <? 0) then -1
    else if now <? earliest a d then Z.min (earliest a d - now) INT_MAX
    else if (prev =? 0) && negb had then 10000 else 0.
Proof.
  unfold next_timeout. destruct (_ && _) eqn:E; [done|]. cbv zeta.
  replace (if a <? 0 then d - now else if d <? 0 then a - now else (if a <? d then a else d) - now)
    with (earliest a d - now) by (unfold earliest; repeat case_match; lia).
  generalize (earliest a d). intros m. unfold INT_MAX, INT_MIN. clear E.
  destruct (Z.ltb_spec now m).
  - set (t := if 2 ^ 31 - 1 <? m - now then 2 ^ 31 - 1 else m - now).
    assert (Ht : 0 < t /\ t = Z.min (m - now) (2 ^ 31 - 1)) by (subst t; zcase; lia).
    clearbody t. cbv zeta. replace (t <? - 2 ^ 31) with false by lia.
    replace (t <? 0) with false by lia. replace (t =? 0) with false by lia. apply Ht.
  - replace (2 ^ 31 - 1 <? m - now) with false by lia.
    assert (Hz : (let tt := if m - now <? - 2 ^ 31 then - 2 ^ 31 else m - now in
                  if tt <? 0 then 0 else tt) = 0) by (cbv zeta; repeat zcase; lia).
    cbv zeta in Hz. rewrite Hz. done.
Qed.

(** ** The client id *)

Definition hexdigit (n : Z) : Z := if n <? 10 then ch "0"%char + n else ch "a"%char + (n - 10).
Definition hex_of_byte (b : Z) : list Z := [hexdigit (b / 16); hexdigit (b mod 16)].
(** The text of a hardware address, [xx:xx:xx:xx:xx:xx]. *)
Fixpoint hwaddr_text (b : list Z) : list Z :=
  match b with
  | [] => []
  | [x] => hex_of_byte x
  | x :: b => hex_of_byte x ++ ch ":"%char :: hwaddr_text b
  end.

Lemma hexdigit_ok n :
  0 <= n < 16 -> isxdigit (hexdigit n) = true /\ xdigit_value (hexdigit n) = n.
Proof.
  intros Hn. unfold hexdigit, isxdigit, xdigit_value. change (ch "0"%char) with 48.
  change (ch "a"%char) with 97. change (ch "9"%char) with 57. change (ch "f"%char) with 102.
  change (ch "A"%char) with 65. change (ch "F"%char) with 70.
  zcase; (split; [lia|]); repeat zcase; lia.
Qed.

Lemma hex_of_byte_ok b :
  0 <= b < 256 ->
  isxdigit (hexdigit (b / 16)) = true /\ isxdigit (hexdigit (b mod 16)) = true.
Proof. intros Hb. split; apply hexdigit_ok; Z.div_mod_to_equations; lia. Qed.

(** The two digits of a byte read back to it, whatever follows the byte. *)
Lemma strtol16_byte b rest :
  0 <= b < 256 -> match rest with [] => True | c :: _ => isxdigit c = false end ->
  strtol16 (hexdigit (b / 16) :: hexdigit (b mod 16) :: rest) 0 = b.
Proof.
  intros Hb Hr. cbn [strtol16].
  destruct (hexdigit_ok (b / 16)) as [-> ->]; [Z.div_mod_to_equations; lia|].
  destruct (hexdigit_ok (b mod 16)) as [-> ->]; [apply Z.mod_pos_bound; lia|].
  assert (E : 16 * (16 * 0 + b / 16) + b mod 16 = b) by (Z.div_mod_to_equations; lia).
  rewrite E. destruct rest as [|c rest]; [done|]. cbn [strtol16]. by rewrite Hr.
Qed.

(** A client id given as a hardware address is stored as type 1 followed by
    exactly the six bytes the text spells. *)
Theorem clientid_hwaddr_roundtrip (cc : client_config_t) (b : list Z) :
  zlen b = 6 -> bytes_ok b = true -> zlen (clientid cc) = 64 ->
  get_clientid_string cc (hwaddr_text b) =
    Some (1, cc <| clientid := (1 :: b) ++ drop 7 (clientid cc) |> <| clientid_len := 7 |>).
Proof.
  intros Hl Hb Hc. destruct b as [|b0 [|b1 [|b2 [|b3 [|b4 [|b5 [|]]]]]]]; try (zlen_lia).
  unfold bytes_ok, byte_ok in Hb. cbn [forallb] in Hb. bool_hyps.
  assert (Hh : is_string_hwaddr (hwaddr_text [b0; b1; b2; b3; b4; b5]) = true).
  { lazy -[isxdigit hexdigit Z.div Z.modulo].
    repeat match goal with
    | |- context [ isxdigit (hexdigit (?b / 16)) ] =>
        destruct (hex_of_byte_ok b) as [-> ->]; [lia|]; cbn [andb]
    end.
    done. }
  assert (Hd : hwaddr_bytes (hwaddr_text [b0; b1; b2; b3; b4; b5]) = [b0; b1; b2; b3; b4; b5]).
  { unfold hwaddr_bytes. cbn [seq List.map]. cbn [Nat.mul Nat.add drop hwaddr_text hex_of_byte app].
    rewrite !strtol16_byte by (lia || done). rewrite !u8_id by lia. done. }
  unfold get_clientid_string. rewrite Hh, Hd. cbn [negb].
  change (zlen (hwaddr_text _) =? 0) with false. cbv iota.
  destruct (clientid cc) as [|c0 [|c1 [|c2 [|c3 [|c4 [|c5 [|c6 r]]]]]]] eqn:Ec; try (by (zlen_lia)).
  rewrite wr_head. cbn [app mbind option_bind].
  exact (f_equal (fun o => o ≫= _) (wr_range_at [1] [c1; c2; c3; c4; c5; c6] [b0; b1; b2; b3; b4; b5] r 1 eq_refl eq_refl)).
Qed.

Lemma clientid_hwaddr_roundtrip_witness :
  hwaddr_text [2; 17; 34; 171; 205; 255] = chars "02:11:22:ab:cd:ff" /\
  get_clientid_string sample_config (hwaddr_text [2; 17; 34; 171; 205; 255]) =
    Some (1, sample_config <| clientid := [1; 2; 17; 34; 171; 205; 255] ++ zeros 57 |>
                           <| clientid_len := 7 |>).
Proof.
  split; [vm_compute; reflexivity|].
  rewrite (clientid_hwaddr_roundtrip sample_config [2; 17; 34; 171; 205; 255]);
    vm_compute; reflexivity.
Defined.

(** A client id of up to 63 characters that is not a hardware address is
    stored as type 0 followed by the text; a longer one is cut to 63 characters
    but its length is still counted in full, beyond the 64-byte array from which
    the messages later copy that many bytes. *)
Theorem clientid_text_length (cc : client_config_t) (str : list Z) :
  0 < zlen str < 255 -> is_string_hwaddr str = false -> zlen (clientid cc) = 64 ->
  exists id, zlen id = 64 /\
    get_clientid_string cc str =
      Some (0, cc <| clientid := id |> <| clientid_len := zlen str + 1 |>) /\
    take (Z.to_nat (Z.min (zlen str) 63)) (tail id) = take 63 str /\ head id = Some 0 /\
    (zlen str + 1 <= zlen id <-> zlen str <= 63).
Proof.
  intros Hs Hh Hc. unfold get_clientid_string. rewrite Hh. cbn [negb].
  replace (zlen str =? 0) with false by lia.
  destruct (clientid cc) as [|c0 r] eqn:Ec; [done|]. rewrite zlen_cons in Hc.
  rewrite wr_head. cbn [app mbind option_bind].
  change (64 - 1) with 63. assert (Hm : min_size_t (zlen str) 63 = Z.min (zlen str) 63).
  { unfold min_size_t. zcase; lia. }
  rewrite Hm. set (k := Z.min (zlen str) 63).
  assert (Hr : rd_range str 0 k = Some (take (Z.to_nat k) str)).
  { unfold rd_range. replace (_ && _) with true by lia. done. }
  rewrite Hr. cbn [mbind option_bind].
  assert (Hk : zlen (take (Z.to_nat k) str) = k) by (by eapply rd_range_len).
  replace (0 :: r) with ([0] ++ take (Z.to_nat k) r ++ drop (Z.to_nat k) r) by (by rewrite take_drop).
  rewrite (wr_range_at [0] (take (Z.to_nat k) r) _ (drop (Z.to_nat k) r)); [|done|].
  2: { rewrite Hk. unfold zlen in *. rewrite length_take. lia. }
  cbn [mbind option_bind]. eexists. split; [|split; [by rewrite u8_id by lia|]].
  - cbn [app]. rewrite zlen_cons, zlen_app, Hk. unfold zlen in *. rewrite length_drop. lia.
  - cbn [app tail head]. split; [|split; [done|]].
    + rewrite take_app_le by (unfold zlen in *; lia). rewrite take_take, Nat.min_id.
      subst k. unfold zlen in *. destruct (Z.min_spec (Z.of_nat (length str)) 63) as [[? ->]|[? ->]]; [|done].
      rewrite !take_ge by lia. done.
    + rewrite zlen_cons, zlen_app, Hk. unfold zlen in *. rewrite length_drop. lia.
Qed.

Lemma clientid_text_length_witness :
  exists id, zlen id = 64 /\
    get_clientid_string sample_config (replicate 100 120) =
      Some (0, sample_config <| clientid := id |> <| clientid_len := zlen (replicate 100 120) + 1 |>) /\
    take (Z.to_nat (Z.min (zlen (replicate 100 120)) 63)) (tail id) = take 63 (replicate 100 120) /\
    head id = Some 0 /\ (zlen (replicate 100 120) + 1 <= zlen id <-> zlen (replicate 100 120) <= 63).
Proof.
  apply (clientid_text_length sample_config (replicate 100 120));
    [split; reflexivity|reflexivity|reflexivity].
Defined.
