(* ===== verification/Duiaid.v ===== *)
(** The generated client id ([duiaid.c]): an IAID for the hardware address and a DUID
    for the host, each kept in a file of the state directory.

    The files are a finite map from path names to contents; a descriptor is the path
    it was opened with.  Which calls fail, and what the generator yields, is the
    environment's. *)

From stdpp Require Import gmap.
From S2P Require Import Prelude Types World Samples Ndhc.

Definition PATH_MAX : Z := 4096.
Notation path := (list Z).
Notation files := (gmap path (list Z)).

Record duiaid_world := mk_duiaid_world {
  dw_config : client_config_t;
  dw_files : files;
  dw_random : nat;                     (** numbers drawn from [rnd_state] *)
  dw_tick : nat
}.
#[export] Instance duiaid_world_eta : Eta duiaid_world := fun r =>
  mk_duiaid_world (dw_config r) (dw_files r) (dw_random r) (dw_tick r).

Class DuiaidEnv := {
  state_dir : list Z;                  (** the string *)
  de_random : nat -> Z;
  de_open : nat -> bool;               (** the call is permitted *)
  de_read : nat -> Z -> Z;             (** -1, or how many of the bytes there are *)
  de_write : nat -> Z -> Z             (** -1, or how many of the bytes were written *)
}.

Notation DM := (St duiaid_world).

Section Duiaid.
Context `{!DuiaidEnv}.

Definition dask {A} (f : nat -> A) : DM A :=
  t ← gets dw_tick; modify (fun w => w <| dw_tick ::= S |>);; mret (f t).
Definition nk_random_u32 : DM Z :=
  n ← gets dw_random; modify (fun w => w <| dw_random ::= S |>);; mret (u32 (de_random n)).

(** [open(path, O_RDONLY)]: [None] for a negative descriptor. *)
Definition open_read (p : path) : DM (option path) :=
  ok ← dask de_open;
  fs ← gets dw_files;
  mret (match fs !! p with Some _ => if ok : bool then Some p else None | None => None end).
(** [open(path, O_WRONLY|O_TRUNC|O_CREAT, 0644)] *)
Definition open_write (p : path) : DM (option path) :=
  ok ← dask de_open;
  if ok : bool then modify (fun w => w <| dw_files ::= <[p := []]> |>);; mret (Some p) else mret None.
(** [safe_read(fd, buf, n)]: the result and the bytes put into [buf]. *)
Definition safe_read (fd : path) (n : Z) : DM (Z * list Z) :=
  fs ← gets dw_files;
  let data := take (Z.to_nat n) (default [] (fs !! fd)) in
  r ← dask (fun t => de_read t (zlen data));
  if r <? 0 then mret (-1, [])
  else let data := take (Z.to_nat r) data in mret (zlen data, data).
(** [safe_write] to a file just emptied. *)
Definition safe_write (fd : path) (data : list Z) : DM Z :=
  r ← dask (fun t => de_write t (zlen data));
  if r <? 0 then mret (-1)
  else
    let data := take (Z.to_nat r) data in
    modify (fun w => w <| dw_files ::= <[fd := data]> |>);; mret (zlen data).
(** Closing a descriptor changes nothing that is modelled. *)
Definition close (fd : path) : DM unit := mret tt.

(** [snprintf(duidfile, dlen, "%s/DUID", state_dir)] *)
Definition get_duid_path (dlen : Z) : DM path :=
  let s := state_dir ++ chars "/DUID" in
  if dlen <=? zlen s then suicide "snprintf dest buffer too small" else mret s.
(** [snprintf(iaidfile, ilen, "%s/IAID-%2.2x:%2.2x:%2.2x:%2.2x:%2.2x:%2.2x", ...)] *)
Definition get_iaid_path (ilen : Z) (hwaddr : list Z) (hwaddrlen : Z) : DM path :=
  if negb (hwaddrlen =? 6) then suicide "Hardware address length"
  else
    let s := state_dir ++ chars "/IAID-" ++ hwaddr_text (take 6 hwaddr) in
    if ilen <=? zlen s then suicide "snprintf dest buffer too small" else mret s.

Definition open_duidfile_read : DM (option path) := p ← get_duid_path PATH_MAX; open_read p.
Definition open_duidfile_write : DM path :=
  p ← get_duid_path PATH_MAX;
  fd ← open_write p;
  match fd with Some fd => mret fd | None => suicide "Failed to open duidfile for writing" end.
Definition open_iaidfile_read (hwaddr : list Z) (hwaddrlen : Z) : DM (option path) :=
  p ← get_iaid_path PATH_MAX hwaddr hwaddrlen; open_read p.
Definition open_iaidfile_write (hwaddr : list Z) (hwaddrlen : Z) : DM path :=
  p ← get_iaid_path PATH_MAX hwaddr hwaddrlen;
  fd ← open_write p;
  match fd with Some fd => mret fd | None => suicide "Failed to open iaidfile for writing" end.

(** The bytes put at the start of [dest]; their number is the result. *)
Definition generate_duid (dlen : Z) : DM (list Z) :=
  if dlen <? 18 then suicide "dlen"
  else
    r0 ← nk_random_u32; r1 ← nk_random_u32; r2 ← nk_random_u32; r3 ← nk_random_u32;
    mret (le16 (htons 4) ++ le32 r0 ++ le32 r1 ++ le32 r2 ++ le32 r3).
Definition generate_iaid (dlen : Z) : DM (list Z) :=
  if dlen <? 4 then suicide "dlen" else r32 ← nk_random_u32; mret (le32 r32).

Definition sizeof_clientid : Z := 64.

(** The first part of [get_clientid]: the IAID read, or generated and written. *)
Definition get_iaid (cc : client_config_t) : DM (list Z) :=
  fd ← open_iaidfile_read (arp cc) (zlen (arp cc));
  match fd with
  | None =>
    iaid ← generate_iaid sizeof_clientid;
    fd ← open_iaidfile_write (arp cc) (zlen (arp cc));
    r ← safe_write fd iaid;
    if (r <? 0) || negb (r =? zlen iaid) then suicide "failed to write generated IAID"
    else close fd;; mret iaid
  | Some fd =>
    r ← safe_read fd sizeof_clientid;
    if r.1 <? 0 then suicide "failed to read IAID from file"
    else close fd;; mret r.2
  end.
(** The second part: the DUID. *)
Definition get_duid : DM (list Z) :=
  fd ← open_duidfile_read;
  match fd with
  | None =>
    duid ← generate_duid sizeof_clientid;
    fd ← open_duidfile_write;
    r ← safe_write fd duid;
    if (r <? 0) || negb (r =? zlen duid) then suicide "failed to write generated DUID"
    else close fd;; mret duid
  | Some fd =>
    r ← safe_read fd sizeof_clientid;
    if r.1 <? 0 then suicide "failed to read DUID from file"
    else close fd;; mret r.2
  end.

Definition get_clientid : DM unit :=
  cc ← gets dw_config;
  if 0 <? clientid_len cc then mret tt
  else
    iaid ← get_iaid cc;
    duid ← get_duid;
    let cdl := 1 + zlen iaid + zlen duid in
    if sizeof_clientid <? cdl then suicide "clientid length"
    else
      c0 ← ub (wr_range (clientid cc) 0 [255]);
      let cid_len := 1 in
      c1 ← ub (wr_range c0 cid_len iaid);
      let cid_len := u8 (cid_len + zlen iaid) in
      c2 ← ub (wr_range c1 cid_len duid);
      let cid_len := u8 (cid_len + zlen duid) in
      modify (fun w => w <| dw_config := (cc <| clientid := c2 |> <| clientid_len := cid_len |>) |>).
End Duiaid.

(** * Paths *)

Definition duid_path (dir : list Z) : path := dir ++ chars "/DUID".
Definition iaid_path (dir hwaddr : list Z) : path := dir ++ chars "/IAID-" ++ hwaddr_text (take 6 hwaddr).

Lemma iaid_duid_path dir hw : iaid_path dir hw <> duid_path dir.
Proof. unfold iaid_path, duid_path. intros Heq. by apply app_inv_head in Heq. Qed.

Lemma duid_iaid_path dir hw : duid_path dir <> iaid_path dir hw.
Proof. intros Heq. by apply (iaid_duid_path dir hw). Qed.

Lemma hexdigit_inj a b : 0 <= a < 16 -> 0 <= b < 16 -> hexdigit a = hexdigit b -> a = b.
Proof. intros Ha Hb Heq. destruct (hexdigit_ok a Ha) as [_ <-], (hexdigit_ok b Hb) as [_ <-]. by rewrite Heq. Qed.
Lemma hex_of_byte_inj a b x y l l' :
  0 <= a < 256 -> 0 <= b < 256 -> hex_of_byte a ++ x :: l = hex_of_byte b ++ y :: l' -> a = b /\ x = y /\ l = l'.
Proof.
  unfold hex_of_byte. cbn [app]. intros Ha Hb Heq. injection Heq as H1 H2 -> ->. split; [|done].
  apply hexdigit_inj in H1, H2; Z.div_mod_to_equations; lia.
Qed.
Lemma hwaddr_text_inj a : forall b,
  bytes_ok a = true -> bytes_ok b = true -> length a = length b -> hwaddr_text a = hwaddr_text b -> a = b.
Proof.
  induction a as [|x a IH]; intros [|y b] Ha Hb Hl Heq; try done.
  rewrite bytes_ok_cons in Ha, Hb. apply andb_true_iff in Ha as [Hx Ha], Hb as [Hy Hb].
  unfold byte_ok in Hx, Hy. injection Hl as Hl.
  destruct a as [|x' a], b as [|y' b]; try done.
  - cbn [hwaddr_text] in Heq. destruct (hex_of_byte_inj x y 0 0 [] []) as [-> _]; [lia..|by rewrite Heq|done].
  - change (hwaddr_text (x :: x' :: a)) with (hex_of_byte x ++ ch ":"%char :: hwaddr_text (x' :: a)) in Heq.
    change (hwaddr_text (y :: y' :: b)) with (hex_of_byte y ++ ch ":"%char :: hwaddr_text (y' :: b)) in Heq.
    apply hex_of_byte_inj in Heq as (-> & _ & Heq); [|lia..]. f_equal. by apply IH.
Qed.
(** Each hardware address has its own file. *)
Lemma iaid_path_inj dir a b :
  bytes_ok a = true -> bytes_ok b = true -> zlen a = 6 -> zlen b = 6 -> iaid_path dir a = iaid_path dir b -> a = b.
Proof.
  unfold iaid_path, zlen. intros Ha Hb Hla Hlb Heq. apply app_inv_head, app_inv_head in Heq.
  rewrite !take_ge in Heq by lia. apply hwaddr_text_inj; (done || lia).
Qed.
Lemma hwaddr_text_len a : zlen a = 6 -> zlen (hwaddr_text a) = 17.
Proof. unfold zlen. destruct a as [|? [|? [|? [|? [|? [|? [|]]]]]]]; cbn [length]; (done || lia). Qed.

(** * When every call succeeds *)

Definition calm `{!DuiaidEnv} : Prop :=
  forall t, de_open t = true /\ (forall n, de_read t n = n) /\ (forall n, de_write t n = n).
(** The client id is to be generated, the arrays have their sizes and the paths fit. *)
Definition no_clientid `{!DuiaidEnv} (w : duiaid_world) : Prop :=
  clientid_len (dw_config w) = 0 /\ zlen (clientid (dw_config w)) = 64 /\
  zlen (arp (dw_config w)) = 6 /\ bytes_ok (arp (dw_config w)) = true /\ zlen state_dir + 23 < PATH_MAX.

Section Calm.
Context `{!DuiaidEnv}.

Lemma get_iaid_path_fits hw :
  zlen hw = 6 -> zlen state_dir + 23 < PATH_MAX ->
  get_iaid_path PATH_MAX hw (zlen hw) = mret (iaid_path state_dir hw).
Proof.
  intros Hh Hd. unfold get_iaid_path. rewrite Hh. change (negb (6 =? 6)) with false. cbv iota.
  assert (Hl : zlen (hwaddr_text (take 6 hw)) = 17).
  { rewrite take_ge by (unfold zlen in Hh; lia). by apply hwaddr_text_len. }
  rewrite !zlen_app, Hl. change (zlen (chars "/IAID-")) with 6. zcase; [lia|done].
Qed.
Lemma get_duid_path_fits :
  zlen state_dir + 23 < PATH_MAX -> get_duid_path PATH_MAX = mret (duid_path state_dir).
Proof.
  intros Hd. unfold get_duid_path. rewrite zlen_app. change (zlen (chars "/DUID")) with 5. zcase; [lia|done].
Qed.

Lemma wp_dask {A} (f : nat -> A) (Q : A -> duiaid_world -> Prop) K w :
  wp (dask f) Q K w = Q (f (dw_tick w)) (w <| dw_tick ::= S |>).
Proof. reflexivity. Qed.

(** A file: its first 64 bytes if it is there, or [fresh] stored in it. *)
Definition kept (fs : files) (p : path) (fresh : list Z) : list Z :=
  match fs !! p with Some c => take 64 c | None => fresh end.
Definition keep (fs : files) (p : path) (fresh : list Z) : files :=
  match fs !! p with Some _ => fs | None => <[p := fresh]> fs end.
Lemma keep_kept fs p v : keep fs p (kept fs p v) = keep fs p v.
Proof. unfold keep, kept. by destruct (fs !! p). Qed.
Definition fresh_iaid (n : nat) : list Z := le32 (u32 (de_random n)).
Definition fresh_duid (n : nat) : list Z :=
  le16 (htons 4) ++ fresh_iaid n ++ fresh_iaid (S n) ++ fresh_iaid (S (S n)) ++ fresh_iaid (S (S (S n))).
Definition drawn (fs : files) (p : path) (k : nat) : nat := match fs !! p with Some _ => 0 | None => k end.
Definition never (h : halt) (w : duiaid_world) : Prop := False.

Ltac calm_io Hc :=
  repeat first
  [ progress wp_run
  | rewrite wp_dask
  | rewrite (proj1 (Hc _))
  | rewrite (proj1 (proj2 (Hc _)))
  | rewrite (proj2 (proj2 (Hc _))) ].

Lemma safe_read_calm p c w Q K :
  calm -> dw_files w !! p = Some c ->
  (Q (zlen (take 64 c), take 64 c) (w <| dw_tick ::= S |>) : Prop) -> wp (safe_read p sizeof_clientid) Q K w.
Proof.
  intros Hc Hp HQ. unfold safe_read. calm_io Hc. rewrite Hp. cbn [default]. unfold id. change (Z.to_nat sizeof_clientid) with 64%nat.
  pose proof (zlen_nonneg (take 64 c)). zcase; [lia|]. wp_run.
  replace (take (Z.to_nat (zlen (take 64 c))) (take 64 c)) with (take 64 c); [exact HQ|].
  symmetry. apply take_ge. unfold zlen. lia.
Qed.
Lemma safe_write_calm p d w (Q : Z -> duiaid_world -> Prop) K :
  calm -> Q (zlen d) (w <| dw_tick ::= S |> <| dw_files ::= <[p := d]> |>) -> wp (safe_write p d) Q K w.
Proof.
  intros Hc HQ. unfold safe_write. calm_io Hc. pose proof (zlen_nonneg d). zcase; [lia|]. wp_run.
  rewrite take_ge by (unfold zlen; lia). exact HQ.
Qed.

Lemma get_iaid_calm cc w :
  calm -> zlen (arp cc) = 6 -> zlen state_dir + 23 < PATH_MAX ->
  let p := iaid_path state_dir (arp cc) in
  wp (get_iaid cc)
    (fun r w' => r = kept (dw_files w) p (fresh_iaid (dw_random w)) /\ dw_config w' = dw_config w /\
       dw_files w' = keep (dw_files w) p (fresh_iaid (dw_random w)) /\
       dw_random w' = (dw_random w + drawn (dw_files w) p 1)%nat) never w.
Proof.
  intros Hc Ha Hd p. unfold get_iaid, open_iaidfile_read, open_iaidfile_write.
  rewrite get_iaid_path_fits by done. fold p. unfold open_read, kept, keep, drawn. calm_io Hc. rsimpl.
  destruct (dw_files w !! p) as [c|] eqn:Hp; cbn iota.
  - calm_io Hc. apply (safe_read_calm p c); [done|rsimpl; done|]. cbn [fst snd]. pose proof (zlen_nonneg (take 64 c)).
    zcase; [lia|]. unfold close. wp_run. rsimpl. split_and!; (done || lia).
  - unfold generate_iaid, nk_random_u32, open_write. change (sizeof_clientid <? 4) with false. cbv iota. calm_io Hc.
    apply safe_write_calm; [done|]. rewrite le32_len. change (_ || _) with false. cbv iota. unfold close. wp_run. rsimpl.
    split_and!; [done..| |lia]. by rewrite insert_insert_eq.
Qed.
Lemma get_duid_calm w :
  calm -> zlen state_dir + 23 < PATH_MAX ->
  let p := duid_path state_dir in
  wp get_duid
    (fun r w' => r = kept (dw_files w) p (fresh_duid (dw_random w)) /\ dw_config w' = dw_config w /\
       dw_files w' = keep (dw_files w) p (fresh_duid (dw_random w)) /\
       dw_random w' = (dw_random w + drawn (dw_files w) p 4)%nat) never w.
Proof.
  intros Hc Hd p. unfold get_duid, open_duidfile_read, open_duidfile_write.
  rewrite get_duid_path_fits by done. fold p. unfold open_read, kept, keep, drawn. calm_io Hc. rsimpl.
  destruct (dw_files w !! p) as [c|] eqn:Hp; cbn iota.
  - calm_io Hc. apply (safe_read_calm p c); [done|rsimpl; done|]. cbn [fst snd]. pose proof (zlen_nonneg (take 64 c)).
    zcase; [lia|]. unfold close. wp_run. rsimpl. split_and!; (done || lia).
  - unfold generate_duid, nk_random_u32, open_write. change (sizeof_clientid <? 18) with false. cbv iota. calm_io Hc.
    apply safe_write_calm; [done|]. rewrite !zlen_app, !le32_len, le16_len. change (_ || _) with false. cbv iota.
    unfold close. wp_run. rsimpl. split_and!; [done..| |lia]. by rewrite insert_insert_eq.
Qed.

(** Type 255, the IAID and the DUID in the 64-byte array [old]. *)
Definition clientid_of (old iaid duid : list Z) : list Z :=
  (255 :: iaid ++ duid) ++ drop (S (length iaid + length duid)) old.

Lemma store_clientid old iaid duid :
  zlen old = 64 -> 1 + zlen iaid + zlen duid <= 64 ->
  (c0 ← wr_range old 0 [255]; c1 ← wr_range c0 1 iaid; wr_range c1 (u8 (1 + zlen iaid)) duid) =
  Some (clientid_of old iaid duid).
Proof.
  intros Ho Hl. pose proof (zlen_nonneg iaid). pose proof (zlen_nonneg duid). rewrite u8_id by lia.
  destruct old as [|x old]; [done|]. unfold clientid_of. cbn [drop].
  rewrite <- (take_drop (length iaid) old) at 1. set (o1 := take _ old). set (r := drop (length iaid) old).
  assert (Hr : r = take (length duid) r ++ drop (length iaid + length duid) old)
    by (subst r; rewrite <- (drop_drop old), take_drop; done).
  assert (Ho1 : zlen o1 = zlen iaid) by (subst o1; unfold zlen in *; cbn [length] in Ho; rewrite length_take; lia).
  assert (Hor : zlen (take (length duid) r) = zlen duid).
  { subst r. unfold zlen in *. cbn [length] in Ho. rewrite length_take, length_drop. lia. }
  change (x :: o1 ++ r) with ([] ++ [x] ++ o1 ++ r). rewrite wr_range_at by done. cbn [mbind option_bind].
  change ([] ++ [255] ++ o1 ++ r) with ([255] ++ o1 ++ r). rewrite wr_range_at by done. cbn [mbind option_bind].
  rewrite Hr. change ([255] ++ iaid ++ ?l) with ((255 :: iaid) ++ l).
  rewrite wr_range_at.
  - cbn [app]. by rewrite <- app_assoc.
  - rewrite zlen_cons. lia.
  - exact Hor.
Qed.

(** What a start leaves behind when every call succeeds. *)
Lemma get_clientid_calm w :
  calm -> no_clientid w ->
  let pi := iaid_path state_dir (arp (dw_config w)) in
  let pd := duid_path state_dir in
  let iaid := kept (dw_files w) pi (fresh_iaid (dw_random w)) in
  let n := (dw_random w + drawn (dw_files w) pi 1)%nat in
  let duid := kept (dw_files w) pd (fresh_duid n) in
  1 + zlen iaid + zlen duid <= 64 ->
  wp get_clientid
    (fun _ w' => dw_config w' = ((dw_config w) <| clientid := clientid_of (clientid (dw_config w)) iaid duid |>
                                  <| clientid_len := 1 + zlen iaid + zlen duid |>) /\
       dw_files w' = keep (keep (dw_files w) pi iaid) pd duid /\
       dw_random w' = (n + drawn (dw_files w) pd 4)%nat) never w.
Proof.
  intros Hc (Hlen & Hcl & Ha & Hb & Hd) pi pd iaid n duid Hfit. unfold get_clientid. wp_run.
  rewrite Hlen. change (0 <? 0) with false. cbv iota. wp_run.
  eapply wp_mono; [by apply get_iaid_calm| |done]. intros r w1 (-> & Hc1 & Hf1 & Hr1). wp_run. fold pi iaid n in Hf1, Hr1.
  assert (Hpd : dw_files w1 !! pd = dw_files w !! pd).
  { rewrite Hf1. unfold keep. destruct (dw_files w !! pi); [done|].
    apply lookup_insert_ne. apply iaid_duid_path. }
  eapply wp_mono; [by apply get_duid_calm| |done]. intros r w2 (-> & Hc2 & Hf2 & Hr2). fold pd in Hf2, Hr2 |- *. fold pi iaid.
  assert (Hduid : kept (dw_files w1) pd (fresh_duid (dw_random w1)) = duid)
    by (unfold duid, kept; by rewrite Hpd, Hr1).
  rewrite Hduid. pose proof (zlen_nonneg iaid). pose proof (zlen_nonneg duid).
  unfold sizeof_clientid. zcase; [lia|]. cbv zeta.
  pose proof (store_clientid (clientid (dw_config w)) iaid duid Hcl Hfit) as Hst.
  destruct (wr_range (clientid _) 0 [255]) as [c0|] eqn:E0; [|done]. cbn [mbind option_bind] in Hst. wp_run.
  destruct (wr_range c0 1 iaid) as [c1|] eqn:E1; [|done]. cbn [mbind option_bind] in Hst. wp_run.
  rewrite Hst. wp_run. rsimpl. rewrite (u8_id (1 + zlen iaid)) by lia. rewrite u8_id by lia.
  split; [reflexivity|split].
  - rewrite Hf2, <- (keep_kept (dw_files w1)), Hduid, Hf1. unfold iaid. by rewrite keep_kept.
  - rewrite Hr2, Hr1. unfold drawn at 1. by rewrite Hpd.
Qed.
End Calm.

Lemma wp_returns {A} (m : DM A) Q w : wp m Q never w -> exists a w', m w = (Ret a, w') /\ Q a w'.
Proof. unfold wp. destruct (m w) as [[a|h] w']; [|done]. intros HQ. by exists a, w'. Qed.

(** * When anything may fail *)

(** The program is left by [suicide] only. *)
Definition gives_up (h : halt) (w : duiaid_world) : Prop := exists why, h = HSuicide why.

Section Any.
Context `{!DuiaidEnv}.

(** The files hold bytes. *)
Definition files_bytes (w : duiaid_world) : Prop := map_Forall (fun _ d => bytes_ok d = true) (dw_files w).
(** What a part of the id is, and what getting it leaves alone. *)
Definition id_part (w : duiaid_world) (r : list Z) (w' : duiaid_world) : Prop :=
  dw_config w' = dw_config w /\ zlen r <= 64 /\ (files_bytes w -> bytes_ok r = true /\ files_bytes w').

Lemma safe_read_any p n w :
  0 <= n -> wp (safe_read p n) (fun r w' => dw_config w' = dw_config w /\ zlen r.2 <= n /\
    (files_bytes w -> bytes_ok r.2 = true /\ files_bytes w')) gives_up w.
Proof.
  intros Hn. unfold safe_read. wp_run. rewrite wp_dask. destruct (_ <? 0); wp_run; cbn [fst snd]; rsimpl.
  - split_and!; [done|by rewrite zlen_nil|done].
  - split_and!; [done|unfold zlen; rewrite !length_take; lia|]. intros Hf. split; [|exact Hf].
    do 2 apply bytes_ok_take. destruct (dw_files w !! p) as [d|] eqn:E; [exact (Hf p d E)|done].
Qed.
Lemma safe_write_any p d w :
  wp (safe_write p d) (fun _ w' => dw_config w' = dw_config w /\ (bytes_ok d = true -> files_bytes w -> files_bytes w')) gives_up w.
Proof.
  unfold safe_write. wp_run. rewrite wp_dask. destruct (_ <? 0); wp_run; rsimpl; split; try done.
  intros Hd Hf. apply map_Forall_insert_2; [by apply bytes_ok_take|exact Hf].
Qed.
Lemma open_write_any p w :
  wp (open_write p) (fun _ w' => dw_config w' = dw_config w /\ (files_bytes w -> files_bytes w')) gives_up w.
Proof.
  unfold open_write. wp_run. rewrite wp_dask. destruct (de_open _); wp_run; rsimpl; split; try done.
  intros Hf. by apply map_Forall_insert_2.
Qed.
Lemma get_iaid_path_any n hw l w : wp (get_iaid_path n hw l) (fun _ w' => w' = w) gives_up w.
Proof. unfold get_iaid_path. destruct (negb _); [|destruct (_ <=? _)]; wp_run; (done || by eexists). Qed.
Lemma get_duid_path_any n w : wp (get_duid_path n) (fun _ w' => w' = w) gives_up w.
Proof. unfold get_duid_path. destruct (_ <=? _); wp_run; (done || by eexists). Qed.

(** The common end of both parts: what was generated is written. *)
Lemma written_any p d why w :
  zlen d <= 64 -> bytes_ok d = true ->
  wp (r ← safe_write p d; if (r <? 0) || negb (r =? zlen d) then suicide why else close p;; mret d) (id_part w) gives_up w.
Proof.
  intros Hd Hb. wp_run. eapply wp_mono; [apply safe_write_any| |done]. intros r w' [Hc Hf].
  destruct (_ || _); unfold close; wp_run; [by eexists|]. split_and!; [done..|]. intros Hw. split; [done|by apply Hf].
Qed.
Lemma read_any p why w :
  wp (r ← safe_read p sizeof_clientid; if r.1 <? 0 then suicide why else close p;; mret r.2) (id_part w) gives_up w.
Proof.
  wp_run. eapply wp_mono; [by apply safe_read_any| |done]. intros r w' (Hc & Hl & Hf).
  destruct (_ <? 0); unfold close; wp_run; [by eexists|by split_and!].
Qed.

Lemma id_part_after w1 w2 r w' :
  dw_config w2 = dw_config w1 -> (files_bytes w1 -> files_bytes w2) -> id_part w2 r w' -> id_part w1 r w'.
Proof. intros Hc Hf (H1 & H2 & H3). split_and!; [by rewrite H1|done|auto]. Qed.

Lemma get_iaid_any cc w : wp (get_iaid cc) (id_part w) gives_up w.
Proof.
  unfold get_iaid, open_iaidfile_read, open_iaidfile_write, open_read. wp_run.
  eapply wp_mono; [apply get_iaid_path_any| |done]. intros p ? ->. wp_run. rewrite wp_dask. wp_run.
  set (w1 := set_field dw_tick _ w). change (id_part w) with (id_part w1).
  destruct (match _ with Some _ => _ | None => None end); [apply read_any|].
  unfold generate_iaid, nk_random_u32. change (sizeof_clientid <? 4) with false. cbv iota. wp_run.
  set (w2 := set_field dw_random _ w1). change (id_part w1) with (id_part w2).
  eapply wp_mono; [apply get_iaid_path_any| |done]. intros p' ? ->. wp_run.
  eapply wp_mono; [apply open_write_any| |done]. intros [fd|] w3 [Hc Hf]; wp_run; [|by eexists].
  rewrite <- wp_bind. eapply wp_mono; [apply written_any; [by rewrite le32_len|apply le32_ok]| |done].
  intros r w4. by apply id_part_after.
Qed.
Lemma get_duid_any w : wp get_duid (id_part w) gives_up w.
Proof.
  unfold get_duid, open_duidfile_read, open_duidfile_write, open_read. wp_run.
  eapply wp_mono; [apply get_duid_path_any| |done]. intros p ? ->. wp_run. rewrite wp_dask. wp_run.
  set (w1 := set_field dw_tick _ w). change (id_part w) with (id_part w1).
  destruct (match _ with Some _ => _ | None => None end); [apply read_any|].
  unfold generate_duid, nk_random_u32. change (sizeof_clientid <? 18) with false. cbv iota. wp_run.
  match goal with |- context [wp _ _ _ ?w2] => change (id_part w1) with (id_part w2) end.
  eapply wp_mono; [apply get_duid_path_any| |done]. intros p' ? ->. wp_run.
  eapply wp_mono; [apply open_write_any| |done]. intros [fd|] w3 [Hc Hf]; wp_run; [|by eexists].
  rewrite <- wp_bind. eapply wp_mono; [apply written_any; [done|by rewrite !bytes_ok_app, le16_ok, !le32_ok]| |done].
  intros r w4. by apply id_part_after.
Qed.

(** What a returning call leaves: a client id given by the user is left alone, else
    the parts [iaid] and [duid] are stored behind the type 255. *)
Definition clientid_left (w w' : duiaid_world) : Prop :=
  if 0 <? clientid_len (dw_config w) then w' = w
  else exists iaid duid, 1 + zlen iaid + zlen duid <= 64 /\
    dw_config w' = ((dw_config w) <| clientid := clientid_of (clientid (dw_config w)) iaid duid |>
                                  <| clientid_len := 1 + zlen iaid + zlen duid |>) /\
    zlen (clientid (dw_config w')) = 64.

Lemma clientid_of_bytes old iaid duid :
  bytes_ok old = true -> bytes_ok iaid = true -> bytes_ok duid = true -> bytes_ok (clientid_of old iaid duid) = true.
Proof. intros Ho Hi Hd. unfold clientid_of. by rewrite bytes_ok_app, bytes_ok_cons, bytes_ok_app, Hi, Hd, bytes_ok_drop. Qed.

Lemma get_clientid_any w :
  zlen (clientid (dw_config w)) = 64 -> 0 <= clientid_len (dw_config w) ->
  wp get_clientid (fun _ w' => clientid_left w w' /\
    (files_bytes w -> files_bytes w' /\ (bytes_ok (clientid (dw_config w)) = true -> bytes_ok (clientid (dw_config w')) = true)))
    gives_up w.
Proof.
  intros Hcl Hlen. unfold clientid_left, get_clientid. wp_run.
  destruct (0 <? clientid_len _); [by wp_run|]. wp_run.
  eapply wp_mono; [apply get_iaid_any| |done]. intros iaid w1 (Hc1 & Hl1 & Hb1). wp_run.
  eapply wp_mono; [apply get_duid_any| |done]. intros duid w2 (Hc2 & Hl2 & Hb2).
  unfold sizeof_clientid. zcase; [wp_run; by eexists|]. cbv zeta.
  pose proof (store_clientid (clientid (dw_config w)) iaid duid Hcl ltac:(lia)) as Hst.
  pose proof (zlen_nonneg iaid). pose proof (zlen_nonneg duid).
  destruct (wr_range (clientid _) 0 [255]) as [c0|] eqn:E0; [|done]. cbn [mbind option_bind] in Hst. wp_run.
  destruct (wr_range c0 1 iaid) as [c1|] eqn:E1; [|done]. cbn [mbind option_bind] in Hst. wp_run.
  rewrite Hst. wp_run. rsimpl. rewrite (u8_id (1 + zlen iaid)) by lia. rewrite u8_id by lia.
  split.
  - exists iaid, duid. split_and!; [lia|reflexivity|]. apply wr_range_len in E0, E1, Hst. congruence.
  - intros Hf. destruct (Hb1 Hf) as [Hib Hf1], (Hb2 Hf1) as [Hdb Hf2]. split; [exact Hf2|]. intros Hb. by apply clientid_of_bytes.
Qed.
End Any.

(** * Properties *)

(** The generated client id: whatever the files hold and whichever calls fail,
    [get_clientid] stays inside its arrays and either ends the program or leaves a
    client id of type 255 that fits the 64-byte array and whose length counts its
    parts, the IAID before the DUID; a client id the user gave is left alone. *)
Theorem clientid_fits `{!DuiaidEnv} (w : duiaid_world) :
  zlen (clientid (dw_config w)) = 64 -> 0 <= clientid_len (dw_config w) ->
  match get_clientid w with
  | (Halt h, _) => exists why, h = HSuicide why
  | (Ret _, w') => clientid_left w w'
  end.
Proof.
  intros Hcl Hlen. 
  pose proof (get_clientid_any w Hcl Hlen) as Hrun. unfold wp in Hrun. destruct (get_clientid w) as [[[]|h] w']; [apply Hrun|done].
Qed.

Definition duiaid_env (writes : bool) (seed : Z) : DuiaidEnv := {|
  state_dir := chars "/etc/ndhc"; de_random := fun n => seed + Z.of_nat n; de_open := fun _ => true;
  de_read := fun _ n => n; de_write := fun _ n => if writes then n else -1
|}.
Definition no_id_config : client_config_t :=
  (sample_config <| clientid := zeros 64 |> <| clientid_len := 0 |>).
(** An IAID of three bytes and a DUID of sixty are stored. *)
Definition stored_world : duiaid_world :=
  mk_duiaid_world no_id_config
    (<[iaid_path (chars "/etc/ndhc") (arp no_id_config) := [1; 2; 3]]> {[duid_path (chars "/etc/ndhc") := replicate 60 7]}) 0 0.

Lemma clientid_fits_witness :
  let run := get_clientid (H := duiaid_env true 5) stored_world in
  match run with
  | (Halt h, _) => exists why, h = HSuicide why
  | (Ret _, w') => clientid_left stored_world w'
  end /\ clientid_len (dw_config (snd run)) = 64.
Proof.
  split; [|vm_compute; reflexivity].
  apply (clientid_fits (H := duiaid_env true 5) stored_world); [vm_compute; reflexivity|vm_compute; congruence].
Defined.

(** C26. Once generated, the client id of an interface persists: the first start draws
    an IAID and a DUID (4 and 18 bytes) and stores them; every later start with
    the files as they were left, whatever its random numbers, gets the same client
    id, writes nothing and draws nothing, and an interface with another hardware
    address gets its own IAID with the same DUID. *)
Theorem clientid_persists (E1 E2 : DuiaidEnv) (w1 : duiaid_world) :
  calm (H := E1) -> calm (H := E2) -> state_dir (DuiaidEnv := E2) = state_dir (DuiaidEnv := E1) ->
  no_clientid (H := E1) w1 ->
  let dir := state_dir (DuiaidEnv := E1) in
  let pi := iaid_path dir (arp (dw_config w1)) in
  dw_files w1 !! pi = None -> dw_files w1 !! duid_path dir = None ->
  exists w1' iaid duid,
    get_clientid (H := E1) w1 = (Ret tt, w1') /\ zlen iaid = 4 /\ zlen duid = 18 /\
    clientid (dw_config w1') = clientid_of (clientid (dw_config w1)) iaid duid /\ clientid_len (dw_config w1') = 23 /\
    dw_files w1' = <[duid_path dir := duid]> (<[pi := iaid]> (dw_files w1)) /\
    forall w2, no_clientid (H := E2) w2 -> dw_files w2 = dw_files w1' ->
      (arp (dw_config w2) = arp (dw_config w1) ->
       exists w2', get_clientid (H := E2) w2 = (Ret tt, w2') /\ clientid_len (dw_config w2') = 23 /\
         clientid (dw_config w2') = clientid_of (clientid (dw_config w2)) iaid duid /\
         dw_files w2' = dw_files w2 /\ dw_random w2' = dw_random w2) /\
      (let pi2 := iaid_path dir (arp (dw_config w2)) in
       arp (dw_config w2) <> arp (dw_config w1) -> dw_files w1 !! pi2 = None ->
       exists w2' iaid2, get_clientid (H := E2) w2 = (Ret tt, w2') /\ clientid_len (dw_config w2') = 23 /\
         zlen iaid2 = 4 /\ clientid (dw_config w2') = clientid_of (clientid (dw_config w2)) iaid2 duid /\
         dw_files w2' = <[pi2 := iaid2]> (dw_files w2)).
Proof.
  intros Hc1 Hc2 Hdir Hno1 dir pi Hpi Hpd. set (pd := duid_path dir) in *.
  pose proof (get_clientid_calm (H := E1) w1 Hc1 Hno1) as Hrun. cbv zeta in Hrun. fold dir in Hrun. fold pi pd in Hrun.
  unfold kept, keep, drawn in Hrun. rewrite Hpi, Hpd in Hrun.
  set (iaid := fresh_iaid (H := E1) _) in Hrun. set (duid := fresh_duid (H := E1) _) in Hrun.
  assert (Hli : zlen iaid = 4) by apply le32_len.
  assert (Hld : zlen duid = 18) by done.
  rewrite Hli, Hld in Hrun. destruct (wp_returns _ _ _ (Hrun ltac:(lia))) as ([] & w1' & Hw1 & Hcf & Hf & Hr). clear Hrun.
  rewrite lookup_insert_ne, Hpd in Hf by apply iaid_duid_path.
  exists w1', iaid, duid. split_and!; [done..|by rewrite Hcf|by rewrite Hcf|done|].
  intros w2 Hno2 Hf2.
  pose proof (get_clientid_calm (H := E2) w2 Hc2 Hno2) as Hrun. cbv zeta in Hrun. rewrite Hdir in Hrun. fold dir in Hrun.
  fold pd in Hrun. rewrite Hf in Hf2. rewrite Hf2 in Hrun |- *.
  assert (Hpd2 : <[pd := duid]> (<[pi := iaid]> (dw_files w1)) !! pd = Some duid) by apply lookup_insert_eq.
  assert (Htake : take 64 duid = duid) by (apply take_ge; unfold zlen in Hld; lia).
  unfold kept, keep, drawn in Hrun. rewrite Hpd2, Htake, Hld in Hrun. split.
  - intros Harp. rewrite Harp in Hrun. fold pi in Hrun.
    rewrite lookup_insert_ne, lookup_insert_eq in Hrun by apply duid_iaid_path.
    rewrite (take_ge iaid) in Hrun by (unfold zlen in Hli; lia). rewrite Hli in Hrun.
    destruct (wp_returns _ _ _ (Hrun ltac:(lia))) as ([] & w2' & Hw2 & Hcf2 & Hff2 & Hr2).
    exists w2'. rewrite Hpd2 in Hff2. split_and!; [done|by rewrite Hcf2..|done|rewrite Hr2; lia].
  - intros pi2 Hne Hpi2. fold pi2 in Hrun.
    assert (Hpine : pi2 <> pi).
    { intros Heq. apply Hne. destruct Hno1 as (_ & _ & ? & ? & _), Hno2 as (_ & _ & ? & ? & _).
      by eapply iaid_path_inj. }
    rewrite !lookup_insert_ne, Hpi2 in Hrun by (done || apply duid_iaid_path).
    destruct (wp_returns _ _ _ (Hrun ltac:(unfold fresh_iaid; rewrite le32_len; lia))) as ([] & w2' & Hw2 & Hcf2 & Hff2 & Hr2).
    rewrite lookup_insert_ne, Hpd2 in Hff2 by apply iaid_duid_path.
    exists w2', (fresh_iaid (H := E2) (dw_random w2)).
    split_and!; [done|by rewrite Hcf2|apply le32_len|by rewrite Hcf2|done].
Qed.

Definition empty_dir (hw : list Z) : duiaid_world := mk_duiaid_world (no_id_config <| arp := hw |>) ∅ 0 0.
Lemma duiaid_env_calm seed : calm (H := duiaid_env true seed).
Proof. by split. Qed.
Lemma empty_dir_no_clientid seed hw fs :
  zlen hw = 6 -> bytes_ok hw = true -> no_clientid (H := duiaid_env true seed) ((empty_dir hw) <| dw_files := fs |>).
Proof. intros Hl Hb. split_and!; done. Qed.

(** A restart of the host, with other random numbers, and a second interface. *)
Lemma clientid_persists_witness :
  let w1 := empty_dir [2; 17; 34; 51; 68; 85] in
  exists w1', get_clientid (H := duiaid_env true 5) w1 = (Ret tt, w1') /\ clientid_len (dw_config w1') = 23 /\
    (exists w2', get_clientid (H := duiaid_env true 900) (w1 <| dw_files := dw_files w1' |>) = (Ret tt, w2') /\
       take 23 (clientid (dw_config w2')) = take 23 (clientid (dw_config w1')) /\ dw_random w2' = 0%nat) /\
    (exists w2', get_clientid (H := duiaid_env true 900) ((empty_dir [2; 17; 34; 51; 68; 86]) <| dw_files := dw_files w1' |>)
         = (Ret tt, w2') /\ clientid_len (dw_config w2') = 23).
Proof.
  intros w1.
  destruct (clientid_persists (duiaid_env true 5) (duiaid_env true 900) w1) as
    (w1' & iaid & duid & H1 & H2 & H3 & H4 & H5 & H6 & Hlater).
  - apply duiaid_env_calm.
  - apply duiaid_env_calm.
  - reflexivity.
  - by apply (empty_dir_no_clientid 5 _ ∅).
  - apply lookup_empty.
  - apply lookup_empty.
  - exists w1'. split; [exact H1|]. split; [exact H5|]. split.
    + destruct (Hlater (w1 <| dw_files := dw_files w1' |>)) as [Hsame _];
        [by apply empty_dir_no_clientid|reflexivity|].
      destruct (Hsame eq_refl) as (w2' & G1 & G2 & G3 & G4 & G5). exists w2'. split; [exact G1|].
      split; [|exact G5]. by rewrite H4, G3.
    + destruct (Hlater ((empty_dir [2; 17; 34; 51; 68; 86]) <| dw_files := dw_files w1' |>)) as [_ Hother];
        [by apply empty_dir_no_clientid|reflexivity|].
      destruct Hother as (w2' & iaid2 & G1 & G2 & G3 & G4 & G5); [discriminate|apply lookup_empty|].
      exists w2'. split; [exact G1|exact G2].
Defined.

(** A start whose write fails leaves an empty IAID file behind, and the next start
    takes it for an IAID: the client id then names no interface. *)
Lemma failed_write_empties_iaid :
  let w1 := empty_dir [2; 17; 34; 51; 68; 85] in
  let r1 := get_clientid (H := duiaid_env false 5) w1 in
  let r2 := get_clientid (H := duiaid_env true 900) (w1 <| dw_files := dw_files (snd r1) |>) in
  (exists why, fst r1 = Halt (HSuicide why)) /\
  fst r2 = Ret tt /\ clientid_len (dw_config (snd r2)) = 19 /\ take 3 (clientid (dw_config (snd r2))) = [255; 0; 4].
Proof. vm_compute. split; [eexists; reflexivity|]. split_and!; reflexivity. Qed.
