(* ===== verification/Protocol.v ===== *)
(** The DHCP client as a protocol machine, and the proof that [dhcp_handle]
    implements it.

    [client] is the abstract state: which address is being asked for, probed or
    used, and from which server.  [cstep] says which transitions an event allows.
    [related] ties an abstract state to the place where [dhcp_handle] resumes and
    to the variables that carry the state in the program. *)

From stdpp Require Import relations.
From S2P Require Import Prelude Types Options World Samples Ipc Ifchange Leasefile Dhcp Arp.
From S2P Require Import State Nl Netlink Ndhc.
Import Codec.

(** * The abstract client *)

Inductive client :=
| CSelecting                        (** looking for offers *)
| CRequesting (addr server : Z)     (** asked [server] for [addr] *)
| CChecking (addr server : Z)       (** was given [addr]; probing for another host that uses it *)
| CBound (addr server : Z)          (** uses [addr] *)
| CReleased.                        (** asleep until told to renew *)

(** The server id a message carries. *)
Definition server_of (p : dhcpmsg) (sid : Z) : Prop := get_option_serverid p = Some (true, sid).

(** An event the link or the timers can cause in any state. *)
Definition disturbed (ev : event) : Prop :=
  dhcp_timeout ev = true \/ sev_arp ev = true \/ arp_timeout ev = true \/
  force_fingerprint ev = true \/ (sev_dhcp ev = true /\ dhcp_msgtype ev = DHCPACK).

Inductive cstep (ev : event) : client -> client -> Prop :=
| cs_offer sid :
    sev_dhcp ev = true -> dhcp_msgtype ev = DHCPOFFER -> server_of (ev_packet ev) sid ->
    cstep ev CSelecting (CRequesting (yiaddr (ev_packet ev)) sid)
| cs_ack a s sid :
    sev_dhcp ev = true -> dhcp_msgtype ev = DHCPACK -> yiaddr (ev_packet ev) = a ->
    server_of (ev_packet ev) sid ->
    cstep ev (CRequesting a s) (CChecking a sid)
| cs_no_answer a s :
    dhcp_timeout ev = true -> cstep ev (CRequesting a s) CSelecting
| cs_check_failed a s :
    disturbed ev -> cstep ev (CChecking a s) CSelecting
| cs_checked a s :
    arp_timeout ev = true -> cstep ev (CChecking a s) (CBound a s)
| cs_nak a s :
    sev_dhcp ev = true -> dhcp_msgtype ev = DHCPNAK -> server_of (ev_packet ev) s ->
    cstep ev (CBound a s) CSelecting
| cs_lost a s :
    disturbed ev -> cstep ev (CBound a s) CSelecting
| cs_release c :
    sev_signal ev = SIGNAL_RELEASE -> cstep ev c CReleased
| cs_renew :
    sev_signal ev = SIGNAL_RENEW -> cstep ev CReleased CSelecting.

(** * What the program's variables say in each state *)

(** The lease timers of the lease in use (RFC 2131 4.4.5). *)
Record lease_ok (c : client_state_t) : Prop := {
  lease_min : 60 <= lease c < 2 ^ 32;
  lease_t1 : renewTime c = lease c / 2;
  lease_t2 : rebindTime c = lease c / 8 * 7
}.

(** The interface carries the address of the lease. *)
Definition configured (w : World) (a : Z) : Prop :=
  ifDeconfig (cs w) = 0 /\ yiaddr (cfg_packet w) = a.

(** Nothing is open and no timer runs. *)
Record quiet (w : World) : Prop := {
  quiet_addr : clientAddr (cs w) = 0;
  quiet_listen : listenFd (cs w) < 0;
  quiet_arp : arpFd (cs w) < 0;
  quiet_dhcp : dhcp_wake_ts (cs w) = -1;
  quiet_wake : forall s, wake_ts (garp w) s = -1
}.

Definition at_place (l : place) (w : World) (a : client) : Prop :=
  match l with
  | Reinit | Selecting => a = CSelecting /\ 0 <= listenFd (cs w)
  | DeconfigFailed => a = CSelecting
  | Requesting =>
      a = CRequesting (clientAddr (cs w)) (serverAddr (cs w)) /\ 0 <= listenFd (cs w)
  | Collision =>
      a = CChecking (clientAddr (cs w)) (serverAddr (cs w)) /\ 0 <= listenFd (cs w) /\
      yiaddr (dhcp_packet (garp w)) = clientAddr (cs w) /\ 0 <= arpFd (cs w) /\ lease_ok (cs w)
  | Bound =>
      a = CBound (clientAddr (cs w)) (serverAddr (cs w)) /\ lease_ok (cs w) /\
      configured w (clientAddr (cs w))
  | Released => a = CReleased /\ quiet w
  end.

Definition related (w : World) (a : client) : Prop := at_place (resume (scrLine w)) w a.

(** * Views of the state *)

(** Everything [at_place] reads except the ARP socket and the timers. *)
Definition blind (c : client_state_t) : client_state_t :=
  c <| arpFd := 0 |> <| arp_is_defense := false |> <| got_router_arp := false |>
    <| got_server_arp := false |> <| check_fingerprint := false |> <| sent_gw_query := false |>
    <| sent_first_announce := false |> <| sent_second_announce := false |>
    <| init_fingerprint_inprogress := false |> <| routerArp := [] |> <| serverArp := [] |>
    <| dhcp_wake_ts := 0 |> <| num_dhcp_requests := 0 |> <| cs_xid := 0 |>.
Definition dhcp_view (w : World) := (blind (cs w), cfg_packet w, dhcp_packet (garp w)).
(** What BOUND depends on. *)
Definition bound_view (w : World) :=
  (clientAddr (cs w), serverAddr (cs w), (lease (cs w), renewTime (cs w), rebindTime (cs w)),
   ifDeconfig (cs w), cfg_packet w).
(** The first view with the ARP socket. *)
Definition sock_view (w : World) := (dhcp_view w, arpFd (cs w)).

Lemma dhcp_view_fields w w' :
  dhcp_view w' = dhcp_view w ->
  clientAddr (cs w') = clientAddr (cs w) /\ serverAddr (cs w') = serverAddr (cs w) /\
  listenFd (cs w') = listenFd (cs w) /\ lease (cs w') = lease (cs w) /\
  renewTime (cs w') = renewTime (cs w) /\ rebindTime (cs w') = rebindTime (cs w) /\
  ifDeconfig (cs w') = ifDeconfig (cs w) /\ cfg_packet w' = cfg_packet w /\
  dhcp_packet (garp w') = dhcp_packet (garp w).
Proof.
  unfold dhcp_view. intros E.
  pose proof (f_equal (fun v => v.1.1) E) as Ec. cbn [fst snd] in Ec.
  repeat split; try (by apply (f_equal (fun v => v.1.2) E)); try (by apply (f_equal snd E)).
  - exact (f_equal clientAddr Ec).
  - exact (f_equal serverAddr Ec).
  - exact (f_equal listenFd Ec).
  - exact (f_equal lease Ec).
  - exact (f_equal renewTime Ec).
  - exact (f_equal rebindTime Ec).
  - exact (f_equal ifDeconfig Ec).
Qed.

Lemma lease_ok_same c c' :
  lease c' = lease c -> renewTime c' = renewTime c -> rebindTime c' = rebindTime c ->
  lease_ok c -> lease_ok c'.
Proof. intros E1 E2 E3 [H1 H2 H3]. constructor; by rewrite ?E1, ?E2, ?E3. Qed.

(** A state with the same view is at the same place. *)
Lemma bound_view_of_dhcp w w' : dhcp_view w' = dhcp_view w -> bound_view w' = bound_view w.
Proof.
  intros (E1 & E2 & E3 & E4 & E5 & E6 & E7 & E8 & E9)%dhcp_view_fields.
  unfold bound_view. congruence.
Qed.
Lemma at_bound_view w w' a :
  bound_view w' = bound_view w -> at_place Bound w a -> at_place Bound w' a.
Proof.
  unfold bound_view. intros [= E1 E2 E4 E5 E6 E7 E8].
  unfold at_place, configured. rewrite E1, E2, E7, E8.
  intros (-> & HL & H1 & H2). split; [done|]. split; [|done].
  by apply (lease_ok_same (cs w)).
Qed.
Lemma at_requesting_view w w' a :
  dhcp_view w' = dhcp_view w -> at_place Requesting w a -> at_place Requesting w' a.
Proof. intros (E1 & E2 & E3 & _)%dhcp_view_fields. unfold at_place. by rewrite E1, E2, E3. Qed.
Lemma at_collision_view w w' a :
  sock_view w' = sock_view w -> at_place Collision w a -> at_place Collision w' a.
Proof.
  unfold sock_view. intros E. pose proof (f_equal snd E) as Ef. cbn [snd] in Ef.
  apply (f_equal fst) in E. cbn [fst] in E.
  apply dhcp_view_fields in E as (E1 & E2 & E3 & E4 & E5 & E6 & E7 & E8 & E9).
  unfold at_place. rewrite E1, E2, E3, E9, Ef.
  intros (-> & H1 & H2 & H3 & HL). do 4 (split; [done|]).
  by apply (lease_ok_same (cs w)).
Qed.

Section Views.
Context `{!Env}.

Lemma epoll_add_view fd : frames sock_view (epoll_add fd).
Proof. frames_tac. Qed.
Lemma set_wake_ts_view s t : frames sock_view (set_wake_ts s t).
Proof. unfold set_wake_ts. frames_tac. Qed.
Lemma count_send_view s : frames sock_view (count_send s).
Proof. unfold count_send. frames_tac. Qed.
#[local] Hint Resolve set_wake_ts_view count_send_view : frames.
Lemma arp_ping_view a : frames sock_view (arp_ping a).
Proof. unfold arp_ping, base_arpmsg. frames_tac. Qed.
Lemma arp_ip_anon_ping_view a : frames sock_view (arp_ip_anon_ping a).
Proof. unfold arp_ip_anon_ping, base_arpmsg. frames_tac. Qed.
Lemma arp_announcement_view : frames sock_view arp_announcement.
Proof. unfold arp_announcement, base_arpmsg. frames_tac. Qed.
#[local] Hint Resolve arp_ping_view arp_ip_anon_ping_view arp_announcement_view : frames.
Lemma arp_announce_view : frames sock_view arp_announce.
Proof. unfold arp_announce. frames_tac. Qed.

Lemma sock_dhcp {A} (m : M A) : frames sock_view m -> frames dhcp_view m.
Proof. intros Hm. exact (frames_compose sock_view fst m Hm). Qed.
Lemma io_dhcp {A} (m : M A) : io_only m -> frames dhcp_view m.
Proof. by apply frames_io. Qed.
#[local] Hint Extern 5 (frames dhcp_view _) => apply sock_dhcp : frames.

Lemma arp_min_close_fd_view : frames dhcp_view arp_min_close_fd.
Proof. unfold arp_min_close_fd. frames_tac. Qed.
#[local] Hint Resolve arp_min_close_fd_view : frames.
Lemma get_arp_basic_socket_view : frames dhcp_view get_arp_basic_socket.
Proof. unfold get_arp_basic_socket. frames_tac. Qed.
Lemma get_arp_defense_socket_view : frames dhcp_view get_arp_defense_socket.
Proof. unfold get_arp_defense_socket. frames_tac. Qed.
#[local] Hint Resolve get_arp_basic_socket_view get_arp_defense_socket_view : frames.
Lemma arp_open_fd_view d : frames dhcp_view (arp_open_fd d).
Proof. unfold arp_open_fd. frames_tac. Qed.
#[local] Hint Resolve arp_open_fd_view arp_announce_view : frames.
Lemma wake_after_ping_view s d : frames dhcp_view (wake_after_ping s d).
Proof. unfold wake_after_ping, get_send_stats. frames_tac. Qed.
#[local] Hint Resolve wake_after_ping_view : frames.
Lemma arp_gw_check_view : frames dhcp_view arp_gw_check.
Proof. unfold arp_gw_check, get_send_stats. frames_tac. Qed.
Lemma arp_get_gw_hwaddr_view : frames dhcp_view arp_get_gw_hwaddr.
Proof. unfold arp_get_gw_hwaddr. frames_tac. Qed.
#[local] Hint Resolve arp_get_gw_hwaddr_view : frames.
Lemma arp_query_gateway_view : frames dhcp_view arp_query_gateway.
Proof. unfold arp_query_gateway. frames_tac. Qed.
#[local] Hint Resolve arp_query_gateway_view : frames.
Lemma arp_gw_success_view : frames dhcp_view arp_gw_success.
Proof. unfold arp_gw_success. frames_tac. Qed.
Lemma arp_defense_timeout_view : frames dhcp_view arp_defense_timeout.
Proof. unfold arp_defense_timeout, get_wake_ts. frames_tac. Qed.
Lemma ping_unless_view f a : frames dhcp_view (ping_unless f a).
Proof. unfold ping_unless. frames_tac. Qed.
#[local] Hint Resolve arp_gw_success_view ping_unless_view : frames.
Lemma arp_gw_check_timeout_view t : frames dhcp_view (arp_gw_check_timeout t).
Proof. unfold arp_gw_check_timeout, get_send_stats. frames_tac. Qed.
Lemma arp_gw_query_timeout_view t : frames dhcp_view (arp_gw_query_timeout t).
Proof. unfold arp_gw_query_timeout, get_send_stats. frames_tac. Qed.
Lemma arp_query_gateway_timeout_view t : frames dhcp_view (arp_query_gateway_timeout t).
Proof. unfold arp_query_gateway_timeout, get_wake_ts. frames_tac. Qed.
Lemma arp_announce_timeout_view t : frames dhcp_view (arp_announce_timeout t).
Proof. unfold arp_announce_timeout, get_wake_ts. frames_tac. Qed.
Lemma arp_do_defense_view : frames dhcp_view arp_do_defense.
Proof. unfold arp_do_defense. frames_tac. Qed.
Lemma gw_query_complete_view : frames dhcp_view gw_query_complete.
Proof. unfold gw_query_complete. frames_tac. Qed.
#[local] Hint Resolve gw_query_complete_view : frames.
Lemma gw_query_server_view m : frames dhcp_view (gw_query_server m).
Proof. unfold gw_query_server. frames_tac. Qed.
#[local] Hint Resolve gw_query_server_view : frames.
Lemma arp_do_gw_query_view : frames dhcp_view arp_do_gw_query.
Proof. unfold arp_do_gw_query. frames_tac. Qed.
Lemma gw_check_server_view m : frames dhcp_view (gw_check_server m).
Proof. unfold gw_check_server. frames_tac. Qed.
#[local] Hint Resolve gw_check_server_view : frames.
Lemma arp_do_gw_check_view : frames dhcp_view arp_do_gw_check.
Proof. unfold arp_do_gw_check. frames_tac. Qed.
Lemma arp_do_collision_check_view : frames sock_view arp_do_collision_check.
Proof. unfold arp_do_collision_check. frames_tac. Qed.
#[local] Hint Resolve arp_gw_check_view : frames.
Lemma ifup_action_view : frames dhcp_view ifup_action.
Proof. unfold ifup_action. frames_tac. Qed.

Lemma dhcp_bound {A} (m : M A) : frames dhcp_view m -> frames bound_view m.
Proof. intros Hm w. apply bound_view_of_dhcp. exact (Hm w). Qed.
#[local] Hint Extern 6 (frames bound_view _) => apply dhcp_bound : frames.
Lemma start_dhcp_listen_view : frames bound_view start_dhcp_listen.
Proof. unfold start_dhcp_listen, get_raw_listen_socket. frames_tac. Qed.
Lemma stop_dhcp_listen_view : frames bound_view stop_dhcp_listen.
Proof. unfold stop_dhcp_listen. frames_tac. Qed.
End Views.
#[export] Hint Resolve count_send_view arp_ip_anon_ping_view set_wake_ts_view arp_do_collision_check_view : frames.
#[export] Hint Resolve arp_announce_timeout_view arp_query_gateway_timeout_view
  arp_gw_query_timeout_view arp_gw_check_timeout_view arp_defense_timeout_view arp_do_defense_view
  arp_do_gw_query_view arp_do_gw_check_view arp_query_gateway_view arp_open_fd_view
  ifup_action_view : frames.
#[export] Hint Resolve start_dhcp_listen_view stop_dhcp_listen_view : frames.
#[export] Hint Extern 5 (frames dhcp_view _) => apply sock_dhcp : frames.
#[export] Hint Extern 6 (frames bound_view _) => apply dhcp_bound : frames.

(** * What the operations that change the state establish *)

Section Specs.
Context `{!Env}.

(** Runs an operation that talks to the outside only. *)
Ltac pwp_io := pwp_run; apply io_pwp; [solve [auto with io]|intros ? ? ?].

Lemma pwp_then {A B} (m : M A) (f : A -> M B) Q w :
  (forall a w', pwp (f a) Q w') -> pwp (m ≫= f) Q w.
Proof. intros Hf. rewrite pwp_bind. eapply pwp_mono; [apply pwp_true|]. auto. Qed.

Lemma start_dhcp_listen_spec w :
  pwp start_dhcp_listen (fun _ w' => 0 <= listenFd (cs w') /\
    clientAddr (cs w') = clientAddr (cs w)) w.
Proof.
  unfold start_dhcp_listen. pwp_run. zcase; [by pwp_run|]. pwp_run.
  unfold get_raw_listen_socket. pwp_run. pwp_io. destruct a as [fd resp]. pwp_run.
  destruct (resp =? _); [|destruct (resp =? _)]; pwp_run; try exact I;
    (zcase; [exact I|]; pwp_io; rsimpl; split; [lia|done]).
Qed.

Lemma stop_dhcp_listen_spec w :
  pwp stop_dhcp_listen (fun _ w' => listenFd (cs w') < 0 /\ garp w' = garp w /\
    clientAddr (cs w') = clientAddr (cs w) /\ arpFd (cs w') = arpFd (cs w) /\
    dhcp_wake_ts (cs w') = dhcp_wake_ts (cs w)) w.
Proof.
  unfold stop_dhcp_listen. pwp_run. zcase; pwp_run; [done|]. pwp_io. pwp_run. pwp_io. pwp_run.
  by rsimpl.
Qed.

Lemma arp_min_close_fd_spec w :
  pwp arp_min_close_fd (fun _ w' => arpFd (cs w') < 0 /\ clientAddr (cs w') = clientAddr (cs w)) w.
Proof.
  unfold arp_min_close_fd. pwp_run. zcase; pwp_run; [done|]. pwp_io. pwp_run. pwp_io. pwp_run.
  by rsimpl.
Qed.

Lemma reinit_shared_deconfig_spec w :
  pwp reinit_shared_deconfig (fun _ w' => clientAddr (cs w') = 0 /\ arpFd (cs w') < 0 /\
    forall s, wake_ts (garp w') s = -1) w.
Proof.
  unfold reinit_shared_deconfig, arp_reset_state, arp_close_fd. pwp_run.
  eapply pwp_mono; [apply arp_min_close_fd_spec|]. intros _ w' [H1 H2]. pwp_run.
  split; [exact H2|]. split; [exact H1|reflexivity].
Qed.

Lemma print_release_spec w : pwp print_release (fun _ w' => quiet w') w.
Proof.
  unfold print_release, set_dhcp_wake_ts. pwp_run.
  eapply pwp_mono; [apply reinit_shared_deconfig_spec|]. intros _ w1 (H1 & H2 & H3). pwp_run.
  eapply pwp_mono; [apply stop_dhcp_listen_spec|].
  intros _ w2 (G1 & G2 & G3 & G4 & G5). constructor.
  - rewrite G3. exact H1.
  - exact G1.
  - rewrite G4. exact H2.
  - rewrite G5. reflexivity.
  - intros s. rewrite G2. exact (H3 s).
Qed.

Lemma reinit_selecting_spec t w :
  pwp (reinit_selecting t) (fun _ w' => 0 <= listenFd (cs w')) w.
Proof.
  unfold reinit_selecting. do 3 (apply pwp_then; intros).
  eapply pwp_mono; [apply start_dhcp_listen_spec|]. by intros ? ? [].
Qed.

Lemma packet_serverid_spec p w :
  pwp (packet_serverid p) (fun r w' => w' = w /\
    match r with Some sid => server_of p sid | None => True end) w.
Proof.
  unfold packet_serverid. rewrite pwp_bind. apply pwp_ub. intros [found sid] Hs. pwp_run.
  split; [done|]. destruct found; [exact Hs|exact I].
Qed.

(** The lease of a received ACK: at least a minute, T1 at half, T2 at 7/8. *)
Lemma get_leasetime_spec p w :
  pwp (get_leasetime p) (fun _ w' =>
    exists l now tk, get_option_leasetime p = Some l /\
    w' = w <| tick := tk |> <| cs ::= (fun c => c <| lease := effective_lease l |>
           <| leaseStartTime := now |> <| renewTime := effective_lease l / 2 |>
           <| rebindTime := effective_lease l / 8 * 7 |>
           <| dhcp_wake_ts := now + effective_lease l / 2 * 1000 |>) |>) w.
Proof.
  unfold get_leasetime. rewrite pwp_bind. apply pwp_ub. intros l Hl. unfold curms. pwp_run.
  destruct (env_clock (tick w)) as [[sec nsec]|]; [|exact I]. pwp_run.
  exists l, (sec * 1000 + nsec / 1000000), (S (tick w)). split; [done|].
  pose proof (effective_lease_range l (get_option_leasetime_range p l Hl)).
  rewrite !Z.shiftr_div_pow2 by lia. change (2 ^ 1) with 2. change (2 ^ 3) with 8.
  rewrite u32_id; [done|]. Z.div_mod_to_equations. lia.
Qed.

Lemma get_leasetime_ok p w :
  pwp (get_leasetime p) (fun _ w' => lease_ok (cs w') /\
    clientAddr (cs w') = clientAddr (cs w) /\ serverAddr (cs w') = serverAddr (cs w) /\
    listenFd (cs w') = listenFd (cs w) /\ ifDeconfig (cs w') = ifDeconfig (cs w) /\
    cfg_packet w' = cfg_packet w) w.
Proof.
  eapply pwp_mono; [apply get_leasetime_spec|]. intros _ w' (l & now & tk & Hl & ->). rsimpl.
  split; [|done]. pose proof (effective_lease_range l (get_option_leasetime_range p l Hl)).
  by constructor; rsimpl.
Qed.

Lemma arp_open_fd_spec d w : pwp (arp_open_fd d) (fun r w' => 0 <= r -> 0 <= arpFd (cs w')) w.
Proof.
  unfold arp_open_fd. pwp_run. destruct (_ && _) eqn:E; pwp_run; [intros _; apply andb_prop in E; lia|].
  eapply pwp_mono; [apply pwp_true|]. intros ? w1 _. pwp_run.
  eapply pwp_mono; [apply pwp_true|]. intros fd w2 _. pwp_run.
  zcase; pwp_run; [lia|]. pwp_io. pwp_run. intros _. by rsimpl.
Qed.

Lemma arp_check_spec p w :
  pwp (arp_check p) (fun r w' => 0 <= r ->
    blind (cs w') = blind (cs w) /\ dhcp_packet (garp w') = p /\ 0 <= arpFd (cs w')) w.
Proof.
  unfold arp_check. pwp_run.
  eapply pwp_mono; [apply (frames_pwp dhcp_view); [auto with frames|apply arp_open_fd_spec]|].
  intros r w1 [Hv Hr]. zcase; pwp_run; [lia|].
  eapply pwp_mono; [apply (frames_pwp_0 sock_view); auto with frames|].
  intros r2 w2 Hv2. zcase; pwp_run; [lia|]. unfold get_send_stats, set_wake_ts. pwp_run. intros _.
  pose proof (f_equal (fun v => v.1.1) Hv) as E1. pose proof (f_equal (fun v => v.1.1.1) Hv2) as E2.
  pose proof (f_equal (fun v => v.1.2) Hv2) as F2. pose proof (f_equal snd Hv) as F1.
  pose proof (f_equal snd Hv2) as G2. cbn [fst snd] in *.
  split; [etrans; [exact E2|exact E1]|]. split; [etrans; [exact F2|exact F1]|].
  change (arpFd (cs w2) = arpFd (cs w1)) in G2.
  change (0 <= arpFd (cs w2)). rewrite G2. by apply Hr.
Qed.

(** * Operations with a result code *)

Lemma set_retry_wake_view t l : frames sock_view (set_retry_wake t l).
Proof. unfold set_retry_wake, set_dhcp_wake_ts. frames_tac. Qed.
Lemma delay_timeout_io n : io_only (delay_timeout n).
Proof. unfold delay_timeout. io_tac. Qed.
#[local] Hint Resolve delay_timeout_io : io.
#[local] Hint Resolve set_retry_wake_view : frames.

Lemma requesting_timeout_spec t w :
  pwp (requesting_timeout t) (fun r w' =>
    if r =? REQ_TIMEOUT then 0 <= listenFd (cs w') else sock_view w' = sock_view w) w.
Proof.
  unfold requesting_timeout, set_dhcp_wake_ts, count_dhcp_request. pwp_run. zcase; pwp_run.
  - eapply pwp_mono; [apply reinit_selecting_spec|]. intros ? w' Hw'. by pwp_run.
  - pwp_io. zcase; pwp_run; [done|]. pwp_io. by pwp_run.
Qed.

Lemma rebinding_timeout_spec t w :
  pwp (rebinding_timeout t) (fun r w' =>
    if r =? BTO_EXPIRED then 0 <= listenFd (cs w') else bound_view w' = bound_view w) w.
Proof.
  unfold rebinding_timeout. pwp_run. zcase; pwp_run.
  - eapply pwp_mono; [apply reinit_selecting_spec|]. intros ? w' Hw'. by pwp_run.
  - eapply pwp_mono; [apply (frames_pwp_0 bound_view); auto with frames|]. intros ? w1 H1.
    pwp_io. zcase; pwp_run; [exact H1|].
    eapply pwp_mono; [apply (frames_pwp_0 bound_view); auto with frames|]. intros ? w2 H2.
    pwp_run. cbn. etrans; [exact H2|exact H1].
Qed.
Lemma renewing_timeout_spec t w :
  pwp (renewing_timeout t) (fun r w' =>
    if r =? BTO_EXPIRED then 0 <= listenFd (cs w') else bound_view w' = bound_view w) w.
Proof.
  unfold renewing_timeout. pwp_run. zcase; [apply rebinding_timeout_spec|]. pwp_run.
  eapply pwp_mono; [apply (frames_pwp_0 bound_view); auto with frames|]. intros ? w1 H1.
  pwp_io. zcase; pwp_run; [exact H1|].
  eapply pwp_mono; [apply (frames_pwp_0 bound_view); auto with frames|]. intros ? w2 H2.
  pwp_run. cbn. etrans; [exact H2|exact H1].
Qed.
Lemma bound_timeout_spec t w :
  pwp (bound_timeout t) (fun r w' =>
    if r =? BTO_EXPIRED then 0 <= listenFd (cs w') else bound_view w' = bound_view w) w.
Proof.
  unfold bound_timeout, set_dhcp_wake_ts. pwp_run. zcase; [by pwp_run|apply renewing_timeout_spec].
Qed.

Lemma selecting_packet_spec p t src w :
  pwp (selecting_packet p t src false) (fun r w' =>
    listenFd (cs w') = listenFd (cs w) /\
    if r =? ANP_SUCCESS then
      t = DHCPOFFER /\ server_of p (serverAddr (cs w')) /\ clientAddr (cs w') = yiaddr p
    else w' = w) w.
Proof.
  unfold selecting_packet. cbn [negb andb]. zcase; [|by pwp_run]. pwp_run.
  eapply pwp_mono; [apply packet_serverid_spec|]. intros [sid|] w' [-> Hs]; [|by pwp_run].
  pwp_run. pwp_io. pwp_run. rsimpl. done.
Qed.

Lemma selecting_packet_req_spec p t src w :
  pwp (selecting_packet p t src true) (fun r w' =>
    listenFd (cs w') = listenFd (cs w) /\ clientAddr (cs w') = clientAddr (cs w) /\
    if r =? ANP_CHECK_IP then
      t = DHCPACK /\ yiaddr p = clientAddr (cs w) /\ server_of p (serverAddr (cs w')) /\ lease_ok (cs w')
    else w' = w) w.
Proof.
  unfold selecting_packet. cbn [negb andb]. zcase; [|by pwp_run]. pwp_run. zcase; [|by pwp_run].
  pwp_run. eapply pwp_mono; [apply packet_serverid_spec|]. intros [sid|] w' [-> Hs]; [|by pwp_run].
  pwp_run. zcase; pwp_run;
    (eapply pwp_mono; [apply get_leasetime_ok|]; intros _ w1 (H1 & H2 & H3 & H4 & _); pwp_run).
  - subst. cbn. rewrite H3. by split_and!.
  - cbn. rewrite H3. rsimpl. by split_and!.
Qed.

Lemma validate_serverid_spec p w :
  pwp (validate_serverid p) (fun r w' => w' = w /\ (r = true -> server_of p (serverAddr (cs w)))) w.
Proof.
  unfold validate_serverid. pwp_run.
  eapply pwp_mono; [apply packet_serverid_spec|]. intros [sid|] w' [-> Hs]; pwp_run; [|done].
  split; [done|]. zcase; [by subst|done].
Qed.

Lemma get_leasetime_at_bound p w a :
  at_place Bound w a -> pwp (get_leasetime p) (fun _ w' => at_place Bound w' a) w.
Proof.
  intros (-> & HL & Hc). eapply pwp_mono; [apply get_leasetime_ok|].
  intros _ w' (H1 & H2 & H3 & H4 & H5 & H6). unfold at_place, configured in *.
  by rewrite H2, H3, H5, H6.
Qed.

Lemma extend_packet_spec p t w a :
  at_place Bound w a ->
  pwp (extend_packet p t) (fun r w' =>
    if r =? ANP_REJECTED then
      t = DHCPNAK /\ server_of p (serverAddr (cs w)) /\ 0 <= listenFd (cs w')
    else at_place Bound w' a /\ (r = ANP_CHECK_IP -> t = DHCPACK)) w.
Proof.
  intros Hw. unfold extend_packet. zcase.
  - pwp_run. eapply pwp_mono; [apply validate_serverid_spec|]. intros r ? [-> Hr].
    destruct r; cbn [negb]; [|by pwp_run]. pwp_run.
    eapply pwp_mono; [by apply get_leasetime_at_bound|]. intros ? w1 H1. pwp_run.
    zcase; cbn [negb]; [|by pwp_run]. pwp_run. unfold arp_set_defense_mode.
    eapply pwp_mono; [apply (frames_pwp_0 bound_view); auto with frames|]. intros ? w2 H2. pwp_run.
    eapply pwp_mono; [apply (frames_pwp_0 bound_view); auto with frames|]. intros ? w3 H3. pwp_run.
    cbn. split; [|done]. eapply at_bound_view; [exact H3|]. eapply at_bound_view; [exact H2|exact H1].
  - zcase; [|by pwp_run]. pwp_run. eapply pwp_mono; [apply validate_serverid_spec|].
    intros r ? [-> Hr]. destruct r; cbn [negb]; [|by pwp_run]. pwp_run.
    eapply pwp_mono; [apply reinit_selecting_spec|]. intros ? w' Hw'. pwp_run. cbn. auto.
Qed.

Lemma ifchange_bind_spec p w :
  pwp (ifchange_bind p) (fun r w' => 0 <= r ->
    cs w' = (cs w) <| ifDeconfig := 0 |> /\ cfg_packet w' = p /\ garp w' = garp w) w.
Proof.
  unfold ifchange_bind. pwp_run. apply pwp_ub. intros buf Hb.
  assert (Hk : forall r w1, cs w1 = cs w -> garp w1 = garp w ->
    pwp ((if 0 <=? r then set_cs (fun c => c <| ifDeconfig := 0 |>);;
            modify (fun w => w <| cfg_packet := p |>) else mret tt);; mret r)
      (fun r w' => 0 <= r ->
        cs w' = (cs w) <| ifDeconfig := 0 |> /\ cfg_packet w' = p /\ garp w' = garp w) w1).
  { intros r w1 Hc Hg. pwp_run. zcase; pwp_run; [|lia]. intros _. rsimpl. by rewrite Hc. }
  pwp_run. zcase; pwp_run; [by apply (Hk (-1))|]. pwp_io. by apply Hk.
Qed.

Lemma quit_after_lease_handler_never {A} w :
  pwp (@quit_after_lease_handler _ A) (fun _ _ => False) w.
Proof.
  unfold quit_after_lease_handler. pwp_run. eapply pwp_mono; [apply pwp_true|]. intros ts w1 _.
  generalize env_fuel. intros fuel. revert w1. induction fuel as [|fuel IH]; intros w1; cbn [quit_loop];
    [exact I|].
  pwp_run. eapply pwp_mono; [apply pwp_true|]. intros r w2 _. zcase; [exact I|]. pwp_run.
  eapply pwp_mono; [apply pwp_true|]. intros now w3 _. zcase; [exact I|]. apply IH.
Qed.

(** A lease is taken exactly with the address and the packet that were probed,
    and only once the interface carries them. *)
Lemma arp_collision_timeout_spec t w :
  pwp (arp_collision_timeout t) (fun r w' =>
    if r =? ARPR_FREE then
      clientAddr (cs w') = yiaddr (dhcp_packet (garp w)) /\
      configured w' (yiaddr (dhcp_packet (garp w))) /\
      serverAddr (cs w') = serverAddr (cs w) /\ lease (cs w') = lease (cs w) /\
      renewTime (cs w') = renewTime (cs w) /\ rebindTime (cs w') = rebindTime (cs w)
    else sock_view w' = sock_view w) w.
Proof.
  unfold arp_collision_timeout, get_send_stats. pwp_run. destruct (_ || _).
  - unfold set_wake_ts. pwp_run. eapply pwp_mono; [apply ifchange_bind_spec|].
    intros r w1 Hr. zcase; [exact I|]. destruct (Hr Hz) as (H1 & H2 & H3). pwp_run.
    apply pwp_ub. intros ra _. pwp_run.
    set (w2 := w1 <| cs ::= _ |>).
    assert (G : clientAddr (cs w2) = yiaddr (dhcp_packet (garp w)) /\
      configured w2 (yiaddr (dhcp_packet (garp w))) /\
      serverAddr (cs w2) = serverAddr (cs w) /\ lease (cs w2) = lease (cs w) /\
      renewTime (cs w2) = renewTime (cs w) /\ rebindTime (cs w2) = rebindTime (cs w)).
    { subst w2. unfold configured. rsimpl. rewrite H1, H2. rsimpl. by split_and!. }
    clearbody w2. 
    eapply pwp_mono; [apply (frames_pwp_0 bound_view); auto with frames|]. intros ? w3 Hv. pwp_run.
    pwp_io. pwp_run.
    assert (G' : forall w4, bound_view w4 = bound_view w2 ->
      clientAddr (cs w4) = yiaddr (dhcp_packet (garp w)) /\
      configured w4 (yiaddr (dhcp_packet (garp w))) /\
      serverAddr (cs w4) = serverAddr (cs w) /\ lease (cs w4) = lease (cs w) /\
      renewTime (cs w4) = renewTime (cs w) /\ rebindTime (cs w4) = rebindTime (cs w)).
    { intros w4. unfold bound_view. intros [= E1 E2 E3 E4 E5 E6 E7].
      unfold configured in *. rewrite E1, E2, E3, E4, E5, E6, E7. exact G. }
    case_match; pwp_run.
    + eapply pwp_mono; [apply quit_after_lease_handler_never|done].
    + exact (G' _ Hv).
  - zcase; unfold set_wake_ts; pwp_run; [done|].
    eapply pwp_mono; [apply (frames_pwp_0 sock_view); auto with frames|]. intros r w1 Hv.
    zcase; pwp_run; [exact Hv|]. unfold arp_gen_probe_wait. pwp_run.
    pwp_io. pwp_run. exact Hv.
Qed.
End Specs.

(** * Every step implements transitions of the abstract client *)

Section Refinement.
Context `{!Env} (ev : event).

(** How a step from the abstract state [a] ends. *)
Definition step_post (a : client) (f : flow) (w' : World) : Prop :=
  match f with
  | Return _ at_ => exists a', rtc (cstep ev) a a' /\ at_place (resume at_) w' a'
  | Goto l' ev' =>
      (ev' = ev \/ ev' = ev <| sev_dhcp := false |>) /\
      exists a', rtc (cstep ev) a a' /\ at_place l' w' a'
  end.
Definition block_post (l : place) (a : client) (o : option flow) (w' : World) : Prop :=
  match o with Some f => step_post a f w' | None => at_place l w' a end.

Lemma orelse_post l a m k w :
  pwp m (block_post l a) w -> (forall w', at_place l w' a -> pwp k (step_post a) w') ->
  pwp (orelse m k) (step_post a) w.
Proof.
  intros Hm Hk. unfold orelse. rewrite pwp_bind. eapply pwp_mono; [exact Hm|].
  intros [f|] w' Hf; [exact Hf|by apply Hk].
Qed.

Lemma post_return a r at_ w' : at_place (resume at_) w' a -> step_post a (Return r at_) w'.
Proof. intros Hw. exists a. split; [apply rtc_refl|exact Hw]. Qed.
Lemma post_return_step a a' r at_ w' :
  cstep ev a a' -> at_place (resume at_) w' a' -> step_post a (Return r at_) w'.
Proof. intros Hs Hw. exists a'. split; [by apply rtc_once|exact Hw]. Qed.

Lemma goto_reinit_post a w :
  rtc (cstep ev) a CSelecting -> 0 <= listenFd (cs w) -> pwp (goto_reinit ev) (step_post a) w.
Proof.
  intros Hs Hl. unfold goto_reinit. pwp_run. split; [by right|]. by exists CSelecting.
Qed.
Lemma ends_reinit_post l a w :
  rtc (cstep ev) a CSelecting -> 0 <= listenFd (cs w) ->
  pwp (ends (goto_reinit ev)) (block_post l a) w.
Proof.
  intros Hs Hl. unfold ends. pwp_run. eapply pwp_mono; [by apply goto_reinit_post|].
  intros f w' Hf. by pwp_run.
Qed.
(** [reinit_selecting(cs, t); sev_dhcp = false; goto reinit;] *)
Lemma reinit_ends_post l a t w :
  rtc (cstep ev) a CSelecting ->
  pwp (reinit_selecting t;; ends (goto_reinit ev)) (block_post l a) w.
Proof.
  intros Hs. pwp_run. eapply pwp_mono; [apply reinit_selecting_spec|].
  intros ? w' Hw'. by apply ends_reinit_post.
Qed.

Lemma print_release_post a w :
  sev_signal ev = SIGNAL_RELEASE ->
  pwp (print_release;; mret (Goto Released ev)) (step_post a) w.
Proof.
  intros Hs. pwp_run. eapply pwp_mono; [apply print_release_spec|]. intros ? w' Hw'. pwp_run.
  split; [by left|]. exists CReleased. split; [by apply rtc_once, cs_release|]. by split.
Qed.

Lemma selecting_timeout_listen t : frames (fun w => listenFd (cs w)) (selecting_timeout t).
Proof.
  unfold selecting_timeout, set_dhcp_wake_ts, count_dhcp_request, background, delay_timeout.
  frames_tac.
Qed.

Lemma selecting_step_post w :
  0 <= listenFd (cs w) -> pwp (selecting_step ev) (step_post CSelecting) w.
Proof.
  intros Hl. unfold selecting_step. zcase; [by apply print_release_post|].
  apply (orelse_post Selecting).
  - destruct (sev_dhcp ev) eqn:Ed; [|by unfold next; pwp_run]. pwp_run.
    eapply pwp_mono; [apply selecting_packet_spec|]. intros r w' [Hl' Hr].
    destruct (r =? ANP_SUCCESS); [|subst; by unfold next; pwp_run]. pwp_run.
    destruct Hr as (Ht & Hs & Ha). split; [by right|].
    exists (CRequesting (clientAddr (cs w')) (serverAddr (cs w'))).
    split; [rewrite Ha; by apply rtc_once, cs_offer|]. split; [done|lia].
  - intros w' [_ Hl']. rewrite pwp_bind.
    eapply pwp_mono; [apply (frames_pwp_0 (fun w => listenFd (cs w)))|].
    { pose proof selecting_timeout_listen. unfold BAD_STATE. frames_tac. }
    intros r w2 H2; cbv beta in H2. pwp_run. apply post_return. split; [done|]. cbv beta in H2. lia.
Qed.

Lemma requesting_retry_post l at_ a w :
  resume at_ = l -> at_place l w a ->
  (dhcp_timeout ev = true -> cstep ev a CSelecting) ->
  (forall w', sock_view w' = sock_view w -> at_place l w' a) ->
  pwp (requesting_retry ev at_) (step_post a) w.
Proof.
  intros <- Hw Hg Hv. unfold requesting_retry.
  destruct (dhcp_timeout ev) eqn:Ed; [|by pwp_run; apply post_return]. pwp_run.
  eapply pwp_mono; [apply requesting_timeout_spec|]. intros r w' Hr; cbv beta in Hr.
  destruct (r =? REQ_SUCCESS) eqn:E1.
  { apply Z.eqb_eq in E1 as ->. pwp_run. apply post_return. by apply Hv. }
  destruct (r =? REQ_TIMEOUT) eqn:E2.
  { apply goto_reinit_post; [by apply rtc_once, Hg|done]. }
  destruct (r =? REQ_FAIL) eqn:E3; [|exact I]. pwp_run. apply post_return. by apply Hv.
Qed.

Lemma sock_dhcp_view w w' : sock_view w' = sock_view w -> dhcp_view w' = dhcp_view w.
Proof. intros E. exact (f_equal fst E). Qed.

Lemma requesting_step_post w a :
  at_place Requesting w a -> pwp (requesting_step ev) (step_post a) w.
Proof.
  intros Hw. unfold requesting_step. zcase; [by apply print_release_post|].
  apply (orelse_post Requesting).
  - destruct (sev_dhcp ev) eqn:Ed; [|by unfold next; pwp_run]. pwp_run.
    eapply pwp_mono; [apply selecting_packet_req_spec|]. intros r w' (Hl & Ha & Hr).
    destruct (r =? ANP_IGNORE) eqn:E1.
    { apply Z.eqb_eq in E1 as ->. cbn in Hr. subst. by unfold next; pwp_run. }
    destruct (r =? ANP_CHECK_IP); [|exact I]. destruct Hr as (Ht & Hy & Hs & HL).
    destruct Hw as [-> Hl0].
    assert (Hack : cstep ev (CRequesting (clientAddr (cs w)) (serverAddr (cs w)))
                        (CChecking (clientAddr (cs w)) (serverAddr (cs w')))) by by apply cs_ack.
    pwp_run. eapply pwp_mono; [apply arp_check_spec|]. intros r2 w2 H2; cbv beta in H2. zcase.
    + apply reinit_ends_post. eapply rtc_l; [exact Hack|]. apply rtc_once, cs_check_failed.
      right; right; right; right. done.
    + destruct (H2 Hz0) as (Hb & Hp & Hf). pwp_run. apply (post_return_step _ _ _ _ _ Hack).
      pose proof (f_equal clientAddr Hb) as B1. pose proof (f_equal serverAddr Hb) as B2.
      pose proof (f_equal listenFd Hb) as B3. pose proof (f_equal lease Hb) as B4.
      pose proof (f_equal renewTime Hb) as B5. pose proof (f_equal rebindTime Hb) as B6.
      change (clientAddr (cs w2) = clientAddr (cs w')) in B1.
      change (serverAddr (cs w2) = serverAddr (cs w')) in B2.
      change (listenFd (cs w2) = listenFd (cs w')) in B3.
      split; [by rewrite B1, B2, Ha|]. split; [lia|]. split; [congruence|]. split; [done|].
      by apply (lease_ok_same (cs w')).
  - intros w' Hw'. apply (requesting_retry_post Requesting); [done|done| |].
    + intros Hd. destruct Hw' as [-> _]. by apply cs_no_answer.
    + intros w2 H2. eapply at_requesting_view; [|exact Hw']. by apply sock_dhcp_view.
Qed.

Lemma collision_step_post w a :
  at_place Collision w a -> pwp (collision_step ev) (step_post a) w.
Proof.
  intros Hw. assert (Ha : exists x s, a = CChecking x s) by (destruct Hw as [-> _]; eauto).
  destruct Ha as (x & s & ->).
  unfold collision_step. zcase; [by apply print_release_post|].
  apply (orelse_post Collision); [|intros w1 Hw1; apply (orelse_post Collision); [|intros w2 Hw2]].
  - unfold collision_arp. destruct (sev_arp ev) eqn:Ea; [|by unfold next; pwp_run]. pwp_run.
    eapply pwp_mono; [apply (frames_pwp_0 sock_view); auto with frames|]. intros r w1 H1; cbv beta in H1.
    pose proof (at_collision_view _ _ _ H1 Hw) as Hw1.
    zcase; [by unfold next; pwp_run|].
    zcase; [apply reinit_ends_post, rtc_once, cs_check_failed; right; by left|].
    zcase; [|exact I]. pwp_run. by apply post_return.
  - unfold collision_arp_timeout. destruct (arp_timeout ev) eqn:Ea; [|by unfold next; pwp_run]. pwp_run.
    eapply pwp_mono; [apply arp_collision_timeout_spec|]. intros r w2 H2; cbv beta in H2.
    destruct (r =? ARPR_FREE) eqn:E1.
    { destruct Hw1 as (Hx & Hl & Hy & Hf & HL). destruct H2 as (G1 & G2 & G3 & G4 & G5 & G6).
      injection Hx as -> ->.
      assert (Hb : at_place Bound w2 (CBound (clientAddr (cs w1)) (serverAddr (cs w1)))).
      { split; [congruence|]. split; [by apply (lease_ok_same (cs w1))|]. by rewrite G1. }
      pwp_run. eapply pwp_mono; [apply (frames_pwp_0 bound_view); auto with frames|]. intros r3 w3 H3; cbv beta in H3.
      pwp_run. eapply pwp_mono; [apply (frames_pwp_0 sock_view), arp_announce_view|]. intros r4 w4 H4; cbv beta in H4.
      pwp_run. apply (post_return_step _ (CBound (clientAddr (cs w1)) (serverAddr (cs w1)))).
      - by apply cs_checked.
      - eapply at_bound_view; [|exact Hb]. etrans; [|exact H3]. by apply bound_view_of_dhcp, sock_dhcp_view. }
    pose proof (at_collision_view _ _ _ H2 Hw1) as Hw2.
    zcase; [by unfold next; pwp_run|]. zcase; [|exact I]. pwp_run. by apply post_return.
  - apply (requesting_retry_post Collision); [done|done| |].
    + intros Hd. apply cs_check_failed. by left.
    + intros w3 H3. by eapply at_collision_view.
Qed.

(** A computation of BOUND that leaves its variables alone. *)
Lemma bound_frame {A} (m : M A) w a (Q : A -> World -> Prop) :
  frames bound_view m -> at_place Bound w a ->
  (forall r w', at_place Bound w' a -> Q r w') -> pwp m Q w.
Proof.
  intros Hm Hw HQ. eapply pwp_mono; [by apply (frames_pwp_0 bound_view)|].
  intros r w' Hv. apply HQ. eapply at_bound_view; [exact Hv|exact Hw].
Qed.
Ltac bframe :=
  eapply bound_frame; [solve [auto with frames | unfold id; frames_tac; auto with frames]|eassumption|];
  let r := fresh "r" in let w' := fresh "w" in let Hw := fresh "Hw" in intros r w' Hw.

Lemma lost_post l a t w :
  at_place Bound w a -> disturbed ev ->
  pwp (reinit_selecting t;; ends (goto_reinit ev)) (block_post l a) w.
Proof. intros (-> & _) Hd. by apply reinit_ends_post, rtc_once, cs_lost. Qed.

Lemma bound_error_post w a : at_place Bound w a -> pwp bound_error (block_post Bound a) w.
Proof. intros Hw. unfold bound_error. pwp_run. by apply post_return. Qed.
Lemma next_post w a : at_place Bound w a -> pwp next (block_post Bound a) w.
Proof. intros Hw. unfold next. by pwp_run. Qed.

Lemma bound_signal_post w a : at_place Bound w a -> pwp (bound_signal ev) (block_post Bound a) w.
Proof.
  intros Hw. unfold bound_signal. zcase.
  - unfold xmit_release. pwp_run. bframe. zcase; pwp_run; [by apply bound_error_post|].
    eapply pwp_mono; [apply print_release_spec|]. intros ? w' Hq. pwp_run. cbn [negb Z.eqb].
    split; [by left|]. exists CReleased. split; [by apply rtc_once, cs_release|]. by split.
  - zcase; [|by apply next_post]. unfold frenew. pwp_run. bframe. pwp_run. bframe. pwp_run.
    destruct (negb _); [by apply bound_error_post|by apply next_post].
Qed.

Lemma arp_check_view p : frames bound_view (arp_check p).
Proof.
  unfold arp_check, get_send_stats. apply frames_bind; [apply frames_set_garp; reflexivity|intros _].
  frames_tac.
Qed.

Lemma bound_dhcp_post w a : at_place Bound w a -> pwp (bound_dhcp ev) (block_post Bound a) w.
Proof.
  intros Hw. unfold bound_dhcp. pwp_run. destruct (_ && _) eqn:E; [|by apply next_post].
  apply andb_prop in E as [Ed _]. pwp_run.
  eapply pwp_mono; [by apply extend_packet_spec|]. intros r w1 Hr; cbv beta in Hr.
  destruct (r =? ANP_REJECTED) eqn:E1.
  { apply Z.eqb_eq in E1 as ->. cbn. apply ends_reinit_post; [|by apply Hr].
    destruct Hw as (-> & _). destruct Hr as (Ht & Hs & _). by apply rtc_once, cs_nak. }
  destruct Hr as [Hw1 Hc]. destruct (_ || _); [by apply next_post|].
  zcase; [|exact I]. pwp_run.
  pose proof (arp_check_view (ev_packet ev)). bframe.
  zcase; [|by apply next_post]. eapply lost_post; [eassumption|].
  right; right; right; right. auto.
Qed.

Lemma fingerprint_conflict_post w a :
  at_place Bound w a -> disturbed ev -> pwp (fingerprint_conflict ev) (block_post Bound a) w.
Proof.
  intros Hw Hd. unfold fingerprint_conflict. rewrite pwp_bind, pwp_set_cs. apply lost_post; [|done].
  by eapply at_bound_view; [|exact Hw].
Qed.

Lemma bound_arp_post w a : at_place Bound w a -> pwp (bound_arp ev) (block_post Bound a) w.
Proof.
  intros Hw. unfold bound_arp. destruct (sev_arp ev) eqn:Ea; [|by apply next_post].
  assert (Hd : disturbed ev) by (right; by left).
  pwp_run. bframe. zcase; [|zcase; [by apply lost_post|zcase; [by apply bound_error_post|exact I]]].
  pwp_run. destruct (_ || _); [|destruct (check_fingerprint _); [|by apply next_post]].
  - unfold bound_gw_query. pwp_run. bframe. zcase; [by apply next_post|].
    zcase; [pwp_run; apply next_post; by eapply at_bound_view; [|exact Hw1]|].
    zcase; [by apply bound_error_post|exact I].
  - unfold bound_gw_check. pwp_run. bframe. zcase; [by apply next_post|].
    zcase; [pwp_run; apply next_post; by eapply at_bound_view; [|exact Hw1]|].
    zcase; [by apply fingerprint_conflict_post|]. zcase; [by apply bound_error_post|exact I].
Qed.

Lemma bound_arp_timeout_post w a :
  at_place Bound w a -> pwp (bound_arp_timeout ev) (block_post Bound a) w.
Proof.
  intros Hw. unfold bound_arp_timeout. destruct (arp_timeout ev) eqn:Ea; [|by apply next_post].
  assert (Hd : disturbed ev) by (right; right; by left).
  pwp_run. 
  eapply (bound_frame _ _ _ _); [|exact Hw|].
  { destruct (_ && _); auto with frames. }
  intros r w1 Hw1. pwp_run. destruct (negb _).
  { pwp_run. bframe. by apply next_post. }
  destruct (_ || _); [|destruct (check_fingerprint _); [|by apply next_post]].
  - pwp_run. bframe. zcase; [by apply next_post|]. zcase; [by apply bound_error_post|exact I].
  - pwp_run. bframe. zcase; [by apply next_post|]. zcase; [by apply fingerprint_conflict_post|].
    zcase; [by apply bound_error_post|exact I].
Qed.

Lemma bound_fingerprint_post w a :
  at_place Bound w a -> pwp (bound_fingerprint ev) (block_post Bound a) w.
Proof.
  intros Hw. unfold bound_fingerprint.
  destruct (force_fingerprint ev) eqn:Ef; [|by apply next_post].
  assert (Hd : disturbed ev) by (right; right; right; by left).
  pwp_run. bframe. zcase; [by apply next_post|].
  zcase; [|zcase; [by apply bound_error_post|exact I]].
  pwp_run. eapply pwp_mono; [apply pwp_true|]. intros r2 w2 _. destruct Hw0 as (-> & _). zcase.
  - pwp_run. exists CSelecting. split; [by apply rtc_once, cs_lost|done].
  - by apply reinit_ends_post, rtc_once, cs_lost.
Qed.

Lemma bound_dhcp_timeout_post w a :
  at_place Bound w a -> pwp (bound_dhcp_timeout ev) (step_post a) w.
Proof.
  intros Hw. unfold bound_dhcp_timeout.
  destruct (dhcp_timeout ev) eqn:Ed; [|by pwp_run; apply post_return]. pwp_run.
  eapply (pwp_mono _ (fun r w' =>
    if r =? BTO_EXPIRED then 0 <= listenFd (cs w') else bound_view w' = bound_view w)).
  { case_match; [apply rebinding_timeout_spec|].
    case_match; [apply renewing_timeout_spec|apply bound_timeout_spec]. }
  intros r w1 Hr; cbv beta in Hr. zcase; [subst; pwp_run; apply post_return; eapply at_bound_view; [exact Hr|exact Hw]|].
  destruct (r =? BTO_EXPIRED).
  - apply goto_reinit_post; [|done]. destruct Hw as (-> & _). apply rtc_once, cs_lost. by left.
  - zcase; [|exact I]. pwp_run. apply post_return. eapply at_bound_view; [exact Hr|exact Hw].
Qed.

Lemma bound_step_post w a : at_place Bound w a -> pwp (bound_step ev) (step_post a) w.
Proof.
  intros Hw. unfold bound_step.
  apply (orelse_post Bound); [by apply bound_signal_post|intros w1 H1].
  apply (orelse_post Bound); [by apply bound_dhcp_post|intros w2 H2].
  apply (orelse_post Bound); [by apply bound_arp_post|intros w3 H3].
  apply (orelse_post Bound); [by apply bound_arp_timeout_post|intros w4 H4].
  apply (orelse_post Bound); [by apply bound_fingerprint_post|intros w5 H5].
  by apply bound_dhcp_timeout_post.
Qed.

Lemma place_step_post l w a : at_place l w a -> pwp (place_step l ev) (step_post a) w.
Proof.
  intros Hw. destruct l; cbn [place_step].
  - destruct Hw as [-> Hl]. pwp_run. apply io_pwp; [auto with io|intros x t tr]. pwp_run.
    by apply selecting_step_post.
  - destruct Hw as [-> Hl]. by apply selecting_step_post.
  - by apply requesting_step_post.
  - by apply collision_step_post.
  - by apply bound_step_post.
  - rewrite Hw. pwp_run. eapply pwp_mono; [apply reinit_selecting_spec|]. intros ? w' Hw'.
    by apply goto_reinit_post.
  - destruct Hw as [-> Hq]. unfold released_step. zcase.
    + unfold frenew. pwp_run. eapply pwp_mono; [apply reinit_selecting_spec|]. intros ? w' Hw'.
      pwp_run. cbn [negb Z.eqb]. apply goto_reinit_post; [by apply rtc_once, cs_renew|done].
    + pwp_run. by apply post_return.
Qed.
End Refinement.

(** Fewer events allow fewer transitions. *)
Lemma cstep_mono ev a a' : cstep (ev <| sev_dhcp := false |>) a a' -> cstep ev a a'.
Proof.
  unfold disturbed. intros Hs. inversion Hs; subst; rsimpl; try done; try (by econstructor; eauto).
  all: constructor; unfold disturbed in *; rsimpl; naive_solver.
Qed.

Lemma dhcp_run_post `{!Env} fuel l ev w a :
  at_place l w a ->
  pwp (dhcp_run fuel l ev) (fun _ w' => exists a', rtc (cstep ev) a a' /\ related w' a') w.
Proof.
  revert l ev w a. induction fuel as [|fuel IH]; intros l ev w a Hw; cbn [dhcp_run]; [exact I|].
  pwp_run. eapply pwp_mono; [by apply place_step_post|]. intros [r at_|l' ev'] w'.
  - intros (a' & Hs & Hw'). pwp_run. exists a'. split; [done|].
    change (at_place (resume at_) (w' <| scrLine := at_ |>) a'). destruct at_; try exact Hw'.
    destruct Hw' as [Ha []]. split; [exact Ha|by constructor].
  - intros (He & a' & Hs & Hw'). eapply pwp_mono; [by apply IH|].
    intros ? w2 (a2 & Hs2 & H2). exists a2. split; [|done]. etrans; [exact Hs|].
    destruct He as [-> | ->]; [done|]. clear -Hs2. induction Hs2; [apply rtc_refl|].
    eapply rtc_l; [by apply cstep_mono|done].
Qed.

(** * The main loop *)

(** The part of the state [related] depends on. *)
Definition proto_view (w : World) := (cs w, garp w, cfg_packet w, scrLine w).

Lemma related_same w w' a : proto_view w' = proto_view w -> related w a -> related w' a.
Proof.
  unfold proto_view. intros [= E1 E2 E3 E4]. unfold related. rewrite E4.
  destruct (resume (scrLine w)); cbn [at_place]; unfold configured; rewrite ?E1, ?E2, ?E3; try done.
  intros [-> []]. split; [done|]. by constructor; rewrite ?E1, ?E2.
Qed.

(** One transition of the abstract client, whatever the event. *)
Definition any_step (a a' : client) : Prop := exists ev, cstep ev a a'.

Section Loop.
Context {E : Env} (Henv : env_ok E).

Lemma nl_event_get_view : frames proto_view nl_event_get.
Proof.
  unfold nl_event_get. apply frames_bind; [apply frames_gets|intros fd].
  destruct (fd =? -1); [apply frames_suicide|].
  generalize env_fuel, (zeros (Z.to_nat sizeof_nlbuf)), IFS_NONE. intros fuel.
  induction fuel as [|fuel IH]; intros buf st; cbn [nl_event_loop]; [apply frames_fatal|].
  frames_tac; apply IH.
Qed.
Lemma signal_dispatch_view : frames proto_view signal_dispatch.
Proof. unfold signal_dispatch. frames_tac. Qed.
Lemma rfkill_get_view c i : frames proto_view (rfkill_get c i).
Proof. unfold rfkill_get. frames_tac. Qed.
Lemma link_events_view wk : frames proto_view (link_events wk).
Proof. unfold link_events, nl_event_carrier_wentup. frames_tac. Qed.
Lemma iface_disabled_view : frames proto_view iface_disabled.
Proof. unfold iface_disabled. frames_tac. Qed.
Lemma retry_timeout_view : frames proto_view retry_timeout.
Proof. unfold retry_timeout. frames_tac. Qed.

(** Reading a packet may reopen the listening socket but never closes it. *)
Definition relisten_view (w : World) :=
  ((cs w) <| listenFd := 0 |> <| using_dhcp_bpf := false |>, garp w, cfg_packet w, scrLine w).

Lemma related_relisten w w' a :
  relisten_view w' = relisten_view w -> 0 <= listenFd (cs w) -> 0 <= listenFd (cs w') ->
  related w a -> related w' a.
Proof.
  unfold relisten_view. intros E' Hl Hl'.
  pose proof (f_equal (fun v => v.1.1.1) E') as Ec. pose proof (f_equal (fun v => v.1.1.2) E') as Eg.
  pose proof (f_equal (fun v => v.1.2) E') as Ep. pose proof (f_equal snd E') as Es.
  cbn [fst snd] in *.
  pose proof (f_equal clientAddr Ec) as E1. pose proof (f_equal serverAddr Ec) as E2.
  pose proof (f_equal lease Ec) as E3. pose proof (f_equal renewTime Ec) as E4.
  pose proof (f_equal rebindTime Ec) as E5. pose proof (f_equal ifDeconfig Ec) as E6.
  pose proof (f_equal arpFd Ec) as E7.
  change (clientAddr (cs w') = clientAddr (cs w)) in E1.
  change (serverAddr (cs w') = serverAddr (cs w)) in E2.
  change (ifDeconfig (cs w') = ifDeconfig (cs w)) in E6.
  change (arpFd (cs w') = arpFd (cs w)) in E7.
  unfold related. rewrite Es. unfold at_place, configured.
  rewrite E1, E2, E6, E7, Eg, Ep.
  destruct (resume (scrLine w)); intros Hw; try exact Hw.
  - by destruct Hw.
  - by destruct Hw.
  - by destruct Hw.
  - destruct Hw as (-> & _ & H1 & H2 & H3). split_and!; try done. by apply (lease_ok_same (cs w)).
  - destruct Hw as (-> & H3 & H4). split_and!; try apply H4; try done. by apply (lease_ok_same (cs w)).
  - destruct Hw as [_ []]. lia.
Qed.

Lemma stop_dhcp_listen_relisten : frames relisten_view stop_dhcp_listen.
Proof. unfold stop_dhcp_listen. frames_tac. Qed.
Lemma start_dhcp_listen_relisten : frames relisten_view start_dhcp_listen.
Proof. unfold start_dhcp_listen, get_raw_listen_socket. frames_tac. Qed.

Lemma dhcp_packet_get_related p w a :
  related w a -> pwp (dhcp_packet_get p) (fun _ w' => related w' a) w.
Proof.
  intros Hw. unfold dhcp_packet_get. pwp_run. zcase; [by pwp_run|]. pwp_run.
  eapply pwp_mono; [apply (frames_pwp_0 proto_view); unfold get_raw_packet; frames_tac|].
  intros [[r q] src] w1 H1. pose proof (related_same _ _ _ H1 Hw) as Hw1.
  assert (Hl : 0 <= listenFd (cs w1)) by (unfold proto_view in H1; injection H1 as -> _ _ _; lia).
  zcase; pwp_run.
  - zcase; pwp_run; [done|].
    eapply pwp_mono; [apply (frames_pwp_0 relisten_view), stop_dhcp_listen_relisten|].
    intros ? w2 H2. cbv beta in H2.
    eapply pwp_mono; [apply (frames_pwp relisten_view);
      [apply start_dhcp_listen_relisten|apply start_dhcp_listen_spec]|].
    intros ? w3 (H3 & Hl3 & _). pwp_run. apply (related_relisten w1); [congruence|done|done|done].
  - apply pwp_ub. intros v _. by pwp_run.
Qed.

(** Likewise for the ARP socket. *)
Lemma related_rearp w w' a :
  dhcp_view w' = dhcp_view w -> scrLine w' = scrLine w -> 0 <= arpFd (cs w) -> 0 <= arpFd (cs w') ->
  related w a -> related w' a.
Proof.
  intros Hv Hs H1 H2. unfold related. rewrite Hs.
  pose proof Hv as (E1 & E2 & E3 & E4 & E5 & E6 & E7 & E8 & E9)%dhcp_view_fields.
  destruct (resume (scrLine w)).
  - unfold at_place. by rewrite E3.
  - unfold at_place. by rewrite E3.
  - by apply at_requesting_view.
  - intros (-> & Hl & Hy & Hf & HL). unfold at_place. rewrite E1, E2, E3, E9.
    split_and!; try done. by apply (lease_ok_same (cs w)).
  - by apply at_bound_view, bound_view_of_dhcp.
  - done.
  - intros [_ []]. lia.
Qed.

Definition rearp_view (w : World) := (dhcp_view w, scrLine w).
Lemma arp_min_close_fd_rearp : frames rearp_view arp_min_close_fd.
Proof. unfold arp_min_close_fd. frames_tac. Qed.
Lemma arp_open_fd_rearp d : frames rearp_view (arp_open_fd d).
Proof.
  pose proof arp_min_close_fd_rearp.
  unfold arp_open_fd, get_arp_defense_socket, get_arp_basic_socket. frames_tac; assumption.
Qed.

Lemma arp_packet_get_related w a :
  0 <= arpFd (cs w) -> related w a -> pwp arp_packet_get (fun _ w' => related w' a) w.
Proof.
  intros Hf Hw. unfold arp_packet_get. pwp_run.
  set (w0 := w <| tick ::= S |>).
  assert (Hw0 : related w0 a) by (by apply (related_same w)).
  assert (Hreopen : pwp (arp_min_close_fd;; def ← gets (fun w => arp_is_defense (cs w));
      r ← arp_open_fd def;
      if r <? 0 then suicide "arp_packet_get: Failed to reopen ARP fd" else mret false)
      (fun _ w' => related w' a) w0).
  { pwp_run. eapply pwp_mono; [apply (frames_pwp_0 rearp_view), arp_min_close_fd_rearp|].
    intros ? w1 H1. cbv beta in H1. pwp_run.
    eapply pwp_mono; [apply (frames_pwp rearp_view); [apply arp_open_fd_rearp|apply arp_open_fd_spec]|].
    intros r w2 [H2 Hr]. zcase; [exact I|]. pwp_run.
    assert (Hv : rearp_view w2 = rearp_view w0) by congruence.
    apply (related_rearp w0); [exact (f_equal fst Hv)|exact (f_equal snd Hv)|exact Hf|by apply Hr|done]. }
  destruct (env_read (tick w)) as [| |data]; [exact Hreopen|exact Hreopen|].
  zcase; [by pwp_run|]. pwp_run. apply pwp_ub. intros am _. pwp_run.
  destruct (_ && _); pwp_run; [done|].
  apply (related_rearp w0); [reflexivity|reflexivity|exact Hf|exact Hf|done].
Qed.

Lemma dispatch_related fd i h wk w a :
  0 <= fd -> related w a -> pwp (dispatch fd i h wk) (fun _ w' => related w' a) w.
Proof.
  intros Hfd Hw. unfold dispatch. pwp_run. cbv zeta.
  assert (Hview : forall A (m : M A) (f : A -> wakeup), frames proto_view m ->
    pwp (s ← m; mret (f s)) (fun _ w' => related w' a) w).
  { intros A m f Hm. pwp_run. eapply pwp_mono; [by apply (frames_pwp_0 proto_view)|].
    intros s w1 H1. pwp_run. eapply related_same; [exact H1|exact Hw]. }
  unfold id. zcase; [destruct (negb i); [exact I|apply Hview, signal_dispatch_view]|].
  zcase.
  { destruct (negb i); [exact I|]. pwp_run. eapply pwp_mono; [by apply dhcp_packet_get_related|].
    intros [[[ok p] t] s] w1 H1. by pwp_run. }
  zcase.
  { destruct (negb i); [exact I|]. pwp_run. eapply pwp_mono; [apply arp_packet_get_related; [lia|done]|].
    intros r w1 H1. by pwp_run. }
  zcase; [destruct (negb i); [exact I|apply Hview, nl_event_get_view]|].
  zcase; [destruct h; [exact I|by pwp_run]|]. zcase; [destruct h; [exact I|by pwp_run]|].
  destruct (_ && _); [destruct (negb i); [exact I|apply Hview, rfkill_get_view]|exact I].
Qed.

(** Everything an iteration does besides [dhcp_handle] leaves the state of the
    protocol alone. *)
Lemma handle_event_related s wk w a :
  related w a ->
  pwp (handle_event s wk) (fun _ w' => exists a', rtc any_step a a' /\ related w' a') w.
Proof.
  intros Hw. unfold handle_event. pwp_run.
  eapply pwp_mono; [apply (frames_pwp_0 proto_view), link_events_view|]. intros ff w1 H1. pwp_run.
  eapply pwp_mono; [apply (frames_pwp_0 proto_view), iface_disabled_view|]. intros down w2 H2.
  assert (Hw2 : related w2 a) by (eapply related_same; [exact H2|]; eapply related_same; [exact H1|exact Hw]).
  assert (Hretry : forall w a' (f : Z -> loop_state), rtc any_step a a' -> related w a' ->
    pwp (t ← retry_timeout; mret (f t)) (fun _ w' => exists a', rtc any_step a a' /\ related w' a') w).
  { intros w3 a' f Hs H3. pwp_run.
    eapply pwp_mono; [apply (frames_pwp_0 proto_view), retry_timeout_view|]. intros t w4 H4. pwp_run.
    exists a'. split; [done|]. eapply related_same; [exact H4|exact H3]. }
  destruct down; [apply (Hretry _ a); [apply rtc_refl|done]|]. pwp_run.
  apply io_pwp; [auto with io|intros now t tr]. pwp_run. unfold id.
  set (w2' := w2 <| tick := t |> <| trace := _ |>).
  assert (Hw2' : related w2' a) by (by apply (related_same w2)). clearbody w2'.
  eapply pwp_mono; [unfold dhcp_handle; pwp_run; apply (dhcp_run_post 3 _ _ _ a)|].
  { exact Hw2'. }
  intros r w3 (a' & Hs & Hw3).
  assert (Hs' : rtc any_step a a').
  { clear -Hs. induction Hs; [apply rtc_refl|]. eapply rtc_l; [by eexists|done]. }
  zcase; [by apply (Hretry _ a')|]. pwp_run. by exists a'.
Qed.

Lemma ndhc_iter_related s w a :
  related w a -> pwp (ndhc_iter s) (fun _ w' => exists a', rtc any_step a a' /\ related w' a') w.
Proof using Henv.
  intros Hw. unfold ndhc_iter. pwp_run.
  assert (Hw1 : related (w <| tick ::= S |>) a) by (by apply (related_same w)).
  destruct (env_epoll_wait (tick w)) as [| | |fd i h] eqn:Ee.
  - pwp_run. exists a. split; [apply rtc_refl|done].
  - exact I.
  - by apply handle_event_related.
  - pwp_run. eapply pwp_mono; [apply dispatch_related; [by eapply (env_epoll_fd Henv)|exact Hw1]|].
    intros wk w2 H2. by apply handle_event_related.
Qed.

Lemma ndhc_loop_related n s w a :
  related w a -> pwp (ndhc_loop n s) (fun _ w' => exists a', rtc any_step a a' /\ related w' a') w.
Proof using Henv.
  revert s w a. induction n as [|n IH]; intros s w a Hw; cbn [ndhc_loop]; pwp_run.
  - exists a. split; [apply rtc_refl|done].
  - eapply pwp_mono; [by apply ndhc_iter_related|]. intros s' w1 (a1 & Hs & H1).
    eapply pwp_mono; [by apply IH|]. intros s2 w2 (a2 & Hs2 & H2).
    exists a2. split; [by etrans|done].
Qed.

Lemma ndhc_setup_related w :
  scrLine w = SCR_START -> pwp ndhc_setup (fun _ w' => related w' CSelecting) w.
Proof.
  intros Hw. unfold ndhc_setup. rewrite pwp_bind.
  eapply pwp_mono; [apply (frames_pwp_0 scrLine); frames_tac|]. intros ep w1 H1.
  do 7 (rewrite pwp_bind; eapply pwp_mono;
    [apply (frames_pwp_0 scrLine); unfold setup_signals_ndhc; frames_tac|];
    let r := fresh "r" in let v := fresh "w" in let Hv := fresh "Hv" in intros r v Hv).
  pwp_run.
  eapply pwp_mono; [apply (frames_pwp_0 scrLine); frames_tac|]. intros ? w8 H8.
  pwp_run. eapply pwp_mono; [apply (frames_pwp scrLine);
    [unfold start_dhcp_listen, get_raw_listen_socket; frames_tac|apply start_dhcp_listen_spec]|].
  intros ? w9 (H9 & Hl & _). pwp_run. unfold related.
  replace (scrLine w9) with SCR_START by congruence. by split.
Qed.
End Loop.

(** * Properties *)

(** C2. Refinement: every call of [dhcp_handle] that returns performs transitions
    the abstract client allows for its event, and leaves the program's variables
    in agreement with the abstract state it arrives in. *)
Theorem dhcp_handle_refines `{!Env} (ev : event) (w : World) (a : client) :
  related w a ->
  pwp (dhcp_handle ev) (fun _ w' => exists a', rtc (cstep ev) a a' /\ related w' a') w.
Proof.
  intros Hw. unfold dhcp_handle. pwp_run. by apply (dhcp_run_post 3).
Qed.

(** The client listens for offers, and one arrives. *)
Definition selecting_world : World :=
  sample_world <| cs := initial_cs <| listenFd := 6 |> |> <| scrLine := SCR_SELECTING |>.
Definition offer_event : event :=
  (quiet_event 1000000) <| sev_dhcp := true |> <| dhcp_msgtype := DHCPOFFER |>
    <| ev_packet := sample_message DHCPOFFER [] |> <| dhcp_srcaddr := of_le [192; 168; 0; 1] |>.

Lemma dhcp_handle_refines_witness :
  let E := sample_env (ch "s"%char) 60 in
  related selecting_world CSelecting /\
  pwp (dhcp_handle offer_event)
    (fun _ w' => exists a', rtc (cstep offer_event) CSelecting a' /\ related w' a') selecting_world /\
  wp (dhcp_handle offer_event) (fun r w' => r = COR_SUCCESS /\ scrLine w' = SCR_REQUESTING)
    (fun _ _ => False) selecting_world.
Proof.
  intros E. assert (Hw : related selecting_world CSelecting) by (split; [done|vm_compute; discriminate]).
  split_and!; [exact Hw| |vm_compute; done].
  exact (dhcp_handle_refines offer_event selecting_world CSelecting Hw).
Defined.

(** C1. From the start of the process, after any number of iterations of the main
    loop and for every behaviour of the outside world, the program is in a state
    that the abstract client can reach from SELECTING: it uses an address only
    after it asked a server for it, was granted it, and probed it, and then the
    interface carries exactly this address and the lease timers are those of
    RFC 2131; once released, nothing is open and no timer runs. *)
Theorem do_ndhc_work_tracks (E : Env) (n : nat) (w : World) :
  env_ok E -> scrLine w = SCR_START ->
  pwp (do_ndhc_work n) (fun _ w' => exists a, rtc any_step CSelecting a /\ related w' a) w.
Proof.
  intros Henv Hw. unfold do_ndhc_work. pwp_run. eapply pwp_mono; [by apply ndhc_setup_related|].
  intros s w1 H1. by apply (ndhc_loop_related Henv).
Qed.

Lemma do_ndhc_work_tracks_witness :
  let E := sample_env_by (fun n => if (n <=? 9)%nat then ch "L"%char else ch "s"%char) 60 in
  env_ok E /\ scrLine sample_world = SCR_START /\
  pwp (do_ndhc_work 3) (fun _ w' => exists a, rtc any_step CSelecting a /\ related w' a) sample_world /\
  wp (do_ndhc_work 3) (fun _ w' => scrLine w' = SCR_SELECTING) (fun _ _ => False) sample_world.
Proof.
  intros E. split_and!; [apply sample_env_ok|reflexivity| |vm_compute; reflexivity].
  apply (do_ndhc_work_tracks E 3 sample_world); [apply sample_env_ok|reflexivity].
Defined.

Section Progress.
Context `{!Env}.

Lemma packet_serverid_of p sid w : server_of p sid -> packet_serverid p w = (Ret (Some sid), w).
Proof. unfold server_of, packet_serverid, mbind, M_bind. by intros ->. Qed.

(** What an accepted offer sets. *)
Lemma selecting_packet_offer p src sid w :
  server_of p sid ->
  pwp (selecting_packet p DHCPOFFER src false) (fun r w' =>
    r = ANP_SUCCESS /\ clientAddr (cs w') = yiaddr p /\ serverAddr (cs w') = sid /\
    srcAddr (cs w') = src /\ num_dhcp_requests (cs w') = 0) w.
Proof.
  intros Hs. unfold selecting_packet. cbn [negb andb]. change (DHCPOFFER =? DHCPOFFER) with true.
  cbv iota. rewrite pwp_bind. unfold pwp at 1, wp at 1. rewrite (packet_serverid_of _ _ _ Hs).
  pwp_run. apply io_pwp; [auto with io|]. intros now t tr. pwp_run. by rsimpl.
Qed.

(** The first request to the server cannot give up. *)
Lemma requesting_timeout_first t w :
  num_dhcp_requests (cs w) = 0 ->
  pwp (requesting_timeout t) (fun r w' => r <> REQ_TIMEOUT /\ sock_view w' = sock_view w) w.
Proof.
  intros Hn. eapply (pwp_mono _ (fun r w' => r <> REQ_TIMEOUT /\
    if r =? REQ_TIMEOUT then 0 <= listenFd (cs w') else sock_view w' = sock_view w)).
  2: { intros r w' [Hr Hv]. split; [done|]. apply Z.eqb_neq in Hr. by rewrite Hr in Hv. }
  pose proof (requesting_timeout_spec t w) as Hs.
  assert (Hr : pwp (requesting_timeout t) (fun r _ => r <> REQ_TIMEOUT) w).
  { unfold requesting_timeout. pwp_run. rewrite Hn. change (5 <=? 0) with false. cbv iota. pwp_run.
    eapply pwp_mono; [apply pwp_true|]. intros r w1 _. zcase; pwp_run; [discriminate|].
    eapply pwp_mono; [apply pwp_true|]. intros d w2 _. unfold set_dhcp_wake_ts, count_dhcp_request. pwp_run.
    discriminate. }
  unfold pwp, wp in *. destruct (requesting_timeout t w) as [[r|h] w']; auto.
Qed.

(** Progress: in SELECTING, an offer that names its server is taken at once:
    the client is in REQUESTING afterwards, asking that server for the offered
    address. *)
Theorem offer_is_taken (ev : event) (w : World) (sid : Z) :
  scrLine w = SCR_SELECTING -> sev_signal ev <> SIGNAL_RELEASE ->
  sev_dhcp ev = true -> dhcp_msgtype ev = DHCPOFFER -> server_of (ev_packet ev) sid ->
  pwp (dhcp_handle ev) (fun _ w' =>
    scrLine w' = SCR_REQUESTING /\ clientAddr (cs w') = yiaddr (ev_packet ev) /\
    serverAddr (cs w') = sid /\ srcAddr (cs w') = dhcp_srcaddr ev) w.
Proof.
  intros Hl Hs Hd Ht Hp. unfold dhcp_handle. pwp_run. rewrite Hl. apply Z.eqb_neq in Hs.
  cbn [resume dhcp_run place_step]. rewrite pwp_bind. unfold selecting_step, orelse. rewrite Hs, Hd, Ht.
  pwp_run. eapply pwp_mono; [by apply selecting_packet_offer|].
  intros r w1 (-> & H1 & H2 & H3 & H4). change (ANP_SUCCESS =? ANP_SUCCESS) with true. cbv iota. pwp_run.
  cbn [place_step]. unfold requesting_step, orelse, next, requesting_retry. rsimpl. rewrite Hs.
  pwp_run. destruct (dhcp_timeout ev); pwp_run; [|by split_and!].
  eapply pwp_mono; [by apply requesting_timeout_first|]. intros r w2 [Hr Hv]. cbv beta in Hv.
  apply sock_dhcp_view, dhcp_view_fields in Hv as Hf. destruct Hf as (F1 & F2 & _).
  assert (F3 : srcAddr (cs w2) = srcAddr (cs w1)) by exact (f_equal (fun v => srcAddr v.1.1) Hv).
  destruct (r =? REQ_SUCCESS); [|destruct (r =? REQ_TIMEOUT) eqn:E2; [by apply Z.eqb_eq in E2|];
    destruct (r =? REQ_FAIL); [|exact I]].
  all: pwp_run; rsimpl; split_and!; [done|congruence..].
Qed.

Lemma dhcp_run_S n l ev : dhcp_run (S n) l ev = (f ← place_step l ev; match f with
    | Return ret at_ => modify (fun w => w <| scrLine := at_ |>);; mret ret
    | Goto l ev => dhcp_run n l ev end).
Proof. done. Qed.

(** In RELEASED a release request changes nothing. *)
Lemma released_stays n ev w :
  sev_signal ev = SIGNAL_RELEASE -> quiet w ->
  pwp (dhcp_run (S n) Released ev) (fun r w' => r = COR_SUCCESS /\ scrLine w' = SCR_RELEASED /\ quiet w') w.
Proof.
  intros Hs Hq. cbn [dhcp_run]. rewrite pwp_bind. cbn [place_step]. unfold released_step. rewrite Hs.
  change (SIGNAL_RELEASE =? SIGNAL_RENEW) with false. cbv iota. pwp_run.
  split_and!; [done|done|]. destruct Hq. by constructor.
Qed.
(** The places without a lease release at once. *)
Lemma print_release_run n ev w :
  sev_signal ev = SIGNAL_RELEASE ->
  pwp (print_release;; mret (Goto Released ev)) (fun f w' => pwp (match f with
      | Return ret at_ => modify (fun w => w <| scrLine := at_ |>);; mret ret
      | Goto l ev => dhcp_run (S n) l ev end)
    (fun r w' => r = COR_SUCCESS /\ scrLine w' = SCR_RELEASED /\ quiet w') w') w.
Proof.
  intros Hs. pwp_run. eapply pwp_mono; [apply print_release_spec|]. intros [] w' Hq. pwp_run. by apply released_stays.
Qed.
Lemma selecting_releases n l ev w :
  sev_signal ev = SIGNAL_RELEASE -> l = Selecting \/ l = Requesting \/ l = Collision ->
  pwp (dhcp_run (S (S n)) l ev) (fun r w' => r = COR_SUCCESS /\ scrLine w' = SCR_RELEASED /\ quiet w') w.
Proof.
  intros Hs Hl. remember (S n) as m eqn:Em. cbn [dhcp_run]. rewrite pwp_bind.
  assert (E : place_step l ev = (print_release;; mret (Goto Released ev))).
  { destruct Hl as [-> | [-> | ->]]; cbn [place_step]; unfold selecting_step, requesting_step, collision_step; by rewrite Hs. }
  rewrite E. subst m. by apply print_release_run.
Qed.
Lemma reinit_releases n ev w :
  sev_signal ev = SIGNAL_RELEASE ->
  pwp (dhcp_run (S (S n)) Reinit ev) (fun r w' => r = COR_SUCCESS /\ scrLine w' = SCR_RELEASED /\ quiet w') w.
Proof.
  intros Hs. remember (S n) as m eqn:Em. cbn [dhcp_run place_step]. unfold nk_random_u32. pwp_run.
  unfold selecting_step. rewrite Hs. subst m. rewrite <- pwp_bind. rewrite pwp_bind. by apply print_release_run.
Qed.

(** C29. A release request is obeyed in every state: when the call returns the client is
    RELEASED, has no address, no open socket and no running timer.  Only in BOUND,
    where the server is told of it, the request may fail: when the message cannot be
    sent the call returns COR_ERROR, and the client is BOUND as before. *)
Theorem release_silences (ev : event) (w : World) :
  sev_signal ev = SIGNAL_RELEASE -> (scrLine w = SCR_RELEASED -> quiet w) ->
  pwp (dhcp_handle ev) (fun r w' =>
    r = COR_SUCCESS /\ scrLine w' = SCR_RELEASED /\ quiet w' \/
    scrLine w = SCR_BOUND /\ r = COR_ERROR /\ scrLine w' = SCR_BOUND /\
      cs w' = cs w /\ garp w' = garp w /\ cfg_packet w' = cfg_packet w) w.
Proof.
  intros Hs Hrel. unfold dhcp_handle. pwp_run.
  destruct (scrLine w) eqn:El; cbn [resume];
    try (eapply pwp_mono; [first [by apply reinit_releases | by apply selecting_releases; auto | apply released_stays; auto]|by auto]).
  - rewrite (dhcp_run_S 2). cbn [place_step]. unfold bound_step, orelse, bound_signal. rewrite Hs.
    change (SIGNAL_RELEASE =? SIGNAL_RELEASE) with true. cbv iota. unfold xmit_release. pwp_run.
    apply io_pwp; [apply send_release_io|]. intros r tk tr. zcase.
    + pwp_run. cbn [negb Z.eqb]. unfold bound_error. pwp_run. by right.
    + pwp_run. eapply pwp_mono; [apply print_release_spec|]. intros [] w1 Hq. pwp_run. cbn [negb Z.eqb]. pwp_run.
      eapply pwp_mono; [by apply released_stays|]. by auto.
  - rewrite (dhcp_run_S 2). cbn [place_step]. pwp_run. eapply pwp_mono; [apply pwp_true|]. intros [] w1 _.
    unfold goto_reinit. pwp_run. eapply pwp_mono; [by apply reinit_releases|]. by auto.
Qed.
End Progress.

Lemma offer_is_taken_witness :
  let E := sample_env (ch "s"%char) 60 in
  pwp (dhcp_handle offer_event) (fun _ w' =>
    scrLine w' = SCR_REQUESTING /\ clientAddr (cs w') = of_le [192; 168; 0; 9] /\
    serverAddr (cs w') = of_le [192; 168; 0; 1] /\ srcAddr (cs w') = of_le [192; 168; 0; 1])
    selecting_world.
Proof.
  intros E.
  apply (offer_is_taken offer_event selecting_world (of_le [192; 168; 0; 1]));
    [reflexivity|vm_compute; discriminate|reflexivity|reflexivity|vm_compute; reflexivity].
Defined.

Lemma release_silences_witness :
  let E := sample_env (ch "u"%char) 60 in
  let ev := (quiet_event 1000000) <| sev_signal := SIGNAL_RELEASE |> in
  let w := selecting_world <| scrLine := SCR_BOUND |> in
  pwp (dhcp_handle ev) (fun r w' =>
    r = COR_SUCCESS /\ scrLine w' = SCR_RELEASED /\ quiet w' \/
    SCR_BOUND = SCR_BOUND /\ r = COR_ERROR /\ scrLine w' = SCR_BOUND /\
      cs w' = cs w /\ garp w' = garp w /\ cfg_packet w' = cfg_packet w) w /\
  wp (dhcp_handle ev) (fun r w' => r = COR_SUCCESS) (fun _ _ => False) w.
Proof.
  intros E ev w. split; [|vm_compute; reflexivity].
  apply (release_silences ev w); [reflexivity|discriminate].
Defined.

(** ** The timers of the lease *)

Section Timers.
Context `{!Env}.

(** The random wake-up time before [limit]. *)
Lemma set_retry_wake_range t limit w :
  t < limit ->
  pwp (set_retry_wake t limit)
    (fun _ w' => t < dhcp_wake_ts (cs w') <= Z.min limit (t + 69000)) w.
Proof.
  intros Hl. unfold set_retry_wake, nk_random_u32, set_dhcp_wake_ts. pwp_run. cbv zeta. rsimpl.
  match goal with |- context [?a mod 20] => pose proof (Z.mod_pos_bound a 20 eq_refl) end.
  zcase; lia.
Qed.

(** The end of the lease, without the overflow of [lease_end]. *)
Definition expiry (c : client_state_t) : Z := leaseStartTime c + lease c * 1000.
Definition wake_view (w : World) := dhcp_wake_ts (cs w).
Lemma start_dhcp_listen_wake : frames wake_view start_dhcp_listen.
Proof. unfold start_dhcp_listen, get_raw_listen_socket. frames_tac. Qed.

(** How a timeout of the lease at [t] ends: the lease is over, the next one is set, or
    sending failed and the timer is as it was. *)
Definition timeout_post (t : Z) (w : World) (r : Z) (w' : World) : Prop :=
  r = BTO_EXPIRED /\ lease_end (cs w) <= t \/
  r = BTO_WAIT /\ t < dhcp_wake_ts (cs w') <= expiry (cs w) \/
  r = BTO_HARDFAIL /\ dhcp_wake_ts (cs w') = dhcp_wake_ts (cs w).

(** Asking for more time before [limit]. *)
Lemma ask_again_wake (send : M Z) t limit w :
  io_only send -> t < limit <= expiry (cs w) ->
  pwp start_dhcp_listen (fun _ w1 => pwp (r ← send;
       if r <? 0 then mret BTO_HARDFAIL else set_retry_wake t limit;; mret BTO_WAIT) (timeout_post t w) w1) w.
Proof.
  intros Hs Hl. unfold timeout_post.
  eapply pwp_mono; [apply (frames_pwp_0 wake_view), start_dhcp_listen_wake|]. intros ? w1 H1. rewrite pwp_bind.
  apply io_pwp; [exact Hs|]. intros r tk tr. zcase; pwp_run; [by auto|].
  eapply pwp_mono; [apply set_retry_wake_range; lia|]. intros ? w3 Hw. cbv beta in Hw. pwp_run. right. left. split; [done|lia].
Qed.

Lemma rebinding_timeout_wake t w :
  lease_ok (cs w) -> pwp (rebinding_timeout t) (timeout_post t w) w.
Proof.
  intros Hok. pose proof (proj2 (lease_end_exact_iff (cs w) ltac:(destruct (lease_min _ Hok); lia))) as He.
  unfold rebinding_timeout. pwp_run. zcase; pwp_run.
  - eapply pwp_mono; [apply pwp_true|]. intros ? w1 _. pwp_run. by left.
  - apply ask_again_wake; [apply send_rebind_io|]. unfold expiry. lia.
Qed.
Lemma renewing_timeout_wake t w :
  lease_ok (cs w) -> pwp (renewing_timeout t) (timeout_post t w) w.
Proof.
  intros Hok. unfold renewing_timeout. pwp_run. zcase; [by apply rebinding_timeout_wake|].
  pwp_run. apply ask_again_wake; [apply send_renew_io|]. unfold expiry. destruct Hok as [H1 _ H3]. rewrite H3 in *. Z.div_mod_to_equations; lia.
Qed.

(** C18. The lease timer of a bound client never sleeps past the end of the lease, of
    whatever length: a call that stays in BOUND sets the next wake-up in the future and
    no later than the expiry, or what was due could not be sent, and then the call fails
    and the timer is as it was.  The client goes back to looking for a lease only once
    [lease_end] has passed; this is the expiry for leases of at most 4294967 seconds,
    and less for longer ones. *)
Theorem lease_timer_bounded (ev : event) (w : World) :
  lease_ok (cs w) -> dhcp_timeout ev = true ->
  pwp (bound_dhcp_timeout ev) (fun f w' =>
    match f with
    | Return r l =>
        l = SCR_BOUND /\
        (r = COR_SUCCESS /\ nowts ev < dhcp_wake_ts (cs w') <= expiry (cs w) \/
         r = COR_ERROR /\ dhcp_wake_ts (cs w') = dhcp_wake_ts (cs w))
    | Goto l _ => l = Reinit /\ lease_end (cs w) <= nowts ev /\
        (lease (cs w) <= 4294967 -> expiry (cs w) <= nowts ev)
    end) w.
Proof.
  intros Hok Hd. unfold bound_dhcp_timeout. rewrite Hd. pwp_run.
  eapply (pwp_mono _ (timeout_post (nowts ev) w)).
  { destruct (is_rebinding _ _); [by apply rebinding_timeout_wake|].
    destruct (is_renewing _ _); [by apply renewing_timeout_wake|].
    unfold bound_timeout, set_dhcp_wake_ts. pwp_run. zcase; [|by apply renewing_timeout_wake].
    pwp_run. right. left. split; [done|]. unfold expiry. destruct Hok as [H1 H2 _]. rsimpl.
    revert Hz. rewrite H2. intros Hz. Z.div_mod_to_equations; lia. }
  intros r w1 [[-> Hr] | [[-> Hr] | [-> Hr]]].
  - change (BTO_EXPIRED =? BTO_WAIT) with false. change (BTO_EXPIRED =? BTO_EXPIRED) with true. unfold goto_reinit. pwp_run.
    split_and!; [done|done|]. intros Hmax.
    pose proof (proj1 (lease_end_exact_iff (cs w) ltac:(destruct (lease_min _ Hok); lia))) as He.
    unfold expiry. rewrite <- (proj2 He Hmax). exact Hr.
  - change (BTO_WAIT =? BTO_WAIT) with true. pwp_run. split; [done|]. by left.
  - change (BTO_HARDFAIL =? BTO_WAIT) with false. change (BTO_HARDFAIL =? BTO_EXPIRED) with false.
    change (BTO_HARDFAIL =? BTO_HARDFAIL) with true. pwp_run. split; [done|]. by right.
Qed.

(** C16. A lease is taken with exactly the address of the probed packet, only once
    two seconds have passed since the check began or the configured number of
    probes was sent, and only when ndhc-ifch has accepted the configuration of the
    interface with that address. *)
Theorem lease_taken_after_probing (t : Z) (w : World) :
  pwp (arp_collision_timeout t) (fun r w' =>
    r = ARPR_FREE ->
    (arp_check_start_ts (garp w) + ANNOUNCE_WAIT <= t \/
     arp_probe_num w <= count (send_stats (garp w) ASEND_COLLISION_CHECK)) /\
    clientAddr (cs w') = yiaddr (dhcp_packet (garp w)) /\
    configured w' (clientAddr (cs w'))) w.
Proof.
  pose proof (arp_collision_timeout_spec t w) as Hs.
  assert (Hg : pwp (arp_collision_timeout t) (fun r _ => r = ARPR_FREE ->
    arp_check_start_ts (garp w) + ANNOUNCE_WAIT <= t \/
    arp_probe_num w <= count (send_stats (garp w) ASEND_COLLISION_CHECK)) w).
  { destruct ((arp_check_start_ts (garp w) + ANNOUNCE_WAIT <=? t) ||
              (arp_probe_num w <=? count (send_stats (garp w) ASEND_COLLISION_CHECK))) eqn:Ec.
    { eapply pwp_mono; [apply pwp_true|]. intros r w' _ _. apply orb_prop in Ec. lia. }
    unfold arp_collision_timeout. pwp_run. cbv zeta. rewrite Ec.
    zcase; unfold set_wake_ts; pwp_run; [discriminate|].
    eapply pwp_mono; [apply pwp_true|]. intros r w1 _. zcase; pwp_run; [discriminate|].
    eapply pwp_mono; [apply pwp_true|]. intros wait w2 _. unfold get_send_stats. pwp_run. discriminate. }
  unfold pwp, wp in *. destruct (arp_collision_timeout t w) as [[r|h] w']; [|done].
  intros ->. cbn in Hs. destruct Hs as (H1 & H2 & _). split; [by apply Hg|]. split; [done|]. by rewrite H1.
Qed.
End Timers.

(** A lease of an hour, half an hour after its start. *)
Lemma lease_timer_bounded_witness :
  let E := sample_env (ch "u"%char) 400 in
  let c := initial_cs <| lease := 3600 |> <| renewTime := 1800 |> <| rebindTime := 3150 |>
             <| listenFd := 6 |> <| clientAddr := of_le [192; 168; 0; 9] |>
             <| serverAddr := of_le [192; 168; 0; 1] |> in
  let w := sample_world <| cs := c |> in
  let ev := (quiet_event 1800000) <| dhcp_timeout := true |> in
  pwp (bound_dhcp_timeout ev) (fun f w' =>
    match f with
    | Return r l => l = SCR_BOUND /\
        (r = COR_SUCCESS /\ 1800000 < dhcp_wake_ts (cs w') <= expiry c \/
         r = COR_ERROR /\ dhcp_wake_ts (cs w') = dhcp_wake_ts c)
    | Goto l _ => l = Reinit /\ lease_end c <= 1800000 /\ (lease c <= 4294967 -> expiry c <= 1800000)
    end) w /\
  wp (bound_dhcp_timeout ev) (fun f w' =>
    match f with Return r l => r = COR_SUCCESS | Goto _ _ => False end) (fun _ _ => False) w.
Proof.
  intros E c w ev. split; [|vm_compute; reflexivity].
  apply (lease_timer_bounded ev w); [constructor; vm_compute; done|reflexivity].
Defined.

(** The wait is over and the interface accepts 192.168.0.9. *)
Lemma lease_taken_after_probing_witness :
  let E := sample_env (ch "u"%char) 60 in
  let p := sample_message DHCPACK [1; 4; 255; 255; 255; 0; 3; 4; 192; 168; 0; 1] in
  let w := sample_world <| garp := initial_garp <| dhcp_packet := p |> <| arp_check_start_ts := 998000 |> |> in
  pwp (arp_collision_timeout 1000000) (fun r w' =>
    r = ARPR_FREE ->
    (998000 + ANNOUNCE_WAIT <= 1000000 \/ 3 <= 0) /\
    clientAddr (cs w') = of_le [192; 168; 0; 9] /\ configured w' (clientAddr (cs w'))) w /\
  wp (arp_collision_timeout 1000000) (fun r w' =>
    r = ARPR_FREE /\ routerAddr (cs w') = of_le [192; 168; 0; 1] /\
    trace w' = [AIfch (chars "ip4:192.168.0.9,255.255.255.0;routr:192.168.0.1;")]) (fun _ _ => False) w.
Proof.
  intros E p w. split; [apply (lease_taken_after_probing 1000000 w)|].
  vm_compute. split_and!; reflexivity.
Defined.
