(* ===== verification/Handshake.v ===== *)
(** The whole exchange: from an offer to an address in use.

    Protocol says which transitions a call of [dhcp_handle] may take.  Here the
    outside is friendly (the clock runs, sends succeed, ndhc-ifch performs what it is
    asked, the sockets asked for are granted), and the four calls that take a
    server's offer, ask for it, probe the address and take the lease are followed to
    their end; between two calls any outside calls may pass. *)

From S2P Require Import Prelude Types Options World Samples Ipc Ifchange Leasefile Dhcp Arp.
From S2P Require Import State Nl Netlink Ndhc Protocol.
Import Codec.

Section Handshake.
Context `{!Env}.

(** * A friendly outside *)

Record friendly : Prop := {
  fr_clock : forall t, is_Some (env_clock t);
  fr_ifch : forall t, env_ifch t = IfchData [ch "+"%char];
  fr_send : forall t, 0 <= env_send t;
  fr_connect : forall t, env_connect t = true;
  fr_epoll : forall t, env_epoll_ctl t = true
}.
(** ndhc-sockd answers the call number [t], the request [req], with a socket. *)
Definition granted (t : nat) (req : list Z) : Prop :=
  exists c fd, env_sockd t = SockdFd c fd /\ 0 <= fd /\ c ∈ req.

(** The time at the call number [t]. *)
Definition clock_ms (t : nat) : Z :=
  match env_clock t with Some (sec, nsec) => sec * 1000 + nsec / 1000000 | None => 0 end.

(** The action [a] happened on the way from [w] to [w']. *)
Definition said (a : action) (w w' : World) : Prop := exists tr, trace w' = tr ++ trace w /\ a ∈ tr.

(** What [m] does when nothing goes wrong. *)
Definition does {A} (m : M A) (Q : A -> World -> Prop) (w : World) : Prop := wp m Q (fun _ _ => False) w.
#[global] Strategy expand [does].

Context (Hf : friendly).

Lemma does_curms (Q : Z -> World -> Prop) w : Q (clock_ms (tick w)) (w <| tick ::= S |>) -> does curms Q w.
Proof.
  intros HQ. unfold does, curms, clock_ms in *. wp_run. destruct (fr_clock Hf (tick w)) as [[s n] Hc].
  rewrite Hc in *. by wp_run.
Qed.
Lemma does_ifchwrite text (Q : Z -> World -> Prop) w :
  Q 0 (w <| trace ::= cons (AIfch text) |> <| tick ::= S |>) -> does (ifchwrite text) Q w.
Proof.
  intros HQ. unfold does, ifchwrite. wp_run. rewrite (fr_ifch Hf). by wp_run.
Qed.
Lemma does_carrier (Q : bool -> World -> Prop) w :
  Q true (w <| trace ::= cons (AIfch (chars "carrier:;")) |> <| tick ::= S |>) -> does carrier_isup Q w.
Proof.
  intros HQ. unfold does, carrier_isup. wp_run. apply does_ifchwrite. by wp_run.
Qed.
Lemma does_epoll_add fd (Q : unit -> World -> Prop) w :
  Q tt (w <| trace ::= cons (AEpollAdd fd) |> <| tick ::= S |>) -> does (epoll_add fd) Q w.
Proof. intros HQ. unfold does, epoll_add. wp_run. rewrite (fr_epoll Hf). by wp_run. Qed.
Lemma does_epoll_del fd (Q : unit -> World -> Prop) w :
  Q tt (w <| trace ::= cons (AEpollDel fd) |> <| tick ::= S |>) -> does (epoll_del fd) Q w.
Proof. intros HQ. unfold does, epoll_del. wp_run. rewrite (fr_epoll Hf). by wp_run. Qed.

Lemma does_request_sockd_fd b bs c resp fd (Q : Z * Z -> World -> Prop) w :
  env_sockd (tick w) = SockdFd c fd -> resp = true \/ c = b ->
  Q (fd, c) (w <| trace ::= cons (ASockd (b :: bs)) |> <| tick ::= S |>) -> does (request_sockd_fd (b :: bs) resp) Q w.
Proof.
  intros Hs Hc HQ. unfold does, request_sockd_fd. wp_run. rsimpl. rewrite Hs.
  destruct Hc as [-> | ->]; [|rewrite Z.eqb_refl, andb_false_r]; by wp_run.
Qed.

(** * Sending *)

(** A message asked for is sent. *)
Definition broadcast (p : dhcpmsg) (w w' : World) : Prop :=
  exists fd e frame, get_end_option_idx p = Some e /\ raw_frame p (e + 1) = Some frame /\ said (ARaw fd frame) w w'.

Lemma does_send_dhcp_raw p (Q : Z -> World -> Prop) w :
  sendable p -> granted (tick w) [ch "s"%char] ->
  (forall r w', 0 <= r -> io_rel w w' -> broadcast p w w' -> Q r w') -> does (send_dhcp_raw p) Q w.
Proof.
  intros Hs (c & fd & Hg & Hfd & Hc%list_elem_of_singleton) HQ. subst c.
  unfold does, send_dhcp_raw, get_raw_broadcast_socket. wp_run. apply (does_request_sockd_fd _ [] (ch "s"%char) false fd); [done|by right|].
  wp_run. cbn [fst]. replace (fd <? 0) with false by lia.
  destruct (sendable_end p Hs) as (e & He & Hr). rewrite He. wp_run. replace (e <? 0) with false by lia.
  cbv zeta. replace (sizeof_options <? e + 1) with false by lia.
  destruct (raw_frame_spec p (e + 1)) as (ip & udp & Hframe & _); [apply Hs|lia|]. rewrite Hframe. wp_run.
  apply does_carrier. cbn [negb]. wp_run. unfold close. wp_run. apply HQ; [apply (fr_send Hf)|..].
  - eexists _, [AClose fd; ARaw fd _; AIfch _; ASockd _]. reflexivity.
  - exists fd, e, (ip ++ udp ++ take (Z.to_nat (offsetof_options + (e + 1))) (dhcpmsg_bytes p)). split_and!; [done..|].
    eexists [AClose fd; ARaw fd _; AIfch _; ASockd _]. split; [reflexivity|]. do 2 constructor.
Qed.

(** * The stages *)

(** The configuration of the interface as it was, and the request that changes it. *)
Context (cfg : dhcpmsg).

(** What no stage changes before the lease is taken. *)
Record ready (w : World) : Prop := {
  rd_listen : 0 <= listenFd (cs w);
  rd_config : config_ok (client_config w);
  rd_stays : quit_after_lease (client_config w) = false;
  rd_cfg : cfg_packet w = cfg;
  rd_silent : sent_first_announce (cs w) = false
}.
Definition seeking (w : World) : Prop := ready w /\ scrLine w = SCR_SELECTING /\ arpFd (cs w) < 0.
(** An offer of the address [a] by the server [s] was taken, and [n] requests were sent. *)
Definition asking (a s n : Z) (w : World) : Prop :=
  ready w /\ scrLine w = SCR_REQUESTING /\ arpFd (cs w) < 0 /\
  clientAddr (cs w) = a /\ serverAddr (cs w) = s /\ num_dhcp_requests (cs w) = n.
(** The address of [ack] is probed, for a lease of [l] seconds. *)
Definition probing (ack : dhcpmsg) (s l : Z) (w : World) : Prop :=
  ready w /\ scrLine w = SCR_COLLISION /\ 0 <= arpFd (cs w) /\ arp_is_defense (cs w) = false /\
  clientAddr (cs w) = yiaddr ack /\ serverAddr (cs w) = s /\ lease (cs w) = l /\
  dhcp_packet (garp w) = ack.

(** Time passes between two calls: other outside calls are made. *)
Lemma elapsed_fields w w' :
  io_rel w w' -> cs w' = cs w /\ client_config w' = client_config w /\ garp w' = garp w /\
  cfg_packet w' = cfg_packet w /\ scrLine w' = scrLine w.
Proof. by intros (t & tr & ->). Qed.
Lemma ready_elapsed w w' : io_rel w w' -> ready w -> ready w'.
Proof. intros (E1 & E2 & E3 & E4 & E5)%elapsed_fields []. by split; rewrite ?E1, ?E2, ?E4. Qed.
Lemma seeking_elapsed w w' : io_rel w w' -> seeking w -> seeking w'.
Proof.
  intros Hio (H1 & H2 & H3). split; [by eapply ready_elapsed|].
  apply elapsed_fields in Hio as (E1 & E2 & E3 & E4 & E5). by rewrite E1, E5.
Qed.
Lemma asking_elapsed a s n w w' : io_rel w w' -> asking a s n w -> asking a s n w'.
Proof.
  intros Hio (H1 & H2 & H3). split; [by eapply ready_elapsed|].
  apply elapsed_fields in Hio as (E1 & E2 & E3 & E4 & E5). by rewrite E1, E5.
Qed.
Lemma probing_elapsed ack s l w w' : io_rel w w' -> probing ack s l w -> probing ack s l w'.
Proof.
  intros Hio (H1 & H2 & H3). split; [by eapply ready_elapsed|].
  apply elapsed_fields in Hio as (E1 & E2 & E3 & E4 & E5). by rewrite E1, E3, E5.
Qed.

(** ** Taking an offer *)

Definition offered (ev : event) (s : Z) : Prop :=
  sev_dhcp ev = true /\ dhcp_msgtype ev = DHCPOFFER /\ server_of (ev_packet ev) s /\
  dhcp_timeout ev = false /\ sev_signal ev <> SIGNAL_RELEASE.

Lemma packet_serverid_run p s w : server_of p s -> packet_serverid p w = (Ret (Some s), w).
Proof. intros Hs. unfold packet_serverid. by rewrite Hs. Qed.
Lemma does_packet_serverid p s (Q : option Z -> World -> Prop) w :
  server_of p s -> Q (Some s) w -> does (packet_serverid p) Q w.
Proof. intros Hs HQ. unfold does, wp. by rewrite (packet_serverid_run p s w Hs). Qed.

Lemma offer_taken ev s w :
  seeking w -> offered ev s ->
  does (dhcp_handle ev) (fun r w' => r = COR_SUCCESS /\ asking (yiaddr (ev_packet ev)) s 0 w') w.
Proof.
  intros (Hr & Hl & Ha) (Hd & Hm & Hs & Ht & Hsig%Z.eqb_neq). unfold does, dhcp_handle. wp_run. rewrite Hl.
  cbn [resume dhcp_run place_step]. unfold selecting_step, orelse. rewrite Hsig, Hd, Ht, Hm. wp_run.
  unfold selecting_packet. change (negb false && (DHCPOFFER =? DHCPOFFER)) with true. cbv iota. wp_run.
  apply (does_packet_serverid _ s); [done|]. wp_run. apply does_curms. wp_run.
  change (ANP_SUCCESS =? ANP_SUCCESS) with true. cbv iota. wp_run.
  cbn [dhcp_run place_step]. unfold requesting_step, orelse, requesting_retry. rsimpl. rewrite Hsig, Ht. wp_run.
  unfold next. wp_run. split; [done|]. destruct Hr. split; [by split|]. by split_and!.
Qed.

(** ** Asking for it *)

Definition timer_fired (ev : event) : Prop :=
  sev_dhcp ev = false /\ dhcp_timeout ev = true /\ sev_signal ev <> SIGNAL_RELEASE.

Lemma request_sent ev a s n w :
  asking a s n w -> n < 5 -> timer_fired ev -> granted (tick w) [ch "s"%char] ->
  does (dhcp_handle ev) (fun r w' => r = COR_SUCCESS /\ asking a s (u32 (n + 1)) w' /\
    exists p, selecting_request (client_config w) (cs w) = Some p /\ broadcast p w w') w.
Proof.
  intros (Hr & Hl & Ha & Hc & Hsv & Hn) Hn5 (Hd & Ht & Hsig%Z.eqb_neq) Hg. unfold does, dhcp_handle. wp_run. rewrite Hl.
  cbn [resume dhcp_run place_step]. unfold requesting_step, orelse, requesting_retry. rewrite Hsig, Hd, Ht.
  unfold next. wp_run. unfold requesting_timeout. wp_run. rewrite Hn. replace (5 <=? n) with false by lia.
  unfold send_selecting, build. wp_run. cbn [fst snd].
  assert (exists p, selecting_request (client_config w) (cs w) = Some p /\ sendable p) as (p & Hp & Hs)
    by (eapply builds_sendable; [by apply Hr|by apply selecting_builds, Hr]). rewrite Hp. wp_run.
  apply does_send_dhcp_raw; [done|done|]. intros r w1 Hr0 Hio Hb. 
  replace (r <? 0) with false by lia. unfold delay_timeout. wp_run.
  destruct (delay_base_range n) as (d & -> & _). wp_run. unfold nk_random_u32, set_dhcp_wake_ts, count_dhcp_request. wp_run.
  change (REQ_SUCCESS =? REQ_SUCCESS) with true. cbv iota. wp_run.
  split; [done|]. apply elapsed_fields in Hio as (E1 & E2 & E3 & E4 & E5). split; [|exists p; split; [done|]].
  - unfold asking. rsimpl. rewrite E1. split_and!; [|done..|by rewrite Hn]. destruct Hr. by split; rsimpl; rewrite ?E1, ?E2, ?E4.
  - destruct Hb as (fd & e & fr & H1 & H2 & tr & H3 & H4). exists fd, e, fr. split_and!; [done..|]. by exists tr.
Qed.

(** ** Probing the address *)

Definition acknowledged (ev : event) (a s : Z) : Prop :=
  sev_dhcp ev = true /\ dhcp_msgtype ev = DHCPACK /\ yiaddr (ev_packet ev) = a /\ server_of (ev_packet ev) s /\
  opt_bufs_ok (ev_packet ev) /\ sev_signal ev <> SIGNAL_RELEASE.

(** The probe for the address of [ack]. *)
Definition probe (w : World) (ack : dhcpmsg) : arpMsg :=
  (BASE_ARPMSG (arp (client_config w))) <| dip4 := le32 (yiaddr ack) |>.

Lemma does_arp_send msg (Q : Z -> World -> Prop) w :
  0 <= arpFd (cs w) ->
  (forall r, 0 <= r -> Q r (w <| trace := AArp (arpFd (cs w)) msg :: AIfch (chars "carrier:;") :: trace w |> <| tick := S (S (tick w)) |>)) ->
  does (arp_send msg) Q w.
Proof.
  intros Ha HQ. unfold does, arp_send. wp_run. replace (_ <? 0) with false by lia. wp_run. apply does_carrier.
  cbn [negb]. wp_run. rsimpl. pose proof (fr_send Hf (S (tick w))) as H0.
  destruct (_ || _); wp_run; apply HQ; lia.
Qed.

(** Sending messages and keeping count of them changes nothing of the lease. *)
Definition same_lease (w w' : World) : Prop :=
  cs w' = cs w /\ client_config w' = client_config w /\ cfg_packet w' = cfg_packet w /\
  dhcp_packet (garp w') = dhcp_packet (garp w).

Lemma does_arp_ip_anon_ping a (Q : Z -> World -> Prop) w :
  0 <= arpFd (cs w) ->
  (forall w', same_lease w w' ->
     trace w' = AArp (arpFd (cs w)) ((BASE_ARPMSG (arp (client_config w))) <| dip4 := le32 a |>)
                :: AIfch (chars "carrier:;") :: trace w -> Q 0 w') ->
  does (arp_ip_anon_ping a) Q w.
Proof.
  intros Ha HQ. unfold does, arp_ip_anon_ping, base_arpmsg. wp_run. apply does_arp_send; [done|]. intros r Hr.
  replace (r <? 0) with false by lia. unfold count_send. wp_run. apply does_curms. wp_run.
  by apply HQ.
Qed.

Lemma does_arp_check p (Q : Z -> World -> Prop) w :
  arpFd (cs w) < 0 -> granted (tick w) [ch "A"%char; ch "a"%char] ->
  (forall fd w', 0 <= fd -> cs w' = ((cs w) <| arpFd := fd |> <| arp_is_defense := false |>) ->
     client_config w' = client_config w -> cfg_packet w' = cfg_packet w -> dhcp_packet (garp w') = p ->
     (exists tr, trace w' = tr ++ trace w /\ AArp fd (probe w p) ∈ tr) -> Q 0 w') ->
  does (arp_check p) Q w.
Proof.
  intros Ha (c & fd & Hg & Hfd & Hcin) HQ. unfold does, arp_check. wp_run. unfold arp_open_fd. wp_run. rsimpl.
  replace (0 <=? arpFd (cs w)) with false by lia. cbn [andb]. wp_run. unfold arp_min_close_fd. wp_run. rsimpl.
  replace (arpFd (cs w) <? 0) with true by lia. wp_run. unfold get_arp_basic_socket. wp_run.
  apply (does_request_sockd_fd _ [] c true fd); [done|by left|]. wp_run.
  apply (wp_mono _ (fun _ w1 => exists g, dhcp_packet g = p /\ 
    w1 = w <| trace ::= cons (ASockd (chars "a")) |> <| tick ::= S |> <| garp := g |>) _ (fun _ _ => False)); [| |done].
  { rewrite !elem_of_cons, elem_of_nil in Hcin.
    destruct Hcin as [-> | [-> | []]]; wp_run; (eexists; split; [|reflexivity]; reflexivity). }
  intros _ w1 (g & Hgp & ->). wp_run. rsimpl. replace (fd <? 0) with false by lia. wp_run. apply does_epoll_add. wp_run.
  change (0 <? 0) with false. cbv iota. wp_run. apply does_arp_ip_anon_ping; [done|]. intros w2 (H1 & H2 & H3 & H4) Htr.
  change (0 <? 0) with false. cbv iota. wp_run. unfold get_send_stats, set_wake_ts. wp_run.
  apply (HQ fd); [exact Hfd|exact H1|exact H2|exact H3|exact (eq_trans H4 Hgp)|].
  eexists [_; _; _; _]. split; [exact Htr|]. constructor.
Qed.

(** A message of the DHCP server may move the lease to another server and renews it. *)
Definition leased (s l : Z) (w w' : World) : Prop :=
  (exists x now rnt rbt wake, cs w' = ((cs w) <| serverAddr := s |> <| srcAddr := x |> <| lease := l |>
     <| leaseStartTime := now |> <| renewTime := rnt |> <| rebindTime := rbt |> <| dhcp_wake_ts := wake |>)) /\
  client_config w' = client_config w /\ cfg_packet w' = cfg_packet w /\ trace w' = trace w /\ tick w' = S (tick w).

Lemma does_selecting_packet_ack p a s x (Q : Z -> World -> Prop) w :
  clientAddr (cs w) = a -> yiaddr p = a -> server_of p s -> opt_bufs_ok p ->
  (forall l w', get_option_leasetime p = Some l -> leased s (effective_lease l) w w' -> Q ANP_CHECK_IP w') ->
  does (selecting_packet p DHCPACK x true) Q w.
Proof.
  intros Hc Hy Hs Hok HQ. unfold does, selecting_packet.
  change (negb true && (DHCPACK =? DHCPOFFER)) with false. change (true && (DHCPACK =? DHCPACK)) with true. cbv iota.
  wp_run. rewrite Hc, Hy, Z.eqb_refl. wp_run. apply (does_packet_serverid _ s); [done|]. wp_run.
  destruct (get_option_leasetime_total p Hok) as [l Hl].
  assert (Hlease : forall y w1, w1 = w <| cs ::= fun c => c <| serverAddr := s |> <| srcAddr := y |> |> ->
    wp (get_leasetime p;; mret ANP_CHECK_IP) Q (fun _ _ => False) w1).
  { intros y w1 E. unfold get_leasetime. rewrite Hl. wp_run. apply does_curms. wp_run. apply (HQ l); [done|]. subst w1.
    split; [|done]. eexists y, _, _, _, _. reflexivity. }
  destruct (serverAddr (cs w) =? s) eqn:E; wp_run.
  - rewrite <- wp_bind. apply (Hlease (srcAddr (cs w))). apply Z.eqb_eq in E. destruct w as [[]]; cbn in *; by subst.
  - rewrite <- wp_bind. by apply (Hlease x).
Qed.

Lemma ack_probed ev a s0 n s w :
  asking a s0 n w -> acknowledged ev a s -> granted (S (tick w)) [ch "A"%char; ch "a"%char] ->
  does (dhcp_handle ev) (fun r w' => r = COR_SUCCESS /\
    exists l, get_option_leasetime (ev_packet ev) = Some l /\ probing (ev_packet ev) s (effective_lease l) w' /\
      said (AArp (arpFd (cs w')) (probe w (ev_packet ev))) w w') w.
Proof.
  intros (Hr & Hl & Ha & Hc & Hsv & Hn) (Hd & Hm & Hy & Hs & Hok & Hsig%Z.eqb_neq) (c & fd & Hg & Hfd & Hcin).
  unfold does, dhcp_handle. wp_run. rewrite Hl. cbn [resume dhcp_run place_step].
  unfold requesting_step, orelse. rewrite Hsig, Hd, Hm. wp_run.
  apply (does_selecting_packet_ack _ a s); [done..|]. intros l w1 Hlt ((x & now & rnt & rbt & wake & Ecs) & Ecc & Ecfg & Etr & Et).
  change (ANP_CHECK_IP =? ANP_IGNORE) with false. change (ANP_CHECK_IP =? ANP_CHECK_IP) with true. cbv iota. wp_run.
  apply does_arp_check; [by rewrite Ecs|rewrite Et; by exists c, fd|].
  intros fd' w2 Hfd' Ecs' Ecc' Ecfg' Edp (tr & Etr' & Hin). change (0 <? 0) with false. cbv iota. wp_run.
  rewrite Ecs in Ecs'. rewrite Ecc in Ecc'. rewrite Ecfg in Ecfg'. rewrite Etr in Etr'.
  split; [done|]. exists l. split; [done|]. split.
  - destruct Hr as [G1 G2 G3 G4 G5]. unfold probing. rsimpl. rewrite Ecs'. rsimpl.
    split_and!; [|done|done|done|congruence|done|done|done]. split; rsimpl; [by rewrite Ecs'|by rewrite Ecc'..|by rewrite Ecfg'|by rewrite Ecs'].
  - exists tr. rsimpl. rewrite Ecs'. split; [exact Etr'|]. unfold probe in Hin. by rewrite Ecc in Hin.
Qed.

(** ** Taking the lease *)

(** Messages are sent and timers set: the lease, the sockets and the configuration stay. *)
Definition onward (w w' : World) : Prop :=
  dhcp_view w' = dhcp_view w /\ arpFd (cs w') = arpFd (cs w) /\ client_config w' = client_config w /\
  sent_first_announce (cs w') = sent_first_announce (cs w) /\ exists tr, trace w' = tr ++ trace w.
#[local] Instance onward_preorder : PreOrder onward.
Proof.
  split.
  - intros w. split_and!; [done..|]. by exists [].
  - intros a b c (H1 & H2 & H3 & Hs & tr & H4) (G1 & G2 & G3 & Gs & tr' & G4). split_and!; [congruence..|].
    exists (tr' ++ tr). by rewrite G4, H4, app_assoc.
Qed.

Lemma does_mono {A} (m : M A) (Q Q' : A -> World -> Prop) w : does m Q w -> (forall a w', Q a w' -> Q' a w') -> does m Q' w.
Proof. intros Hm HQ. by eapply wp_mono; [exact Hm|exact HQ|]. Qed.

Lemma does_count_send k w : does (count_send k) (fun _ w' => same_lease w w' /\ trace w' = trace w) w.
Proof. unfold does, count_send. wp_run. apply does_curms. by wp_run. Qed.

Lemma does_arp_ping a w : 0 <= arpFd (cs w) -> does (arp_ping a) (fun r w' => r = 0 /\ onward w w') w.
Proof.
  intros Ha. unfold does, arp_ping, base_arpmsg. wp_run. apply does_arp_send; [done|]. intros r Hr.
  replace (r <? 0) with false by lia. wp_run. eapply does_mono; [apply does_count_send|].
  intros _ w' [(H1 & H2 & H3 & H4) H5]. wp_run. split; [done|]. unfold onward, dhcp_view. rewrite H1, H2, H3, H4, H5. 
  split_and!; [done..|]. by exists [AArp (arpFd (cs w)) (((BASE_ARPMSG (arp (client_config w))) <| sip4 := le32 (clientAddr (cs w)) |>) <| dip4 := le32 a |>); AIfch (chars "carrier:;")].
Qed.

(** The announcement of the address in use. *)
Definition announcement (w : World) : arpMsg :=
  ((BASE_ARPMSG (arp (client_config w))) <| sip4 := le32 (clientAddr (cs w)) |>) <| dip4 := le32 (clientAddr (cs w)) |>.
Lemma does_arp_announcement w : 0 <= arpFd (cs w) ->
  does arp_announcement (fun r w' => r = 0 /\ onward w w' /\ said (AArp (arpFd (cs w)) (announcement w)) w w') w.
Proof.
  intros Ha. unfold does, arp_announcement, base_arpmsg. wp_run. apply does_arp_send; [done|]. intros r Hr.
  replace (r <? 0) with false by lia. wp_run. eapply does_mono; [apply does_count_send|].
  intros _ w' [(H1 & H2 & H3 & H4) H5]. wp_run. split; [done|].
  assert (Htr : trace w' = [AArp (arpFd (cs w)) (announcement w); AIfch (chars "carrier:;")] ++ trace w) by exact H5.
  split; [|eexists; split; [exact Htr|constructor]]. unfold onward, dhcp_view. rewrite H1, H2, H3, H4. split_and!; [done..|eauto].
Qed.

(** A call of the kind of [arp_ping], and the rest. *)
Lemma onward_then {A B} (m : M A) (f : A -> M B) (P : A -> Prop) (Q : B -> World -> Prop) w :
  does m (fun a w1 => P a /\ onward w w1) w ->
  (forall a w1, P a -> onward w w1 -> does (f a) Q w1) -> does (m ≫= f) Q w.
Proof. intros Hm Hf'. unfold does. rewrite wp_bind. eapply does_mono; [exact Hm|]. intros a w1 [H1 H2]. by apply Hf'. Qed.

(** Flags and timers are no part of the lease. *)
Lemma onward_flags w w' :
  dhcp_view w' = dhcp_view w -> arpFd (cs w') = arpFd (cs w) -> client_config w' = client_config w ->
  sent_first_announce (cs w') = sent_first_announce (cs w) -> trace w' = trace w -> onward w w'.
Proof. intros. split_and!; [done..|]. by exists []. Qed.
Lemma onward_arpFd w w' : onward w w' -> arpFd (cs w') = arpFd (cs w).
Proof. by intros (_ & Ha & _). Qed.

Lemma does_arp_get_gw_hwaddr w :
  0 <= arpFd (cs w) -> arp_is_defense (cs w) = false -> does arp_get_gw_hwaddr (fun r w' => r = 0 /\ onward w w') w.
Proof.
  intros Ha Hd. unfold does, arp_get_gw_hwaddr, arp_open_fd. wp_run. rewrite Hd.
  replace (0 <=? arpFd (cs w)) with true by lia. cbn [andb Bool.eqb]. wp_run. change (0 <? 0) with false. cbv iota.
  wp_run. 
  match goal with |- wp _ _ _ ?x => set (w1 := x); assert (H1 : onward w w1) by by apply onward_flags end.
  clearbody w1. eapply wp_mono; [apply does_arp_ping; by rewrite (onward_arpFd _ _ H1)| |done].
  intros r w2 [-> H2]. pose proof (transitivity H1 H2) as H3. clear H1 H2. change (0 <? 0) with false. cbv iota. wp_run.
  destruct (negb _); wp_run.
  - match goal with |- wp _ _ _ ?x => set (w3 := x); assert (H4 : onward w w3) by (etrans; [exact H3|by apply onward_flags]) end.
    clearbody w3. eapply wp_mono; [apply does_arp_ping; by rewrite (onward_arpFd _ _ H4)| |done].
    intros r w4 [-> H5]. pose proof (transitivity H4 H5) as H6. change (0 <? 0) with false. cbv iota.
    unfold wake_after_ping, get_send_stats, set_wake_ts. wp_run. split; [done|]. etrans; [exact H6|by apply onward_flags].
  - unfold wake_after_ping, get_send_stats, set_wake_ts. wp_run. split; [done|]. etrans; [exact H3|by apply onward_flags].
Qed.

Lemma does_arp_query_gateway w :
  0 <= arpFd (cs w) -> arp_is_defense (cs w) = false -> does arp_query_gateway (fun _ w' => onward w w') w.
Proof.
  intros Ha Hd. unfold does, arp_query_gateway. wp_run.
  destruct (sent_gw_query (cs w)); unfold set_wake_ts; wp_run; [by apply onward_flags|].
  eapply wp_mono; [by apply does_arp_get_gw_hwaddr| |done]. intros r w1 [-> H1].
  change (0 <? 0) with false. cbv iota. wp_run. etrans; [exact H1|by apply onward_flags].
Qed.

Lemma said_onward a w w1 w2 : said a w w1 -> onward w1 w2 -> said a w w2.
Proof.
  intros (tr & H1 & H2) (_ & _ & _ & _ & tr' & H3). exists (tr' ++ tr). rewrite H3, H1, app_assoc.
  split; [done|]. apply elem_of_app. by right.
Qed.

Lemma does_arp_announce w :
  0 <= arpFd (cs w) -> sent_first_announce (cs w) = false ->
  does arp_announce (fun _ w' => dhcp_view w' = dhcp_view w /\ said (AArp (arpFd (cs w)) (announcement w)) w w') w.
Proof.
  intros Ha Hs. unfold does, arp_announce. wp_run. rewrite Hs. cbn [andb]. wp_run.
  eapply wp_mono; [by apply does_arp_announcement| |done]. intros r w1 (-> & (H1 & _) & H2).
  change (0 <? 0) with false. cbv iota. wp_run.
  unfold set_wake_ts. destruct (negb (sent_first_announce _)); [|destruct (negb (sent_second_announce _))]; wp_run;
    (destruct (_ || _); wp_run; [apply does_curms; wp_run|]); (split; [exact H1|exact H2]).
Qed.

(** The gateway is asked for its hardware address, the neighbours are told. *)
Lemma does_greet {A} (f : Z -> M A) (Q : A -> World -> Prop) w :
  0 <= arpFd (cs w) -> arp_is_defense (cs w) = false -> sent_first_announce (cs w) = false ->
  (forall r w', dhcp_view w' = dhcp_view w -> said (AArp (arpFd (cs w)) (announcement w)) w w' -> does (f r) Q w') ->
  does (_ ← arp_query_gateway; r ← arp_announce; f r) Q w.
Proof.
  intros Ha Hd Hs HQ. unfold does. rewrite wp_bind. eapply wp_mono; [by apply does_arp_query_gateway| |done].
  intros r1 w1 H1. cbv beta in H1. pose proof (onward_arpFd _ _ H1) as Ha1. destruct H1 as (Hv & _ & Hcc & Hs1 & tr1 & Htr1).
  pose proof (dhcp_view_fields _ _ Hv) as (Hc & _). rewrite wp_bind.
  eapply wp_mono; [apply does_arp_announce; congruence| |done]. intros r w2 [Hv2 (tr2 & Htr2 & Hin)].
  apply HQ; [congruence|]. exists (tr2 ++ tr1). rewrite Htr2, Htr1, app_assoc. split; [done|].
  unfold announcement in *. rewrite Ha1, Hcc, Hc in Hin. apply elem_of_app. by left.
Qed.

(** ndhc-ifch configures the interface when something changes. *)
Lemma does_ifchange_bind p text (Q : Z -> World -> Prop) w :
  bind_command (cfg_packet w) p = Some text -> text <> [] ->
  (forall w', cs w' = (cs w) <| ifDeconfig := 0 |> -> cfg_packet w' = p -> client_config w' = client_config w ->
     garp w' = garp w -> trace w' = AIfch text :: trace w -> Q 0 w') ->
  does (ifchange_bind p) Q w.
Proof.
  intros Hb Ht HQ. unfold does, ifchange_bind. wp_run. rewrite Hb. wp_run.
  replace (zlen text =? 0) with false by (destruct text; [done|zlen_lia]). wp_run. apply does_ifchwrite.
  change (0 <=? 0) with true. cbv iota. wp_run. by apply HQ.
Qed.

Lemma does_stop_dhcp_listen (Q : unit -> World -> Prop) w :
  0 <= listenFd (cs w) ->
  (forall w', io_rel (w <| cs ::= (fun c => c <| listenFd := -1 |>) |>) w' -> Q tt w') -> does stop_dhcp_listen Q w.
Proof.
  intros Hl HQ. unfold does, stop_dhcp_listen. wp_run. replace (_ <? 0) with false by lia. wp_run.
  apply does_epoll_del. unfold close. wp_run. apply HQ. by eexists _, [_; _].
Qed.

Lemma does_write_leasefile a (Q : unit -> World -> Prop) w :
  (forall w', io_rel w w' -> Q tt w') -> does (write_leasefile a) Q w.
Proof.
  intros HQ. unfold does, write_leasefile. wp_run. destruct (_ <? 0); wp_run; [by apply HQ|].
  destruct (inet_ntop_le32 a) as (ip & -> & Hip). wp_run. cbv zeta. 
  destruct (_ <=? _); wp_run; [by apply HQ|].
  assert (Hio : forall t tr, io_rel w (w <| tick := t |> <| trace := tr ++ trace w |>)) by (intros t tr; by eexists _, _).
  destruct (env_ftruncate _); wp_run; [|by apply HQ, (Hio _ [])]. by apply HQ, (Hio _ [_]).
Qed.

(** The probe got no answer. *)
Definition unanswered (ev : event) (w : World) : Prop :=
  arp_timeout ev = true /\ sev_arp ev = false /\ sev_signal ev <> SIGNAL_RELEASE /\
  arp_check_start_ts (garp w) + ANNOUNCE_WAIT <= nowts ev.

(** The address of [ack] is in use, leased by the server [s] for [l] seconds. *)
Definition in_use (ack : dhcpmsg) (s l : Z) (w : World) : Prop :=
  scrLine w = SCR_BOUND /\ clientAddr (cs w) = yiaddr ack /\ serverAddr (cs w) = s /\ lease (cs w) = l /\
  configured w (yiaddr ack) /\ cfg_packet w = ack /\ listenFd (cs w) < 0.

Lemma in_use_elapsed ack s l w w' : io_rel w w' -> in_use ack s l w -> in_use ack s l w'.
Proof.
  intros (E1 & E2 & E3 & E4 & E5)%elapsed_fields. unfold in_use, configured. by rewrite E1, E4, E5.
Qed.
Lemma lease_taken ev ack s l text w :
  probing ack s l w -> unanswered ev w -> opt_bufs_ok ack ->
  bind_command cfg ack = Some text -> text <> [] ->
  does (dhcp_handle ev) (fun r w' => r = COR_SUCCESS /\ in_use ack s l w' /\ said (AIfch text) w w' /\
    said (AArp (arpFd (cs w)) (announcement w)) w w') w.
Proof.
  intros ([R1 R2 R3 <- R5] & Hl & Ha & Hd & Hc & Hs & Hle & Hp) (Ht & Hna & Hsig%Z.eqb_neq & Hnow) Hok Hb Hne.
  destruct (get_option_router_total ack Hok) as [ra Hra].
  unfold does, dhcp_handle. wp_run. rewrite Hl. cbn [resume dhcp_run place_step].
  unfold collision_step, orelse, collision_arp, collision_arp_timeout. rewrite Hsig, Hna, Ht. unfold next. wp_run.
  unfold arp_collision_timeout. wp_run. replace (_ + ANNOUNCE_WAIT <=? nowts ev) with true by lia. cbn [orb].
  unfold set_wake_ts. wp_run. rewrite Hp. 
  apply (does_ifchange_bind _ text); [done..|].
  intros w1 Ec1 Ecfg1 Econf1 Eg1 Etr1. change (0 <? 0) with false. cbv iota. rsimpl. wp_run. rewrite Hra. wp_run.
  apply does_stop_dhcp_listen; [rsimpl; by rewrite Ec1|]. intros w2 Hio2. wp_run.
  apply does_write_leasefile. intros w3 Hio3. pose proof (transitivity Hio2 Hio3) as Hio. clear Hio2 Hio3 w2.
  assert (exists tr, trace w3 = tr ++ AIfch text :: trace w) as [tr Htr].
  { destruct Hio as (t & tr & ->). exists tr. rsimpl. by rewrite Etr1. }
  apply elapsed_fields in Hio as (Ec & Econf & Eg & Ecfg & _). revert Ec Econf Eg Ecfg. rsimpl. intros Ec Econf Eg Ecfg.
  rewrite Ec1 in Ec. rewrite Econf1 in Econf. rewrite Ecfg1 in Ecfg. 
  wp_run. rewrite Econf. rsimpl. rewrite R3. wp_run. change (ARPR_FREE =? ARPR_FREE) with true. cbv iota. wp_run.
  rewrite <- wp_bind. apply does_greet; [by rewrite Ec..|]. intros r5 w5 H5 (tr5 & Htr5 & Hin). unfold does. wp_run.
  apply dhcp_view_fields in H5 as (U1 & U2 & U3 & U4 & U5 & U6 & U7 & U8 & U9). rewrite Htr in Htr5. 
  unfold announcement in Hin |- *. rewrite Econf, Ec in Hin. rsimpl.
  assert (Hclient : clientAddr (cs w5) = yiaddr ack) by (by rewrite U1, Ec).
  split; [done|]. split_and!.
  - unfold in_use, configured. rsimpl. rewrite Hclient. rewrite U2, U3, U4, U7, U8, Ec, Ecfg. rsimpl. by split_and!.
  - exists (tr5 ++ tr ++ [AIfch text]). rsimpl. rewrite Htr5, <- !app_assoc. split; [done|]. rewrite !elem_of_app, list_elem_of_singleton. by auto.
  - exists (tr5 ++ tr ++ [AIfch text]). rsimpl. rewrite Htr5, <- !app_assoc. split; [done|]. rewrite Hc. apply elem_of_app. by left.
Qed.

End Handshake.

(** * The exchange *)

(** A call for [ev] succeeds and relates the world before and after by [P]; then [Q]
    holds whatever outside calls are made until the next one. *)
Definition takes `{!Env} (ev : event) (P : World -> World -> Prop) (Q : World -> Prop) (w : World) : Prop :=
  does (dhcp_handle ev) (fun r w1 => r = COR_SUCCESS /\ P w w1 /\ forall w2, io_rel w1 w2 -> Q w2) w.

Lemma takes_intro `{!Env} (ev : event) (P : World -> World -> Prop) (Q : World -> Prop) w :
  does (dhcp_handle ev) (fun r w1 => r = COR_SUCCESS /\ P w w1 /\ Q w1) w ->
  (forall w1 w2, io_rel w1 w2 -> Q w1 -> Q w2) -> takes ev P Q w.
Proof. intros Hd HQ. eapply does_mono; [exact Hd|]. intros r w1 (H1 & H2 & H3). eauto. Qed.
Lemma takes_mono `{!Env} (ev : event) (P : World -> World -> Prop) (Q Q' : World -> Prop) w :
  takes ev P Q w -> (forall w', Q w' -> Q' w') -> takes ev P Q' w.
Proof. intros Hd HQ. eapply does_mono; [exact Hd|]. intros r w1 (H1 & H2 & H3). split_and!; eauto. Qed.

(** C3. Liveness: when the outside does what it is asked, an offer leads to an
    address in use in four calls.  From SELECTING, the offer of the server [s] is
    taken; when the timer fires the request for it is broadcast; when a server
    grants the offered address an ARP probe for it goes out; and when
    [ANNOUNCE_WAIT] milliseconds passed without an answer, ndhc-ifch is told the
    difference to the former configuration, the neighbours are told of the address,
    and the client is BOUND with the address, the server and the lease of the grant.
    Any outside calls may be made in between. *)
Theorem handshake_binds `{!Env} (offer timer grant over : event) (s s' l : Z) (text : list Z) (w : World) :
  friendly -> seeking (cfg_packet w) w ->
  offered offer s -> timer_fired timer -> acknowledged grant (yiaddr (ev_packet offer)) s' ->
  get_option_leasetime (ev_packet grant) = Some l ->
  bind_command (cfg_packet w) (ev_packet grant) = Some text -> text <> [] ->
  takes offer (fun _ _ => True) (fun w1 => granted (tick w1) [ch "s"%char] ->
  takes timer (fun w1 w2 => exists p, selecting_request (client_config w1) (cs w1) = Some p /\ broadcast p w1 w2)
    (fun w2 => granted (S (tick w2)) [ch "A"%char; ch "a"%char] ->
  takes grant (fun w2 w3 => said (AArp (arpFd (cs w3)) (probe w2 (ev_packet grant))) w2 w3)
    (fun w3 => unanswered over w3 ->
  takes over (fun w3 w4 => said (AIfch text) w3 w4 /\ said (AArp (arpFd (cs w3)) (announcement w3)) w3 w4)
    (in_use (ev_packet grant) s' (effective_lease l)) w3) w2) w1) w.
Proof.
  intros Hf Hw Ho Ht Hk Hl Hb Hne. set (cfg := cfg_packet w) in *. clearbody cfg.
  set (a := yiaddr (ev_packet offer)) in *.
  apply (takes_mono _ _ (asking cfg a s 0)).
  { apply takes_intro; [|intros; by eapply asking_elapsed]. eapply does_mono; [by eapply offer_taken|naive_solver]. }
  intros w1 H1 Hg1. apply (takes_mono _ _ (asking cfg a s (u32 (0 + 1)))).
  { apply takes_intro; [|intros; by eapply asking_elapsed]. eapply does_mono; [by eapply request_sent|naive_solver]. }
  intros w2 H2 Hg2. apply (takes_mono _ _ (probing cfg (ev_packet grant) s' (effective_lease l))).
  { apply takes_intro; [|intros; by eapply probing_elapsed].
    eapply does_mono; [by eapply ack_probed|]. intros r w3 (H3 & l' & Hl' & H4 & H5). naive_solver. }
  intros w3 H3 Hu. apply takes_intro; [|intros; by eapply in_use_elapsed].
  eapply does_mono; [eapply lease_taken; [done..|by apply Hk|done|done]|]. naive_solver.
Qed.

(** The four events, and the outside that answers them: ndhc-sockd gives a sending
    socket first and an ARP socket later. *)
Definition grant_event : event :=
  (quiet_event 1002000) <| sev_dhcp := true |> <| dhcp_msgtype := DHCPACK |>
    <| ev_packet := sample_message DHCPACK [51; 4; 0; 0; 14; 16] |>
    <| dhcp_srcaddr := of_le [192; 168; 0; 1] |>.
Definition fired_event : event := (quiet_event 1001000) <| dhcp_timeout := true |>.
Definition probed_event : event := (quiet_event 1020000) <| arp_timeout := true |>.
Definition granting_env : Env := sample_env_by (fun n => if (n <=? 4)%nat then ch "s"%char else ch "a"%char) 60.

Lemma granting_env_friendly : friendly (H := granting_env).
Proof. split; [intros t; by eexists|done|intros t; cbn; lia|done..]. Qed.

Lemma handshake_binds_witness :
  let E := granting_env in
  let s := of_le [192; 168; 0; 1] in
  exists text,
  takes offer_event (fun _ _ => True) (fun w1 => granted (tick w1) [ch "s"%char] ->
  takes fired_event (fun w1 w2 => exists p, selecting_request (client_config w1) (cs w1) = Some p /\ broadcast p w1 w2)
    (fun w2 => granted (S (tick w2)) [ch "A"%char; ch "a"%char] ->
  takes grant_event (fun w2 w3 => said (AArp (arpFd (cs w3)) (probe w2 (ev_packet grant_event))) w2 w3)
    (fun w3 => unanswered probed_event w3 ->
  takes probed_event (fun w3 w4 => said (AIfch text) w3 w4 /\ said (AArp (arpFd (cs w3)) (announcement w3)) w3 w4)
    (in_use (ev_packet grant_event) s (effective_lease 3600)) w3) w2) w1) selecting_world /\
  wp (_ ← dhcp_handle offer_event; _ ← dhcp_handle fired_event; _ ← dhcp_handle grant_event;
      dhcp_handle probed_event)
    (fun r w' => r = COR_SUCCESS /\ scrLine w' = SCR_BOUND /\ clientAddr (cs w') = of_le [192; 168; 0; 9] /\
       lease (cs w') = 3600 /\ firstn 1 (trace w') = [AArp 9 (announcement w')])
    (fun _ _ => False) selecting_world.
Proof.
  intros E s.
  assert (Hok : opt_bufs_ok (ev_packet grant_event)) by by apply dhcpmsg_ok_bufs.
  destruct (bind_command (cfg_packet selecting_world) (ev_packet grant_event)) as [text|] eqn:Hb; [|by vm_compute in Hb].
  exists text. split; [|vm_compute; by split_and!].
  apply (handshake_binds (H := E) offer_event fired_event grant_event probed_event s s 3600 text selecting_world).
  - exact granting_env_friendly.
  - split; [|done]. split; [vm_compute; congruence|exact sample_config_ok|done..].
  - by split_and!.
  - by split_and!.
  - by split_and!.
  - by vm_compute.
  - exact Hb.
  - vm_compute in Hb. by injection Hb as <-.
Defined.
