(* ===== verification/Renewal.v ===== *)
(** The life of a lease: it is renewed, or it expires and is granted again.

    The calls of [dhcp_handle] that send the renewal and take its answer, the call
    that finds the lease expired, and what becomes of a client that is then granted
    the lease it had.  The outside is that of Handshake. *)

From S2P Require Import Prelude Types Options World Samples Ipc Ifchange Dhcp Arp.
From S2P Require Import State Protocol Handshake.
Import Codec.

Section Renewal.
Context `{!Env} (Hf : friendly).

(** * Listening and sending *)

Lemma does_start_dhcp_listen (Q : unit -> World -> Prop) w :
  listenFd (cs w) < 0 -> granted (tick w) [ch "L"%char; ch "l"%char] ->
  (forall fd b w', 0 <= fd -> io_rel (w <| cs ::= (fun c => c <| using_dhcp_bpf := b |> <| listenFd := fd |>) |>) w' ->
     tick w' = S (S (tick w)) -> Q tt w') ->
  does start_dhcp_listen Q w.
Proof.
  intros Hl (c & fd & Hg & Hfd & Hcin) HQ. unfold does, start_dhcp_listen. wp_run. replace (0 <=? _) with false by lia.
  unfold get_raw_listen_socket. wp_run. apply (does_request_sockd_fd _ [] c true fd); [done|by left|]. wp_run.
  apply (wp_mono _ (fun _ w1 => exists b, w1 = w <| trace ::= cons (ASockd (chars "L")) |> <| tick ::= S |>
                                     <| cs ::= (fun c => c <| using_dhcp_bpf := b |>) |>) _ (fun _ _ => False)); [| |done].
  { rewrite !elem_of_cons, elem_of_nil in Hcin. destruct Hcin as [-> | [-> | []]]; wp_run; by eexists. }
  intros _ w1 (b & ->). wp_run. replace (fd <? 0) with false by lia. wp_run. apply (does_epoll_add Hf).
  apply (HQ fd b); [done|by eexists _, [_; _]|done].
Qed.

(** What only calls the outside changes nothing. *)
Lemma does_io {A} (m : M A) (Q : A -> World -> Prop) w :
  io_only m -> does m (fun a w' => io_rel w w' -> Q a w') w -> does m Q w.
Proof. intros Hm. specialize (Hm w). unfold does, wp in *. destruct (m w) as [[a|h] w']; cbn in *; auto. Qed.

(** The message [p] is sent to the server the lease is from. *)
Definition unicast (p : dhcpmsg) (w w' : World) : Prop :=
  exists fd e, get_end_option_idx p = Some e /\
    said (AConnect fd (serverAddr (cs w)) (htons DHCP_SERVER_PORT)) w w' /\
    said (AUnicast fd (take (Z.to_nat (offsetof_options + (e + 1))) (dhcpmsg_bytes p))) w w'.

Lemma does_get_udp_unicast_socket (Q : Z -> World -> Prop) w :
  granted (tick w) [ch "u"%char] ->
  (forall fd, 0 <= fd -> Q fd (w <| trace ::= cons (ASockd (ch "u"%char :: le32 (clientAddr (cs w)))) |> <| tick ::= S |>)) ->
  does get_udp_unicast_socket Q w.
Proof.
  intros (c & fd & Hg & Hfd & Hc%list_elem_of_singleton) HQ. subst c. unfold does, get_udp_unicast_socket. wp_run.
  apply (does_request_sockd_fd _ _ (ch "u"%char) false fd); [done|by right|]. wp_run. by apply HQ.
Qed.

Lemma does_send_dhcp_unicast p (Q : Z -> World -> Prop) w :
  sendable p -> granted (tick w) [ch "u"%char] ->
  (forall r w', 0 <= r -> io_rel w w' -> unicast p w w' -> Q r w') -> does (send_dhcp_unicast p) Q w.
Proof.
  intros Hs Hg HQ. apply does_io; [apply send_dhcp_unicast_io|]. unfold does, send_dhcp_unicast. wp_run. apply does_get_udp_unicast_socket; [done|]. intros fd Hfd.
  replace (fd <? 0) with false by lia. wp_run. rewrite (fr_connect Hf). cbn [negb]. wp_run. rsimpl.
  destruct (sendable_end p Hs) as (e & He & Hr). rewrite He. wp_run. replace (e <? 0) with false by lia.
  cbv zeta. replace (sizeof_options <? e + 1) with false by lia. wp_run. apply (does_carrier Hf). cbn [negb]. wp_run.
  assert (exists d, rd_range (dhcpmsg_bytes p) 0 (sizeof_dhcpmsg - (sizeof_options - (e + 1))) = Some d /\
            d = take (Z.to_nat (offsetof_options + (e + 1))) (dhcpmsg_bytes p)) as (d & -> & Hd).
  { pose proof (dhcpmsg_bytes_len p (proj1 Hs)) as Hl. unfold sizeof_dhcpmsg, sizeof_options, offsetof_options in *.
    rewrite rd_range_0 by lia. eexists. split; [done|]. do 2 f_equal. lia. }
  wp_run. unfold close. wp_run.
  intros Hio. apply HQ; [apply (fr_send Hf)|exact Hio|]. exists fd, e. rewrite <- Hd. split; [done|].
  split; (eexists [AClose fd; AUnicast fd d; _; _; _]; split; [reflexivity|]).
  - do 3 apply list_elem_of_further. constructor.
  - do 2 constructor.
Qed.

(** * Renewing *)

(** A lease is held, and its address defended. *)
Record holding (w : World) : Prop := {
  hd_place : scrLine w = SCR_BOUND;
  hd_config : config_ok (client_config w);
  hd_arp : 0 <= arpFd (cs w);
  hd_defended : arp_is_defense (cs w) = true
}.
Lemma holding_elapsed w w' : io_rel w w' -> holding w -> holding w'.
Proof. intros (E1 & E2 & E3 & E4 & E5)%elapsed_fields []. by split; rewrite ?E1, ?E2, ?E5. Qed.

(** Nothing but a message of a server or the DHCP timer. *)
Definition calm (ev : event) : Prop :=
  sev_arp ev = false /\ arp_timeout ev = false /\ force_fingerprint ev = false /\
  sev_signal ev <> SIGNAL_RELEASE /\ sev_signal ev <> SIGNAL_RENEW.

(** Between T1 and T2 the lease is to be renewed. *)
Definition due (c : client_state_t) (t : Z) : Prop :=
  leaseStartTime c + renewTime c * 1000 <= t < leaseStartTime c + rebindTime c * 1000.

(** The answer to a renewal may come: the lease [c] is as it was. *)
Definition renewing (c : client_state_t) (cfg : dhcpmsg) (w : World) : Prop :=
  holding w /\ 0 <= listenFd (cs w) /\ cfg_packet w = cfg /\
  exists b fd wake, cs w = c <| using_dhcp_bpf := b |> <| listenFd := fd |> <| dhcp_wake_ts := wake |>.
Lemma renewing_elapsed c cfg w w' : io_rel w w' -> renewing c cfg w -> renewing c cfg w'.
Proof.
  intros Hio (H1 & H2). split; [by eapply holding_elapsed|].
  apply elapsed_fields in Hio as (E1 & E2 & E3 & E4 & E5). by rewrite E1, E4.
Qed.

(** How the coroutine goes on after one of its places. *)
Definition follow (n : nat) (f : flow) : M Z :=
  match f with
  | Return ret at_ => modify (fun w => w <| scrLine := at_ |>);; mret ret
  | Goto l ev => dhcp_run n l ev
  end.

(** Only the timer of the lease has something to do. *)
Lemma bound_timer ev (Q : Z -> World -> Prop) w :
  holding w -> calm ev -> sev_dhcp ev = false ->
  does (bound_dhcp_timeout ev) (fun f w' => does (follow 2 f) Q w') w -> does (dhcp_handle ev) Q w.
Proof.
  intros Hw (H1 & H2 & H3 & H4%Z.eqb_neq & H5%Z.eqb_neq) Hd HQ. unfold does, dhcp_handle. wp_run.
  rewrite (hd_place w Hw). cbn [resume dhcp_run place_step].
  unfold bound_step, orelse, bound_signal, bound_dhcp, bound_arp, bound_arp_timeout, bound_fingerprint.
  rewrite H1, H2, H3, H4, H5, Hd. unfold next. wp_run. cbn [andb]. wp_run. exact HQ.
Qed.

(** The request to renew depends on the transaction and the address only. *)
Lemma renew_request_ext cc c c' :
  cs_xid c' = cs_xid c -> clientAddr c' = clientAddr c -> renew_request cc c' = renew_request cc c.
Proof. intros E1 E2. unfold renew_request. by rewrite E1, E2. Qed.

Lemma said_since a tr w w1 w2 : trace w1 = tr ++ trace w -> said a w1 w2 -> said a w w2.
Proof.
  intros H1 (tr' & H2 & H3). exists (tr' ++ tr). rewrite H2, H1, app_assoc. split; [done|]. apply elem_of_app. by left.
Qed.

Lemma renewal_sent ev w :
  holding w -> listenFd (cs w) < 0 -> calm ev -> sev_dhcp ev = false -> dhcp_timeout ev = true ->
  due (cs w) (nowts ev) -> granted (tick w) [ch "L"%char; ch "l"%char] -> granted (S (S (tick w))) [ch "u"%char] ->
  does (dhcp_handle ev) (fun r w' => r = COR_SUCCESS /\ renewing (cs w) (cfg_packet w) w' /\
    exists p, renew_request (client_config w) (cs w) = Some p /\ unicast p w w') w.
Proof.
  intros Hw Hl Hev Hd Ht [Hd1 Hd2] Hg1 Hg2. apply bound_timer; [done..|]. unfold does, bound_dhcp_timeout. rewrite Ht.
  unfold is_rebinding, is_renewing. wp_run. replace (_ <=? nowts ev) with false by lia.
  replace (_ <=? nowts ev) with true by lia. unfold renewing_timeout. wp_run.
  replace (_ <=? nowts ev) with false by lia. wp_run.
  apply does_start_dhcp_listen; [done..|]. intros fd b w1 Hfd Hio1 Htick. wp_run. unfold send_renew, build. wp_run.
  assert (exists tr, trace w1 = tr ++ trace w) as [tr Htr] by (destruct Hio1 as (t & tr & ->); by exists tr).
  apply elapsed_fields in Hio1 as (E1 & E2 & E3 & E4 & E5). revert E1 E2 E3 E4 E5. rsimpl. intros E1 E2 E3 E4 E5.
  assert (exists p, renew_request (client_config w) (cs w) = Some p /\ sendable p) as (p & Hp & Hs)
    by (eapply builds_sendable; [by apply Hw|by apply renew_builds, Hw]).
  assert (Hp1 : renew_request (client_config w1) (cs w1) = Some p).
  { rewrite E2, <- Hp. apply renew_request_ext; by rewrite E1. }
  cbn [fst snd]. rewrite Hp1. wp_run. apply does_send_dhcp_unicast; [done|by rewrite Htick|]. intros r w2 Hr Hio2 Hu.
  replace (r <? 0) with false by lia. unfold set_retry_wake, nk_random_u32, set_dhcp_wake_ts. wp_run.
  change (BTO_WAIT =? BTO_WAIT) with true. cbv iota. wp_run. cbv zeta. wp_run.
  apply elapsed_fields in Hio2 as (F1 & F2 & F3 & F4 & F5). rewrite E1 in F1. rewrite E2 in F2. rewrite E4 in F4.
  split; [done|]. split.
  - split; [|split; [|split]]; rsimpl; [|by rewrite F1|done|].
    + destruct Hw as [K1 K2 K3 K4]. split; rsimpl; rewrite ?F1, ?F2; done.
    + rewrite F1. by eexists b, fd, _.
  - exists p. split; [done|]. destruct Hu as (fd' & e & He & H1 & H2). rewrite E1 in H1. exists fd', e.
    split_and!; [done|exact (said_since _ _ _ _ _ Htr H1)|exact (said_since _ _ _ _ _ Htr H2)].
Qed.

(** The answer that extends the lease by [l] seconds. *)
Definition extends (ev : event) (c : client_state_t) (l : Z) : Prop :=
  calm ev /\ sev_dhcp ev = true /\ dhcp_timeout ev = false /\ dhcp_msgtype ev = DHCPACK /\
  yiaddr (ev_packet ev) = clientAddr c /\ server_of (ev_packet ev) (serverAddr c) /\
  get_option_leasetime (ev_packet ev) = Some l /\ leaseStartTime c + renewTime c * 1000 <= nowts ev.

(** The lease of [c], for [l] seconds from [start] on. *)
Definition renewed (c : client_state_t) (cfg : dhcpmsg) (l start : Z) (w : World) : Prop :=
  holding w /\ listenFd (cs w) < 0 /\ cfg_packet w = cfg /\ ifDeconfig (cs w) = ifDeconfig c /\
  clientAddr (cs w) = clientAddr c /\ serverAddr (cs w) = serverAddr c /\
  lease (cs w) = l /\ leaseStartTime (cs w) = start /\ dhcp_wake_ts (cs w) = start + l / 2 * 1000.
Lemma renewed_elapsed c cfg l start w w' : io_rel w w' -> renewed c cfg l start w -> renewed c cfg l start w'.
Proof.
  intros Hio (H1 & H2). split; [by eapply holding_elapsed|].
  apply elapsed_fields in Hio as (E1 & E2 & E3 & E4 & E5). by rewrite E1, E4.
Qed.

(** The lease is [l] seconds long and starts at [start]; all else of [c] but the sockets to listen is as it was. *)
Record relet (c : client_state_t) (l start : Z) (c' : client_state_t) : Prop := {
  rl_client : clientAddr c' = clientAddr c;
  rl_server : serverAddr c' = serverAddr c;
  rl_arp : arpFd c' = arpFd c;
  rl_defended : arp_is_defense c' = arp_is_defense c;
  rl_deconfig : ifDeconfig c' = ifDeconfig c;
  rl_lease : lease c' = l;
  rl_start : leaseStartTime c' = start;
  rl_wake : dhcp_wake_ts c' = start + l / 2 * 1000
}.
Lemma relet_lease c l start rbt :
  relet c l start (c <| lease := l |> <| leaseStartTime := start |> <| renewTime := Z.shiftr l 1 |>
                     <| rebindTime := rbt |> <| dhcp_wake_ts := start + Z.shiftr l 1 * 1000 |>).
Proof. split; try by destruct c. rewrite Z.shiftr_div_pow2 by lia. by destruct c. Qed.
Lemma relet_listen c l start c' : relet c l start c' -> relet c l start (c' <| listenFd := -1 |>).
Proof. destruct c'. intros []. by split. Qed.

Lemma does_get_leasetime p l (Q : unit -> World -> Prop) w :
  get_option_leasetime p = Some l ->
  (forall w', relet (cs w) (effective_lease l) (clock_ms (tick w)) (cs w') -> listenFd (cs w') = listenFd (cs w) ->
     client_config w' = client_config w -> cfg_packet w' = cfg_packet w -> Q tt w') ->
  does (get_leasetime p) Q w.
Proof.
  intros Hl HQ. unfold does, get_leasetime. rewrite Hl. wp_run. apply (does_curms Hf). cbv zeta. wp_run.
  apply HQ; [apply relet_lease|done..].
Qed.

Lemma does_defended (Q : Z -> World -> Prop) w :
  0 <= arpFd (cs w) -> arp_is_defense (cs w) = true -> Q 0 w -> does arp_set_defense_mode Q w.
Proof.
  intros Ha Hd HQ. unfold does, arp_set_defense_mode, arp_open_fd. wp_run. rewrite Hd.
  replace (0 <=? arpFd (cs w)) with true by lia. cbn [andb Bool.eqb]. by wp_run.
Qed.

Lemma does_extend_packet ev l (Q : Z -> World -> Prop) w :
  holding w -> 0 <= listenFd (cs w) -> server_of (ev_packet ev) (serverAddr (cs w)) ->
  yiaddr (ev_packet ev) = clientAddr (cs w) -> get_option_leasetime (ev_packet ev) = Some l ->
  (forall w', relet (cs w) (effective_lease l) (clock_ms (tick w)) (cs w') -> listenFd (cs w') = -1 ->
     client_config w' = client_config w -> cfg_packet w' = cfg_packet w -> Q ANP_SUCCESS w') ->
  does (extend_packet (ev_packet ev) DHCPACK) Q w.
Proof.
  intros Hw Hl Hs Hy Hlt HQ. unfold does, extend_packet. change (DHCPACK =? DHCPACK) with true. cbv iota. wp_run.
  unfold validate_serverid. wp_run. apply (does_packet_serverid _ (serverAddr (cs w))); [done|]. wp_run.
  rewrite Z.eqb_refl. cbn [negb]. wp_run. apply (does_get_leasetime _ l); [done|]. intros w1 K E0 E1 E2. wp_run.
  rewrite Hy, (rl_client _ _ _ _ K), Z.eqb_refl. cbn [negb]. wp_run.
  apply does_defended; [rewrite (rl_arp _ _ _ _ K); apply Hw|rewrite (rl_defended _ _ _ _ K); apply Hw|]. wp_run.
  apply (does_stop_dhcp_listen Hf); [by rewrite E0|]. intros w2 Hio. wp_run.
  apply elapsed_fields in Hio as (F1 & F2 & _ & F4 & _).
  apply HQ; [rewrite F1; by apply relet_listen|by rewrite F1|by rewrite F2|by rewrite F4].
Qed.

Lemma renewal_granted ev c cfg l w :
  renewing c cfg w -> extends ev c l ->
  does (dhcp_handle ev) (fun r w' => r = COR_SUCCESS /\ renewed c cfg (effective_lease l) (clock_ms (tick w)) w') w.
Proof.
  intros (Hw & Hl & <- & (b & fd & wake & Ec)) ((H1 & H2 & H3 & H4%Z.eqb_neq & H5%Z.eqb_neq) & Hd & Ht & Hm & Hy & Hs & Hlt & Hn).
  unfold does, dhcp_handle. wp_run. rewrite (hd_place w Hw). cbn [resume dhcp_run place_step].
  unfold bound_step, orelse, bound_signal, bound_dhcp, bound_arp, bound_arp_timeout, bound_fingerprint, bound_dhcp_timeout.
  rewrite H1, H2, H3, H4, H5, Hd, Ht, Hm. unfold next. wp_run.
  assert (Hn' : is_renewing (cs w) (nowts ev) = true) by (unfold is_renewing; rewrite Ec; apply Z.leb_le, Hn).
  rewrite Hn'. cbn [andb]. wp_run.
  assert (K : clientAddr (cs w) = clientAddr c /\ serverAddr (cs w) = serverAddr c /\ ifDeconfig (cs w) = ifDeconfig c)
    by by rewrite Ec. destruct K as (K1 & K2 & K3).
  apply (does_extend_packet _ l); [done|done|by rewrite K2|by rewrite K1|done|]. intros w1 L L3 E1 E2.
  change ((ANP_SUCCESS =? ANP_SUCCESS) || (ANP_SUCCESS =? ANP_IGNORE)) with true. cbv iota. wp_run.
  split; [done|]. destruct L as [L1 L2 L4 L5 L6 L7 L8 L9]. destruct Hw as [M1 M2 M3 M4].
  assert (N : holding (w1 <| scrLine := SCR_BOUND |>)).
  { split; [done|by rewrite <- E1 in M2|by rewrite <- L4 in M3|by rewrite <- L5 in M4]. }
  split; [exact N|]. split_and!; rsimpl; [lia|done|by rewrite <- K3|by rewrite <- K1|by rewrite <- K2|done..].
Qed.

(** * Expiry *)

(** What [reinit_selecting] forgets: the address and what is known of the neighbours. *)
Definition no_lease (c : client_state_t) : client_state_t :=
  c <| clientAddr := 0 |> <| num_dhcp_requests := 0 |> <| got_router_arp := false |>
    <| got_server_arp := false |> <| check_fingerprint := false |> <| sent_gw_query := false |>
    <| sent_first_announce := false |> <| sent_second_announce := false |>
    <| init_fingerprint_inprogress := false |> <| routerArp := zeros 6 |> <| serverArp := zeros 6 |>.
(** The client [c] lost its lease; the interface is as it was. *)
Definition lost (c c' : client_state_t) : Prop :=
  clientAddr c' = 0 /\ ifDeconfig c' = ifDeconfig c /\ listenFd c' = listenFd c /\ arpFd c' = -1 /\
  sent_first_announce c' = false.
Lemma no_lease_lost c c' wake :
  c' = (no_lease c) <| arpFd := -1 |> <| arp_is_defense := false |> <| dhcp_wake_ts := wake |> ->
  lost c c' /\ num_dhcp_requests c' = 0.
Proof. intros ->. destruct c. by split_and!. Qed.
Lemma xid_lost c c' x : lost c c' -> lost c (c' <| cs_xid := x |>).
Proof. by destruct c'. Qed.

Lemma does_arp_reset_state (Q : unit -> World -> Prop) w :
  0 <= arpFd (cs w) ->
  (forall w', cs w' = (cs w) <| arpFd := -1 |> <| arp_is_defense := false |> -> client_config w' = client_config w ->
     cfg_packet w' = cfg_packet w -> tick w' = S (tick w) ->
     trace w' = [AClose (arpFd (cs w)); AEpollDel (arpFd (cs w))] ++ trace w -> Q tt w') ->
  does arp_reset_state Q w.
Proof.
  intros Ha HQ. unfold does, arp_reset_state, arp_close_fd, arp_min_close_fd. wp_run.
  replace (arpFd (cs w) <? 0) with false by lia. wp_run. apply (does_epoll_del Hf). unfold close. wp_run. by apply HQ.
Qed.

Lemma does_reinit_selecting t (Q : unit -> World -> Prop) w :
  0 <= listenFd (cs w) -> 0 <= arpFd (cs w) ->
  (forall w', lost (cs w) (cs w') -> num_dhcp_requests (cs w') = 0 -> client_config w' = client_config w -> cfg_packet w' = cfg_packet w ->
     tick w' = S (S (tick w)) -> Q tt w') ->
  does (reinit_selecting t) Q w.
Proof.
  intros Hl Ha HQ. unfold does, reinit_selecting, reinit_shared_deconfig. wp_run.
  match goal with |- wp _ _ _ ?x => set (w1 := x) end.
  assert (G : cs w1 = no_lease (cs w) /\ client_config w1 = client_config w /\ cfg_packet w1 = cfg_packet w /\
    tick w1 = tick w /\ trace w1 = trace w) by done. clearbody w1. destruct G as (G1 & G2 & G3 & G4 & G5).
  assert (H1 : arpFd (cs w1) = arpFd (cs w)) by (rewrite G1; reflexivity).
  apply does_arp_reset_state; [by rewrite H1|]. intros w2 E1 E2 E3 E4 E5. wp_run. apply (does_curms Hf).
  unfold set_dhcp_wake_ts. wp_run.
  match goal with |- wp _ _ _ ?x => set (w3 := x) end.
  assert (K : exists wake, cs w3 = (cs w2) <| dhcp_wake_ts := wake |>) by by eexists. destruct K as [wake K1].
  assert (K : client_config w3 = client_config w2 /\ cfg_packet w3 = cfg_packet w2 /\ tick w3 = S (tick w2)) by done.
  clearbody w3. destruct K as (K2 & K3 & K4). rewrite E1, G1 in K1. apply no_lease_lost in K1 as [K1 K5].
  unfold start_dhcp_listen. wp_run. pose proof K1 as (_ & _ & Hl' & _). rewrite Hl'.
  replace (0 <=? listenFd (cs w)) with true by lia. wp_run. apply HQ; [done|done|congruence..].
Qed.

(** A discover message is sent to find a new lease. *)
Lemma does_selecting_step c0 ev (Q : flow -> World -> Prop) w :
  sev_dhcp ev = false -> dhcp_timeout ev = true -> sev_signal ev <> SIGNAL_RELEASE ->
  config_ok (client_config w) -> lost c0 (cs w) -> num_dhcp_requests (cs w) = 0 -> granted (S (tick w)) [ch "s"%char] ->
  (forall w', lost c0 (cs w') -> client_config w' = client_config w -> cfg_packet w' = cfg_packet w ->
     (exists c p, discover_packet (client_config w) c = Some p /\ clientAddr c = 0 /\ broadcast p w w') ->
     Q (Return COR_SUCCESS SCR_SELECTING) w') ->
  does (selecting_step ev) Q w.
Proof.
  intros Hd Ht Hsig%Z.eqb_neq Hcc Hlost Hn Hg HQ. unfold does, selecting_step, orelse. rewrite Hsig, Hd, Ht. unfold next. wp_run.
  unfold selecting_timeout. wp_run. rewrite Hn. change (2 <=? 0) with false. rewrite andb_false_r. wp_run.
  change (0 =? 0) with true. cbv iota. unfold nk_random_u32. wp_run. 
  match goal with |- wp _ _ _ ?x => set (w1 := x) end. 
  assert (G1 : lost c0 (cs w1)) by by apply xid_lost.
  assert (G : client_config w1 = client_config w /\ cfg_packet w1 = cfg_packet w /\ trace w1 = trace w /\ tick w1 = S (tick w)) by done.
  clearbody w1. destruct G as (G2 & G3 & G4 & G5). unfold send_discover, build. wp_run. cbn [fst snd].
  assert (exists p, discover_packet (client_config w1) (cs w1) = Some p /\ sendable p) as (p & Hp & Hs)
    by (rewrite G2; eapply builds_sendable; [done|by apply discover_builds]).
  rewrite Hp. wp_run. apply (does_send_dhcp_raw Hf); [done|by rewrite G5|]. intros r w2 Hr Hio Hb.
  replace (r <? 0) with false by lia. unfold delay_timeout. wp_run. destruct (delay_base_range 0) as (d & -> & _). wp_run.
  unfold nk_random_u32, set_dhcp_wake_ts, count_dhcp_request. wp_run.
  change (SEL_SUCCESS =? SEL_SUCCESS) with true. cbv iota. wp_run.
  apply elapsed_fields in Hio as (E1 & E2 & E3 & E4 & E5). rewrite <- E1 in G1.
  apply HQ; rsimpl; [|congruence..|].
  { by destruct (cs w2). }
  exists (cs w1), p. rewrite <- G2, <- E1. split_and!; [congruence|apply G1|]. destruct Hb as (fd & e & fr & H1 & H2 & H3).
  exists fd, e, fr. split_and!; [done..|]. exact (said_since _ [] _ _ _ G4 H3).
Qed.

(** The search starts anew. *)
Lemma does_reinit c ev (Q : Z -> World -> Prop) w :
  lost c (cs w) -> num_dhcp_requests (cs w) = 0 ->
  sev_dhcp ev = false -> dhcp_timeout ev = true -> sev_signal ev <> SIGNAL_RELEASE ->
  config_ok (client_config w) -> granted (S (S (tick w))) [ch "s"%char] ->
  (forall w', lost c (cs w') -> scrLine w' = SCR_SELECTING -> client_config w' = client_config w ->
     cfg_packet w' = cfg_packet w -> Q COR_SUCCESS w') ->
  does (dhcp_run 2 Reinit ev) Q w.
Proof.
  intros Hlost Hn Hd Ht Hsig Hcc Hg HQ. unfold does. cbn [dhcp_run place_step]. unfold nk_random_u32. wp_run.
  match goal with |- wp _ _ _ ?x => set (w1 := x) end. assert (G1 : lost c (cs w1)) by by apply xid_lost.
  assert (G : client_config w1 = client_config w /\ cfg_packet w1 = cfg_packet w /\ num_dhcp_requests (cs w1) = 0 /\
    tick w1 = S (tick w)) by done. clearbody w1. destruct G as (G2 & G3 & G4 & G5).
  apply (does_selecting_step c); [done..|by rewrite G2|done|done|by rewrite G5|].
  intros w2 F1 F2 F3 _. wp_run. apply HQ; [done|done|rsimpl; congruence..].
Qed.

(** The lease [c] is over. *)
Definition past_end (c : client_state_t) (t : Z) : Prop :=
  leaseStartTime c + rebindTime c * 1000 <= t /\ lease_end c <= t.

Lemma lease_expired ev w :
  holding w -> 0 <= listenFd (cs w) -> quit_after_lease (client_config w) = false ->
  calm ev -> sev_dhcp ev = false -> dhcp_timeout ev = true -> past_end (cs w) (nowts ev) ->
  granted (4 + tick w) [ch "s"%char] ->
  does (dhcp_handle ev) (fun r w' => r = COR_SUCCESS /\ seeking (cfg_packet w) w' /\
    clientAddr (cs w') = 0 /\ ifDeconfig (cs w') = ifDeconfig (cs w)) w.
Proof.
  intros Hw Hl Hq Hev Hd Ht [Hr He] Hg. pose proof (hd_arp w Hw) as Ha. apply bound_timer; [done..|].
  unfold does, bound_dhcp_timeout. rewrite Ht. unfold is_rebinding. wp_run.
  replace (_ <=? nowts ev) with true by lia. unfold rebinding_timeout. wp_run. replace (_ <=? nowts ev) with true by lia. wp_run.
  apply does_reinit_selecting; [done..|]. intros w1 E1 E1' E2 E3 E4. wp_run.
  change (BTO_EXPIRED =? BTO_WAIT) with false. change (BTO_EXPIRED =? BTO_EXPIRED) with true. cbv iota. unfold goto_reinit. wp_run.
  apply (does_reinit (cs w)); [done|done|done|done|apply Hev|by rewrite E2; apply Hw|by rewrite E4|].
  intros w2 (K3 & K4 & K5 & K6 & K7) K0 K1 K2. split; [done|]. split; [|by split].
  split; [|split; [done|lia]]. pose proof (hd_config w Hw). split; congruence.
Qed.
(** * Granted again *)

(** The interface has what the new lease asks for: the address cannot be set. *)
Lemma relet_fatal cfg ev ack s l w :
  probing cfg ack s l w -> unanswered ev w -> bind_command cfg ack = Some [] ->
  wp (dhcp_handle ev) (fun _ _ => False)
    (fun h _ => h = HSuicide "Failed to set the interface IP address and properties!") w.
Proof.
  intros ([R1 R2 R3 <- R5] & Hl & Ha & Hd & Hc & Hs & Hle & Hp) (Ht & Hna & Hsig%Z.eqb_neq & Hnow) Hb.
  unfold dhcp_handle. wp_run. rewrite Hl. cbn [resume dhcp_run place_step].
  unfold collision_step, orelse, collision_arp, collision_arp_timeout. rewrite Hsig, Hna, Ht. unfold next. wp_run.
  unfold arp_collision_timeout. wp_run. replace (_ + ANNOUNCE_WAIT <=? nowts ev) with true by lia. cbn [orb].
  unfold set_wake_ts. wp_run. rewrite Hp. unfold ifchange_bind. wp_run. rsimpl. rewrite Hb. wp_run.
  change (zlen [] =? 0) with true. cbv iota. wp_run. change (0 <=? -1) with false. cbv iota. wp_run.
  change (-1 <? 0) with true. cbv iota. by wp_run.
Qed.
End Renewal.

(** * Properties *)

(** C4. Liveness: when the outside does what it is asked, a lease is renewed in two
    calls.  Between T1 and T2 the timer makes the client ask the server the lease is
    from, by a unicast message, to renew it; the server's grant of the same address
    extends the lease: it starts at the time of the answer, lasts as long as the
    answer says and is to be renewed after half of it.  Address, server and the
    configuration of the interface stay, and the listening socket is closed. *)
Theorem lease_renewed `{!Env} (timer grant : event) (l : Z) (w : World) :
  friendly -> holding w -> listenFd (cs w) < 0 ->
  calm timer -> sev_dhcp timer = false -> dhcp_timeout timer = true -> due (cs w) (nowts timer) ->
  granted (tick w) [ch "L"%char; ch "l"%char] -> granted (S (S (tick w))) [ch "u"%char] ->
  extends grant (cs w) l ->
  takes timer (fun w w1 => exists p, renew_request (client_config w) (cs w) = Some p /\ unicast p w w1)
    (fun w1 => takes grant
       (fun w1 w2 => renewed (cs w) (cfg_packet w) (effective_lease l) (clock_ms (tick w1)) w2)
       holding w1) w.
Proof.
  intros Hf Hw Hl Hc Hd Ht Hdue Hg1 Hg2 Hx. apply (takes_mono _ _ (renewing (cs w) (cfg_packet w))).
  { apply takes_intro; [|intros; by eapply renewing_elapsed].
    eapply does_mono; [by apply renewal_sent|]. intros r w1 (-> & H1 & H2). by split_and!. }
  intros w1 H1. apply takes_intro; [|intros; by eapply holding_elapsed].
  eapply does_mono; [by eapply renewal_granted|]. intros r w2 [-> H2]. split_and!; [done|done|apply H2].
Qed.

(** The timer of a lease that is over. *)
Definition expires (ev : event) (w : World) : Prop :=
  calm ev /\ sev_dhcp ev = false /\ dhcp_timeout ev = true /\ past_end (cs w) (nowts ev).

(** C5. A client whose lease expires forgets the address but leaves it on the
    interface: the configuration counts as made, and it searches for a new lease.
    When a server then grants a lease that changes nothing of that configuration,
    which is the lease it had, the five calls that should bring the address back
    into use end with the end of the process, although the outside does all it is
    asked. *)
Theorem expired_lease_again_fatal `{!Env} (expiry offer timer grant over : event) (s s' : Z) (w : World) :
  friendly -> holding w -> 0 <= listenFd (cs w) -> quit_after_lease (client_config w) = false ->
  expires expiry w -> granted (4 + tick w) [ch "s"%char] ->
  offered offer s -> timer_fired timer -> acknowledged grant (yiaddr (ev_packet offer)) s' ->
  bind_command (cfg_packet w) (ev_packet grant) = Some [] ->
  takes expiry (fun _ w1 => scrLine w1 = SCR_SELECTING /\ clientAddr (cs w1) = 0 /\
    ifDeconfig (cs w1) = ifDeconfig (cs w) /\ cfg_packet w1 = cfg_packet w) (
  takes offer (fun _ _ => True) (fun w2 => granted (tick w2) [ch "s"%char] ->
  takes timer (fun _ _ => True) (fun w3 => granted (S (tick w3)) [ch "A"%char; ch "a"%char] ->
  takes grant (fun _ _ => True) (fun w4 => unanswered over w4 ->
  wp (dhcp_handle over) (fun _ _ => False)
    (fun h _ => h = HSuicide "Failed to set the interface IP address and properties!") w4) w3) w2)) w.
Proof.
  intros Hf Hw Hl Hq (Hc & Hd & Ht & Hpast) Hg Ho Hti Hk Hb. set (cfg := cfg_packet w) in *.
  set (a := yiaddr (ev_packet offer)) in *. apply (takes_mono _ _ (seeking cfg)).
  { apply takes_intro; [|intros; by eapply seeking_elapsed].
    eapply does_mono; [by apply lease_expired|]. intros r w1 (-> & H1 & H2 & H3). split_and!; try done; apply H1. }
  intros w1 H1. apply (takes_mono _ _ (asking cfg a s 0)).
  { apply takes_intro; [|intros; by eapply asking_elapsed]. eapply does_mono; [by eapply offer_taken|].
    intros r w2 [-> H2]. by split_and!. }
  intros w2 H2 Hg2. apply (takes_mono _ _ (asking cfg a s (u32 (0 + 1)))).
  { apply takes_intro; [|intros; by eapply asking_elapsed]. eapply does_mono; [by eapply request_sent|].
    intros r w3 (-> & H3 & _). by split_and!. }
  intros w3 H3 Hg3. apply (takes_mono _ _ (fun w4 => exists l, probing cfg (ev_packet grant) s' l w4)).
  { apply takes_intro; [|intros ? ? ? []; eexists; by eapply probing_elapsed].
    eapply does_mono; [by eapply ack_probed|]. intros r w4 (-> & l' & _ & H4 & _). split_and!; [done..|by eexists]. }
  intros w4 [l' H4] Hu. by eapply relet_fatal.
Qed.

(** A lease of an hour for 192.168.0.9 of the server 192.168.0.1, bound and defended. *)
Definition leased_world : World :=
  sample_world <| scrLine := SCR_BOUND |> <| cfg_packet := ev_packet grant_event |>
    <| cs := initial_cs <| lease := 3600 |> <| renewTime := 1800 |> <| rebindTime := 3150 |>
               <| clientAddr := of_le [192; 168; 0; 9] |> <| serverAddr := of_le [192; 168; 0; 1] |>
               <| arpFd := 7 |> <| arp_is_defense := true |> <| program_init := false |> |>.
Definition renewal_env : Env := sample_env_by (fun n => if (n <=? 0)%nat then ch "L"%char else ch "u"%char) 400.
Lemma sample_env_friendly f n : 0 <= n -> friendly (H := sample_env_by f n).
Proof. intros Hn. split; [intros t; by eexists|done|done|done..]. Qed.

Lemma lease_renewed_witness :
  let E := renewal_env in
  let timer := (quiet_event 1800000) <| dhcp_timeout := true |> in
  let grant := grant_event <| nowts := 1801000 |> in
  takes timer (fun w w1 => exists p, renew_request (client_config w) (cs w) = Some p /\ unicast p w w1)
    (fun w1 => takes grant
       (fun w1 w2 => renewed (cs leased_world) (cfg_packet leased_world) (effective_lease 3600) (clock_ms (tick w1)) w2)
       holding w1) leased_world /\
  wp (_ ← dhcp_handle timer; dhcp_handle grant)
    (fun r w' => r = COR_SUCCESS /\ scrLine w' = SCR_BOUND /\ clientAddr (cs w') = of_le [192; 168; 0; 9] /\
       lease (cs w') = 3600 /\ dhcp_wake_ts (cs w') = leaseStartTime (cs w') + 1800 * 1000)
    (fun _ _ => False) leased_world.
Proof.
  intros E timer grant. split; [|vm_compute; by split_and!].
  apply (lease_renewed (H := E) timer grant 3600 leased_world).
  - by apply sample_env_friendly.
  - split; [done|exact sample_config_ok|done|done].
  - done.
  - by split_and!.
  - done.
  - done.
  - by split.
  - exists (ch "L"%char), 9. split_and!; [done|done|by constructor].
  - exists (ch "u"%char), 9. split_and!; [done|done|by constructor].
  - by split_and!.
Defined.

(** The same lease runs out; ndhc-sockd gives sending sockets and then an ARP socket. *)
Definition expiry_env : Env := sample_env_by (fun n => if (n <=? 12)%nat then ch "s"%char else ch "a"%char) 400.

Lemma expired_lease_again_fatal_witness :
  let E := expiry_env in
  let w := leased_world <| cs ::= (fun c => c <| listenFd := 6 |>) |> in
  let s := of_le [192; 168; 0; 1] in
  let expiry := (quiet_event 3600000) <| dhcp_timeout := true |> in
  let timer := (quiet_event 3601000) <| dhcp_timeout := true |> in
  let over := (quiet_event 3700000) <| arp_timeout := true |> in
  takes expiry (fun _ w1 => scrLine w1 = SCR_SELECTING /\ clientAddr (cs w1) = 0 /\
    ifDeconfig (cs w1) = ifDeconfig (cs w) /\ cfg_packet w1 = cfg_packet w) (
  takes offer_event (fun _ _ => True) (fun w2 => granted (tick w2) [ch "s"%char] ->
  takes timer (fun _ _ => True) (fun w3 => granted (S (tick w3)) [ch "A"%char; ch "a"%char] ->
  takes grant_event (fun _ _ => True) (fun w4 => unanswered over w4 ->
  wp (dhcp_handle over) (fun _ _ => False)
    (fun h _ => h = HSuicide "Failed to set the interface IP address and properties!") w4) w3) w2)) w /\
  wp (_ ← dhcp_handle expiry; _ ← dhcp_handle offer_event; _ ← dhcp_handle timer; _ ← dhcp_handle grant_event;
      dhcp_handle over)
    (fun _ _ => False)
    (fun h w' => h = HSuicide "Failed to set the interface IP address and properties!" /\
       clientAddr (cs w') = of_le [192; 168; 0; 9]) w.
Proof.
  intros E w s expiry timer over. split; [|vm_compute; by split].
  apply (expired_lease_again_fatal (H := E) expiry offer_event timer grant_event over s s w).
  - by apply sample_env_friendly.
  - split; [done|exact sample_config_ok|done|done].
  - done.
  - done.
  - by split_and!.
  - exists (ch "s"%char), 9. split_and!; [done|done|by constructor].
  - by split_and!.
  - by split_and!.
  - by split_and!.
  - by apply bind_command_same.
Defined.
