(* ===== verification/Bpf.v ===== *)
(** The packet filters of [sockd.c], which are programs of the classical BPF
    machine: the instructions those programs use, their execution, the three
    filters as they stand in the source, what each accepts, and how that compares
    with the checks [dhcp.c] and [arp.c] make when no filter could be installed.

    The machine is the documented one of [linux/filter.h]: 32-bit registers A and
    X, sixteen scratch words, big-endian loads from the packet, jumps forward
    only; a load outside of the packet ends the program with 0.  The result is the
    number of bytes the socket receives of the packet, 0 drops it. *)

From S2P Require Import Prelude Types Options World Samples Ipc Ifchange Leasefile Dhcp Arp.

(** * The machine *)

(** [BPF_B], [BPF_H], [BPF_W]: the bytes of a load. *)
Definition BPF_B : Z := 1.
Definition BPF_H : Z := 2.
Definition BPF_W : Z := 4.

Inductive sock_filter :=
| LD_ABS (size k : Z)          (** [BPF_LD + size + BPF_ABS] *)
| LD_IND (size k : Z)          (** [BPF_LD + size + BPF_IND] *)
| LD_MEM (k : Z)               (** [BPF_LD + BPF_MEM] *)
| LDX_MSH (k : Z)              (** [BPF_LDX + BPF_B + BPF_MSH] *)
| STORE (k : Z)                (** [BPF_ST] *)
| SUB_K (k : Z)                (** [BPF_ALU + BPF_SUB + BPF_K] *)
| TAX                          (** [BPF_MISC + BPF_TAX] *)
| JEQ_K (k : Z) (jt jf : nat) | JEQ_X (jt jf : nat) | JSET_K (k : Z) (jt jf : nat)
| RET_K (k : Z) | RET_A.

Record bpf_state := mk_bpf { reg_A : Z; reg_X : Z; mem : Z -> Z }.

Definition bpf_load (p : list Z) (off size : Z) : option Z :=
  d ← rd_range p off size; Some (of_le (rev d)).

(** The program is what is left of it from the program counter on; [None] when it
    falls off its end. *)
Fixpoint bpf_exec (fuel : nat) (prog : list sock_filter) (p : list Z) (s : bpf_state)
  : option Z :=
  match fuel, prog with
  | O, _ | _, [] => None
  | S fuel, i :: rest =>
    let loaded (o : option Z) (k : Z -> bpf_state) :=
      match o with None => Some 0 | Some v => bpf_exec fuel rest p (k v) end in
    let jump (b : bool) (jt jf : nat) := bpf_exec fuel (drop (if b then jt else jf) rest) p s in
    match i with
    | LD_ABS size k => loaded (bpf_load p k size) (fun v => mk_bpf v (reg_X s) (mem s))
    | LD_IND size k => loaded (bpf_load p (u32 (reg_X s + k)) size) (fun v => mk_bpf v (reg_X s) (mem s))
    | LD_MEM k => bpf_exec fuel rest p (mk_bpf (mem s k) (reg_X s) (mem s))
    | LDX_MSH k => loaded (bpf_load p k 1) (fun v => mk_bpf (reg_A s) (4 * Z.land v 0xf) (mem s))
    | STORE k => bpf_exec fuel rest p (mk_bpf (reg_A s) (reg_X s) (fn_update (mem s) k (reg_A s)))
    | SUB_K k => bpf_exec fuel rest p (mk_bpf (u32 (reg_A s - k)) (reg_X s) (mem s))
    | TAX => bpf_exec fuel rest p (mk_bpf (reg_A s) (reg_A s) (mem s))
    | JEQ_K k jt jf => jump (reg_A s =? k) jt jf
    | JEQ_X jt jf => jump (reg_A s =? reg_X s) jt jf
    | JSET_K k jt jf => jump (negb (Z.land (reg_A s) k =? 0)) jt jf
    | RET_K k => Some k
    | RET_A => Some (reg_A s)
    end
  end.

(** Jumps go forward only: an instruction is executed at most once. *)
Definition bpf_run (prog : list sock_filter) (p : list Z) : option Z :=
  bpf_exec (S (length prog)) prog p (mk_bpf 0 0 (fun _ => 0)).

(** * The filters *)

(** [sf_dhcp] of [create_raw_listen_socket]; the packet starts at its IP header. *)
Definition sf_dhcp : list sock_filter :=
  [ LD_ABS BPF_B 0; JEQ_K 0x45 1 0; RET_K 0;
    LD_ABS BPF_B 9; JEQ_K IPPROTO_UDP 1 0; RET_K 0;
    LD_ABS BPF_H 6; JSET_K 0x3fff 0 1; RET_K 0;
    LDX_MSH 0;
    LD_IND BPF_W 0; JEQ_K (Z.shiftl DHCP_SERVER_PORT 16 + DHCP_CLIENT_PORT) 1 0; RET_K 0;
    LD_IND BPF_H 4; TAX;
    LD_ABS BPF_H 2; STORE 0;
    SUB_K 20; JEQ_X 1 0; RET_K 0;
    LD_MEM 0; RET_A ].

(** The tests [sf_arp] of both ARP sockets begins with; the packet starts at its
    Ethernet header. *)
Definition sf_arp_head : list sock_filter :=
  [ LD_ABS BPF_W 12; JEQ_K (Z.lor (Z.shiftl ETH_P_ARP 16) ARPHRD_ETHER) 1 0; RET_K 0;
    LD_ABS BPF_W 16; JEQ_K (Z.lor (Z.shiftl ETH_P_IP 16) 0x0604) 1 0; RET_K 0 ].

(** [sf_arp] of [arp_set_bpf_basic]. *)
Definition sf_arp_basic : list sock_filter := sf_arp_head ++ [ RET_K 0x7fffffff ].

(** [sf_arp] of [arp_set_bpf_defense]: the address and the two parts of the
    hardware address are the integers that the code's [memcpy]s read. *)
Definition sf_arp_defense (client_addr : Z) (client_mac : list Z) : list sock_filter :=
  let mac4b := of_le (take 4 client_mac) in
  let mac2b := of_le (take 2 (drop 4 client_mac)) in
  sf_arp_head ++
  [ LD_ABS BPF_W 28; JEQ_K client_addr 1 0; RET_K 0;
    LD_ABS BPF_W 22; JEQ_K mac4b 1 0; RET_K 0x7fffffff;
    LD_ABS BPF_H 26; JEQ_K mac2b 1 0; RET_K 0x7fffffff;
    RET_K 0 ].

(** * Fields of a packet *)

(** The byte at [i], 0 outside of the packet. *)
Definition byte_at (p : list Z) (i : Z) : Z := default 0 (rd p i).
Definition be16 (p : list Z) (i : Z) : Z := 256 * byte_at p i + byte_at p (i + 1).

Lemma rd_byte_at p i : 0 <= i < zlen p -> rd p i = Some (byte_at p i).
Proof. intros Hi. unfold byte_at. by destruct (rd_Some p i Hi) as (v & -> & _). Qed.
Lemma byte_at_range p i : bytes_ok p = true -> 0 <= byte_at p i < 256.
Proof.
  intros Hp. unfold byte_at. destruct (rd p i) as [v|] eqn:E; cbn; [|lia].
  eapply bytes_ok_elem; [exact Hp|]. by eapply rd_elem.
Qed.
Lemma be16_range p i : bytes_ok p = true -> 0 <= be16 p i < 65536.
Proof.
  intros Hp. unfold be16. pose proof (byte_at_range p i Hp). pose proof (byte_at_range p (i + 1) Hp). lia.
Qed.

Lemma rd_range_cons p i n :
  0 <= i -> 0 < n -> i + n <= zlen p ->
  rd_range p i n = cons (byte_at p i) <$> rd_range p (i + 1) (n - 1).
Proof.
  intros Hi Hn Hl. unfold rd_range. replace (_ && _) with true by lia. replace (_ && _) with true by lia.
  cbn [fmap option_fmap option_map]. f_equal.
  pose proof (rd_byte_at p i ltac:(lia)) as Hb. unfold rd in Hb. replace (0 <=? i) with true in Hb by lia.
  rewrite (drop_S _ _ _ Hb). replace (Z.to_nat n) with (S (Z.to_nat (n - 1))) by lia.
  cbn [take]. by replace (Z.to_nat (i + 1)) with (S (Z.to_nat i)) by lia.
Qed.
Lemma rd_range_nil p i : 0 <= i <= zlen p -> rd_range p i 0 = Some [].
Proof. intros Hi. unfold rd_range. replace (_ && _) with true by lia. done. Qed.

Lemma rd_range_1b p i : 0 <= i -> i + 1 <= zlen p -> rd_range p i 1 = Some [byte_at p i].
Proof. intros. rewrite rd_range_cons, rd_range_nil by lia. done. Qed.
Lemma rd_range_2b p i :
  0 <= i -> i + 2 <= zlen p -> rd_range p i 2 = Some [byte_at p i; byte_at p (i + 1)].
Proof. intros. rewrite rd_range_cons by lia. change (2 - 1) with 1. rewrite rd_range_1b by lia. done. Qed.
Lemma rd_range_4b p i :
  0 <= i -> i + 4 <= zlen p ->
  rd_range p i 4 = Some [byte_at p i; byte_at p (i + 1); byte_at p (i + 2); byte_at p (i + 3)].
Proof.
  intros. do 2 rewrite rd_range_cons by lia. change (4 - 1 - 1) with 2. rewrite rd_range_2b by lia.
  cbn. by rewrite <- !Z.add_assoc.
Qed.

Lemma bpf_load_1 p i : 0 <= i -> i + 1 <= zlen p -> bpf_load p i 1 = Some (byte_at p i).
Proof. intros. unfold bpf_load. rewrite rd_range_1b by lia. cbn. f_equal. lia. Qed.
Lemma bpf_load_2 p i : 0 <= i -> i + 2 <= zlen p -> bpf_load p i 2 = Some (be16 p i).
Proof. intros. unfold bpf_load, be16. rewrite rd_range_2b by lia. cbn [mbind option_bind rev app of_le foldr]. f_equal. lia. Qed.
Lemma bpf_load_4 p i :
  0 <= i -> i + 4 <= zlen p -> bpf_load p i 4 = Some (65536 * be16 p i + be16 p (i + 2)).
Proof.
  intros. unfold bpf_load, be16. rewrite rd_range_4b by lia.
  cbn [mbind option_bind rev app of_le foldr]. rewrite <- Z.add_assoc. change (2 + 1) with 3. f_equal. lia.
Qed.

Lemma bpf_load_short p i n : zlen p < i + n -> bpf_load p i n = None.
Proof. intros Hl. unfold bpf_load, rd_range. replace (_ && _) with false by lia. done. Qed.

(** ** Stepping through a program *)

Section Steps.
Context (p : list Z) (fuel : nat) (rest : list sock_filter) (s : bpf_state).

Lemma exec_abs size k :
  bpf_exec (S fuel) (LD_ABS size k :: rest) p s =
  match bpf_load p k size with
  | None => Some 0
  | Some v => bpf_exec fuel rest p (mk_bpf v (reg_X s) (mem s))
  end.
Proof. reflexivity. Qed.
Lemma exec_jeq k jt jf :
  bpf_exec (S fuel) (JEQ_K k jt jf :: rest) p s =
  bpf_exec fuel (drop (if reg_A s =? k then jt else jf) rest) p s.
Proof. reflexivity. Qed.
Lemma exec_ret k : bpf_exec (S fuel) (RET_K k :: rest) p s = Some k.
Proof. reflexivity. Qed.
Lemma exec_ind size k :
  bpf_exec (S fuel) (LD_IND size k :: rest) p s =
  match bpf_load p (u32 (reg_X s + k)) size with
  | None => Some 0
  | Some v => bpf_exec fuel rest p (mk_bpf v (reg_X s) (mem s))
  end.
Proof. reflexivity. Qed.
Lemma exec_msh k :
  bpf_exec (S fuel) (LDX_MSH k :: rest) p s =
  match bpf_load p k 1 with
  | None => Some 0
  | Some v => bpf_exec fuel rest p (mk_bpf (reg_A s) (4 * Z.land v 0xf) (mem s))
  end.
Proof. reflexivity. Qed.
Lemma exec_jset k jt jf :
  bpf_exec (S fuel) (JSET_K k jt jf :: rest) p s =
  bpf_exec fuel (drop (if negb (Z.land (reg_A s) k =? 0) then jt else jf) rest) p s.
Proof. reflexivity. Qed.

End Steps.

(** The idiom of the filters: load a field, return 0 unless it has a value. *)
Lemma exec_require p fuel rest s size k v :
  bpf_exec (S (S (S fuel))) (LD_ABS size k :: JEQ_K v 1 0 :: RET_K 0 :: rest) p s =
  match bpf_load p k size with
  | None => Some 0
  | Some a => if a =? v then bpf_exec (S fuel) rest p (mk_bpf a (reg_X s) (mem s)) else Some 0
  end.
Proof.
  rewrite exec_abs. destruct (bpf_load p k size) as [a|]; [|done].
  rewrite exec_jeq. cbn [reg_A]. by destruct (a =? v).
Qed.

(** * What the filters accept *)

(** An unfragmented UDP datagram without IP options from the server port to the
    client port whose two lengths agree. *)
Definition dhcp_wanted (p : list Z) : bool :=
  (byte_at p 0 =? 0x45) && (byte_at p 9 =? IPPROTO_UDP) && (Z.land (be16 p 6) 0x3fff =? 0) &&
  (be16 p 20 =? DHCP_SERVER_PORT) && (be16 p 22 =? DHCP_CLIENT_PORT) &&
  (be16 p 2 =? be16 p 24 + sizeof_iphdr).

Lemma be16_words p i a b :
  bytes_ok p = true -> 0 <= a < 65536 -> 0 <= b < 65536 ->
  (65536 * be16 p i + be16 p (i + 2) =? 65536 * a + b) = (be16 p i =? a) && (be16 p (i + 2) =? b).
Proof.
  intros Hp Ha Hb. pose proof (be16_range p i Hp). pose proof (be16_range p (i + 2) Hp).
  destruct (Z.eqb_spec (be16 p i) a), (Z.eqb_spec (be16 p (i + 2)) b); cbn [andb]; lia.
Qed.

(** The end of [sf_dhcp]: A is the UDP length; the IP length must exceed it by the
    header, and is returned. *)
Lemma exec_tail p fuel s :
  bytes_ok p = true -> 0 <= reg_A s < 65536 ->
  bpf_exec (8 + fuel) [TAX; LD_ABS BPF_H 2; STORE 0; SUB_K 20; JEQ_X 1 0; RET_K 0; LD_MEM 0; RET_A] p s =
  match bpf_load p 2 2 with
  | None => Some 0
  | Some _ => Some (if be16 p 2 =? reg_A s + sizeof_iphdr then be16 p 2 else 0)
  end.
Proof.
  intros Hp Ha. pose proof (be16_range p 2 Hp) as Hr.
  change (8 + fuel)%nat with (S (S (6 + fuel))).
  change (bpf_exec (S (S (6 + fuel))) (TAX :: LD_ABS BPF_H 2 :: ?r) p s)
    with (bpf_exec (S (6 + fuel)) (LD_ABS BPF_H 2 :: r) p (mk_bpf (reg_A s) (reg_A s) (mem s))).
  rewrite exec_abs. unfold BPF_H.
  destruct (Z.leb_spec 4 (zlen p)); [|by rewrite bpf_load_short by lia].
  rewrite bpf_load_2 by lia. unfold sizeof_iphdr.
  assert (E : (u32 (be16 p 2 - 20) =? reg_A s) = (be16 p 2 =? reg_A s + 20)).
  { unfold u32. destruct (Z.ltb_spec (be16 p 2) 20).
    - rewrite <- (Z.mod_unique (be16 p 2 - 20) (2 ^ 32) (-1) (be16 p 2 - 20 + 2 ^ 32)) by lia. lia.
    - rewrite Z.mod_small by lia. lia. }
  rewrite <- E. generalize (be16 p 2). intros v. 
  cbn [Nat.add]. cbn -[u32 Z.sub Z.eqb]. by destruct (u32 (v - 20) =? reg_A s).
Qed.

Lemma sf_dhcp_accepts (p : list Z) :
  bytes_ok p = true ->
  bpf_run sf_dhcp p = Some (if (26 <=? zlen p) && dhcp_wanted p then be16 p 2 else 0).
Proof.
  intros Hp. unfold bpf_run, sf_dhcp, dhcp_wanted. cbn [length].
  pose proof (zlen_nonneg p).
  destruct (Z.leb_spec 26 (zlen p)) as [Hl|Hl]; cbn [andb].
  - rewrite exec_require. unfold BPF_B, BPF_H, BPF_W.
    rewrite bpf_load_1 by lia. destruct (Z.eqb_spec (byte_at p 0) 0x45) as [E0|]; cbn [andb]; [|done].
    rewrite exec_require. rewrite bpf_load_1 by lia.
    destruct (byte_at p 9 =? IPPROTO_UDP); cbn [andb]; [|done].
    rewrite exec_abs. rewrite bpf_load_2 by lia. rewrite exec_jset. cbn [reg_A].
    destruct (Z.land (be16 p 6) 0x3fff =? 0); cbn [negb andb drop]; [|done].
    rewrite exec_msh. rewrite bpf_load_1 by lia. rewrite exec_ind. cbn [reg_X]. rewrite E0.
    change (u32 (4 * Z.land 69 15 + 0)) with 20.
    rewrite bpf_load_4 by lia. rewrite exec_jeq. cbn [reg_A].
    change (Z.shiftl DHCP_SERVER_PORT 16 + DHCP_CLIENT_PORT) with (65536 * DHCP_SERVER_PORT + DHCP_CLIENT_PORT).
    rewrite be16_words by (done || (unfold DHCP_SERVER_PORT, DHCP_CLIENT_PORT; lia)).
    change (20 + 2) with 22.
    destruct (be16 p 20 =? DHCP_SERVER_PORT); cbn [andb drop]; [|done].
    destruct (be16 p 22 =? DHCP_CLIENT_PORT); cbn [andb drop]; [|done].
    rewrite exec_ind. cbn [reg_X]. change (u32 (4 * Z.land 69 15 + 4)) with 24.
    rewrite bpf_load_2 by lia. etrans; [apply (exec_tail p 5); [done|by apply be16_range]|].
    by rewrite bpf_load_2 by lia.
  - rewrite exec_require. unfold BPF_B, BPF_H, BPF_W.
    destruct (bpf_load p 0 1) as [a|] eqn:Ea; [|done]. destruct (Z.eqb_spec a 69) as [->|]; [|done].
    rewrite exec_require. destruct (bpf_load p 9 1) as [b|]; [|done]. destruct (b =? _); [|done].
    rewrite exec_abs. destruct (bpf_load p 6 2) as [c|]; [|done]. rewrite exec_jset.
    destruct (negb _); cbn [drop]; [done|]. rewrite exec_msh, Ea, exec_ind. cbn [reg_X].
    change (u32 (4 * Z.land 69 15 + 0)) with 20.
    destruct (bpf_load p 20 4) as [d|]; [|done]. rewrite exec_jeq. destruct (_ =? _); [|done].
    cbn [drop]. rewrite exec_ind. cbn [reg_X]. change (u32 (4 * Z.land 69 15 + 4)) with 24.
    by rewrite (bpf_load_short p 24 2) by lia.
Qed.

(** ** The emulation of the filters *)

(** What a receive buffer of [size] bytes holds after receiving [p]. *)
Definition received (p : list Z) (size : nat) : list Z := p ++ zeros (size - length p).

Lemma byte_at_received p size i : 0 <= i < zlen p -> byte_at (received p size) i = byte_at p i.
Proof. intros Hi. unfold byte_at, received. by rewrite rd_app_l by lia. Qed.
Lemma be16_received p size i :
  0 <= i -> i + 2 <= zlen p -> be16 (received p size) i = be16 p i.
Proof. intros. unfold be16. by rewrite !byte_at_received by lia. Qed.
Lemma received_len p size : (length p <= size)%nat -> zlen (received p size) = Z.of_nat size.
Proof. intros Hl. unfold received, zeros. autorewrite with buf. unfold zlen. lia. Qed.

Lemma received_ok p size : bytes_ok p = true -> bytes_ok (received p size) = true.
Proof. intros Hp. unfold received. rewrite bytes_ok_app, Hp. apply bytes_ok_zeros. Qed.

(** A 16-bit field read as the code reads it. *)
Lemma field16 p i :
  bytes_ok p = true -> 0 <= i -> i + 2 <= zlen p ->
  exists v, rd_range p i 2 = Some v /\ ntohs (of_le v) = be16 p i /\
    forall k, 0 <= k < 65536 -> (of_le v =? htons k) = (be16 p i =? k).
Proof.
  intros Hp Hi Hl. eexists. split; [by apply rd_range_2b|].
  pose proof (byte_at_range p i Hp). pose proof (byte_at_range p (i + 1) Hp).
  assert (E : ntohs (of_le [byte_at p i; byte_at p (i + 1)]) = be16 p i).
  { unfold ntohs, htons. rewrite le16_of_le by (unfold bytes_ok, byte_ok; cbn [forallb]; lia).
    unfold be16. cbn [rev app of_le foldr]. lia. }
  split; [exact E|]. intros k Hk. rewrite <- E. unfold ntohs.
  set (v := of_le _). assert (Hv : 0 <= v < 2 ^ 16) by (subst v; cbn [of_le foldr]; lia).
  destruct (Z.eqb_spec v (htons k)) as [->|Hne]; [rewrite htons_htons by lia; lia|].
  destruct (Z.eqb_spec (htons v) k) as [<-|]; [|done]. by rewrite htons_htons in Hne.
Qed.

Lemma byte_45 b : 0 <= b < 256 -> (b =? 0x45) = (b / 16 =? 4) && (b mod 16 =? 5).
Proof. intros Hb. destruct (Z.eqb_spec (b / 16) 4), (Z.eqb_spec (b mod 16) 5); cbn [andb]; Z.div_mod_to_equations; lia. Qed.

Lemma validate_bpf_fields b :
  bytes_ok b = true -> 28 <= zlen b ->
  get_raw_packet_validate_bpf b =
    Some ((byte_at b 0 =? 0x45) && (byte_at b 9 =? IPPROTO_UDP) && (be16 b 22 =? DHCP_CLIENT_PORT) &&
          (be16 b 24 =? size_t (be16 b 2 - sizeof_iphdr))).
Proof.
  intros Hb Hl. unfold get_raw_packet_validate_bpf, ip_version, ip_ihl, ip_protocol, udp_dest, udp_len, ip_tot_len.
  rewrite !rd_byte_at by lia. cbn [mbind option_bind].
  destruct (field16 b 22 Hb) as (d & -> & Ed & _); [lia..|].
  destruct (field16 b 24 Hb) as (l & -> & El & _); [lia..|].
  destruct (field16 b 2 Hb) as (t & -> & Et & _); [lia..|].
  cbn [fmap option_fmap option_map mbind option_bind]. rewrite Ed, El, Et.
  rewrite byte_45 by by apply byte_at_range. unfold IPVERSION.
  destruct (_ / 16 =? 4); cbn [negb andb]; [|done]. destruct (_ mod 16 =? 5); cbn [negb andb]; [|done].
  destruct (_ =? IPPROTO_UDP); cbn [negb andb]; [|done]. by destruct (_ =? DHCP_CLIENT_PORT).
Qed.

(** C30. The kernel's DHCP filter and its emulation in [dhcp.c]: a packet passes the
    filter, and then with exactly the length its IP header claims, if and only if
    it passes the emulated checks and two that the emulation leaves out: it is not
    a fragment, and it comes from the server port.  So a packet that the filter
    accepts is never dropped by the emulation. *)
Theorem sf_dhcp_vs_emulation (p : list Z) :
  bytes_ok p = true -> 28 <= zlen p <= sizeof_ip_udp_dhcp_packet ->
  exists n, bpf_run sf_dhcp p = Some n /\
    (n <> 0 <->
     get_raw_packet_validate_bpf (received p (Z.to_nat sizeof_ip_udp_dhcp_packet)) = Some true /\
     Z.land (be16 p 6) 0x3fff = 0 /\ be16 p 20 = DHCP_SERVER_PORT) /\
    (n <> 0 -> n = be16 p 2).
Proof.
  intros Hp [Hl Hu]. rewrite sf_dhcp_accepts by done. eexists. split; [done|].
  replace (26 <=? zlen p) with true by lia. cbn [andb].
  pose proof (be16_range p 2 Hp) as R2. pose proof (be16_range p 24 Hp) as R24.
  assert (Hlen : zlen (received p (Z.to_nat sizeof_ip_udp_dhcp_packet)) = sizeof_ip_udp_dhcp_packet).
  { rewrite received_len; [unfold sizeof_ip_udp_dhcp_packet in *; lia|]. unfold zlen in *. lia. }
  rewrite validate_bpf_fields.
  2: { by apply received_ok. }
  2: { rewrite Hlen. vm_compute. discriminate. }
  rewrite !byte_at_received, !be16_received by lia.
  assert (Hs : (be16 p 24 =? size_t (be16 p 2 - sizeof_iphdr)) = (be16 p 2 =? be16 p 24 + sizeof_iphdr)).
  { unfold size_t, sizeof_iphdr. destruct (Z.ltb_spec (be16 p 2) 20).
    - rewrite <- (Z.mod_unique (be16 p 2 - 20) (2 ^ 64) (-1) (be16 p 2 - 20 + 2 ^ 64)) by lia. lia.
    - rewrite Z.mod_small by lia. lia. }
  rewrite Hs. unfold dhcp_wanted, sizeof_iphdr.
  destruct (byte_at p 0 =? 69); cbn [andb]; [|split; [split; [lia|by intros [? _]]|lia]].
  destruct (byte_at p 9 =? IPPROTO_UDP); cbn [andb]; [|split; [split; [lia|by intros [? _]]|lia]].
  destruct (be16 p 22 =? DHCP_CLIENT_PORT); rewrite ?andb_false_r; cbn [andb];
    [|split; [split; [lia|by intros [? _]]|lia]].
  rewrite andb_true_r.
  destruct (Z.eqb_spec (be16 p 2) (be16 p 24 + 20)); rewrite ?andb_false_r, ?andb_true_r;
    [|split; [split; [lia|by intros [? _]]|lia]].
  destruct (Z.eqb_spec (Z.land (be16 p 6) 0x3fff) 0), (Z.eqb_spec (be16 p 20) DHCP_SERVER_PORT); cbn [andb];
    (split; [split; [try lia; auto|intros (_ & ? & ?); try lia; contradiction]|lia]).
Qed.

(** A packet with only headers, from the server port or from another one. *)
Definition dhcp_packet_from (port : Z) : list Z :=
  [0x45; 0; 0; 28; 0; 0; 0; 0; 64; 17; 0; 0; 192; 168; 0; 1; 255; 255; 255; 255;
   port / 256; port mod 256; 0; 68; 0; 8; 0; 0].

Lemma sf_dhcp_vs_emulation_witness :
  let p := dhcp_packet_from 67 in
  (exists n, bpf_run sf_dhcp p = Some n /\
    (n <> 0 <->
     get_raw_packet_validate_bpf (received p (Z.to_nat sizeof_ip_udp_dhcp_packet)) = Some true /\
     Z.land (be16 p 6) 0x3fff = 0 /\ be16 p 20 = DHCP_SERVER_PORT) /\
    (n <> 0 -> n = be16 p 2)) /\
  bpf_run sf_dhcp p = Some 28 /\ bpf_run sf_dhcp (dhcp_packet_from 68) = Some 0 /\
  get_raw_packet_validate_bpf (received (dhcp_packet_from 68) 576) = Some true.
Proof.
  intros p. split; [|vm_compute; done].
  apply (sf_dhcp_vs_emulation p); [vm_compute; reflexivity|vm_compute; split; discriminate].
Defined.

(** ** The ARP filters *)

(** The fields of a received frame, whatever its padding. *)
Lemma arp_fields p :
  bytes_ok p = true -> ARP_MSG_SIZE <= zlen p <= sizeof_arpMsg ->
  exists am, arpMsg_of_bytes (received p (Z.to_nat sizeof_arpMsg)) = Some am /\
    smac am = [byte_at p 22; byte_at p 23; byte_at p 24; byte_at p 25; byte_at p 26; byte_at p 27] /\
    sip4 am = [byte_at p 28; byte_at p 29; byte_at p 30; byte_at p 31] /\
    arp_validate_bpf am =
      (be16 p 12 =? ETH_P_ARP) && (be16 p 14 =? ARPHRD_ETHER) &&
      ((be16 p 16 =? ETH_P_IP) && (be16 p 18 =? 0x0604)).
Proof.
  unfold ARP_MSG_SIZE, sizeof_arpMsg. intros Hp [Hl Hu].
  set (b := received p _). assert (Hb : zlen b = 60) by (apply received_len; unfold zlen in *; lia).
  pose proof (received_ok p (Z.to_nat 60) Hp) as Hok. fold b in Hok.
  assert (Hat : forall i, 0 <= i < zlen p -> byte_at b i = byte_at p i) by (intros; by apply byte_at_received).
  assert (H16 : forall i, 0 <= i -> i + 2 <= zlen p -> be16 b i = be16 p i) by (intros; by apply be16_received).
  unfold arpMsg_of_bytes.
  destruct (rd_range_Some b 0x00 6) as (? & -> & _); [lia..|].
  destruct (rd_range_Some b 0x06 6) as (? & -> & _); [lia..|].
  destruct (field16 b 0x0c Hok) as (pr & -> & _ & Epr); [lia..|].
  destruct (field16 b 0x0e Hok) as (ht & -> & _ & Eht); [lia..|].
  destruct (field16 b 0x10 Hok) as (pt & -> & _ & Ept); [lia..|].
  rewrite !(rd_byte_at b) by lia.
  destruct (rd_range_Some b 0x14 2) as (? & -> & _); [lia..|].
  destruct (rd_range_Some b 0x20 6) as (? & -> & _); [lia..|].
  destruct (rd_range_Some b 0x26 4) as (? & -> & _); [lia..|].
  destruct (rd_range_Some b 0x2a 18) as (? & -> & _); [lia..|].
  rewrite (rd_range_4b b 0x1c) by lia.
  assert (E6 : rd_range b 0x16 6 = Some [byte_at b 22; byte_at b 23; byte_at b 24; byte_at b 25; byte_at b 26; byte_at b 27]).
  { rewrite rd_range_cons, rd_range_cons by lia. change (0x16 + 1 + 1) with 24. change (6 - 1 - 1) with 4.
    rewrite rd_range_4b by lia. reflexivity. }
  rewrite E6. cbn [mbind option_bind]. eexists. split; [done|]. cbn [smac sip4].
  split; [by rewrite !Hat by lia|]. split.
  { change (0x1c + 1) with 29. change (0x1c + 2) with 30. change (0x1c + 3) with 31. by rewrite !Hat by lia. }
  unfold arp_validate_bpf. cbn [h_proto a_htype a_ptype a_hlen a_plen].
  rewrite Epr, Eht, Ept by (unfold ETH_P_ARP, ARPHRD_ETHER, ETH_P_IP; lia).
  rewrite !H16, !Hat by lia.
  assert (E18 : (be16 p 18 =? 0x0604) = (byte_at p 18 =? 6) && (byte_at p 19 =? 4)).
  { unfold be16. change (18 + 1) with 19.
    pose proof (byte_at_range p 18 Hp). pose proof (byte_at_range p 19 Hp).
    destruct (Z.eqb_spec (byte_at p 18) 6), (Z.eqb_spec (byte_at p 19) 4); cbn [andb]; lia. }
  rewrite E18. change 0x0c with 12. change 0x0e with 14. change 0x10 with 16. change 0x12 with 18. change 0x13 with 19.
  by destruct (be16 p 12 =? ETH_P_ARP), (be16 p 14 =? ARPHRD_ETHER), (be16 p 16 =? ETH_P_IP), (byte_at p 18 =? 6), (byte_at p 19 =? 4).
Qed.

(** The tests both ARP filters begin with. *)
Lemma exec_arp_head p fuel rest s :
  bytes_ok p = true -> 20 <= zlen p ->
  exists s', mem s' = mem s /\
  bpf_exec (6 + fuel) (sf_arp_head ++ rest) p s =
    if (be16 p 12 =? ETH_P_ARP) && (be16 p 14 =? ARPHRD_ETHER) &&
       ((be16 p 16 =? ETH_P_IP) && (be16 p 18 =? 0x0604))
    then bpf_exec (2 + fuel) rest p s' else Some 0.
Proof.
  intros Hp Hl. eexists. split; [|]; cycle 1.
  - unfold sf_arp_head. cbn [app]. change (6 + fuel)%nat with (S (S (S (3 + fuel)))).
    rewrite exec_require. unfold BPF_W. rewrite bpf_load_4 by lia.
    change (Z.lor (Z.shiftl ETH_P_ARP 16) ARPHRD_ETHER) with (65536 * ETH_P_ARP + ARPHRD_ETHER).
    rewrite be16_words by (done || (unfold ETH_P_ARP, ARPHRD_ETHER; lia)). change (12 + 2) with 14.
    destruct (_ && _); cbn [andb]; [|reflexivity].
    change (S (3 + fuel)) with (S (S (S (1 + fuel)))). rewrite exec_require. rewrite bpf_load_4 by lia.
    change (Z.lor (Z.shiftl ETH_P_IP 16) 0x0604) with (65536 * ETH_P_IP + 0x0604).
    rewrite be16_words by (done || (unfold ETH_P_IP; lia)). change (16 + 2) with 18.
    destruct (_ && _); reflexivity.
  - reflexivity.
Qed.

(** C33. The filter of the basic ARP socket and its emulation [arp_validate_bpf]
    agree on every frame that is long enough to be looked at: the filter passes
    the whole frame exactly when the emulation accepts it. *)
Theorem sf_arp_basic_emulated (p : list Z) :
  bytes_ok p = true -> ARP_MSG_SIZE <= zlen p <= sizeof_arpMsg ->
  exists am, arpMsg_of_bytes (received p (Z.to_nat sizeof_arpMsg)) = Some am /\
    bpf_run sf_arp_basic p = Some (if arp_validate_bpf am then 0x7fffffff else 0).
Proof.
  intros Hp Hl. destruct (arp_fields p Hp Hl) as (am & Ham & _ & _ & Hv).
  exists am. split; [done|]. rewrite Hv. unfold ARP_MSG_SIZE in Hl.
  destruct (exec_arp_head p 2 [RET_K 0x7fffffff] (mk_bpf 0 0 (fun _ => 0)) Hp) as (s' & _ & E); [lia|].
  etrans; [exact E|]. by destruct (_ && _).
Qed.

(** An ARP reply of another host for the client's address, as a frame. *)
Definition attack_frame : list Z :=
  [2; 17; 34; 51; 68; 85; 2; 9; 9; 9; 9; 9; 8; 6; 0; 1; 8; 0; 6; 4; 0; 2;
   2; 9; 9; 9; 9; 9; 192; 168; 0; 9; 2; 17; 34; 51; 68; 85; 192; 168; 0; 9].

Lemma sf_arp_basic_emulated_witness :
  (exists am, arpMsg_of_bytes (received attack_frame (Z.to_nat sizeof_arpMsg)) = Some am /\
    bpf_run sf_arp_basic attack_frame = Some (if arp_validate_bpf am then 0x7fffffff else 0)) /\
  bpf_run sf_arp_basic attack_frame = Some 0x7fffffff.
Proof.
  split; [|vm_compute; reflexivity].
  apply (sf_arp_basic_emulated attack_frame); vm_compute; [reflexivity|split; discriminate].
Defined.

(** The filter of the defense socket compares fields that the kernel loads in
    network order with integers that hold the client's addresses in host order:
    on a little-endian host it passes exactly the frames that come from the
    client's IP address with its bytes reversed.  A frame of another host that
    uses the client's address, which the emulation would pass, is dropped,
    unless the address reads the same backwards. *)
Theorem sf_arp_defense_byte_order (cc : client_config_t) (c : client_state_t) (p : list Z) :
  bytes_ok p = true -> ARP_MSG_SIZE <= zlen p <= sizeof_arpMsg ->
  exists am n, arpMsg_of_bytes (received p (Z.to_nat sizeof_arpMsg)) = Some am /\
    bpf_run (sf_arp_defense (clientAddr c) (arp cc)) p = Some n /\
    (n <> 0 -> arp_validate_bpf am = true /\ sip4 am = rev (le32 (clientAddr c))) /\
    (arp_validate_bpf_defense cc c am = true -> rev (le32 (clientAddr c)) <> le32 (clientAddr c) ->
     n = 0).
Proof.
  intros Hp Hl. destruct (arp_fields p Hp Hl) as (am & Ham & Hm & Hs & Hv).
  exists am. unfold ARP_MSG_SIZE in Hl.
  assert (Hn : exists n, bpf_run (sf_arp_defense (clientAddr c) (arp cc)) p = Some n /\
    (n <> 0 -> arp_validate_bpf am = true /\ sip4 am = rev (le32 (clientAddr c)))).
  { unfold bpf_run, sf_arp_defense.
    set (rest := LD_ABS BPF_W 28 :: _). set (s := mk_bpf 0 0 _).
    destruct (exec_arp_head p 11 rest s Hp) as (s' & _ & E); [lia|].
    rewrite Hv. assert (E' : bpf_exec (S (length (sf_arp_head ++ rest))) (sf_arp_head ++ rest) p s
      = bpf_exec (6 + 11) (sf_arp_head ++ rest) p s) by reflexivity.
    rewrite E', E. clear E E'. destruct (_ && _); [|by exists 0].
    subst rest. change (2 + 11)%nat with (S (S (S 10))). rewrite exec_require. unfold BPF_W, BPF_H.
    rewrite bpf_load_4 by lia. zcase; [|by exists 0].
    assert (Hsip : sip4 am = rev (le32 (clientAddr c))).
    { rewrite <- Hz, Hs. unfold be16. change (28 + 1) with 29. change (28 + 2) with 30. change (30 + 1) with 31.
      pose proof (byte_at_range p 28 Hp). pose proof (byte_at_range p 29 Hp).
      pose proof (byte_at_range p 30 Hp). pose proof (byte_at_range p 31 Hp).
      set (q := [byte_at p 31; byte_at p 30; byte_at p 29; byte_at p 28]).
      assert (Eq : 65536 * (256 * byte_at p 28 + byte_at p 29) + (256 * byte_at p 30 + byte_at p 31) = of_le q)
        by (subst q; cbn [of_le foldr]; lia).
      rewrite Eq. subst q. rewrite le32_of_le by (unfold bytes_ok, byte_ok; cbn [forallb]; lia). reflexivity. }
    rewrite exec_abs. rewrite bpf_load_4 by lia. rewrite exec_jeq. destruct (_ =? _); cbn [drop]; [|rewrite exec_ret; eauto].
    rewrite exec_abs. rewrite bpf_load_2 by lia. rewrite exec_jeq. destruct (_ =? _); cbn [drop]; rewrite exec_ret; [exists 0|]; eauto. }
  destruct Hn as (n & Hn & Hn'). exists n. split_and!; [done|done|done|].
  intros Hd Hne. destruct (Z.eq_dec n 0) as [|Hn0]; [done|]. exfalso.
  destruct (Hn' Hn0) as [_ Hsip]. unfold arp_validate_bpf_defense, bytes_eqb in Hd.
  case_bool_decide as Heq; [|done]. apply Hne. congruence.
Qed.

(** 192.168.0.9 is attacked: the emulation would report it, the filter drops it. *)
Lemma sf_arp_defense_byte_order_witness :
  let c := initial_cs <| clientAddr := of_le [192; 168; 0; 9] |> in
  (exists am n, arpMsg_of_bytes (received attack_frame (Z.to_nat sizeof_arpMsg)) = Some am /\
    bpf_run (sf_arp_defense (clientAddr c) (arp sample_config)) attack_frame = Some n /\
    (n <> 0 -> arp_validate_bpf am = true /\ sip4 am = rev (le32 (clientAddr c))) /\
    (arp_validate_bpf_defense sample_config c am = true ->
     rev (le32 (clientAddr c)) <> le32 (clientAddr c) -> n = 0)) /\
  bpf_run (sf_arp_defense (clientAddr c) (arp sample_config)) attack_frame = Some 0 /\
  (arp_validate_bpf_defense sample_config c <$>
     arpMsg_of_bytes (received attack_frame (Z.to_nat sizeof_arpMsg))) = Some true.
Proof.
  intros c. split; [|vm_compute; done].
  apply (sf_arp_defense_byte_order sample_config c attack_frame);
    [vm_compute; reflexivity|vm_compute; split; discriminate].
Defined.
