(* ===== verification/Sockd.v ===== *)
(** The server side of [sockd.c]: the privileged process that opens sockets for
    the master and passes their descriptors to it, and its agreement with the
    master's requests.

    ndhc-sockd has its own memory: a receive buffer and a copy of the
    configuration made when it was forked.  What its system calls answer is the
    class [SockdEnv], indexed by the number of calls made so far. *)

From S2P Require Import Prelude Types Options World Samples Ipc Ifchange Leasefile Dhcp Arp Bpf.

Inductive sockd_action :=
| SSocket (domain : string) (protocol : Z)     (** [socket] *)
| SOption (fd : Z) (opt : string)              (** [setsockopt], [fcntl(F_SETFL)] *)
| SAttach (fd : Z) (prog : list sock_filter)   (** [SO_ATTACH_FILTER] *)
| SLock (fd : Z)                               (** [SO_LOCK_FILTER] *)
| SBindPacket (fd protocol ifindex : Z) (broadcast : bool)
| SBindUdp (fd ip port : Z)
| SXfer (fd cmd : Z)                           (** [sendmsg] with SCM_RIGHTS *)
| SClose (fd : Z).

Class SockdEnv := {
  sk_socket : nat -> Z;          (** a descriptor or -1 *)
  sk_call : nat -> Z;            (** result of [setsockopt], [fcntl], [bind] *)
  sk_sendmsg : nat -> bool;      (** final result, after the EINTR retries *)
  sk_recv : nat -> read_reply    (** [safe_recv]; no data at end of file *)
}.

Record sockd_world := mk_sockd_world {
  sk_buf : list Z; sk_buflen : Z;        (** [process_client_socket: buf, buflen] *)
  sk_config : client_config_t;
  sk_tick : nat; sk_trace : list sockd_action
}.
#[export] Instance sockd_world_eta : Eta sockd_world := fun r =>
  mk_sockd_world (sk_buf r) (sk_buflen r) (sk_config r) (sk_tick r) (sk_trace r).

Notation SM := (St sockd_world).

Section Sockd.
Context `{!SockdEnv}.

(** A system call: it is recorded, and answered by [f]. *)
Definition syscall {A} (a : sockd_action) (f : nat -> A) : SM A :=
  modify (fun w => w <| sk_trace ::= cons a |>);;
  t ← gets sk_tick;
  modify (fun w => w <| sk_tick ::= S |>);;
  mret (f t).

Definition sclose (fd : Z) : SM unit := modify (fun w => w <| sk_trace ::= cons (SClose fd) |>).

(** [if (call < 0) goto out_fd;] around the rest of a function that returns [fd]. *)
Definition or_close (fd : Z) (a : sockd_action) (k : SM Z) : SM Z :=
  r ← syscall a sk_call;
  if r <? 0 then sclose fd;; mret (-1) else k.

Definition create_arp_socket : SM Z :=
  fd ← syscall (SSocket "AF_PACKET SOCK_RAW" (htons ETH_P_ARP)) sk_socket;
  if fd <? 0 then mret (-1)
  else
    cc ← gets sk_config;
    or_close fd (SOption fd "SO_BROADCAST") (
    or_close fd (SOption fd "O_NONBLOCK") (
    or_close fd (SBindPacket fd (htons ETH_P_ARP) (ifindex cc) false) (
    mret fd))).

Definition create_udp_socket (ip port : Z) (iface : list Z) : SM Z :=
  fd ← syscall (SSocket "AF_INET SOCK_DGRAM" IPPROTO_UDP) sk_socket;
  if fd <? 0 then mret (-1)
  else
    or_close fd (SOption fd "SO_REUSEADDR") (
    or_close fd (SOption fd "SO_DONTROUTE") (
    sl ← ub (strlen iface);
    if 16 <=? sl then sclose fd;; mret (-1)
    else
      or_close fd (SOption fd "SO_BINDTODEVICE") (
      or_close fd (SOption fd "O_NONBLOCK") (
      or_close fd (SBindUdp fd ip (htons port)) (
      mret fd))))).

(** The result and [*using_bpf]. *)
Definition create_raw_socket (broadcast : bool) (filter_prog : option (list sock_filter))
  : SM (Z * bool) :=
  fd ← syscall (SSocket "AF_PACKET SOCK_DGRAM" (htons ETH_P_IP)) sk_socket;
  if fd <? 0 then mret (-1, false)
  else
    cc ← gets sk_config;
    bpf ← (match filter_prog with
           | None => mret false
           | Some prog =>
             r ← syscall (SAttach fd prog) sk_call;
             if 0 <=? r then r ← syscall (SLock fd) sk_call; mret (0 <=? r)
             else mret false
           end);
    fd ← or_close fd (SOption fd "SO_DONTROUTE") (
         or_close fd (SOption fd "O_NONBLOCK") (
         or_close fd (SBindPacket fd (htons ETH_P_IP) (ifindex cc) broadcast) (
         mret fd)));
    mret (fd, bpf).

(** When [socket] fails the code leaves [*using_bpf] unset; transferring the
    descriptor -1 then ends the process. *)
Definition create_raw_listen_socket : SM (Z * bool) := create_raw_socket false (Some sf_dhcp).
Definition create_raw_broadcast_socket : SM Z := r ← create_raw_socket true None; mret r.1.

(** [int ret = setsockopt(...) != -1; if (ret >= 0) ...]: the comparison binds
    tighter than the assignment. *)
Definition arp_set_bpf (fd : Z) (prog : list sock_filter) : SM bool :=
  r ← syscall (SAttach fd prog) sk_call;
  let ret := if r =? -1 then 0 else 1 in
  if 0 <=? ret then
    ret ← syscall (SLock fd) sk_call;
    mret (0 <=? ret)
  else mret false.
Definition arp_set_bpf_basic (fd : Z) : SM bool := arp_set_bpf fd sf_arp_basic.
Definition arp_set_bpf_defense (fd client_addr : Z) (client_mac : list Z) : SM bool :=
  arp_set_bpf fd (sf_arp_defense client_addr client_mac).

Definition create_arp_defense_socket (client_addr : Z) (client_mac : list Z) : SM (Z * bool) :=
  fd ← create_arp_socket;
  bpf ← arp_set_bpf_defense fd client_addr client_mac;
  mret (fd, bpf).
Definition create_arp_basic_socket : SM (Z * bool) :=
  fd ← create_arp_socket;
  bpf ← arp_set_bpf_basic fd;
  mret (fd, bpf).

Definition xfer_fd (fd cmd : Z) : SM unit :=
  ok ← syscall (SXfer fd cmd) sk_sendmsg;
  if ok : bool then sclose fd else suicide "xfer_fd: sendmsg failed".

(** The number of bytes consumed; [buf] is the whole receive buffer. *)
Definition execute_sockd (buf : list Z) (buflen : Z) : SM Z :=
  if buflen =? 0 then mret 0
  else
    c ← ub (rd buf 0);
    if c =? ch "L"%char then
      r ← create_raw_listen_socket;
      xfer_fd r.1 (if r.2 : bool then ch "L"%char else ch "l"%char);;
      mret 1
    else if c =? ch "a"%char then
      r ← create_arp_basic_socket;
      xfer_fd r.1 (if r.2 : bool then ch "A"%char else ch "a"%char);;
      mret 1
    else if c =? ch "d"%char then
      if buflen <? 1 + 4 + 6 then suicide "execute_sockd: 'd' does not have necessary arguments"
      else
        client_addr ← ub (rd_range buf 1 4);
        client_mac ← ub (rd_range buf 5 6);
        r ← create_arp_defense_socket (of_le client_addr) client_mac;
        xfer_fd r.1 (if r.2 : bool then ch "D"%char else ch "d"%char);;
        mret 11
    else if c =? ch "s"%char then
      fd ← create_raw_broadcast_socket;
      xfer_fd fd (ch "s"%char);;
      mret 1
    else if c =? ch "u"%char then
      if buflen <? 1 + 4 then suicide "execute_sockd: 'u' does not have necessary arguments"
      else
        client_addr ← ub (rd_range buf 1 4);
        iface ← gets (fun w => interface (sk_config w));
        fd ← create_udp_socket (of_le client_addr) DHCP_CLIENT_PORT iface;
        xfer_fd fd (ch "u"%char);;
        mret 5
    else suicide "execute_sockd: received invalid commands".

Definition process_client_socket : SM unit :=
  n ← gets sk_buflen;
  if n =? MAX_BUF then suicide "process_client_socket: receive buffer exhausted"
  else
    t ← gets sk_tick;
    modify (fun w => w <| sk_tick ::= S |>);;
    match sk_recv t with
    | ReadAgain => mret tt
    | ReadFails => suicide "process_client_socket: error reading from ndhc -> sockd socket"
    | ReadData data =>
      let data := take (Z.to_nat (MAX_BUF - n)) (List.map u8 data) in
      if zlen data =? 0 then exit EXIT_SUCCESS
      else
        buf ← gets sk_buf;
        buf ← ub (wr_range buf n data);
        modify (fun w => w <| sk_buf := buf |> <| sk_buflen := n + zlen data |>);;
        used ← execute_sockd buf (n + zlen data);
        modify (fun w => w <| sk_buflen ::= (fun l => size_t (l - used)) |>)
    end.

End Sockd.

(** * Opening sockets *)

Definition no_xfer (a : sockd_action) : Prop :=
  match a with SXfer _ _ => False | _ => True end.

(** System calls other than a transfer, and nothing else. *)
Definition calls_only (w w' : sockd_world) : Prop :=
  exists t tr, w' = w <| sk_tick := t |> <| sk_trace := tr ++ sk_trace w |> /\ Forall no_xfer tr.
#[export] Instance calls_only_preorder : PreOrder calls_only.
Proof.
  split.
  - intros w. exists (sk_tick w), []. split; [by destruct w|constructor].
  - intros w1 w2 w3 (t & tr & -> & H1) (t' & tr' & -> & H2). exists t', (tr' ++ tr).
    rsimpl. rewrite <- app_assoc. split; [done|]. by apply Forall_app.
Qed.

Section Opening.
Context `{!SockdEnv}.

(** [opens m]: [m] always returns, and only makes such calls. *)
Definition opens {A} (m : SM A) : Prop :=
  forall w, is_Some (strlen (interface (sk_config w))) ->
  wp m (fun _ w' => calls_only w w') (fun _ _ => False) w.

Lemma opens_ret {A} (a : A) : opens (mret a).
Proof. intros w _. by rewrite wp_ret. Qed.
Lemma opens_bind {A B} (m : SM A) (f : A -> SM B) :
  opens m -> (forall a, opens (f a)) -> opens (m ≫= f).
Proof.
  intros Hm Hf w Hw. rewrite wp_bind. eapply wp_mono; [by apply Hm| |done].
  intros a w1 H1. assert (Hc : sk_config w1 = sk_config w) by (destruct H1 as (? & ? & -> & _); done).
  eapply wp_mono; [apply Hf; by rewrite Hc| |done]. intros b w2 H2. etrans; [exact H1|exact H2].
Qed.
Lemma opens_gets {A} (f : sockd_world -> A) : opens (gets f).
Proof. intros w _. by rewrite wp_gets. Qed.
Lemma opens_syscall {A} a (f : nat -> A) : no_xfer a -> opens (syscall a f).
Proof.
  intros Ha w _. unfold syscall. wp_run. exists (S (sk_tick w)), [a]. by split; [|constructor].
Qed.
Lemma opens_sclose fd : opens (sclose fd).
Proof. intros w _. unfold sclose. wp_run. exists (sk_tick w), [SClose fd]. split; [by destruct w|by constructor]. Qed.
Lemma opens_or_close fd a k : no_xfer a -> opens k -> opens (or_close fd a k).
Proof.
  intros Ha Hk. unfold or_close. apply opens_bind; [by apply opens_syscall|intros r].
  destruct (r <? 0); [|done]. apply opens_bind; [apply opens_sclose|intros ?; apply opens_ret].
Qed.

Ltac opens_tac :=
  repeat match goal with
  | |- opens (_ ≫= _) => apply opens_bind; [|intros ?]
  | |- opens (mret _) => apply opens_ret
  | |- opens (gets _) => apply opens_gets
  | |- opens (syscall _ _) => apply opens_syscall; exact I
  | |- opens (sclose _) => apply opens_sclose
  | |- opens (or_close _ _ _) => apply opens_or_close; [exact I|]
  | |- opens (if ?b then _ else _) => destruct b
  | |- opens (match ?x with _ => _ end) => destruct x
  end.

Lemma create_arp_socket_opens : opens create_arp_socket.
Proof. unfold create_arp_socket. opens_tac. Qed.
Lemma create_raw_socket_opens b f : opens (create_raw_socket b f).
Proof. unfold create_raw_socket. opens_tac. Qed.
Lemma arp_set_bpf_opens fd prog : opens (arp_set_bpf fd prog).
Proof. unfold arp_set_bpf. opens_tac. Qed.
Lemma create_udp_socket_opens ip port iface :
  is_Some (strlen iface) -> opens (create_udp_socket ip port iface).
Proof. intros [n Hn]. unfold create_udp_socket. rewrite Hn. change (ub (Some n)) with (mret (M := SM) n). opens_tac. Qed.
Lemma create_arp_basic_socket_opens : opens create_arp_basic_socket.
Proof.
  unfold create_arp_basic_socket, arp_set_bpf_basic.
  apply opens_bind; [apply create_arp_socket_opens|intros fd].
  apply opens_bind; [apply arp_set_bpf_opens|intros b; apply opens_ret].
Qed.
Lemma create_arp_defense_socket_opens a m : opens (create_arp_defense_socket a m).
Proof.
  unfold create_arp_defense_socket, arp_set_bpf_defense.
  apply opens_bind; [apply create_arp_socket_opens|intros fd].
  apply opens_bind; [apply arp_set_bpf_opens|intros b; apply opens_ret].
Qed.

(** One request served: a descriptor is transferred with a reply of [cs], and
    closed. *)
Definition served (cs : list Z) (w w' : sockd_world) : Prop :=
  exists t tr fd c, Forall no_xfer tr /\ c ∈ cs /\
    w' = w <| sk_tick := t |> <| sk_trace := SClose fd :: SXfer fd c :: tr ++ sk_trace w |>.
Definition xfer_failed (h : halt) : Prop := h = HSuicide "xfer_fd: sendmsg failed".

Lemma open_and_xfer {A} (m : SM A) (f : A -> Z * Z) (cs : list Z) (n : Z) (w : sockd_world) :
  opens m -> (forall a, (f a).2 ∈ cs) -> is_Some (strlen (interface (sk_config w))) ->
  wp (r ← m; xfer_fd (f r).1 (f r).2;; mret n) (fun u w' => u = n /\ served cs w w')
     (fun h _ => xfer_failed h) w.
Proof.
  intros Hm Hc Hw. rewrite wp_bind. eapply wp_mono; [by apply Hm| |done].
  intros a w1 (t & tr & -> & Htr). unfold xfer_fd, syscall, sclose. wp_run. rsimpl.
  destruct (sk_sendmsg _); wp_run; [|done]. split; [done|].
  eexists _, tr, (f a).1, (f a).2. split; [done|]. split; [apply Hc|]. reflexivity.
Qed.
End Opening.

(** * Agreement with the master *)

(** The requests the master sends ([dhcp.c], [arp.c]), and the replies it accepts
    for each. *)
Definition master_requests (client_addr : Z) (mac : list Z) : list (list Z) :=
  [ chars "L"; chars "a"; ch "d"%char :: le32 client_addr ++ mac; chars "s";
    ch "u"%char :: le32 client_addr ].
Definition replies (req : list Z) : list Z :=
  match req with
  | [] => []
  | c :: _ =>
    if c =? ch "L"%char then [ch "L"%char; ch "l"%char]
    else if c =? ch "a"%char then [ch "A"%char; ch "a"%char]
    else if c =? ch "d"%char then [ch "D"%char; ch "d"%char]
    else [c]
  end.

Section Agreement.
Context `{!SockdEnv}.

Lemma bool_reply (b : bool) (x y : Z) : (if b then x else y) ∈ [x; y].
Proof. destruct b; rewrite !elem_of_cons; auto. Qed.

(** A request at the start of the buffer is executed and consumed. *)
Lemma execute_sockd_serves req rest a mac w :
  req ∈ master_requests a mac -> zlen mac = 6 -> is_Some (strlen (interface (sk_config w))) ->
  wp (execute_sockd (req ++ rest) (zlen req))
     (fun u w' => u = zlen req /\ served (replies req) w w') (fun h _ => xfer_failed h) w.
Proof.
  intros Hr Hm Hw. unfold execute_sockd, master_requests in *. rewrite !elem_of_cons, elem_of_nil in Hr.
  destruct Hr as [-> | [-> | [-> | [-> | [-> | []]]]]].
  - apply (open_and_xfer create_raw_listen_socket (fun r => (r.1, if r.2 : bool then ch "L"%char else ch "l"%char)));
      [apply create_raw_socket_opens|intros r; apply bool_reply|done].
  - apply (open_and_xfer create_arp_basic_socket (fun r => (r.1, if r.2 : bool then ch "A"%char else ch "a"%char)));
      [apply create_arp_basic_socket_opens|intros r; apply bool_reply|done].
  - destruct mac as [|m0 [|m1 [|m2 [|m3 [|m4 [|m5 [|]]]]]]]; try (by (zlen_lia)).
    set (buf := (_ :: le32 a ++ _) ++ rest).
    assert (E1 : rd_range buf 1 4 = Some (le32 a)) by by apply (rd_range_at [ch "d"%char] (le32 a) _ 1 4).
    assert (E2 : rd_range buf 5 6 = Some [m0; m1; m2; m3; m4; m5])
      by by apply (rd_range_at (ch "d"%char :: le32 a) [m0; m1; m2; m3; m4; m5] rest 5 6).
    change (zlen _ =? 0) with false. cbv iota. rewrite wp_bind.
    change (rd buf 0) with (Some (ch "d"%char)). rewrite wp_ub_some, E1, E2.
    apply (open_and_xfer (create_arp_defense_socket _ _) (fun r => (r.1, if r.2 : bool then ch "D"%char else ch "d"%char)));
      [apply create_arp_defense_socket_opens|intros r; apply bool_reply|done].
  - apply (open_and_xfer create_raw_broadcast_socket (fun fd => (fd, ch "s"%char)));
      [|intros r; apply elem_of_cons; by left|done].
    apply opens_bind; [apply create_raw_socket_opens|intros r; apply opens_ret].
  - set (buf := (_ :: le32 a) ++ rest).
    assert (E1 : rd_range buf 1 4 = Some (le32 a)) by by apply (rd_range_at [ch "u"%char] (le32 a) _ 1 4).
    change (zlen _ =? 0) with false. cbv iota. rewrite wp_bind.
    change (rd buf 0) with (Some (ch "u"%char)). rewrite wp_ub_some, E1.
    apply (open_and_xfer (create_udp_socket _ _ (interface (sk_config w))) (fun fd => (fd, ch "u"%char)));
      [by apply create_udp_socket_opens|intros r; apply elem_of_cons; by left|done].
Qed.

Lemma master_requests_ok a mac req :
  req ∈ master_requests a mac -> bytes_ok mac = true -> zlen mac = 6 ->
  0 < zlen req <= 11 /\ List.map u8 req = req.
Proof.
  intros Hr Hb Hm. assert (Hu : forall l, bytes_ok l = true -> List.map u8 l = l).
  { induction l as [|x l IH]; [done|]. intros Hx. unfold bytes_ok in *. cbn [forallb] in Hx.
    apply andb_prop in Hx as [Hx Hl]. unfold byte_ok in Hx. cbn [List.map].
    rewrite u8_id by lia. by rewrite IH. }
  pose proof (le32_ok a) as Ha. pose proof (le32_len a) as Hla.
  unfold master_requests in Hr. rewrite !elem_of_cons, elem_of_nil in Hr.
  destruct Hr as [-> | [-> | [-> | [-> | [-> | []]]]]]; try (by vm_compute).
  - split; [rewrite zlen_cons, zlen_app; lia|]. cbn [List.map]. f_equal. apply Hu.
    by rewrite bytes_ok_app, Ha, Hb.
  - split; [rewrite zlen_cons; lia|]. cbn [List.map]. f_equal. by apply Hu.
Qed.

(** The server serves every request of the master: when one arrives whole at an
    idle ndhc-sockd, it is consumed entirely, exactly one descriptor is passed
    back, closed on the server's side, and the reply character is one the master
    accepts for this request.  The process ends only when the descriptor cannot be
    sent. *)
Theorem process_client_socket_serves (req mac : list Z) (a : Z) (w : sockd_world) :
  req ∈ master_requests a mac -> bytes_ok mac = true -> zlen mac = 6 ->
  config_ok (sk_config w) -> zlen (sk_buf w) = MAX_BUF -> sk_buflen w = 0 ->
  sk_recv (sk_tick w) = ReadData req ->
  wp process_client_socket (fun _ w' =>
    sk_buflen w' = 0 /\ zlen (sk_buf w') = MAX_BUF /\ sk_config w' = sk_config w /\
    exists tr fd c, Forall no_xfer tr /\ c ∈ replies req /\
      sk_trace w' = SClose fd :: SXfer fd c :: tr ++ sk_trace w)
    (fun h _ => h = HSuicide "xfer_fd: sendmsg failed") w.
Proof.
  intros Hr Hmb Hm Hcc Hbuf H0 Hrecv. unfold process_client_socket. wp_run. rewrite H0.
  change (0 =? MAX_BUF) with false. cbv iota. wp_run. rewrite Hrecv. cbv zeta.
  destruct (master_requests_ok a mac req Hr Hmb Hm) as [Hl Hu].
  rewrite Hu, take_ge by (unfold MAX_BUF, zlen in *; lia).
  replace (zlen req =? 0) with false by lia. wp_run. rsimpl.
  rewrite <- (take_drop (length req) (sk_buf w)).
  change (take ?n ?l ++ ?r) with ([] ++ take n l ++ r).
  rewrite (wr_range_at [] _ req); [|done|].
  2: { unfold MAX_BUF, zlen in *. rewrite length_take. lia. }
  cbn [app]. wp_run. rewrite Z.add_0_l.
  eapply wp_mono; [apply (execute_sockd_serves req _ a mac); [done|done|apply Hcc]| |done].
  intros used w1 (-> & t & tr & fd & c & Htr & Hc & ->). wp_run. rsimpl.
  split; [rewrite Z.sub_diag; reflexivity|]. split; [|split; [done|eauto 10]].
  rewrite zlen_app. unfold MAX_BUF, zlen in *. rewrite length_drop. lia.
Qed.
End Agreement.

(** System calls that succeed; [data] is what arrives on the socket. *)
Definition sample_sockd_env (call : Z) (data : list Z) : SockdEnv := {|
  sk_socket := fun _ => 9; sk_call := fun _ => call; sk_sendmsg := fun _ => true;
  sk_recv := fun _ => ReadData data |}.
Definition sample_sockd_world : sockd_world := {|
  sk_buf := zeros 1024; sk_buflen := 0; sk_config := sample_config; sk_tick := 0; sk_trace := [] |}.

Lemma process_client_socket_serves_witness :
  let req := ch "d"%char :: le32 (of_le [192; 168; 0; 9]) ++ [2; 17; 34; 51; 68; 85] in
  let E := sample_sockd_env 0 req in
  wp process_client_socket (fun _ w' =>
    sk_buflen w' = 0 /\ zlen (sk_buf w') = MAX_BUF /\ sk_config w' = sample_config /\
    exists tr fd c, Forall no_xfer tr /\ c ∈ replies req /\
      sk_trace w' = SClose fd :: SXfer fd c :: tr ++ [])
    (fun h _ => h = HSuicide "xfer_fd: sendmsg failed") sample_sockd_world.
Proof.
  intros req E.
  apply (process_client_socket_serves req [2; 17; 34; 51; 68; 85] (of_le [192; 168; 0; 9]) sample_sockd_world);
    try reflexivity; [|apply sample_config_ok].
  unfold master_requests. rewrite !elem_of_cons. auto.
Defined.

(** Two requests in one read: the first is served but stays at the start of the
    buffer, so the next read executes it again instead of the second. *)
Lemma pipelined_request_repeats :
  let E := sample_sockd_env 0 (chars "Ls") in
  wp process_client_socket (fun _ w' => sk_buflen w' = 1 /\ take 1 (sk_buf w') = chars "L")
     (fun _ _ => False) sample_sockd_world.
Proof. vm_compute. done. Qed.

(** A filter that could not be attached is reported as installed when the call that
    locks it succeeds. *)
Lemma arp_set_bpf_ignores_attach `{!SockdEnv} fd prog w :
  wp (arp_set_bpf fd prog) (fun b _ => b = (0 <=? sk_call (S (sk_tick w)))) (fun _ _ => False) w.
Proof. unfold arp_set_bpf, syscall. wp_run. destruct (_ =? -1); reflexivity. Qed.

(** * The master's side *)

Section Master.
Context `{!Env}.

Lemma request_sockd_fd_reply x xs resp c fd (Q : Z * Z -> World -> Prop) (HP : halt -> World -> Prop) w :
  env_sockd (tick w) = SockdFd c fd ->
  let w' := w <| trace ::= cons (ASockd (x :: xs)) |> <| tick ::= S |> in
  (negb resp && negb (c =? x) = false -> Q (fd, c) w') ->
  (negb resp && negb (c =? x) = true -> HP (HSuicide "request_sockd_fd: unexpected sockd reply") w') ->
  wp (request_sockd_fd (x :: xs) resp) Q HP w.
Proof.
  intros Hs w' HQ HH. unfold request_sockd_fd. wp_run. rsimpl. rewrite Hs.
  destruct (_ && _); wp_run; auto.
Qed.

(** The master's side of the agreement: its five socket functions send the five
    requests that ndhc-sockd serves, and each returns the descriptor that came
    back exactly when the reply character is one of those that belong to its
    request; any other reply ends the process. *)
Theorem master_requests_agree (w : World) (c fd : Z) :
  env_sockd (tick w) = SockdFd c fd -> zlen (arp (client_config w)) = 6 ->
  Forall2 (fun (req : list Z) (m : M Z) =>
    wp m (fun r w' => r = fd /\ c ∈ replies req /\ trace w' = ASockd req :: trace w)
         (fun _ w' => c ∉ replies req /\ trace w' = ASockd req :: trace w) w)
    (master_requests (clientAddr (cs w)) (arp (client_config w)))
    [get_raw_listen_socket; get_arp_basic_socket; get_arp_defense_socket;
     get_raw_broadcast_socket; get_udp_unicast_socket].
Proof.
  intros Hs Hm. unfold master_requests. 
  assert (Hin : forall x y z : Z, x ∈ [y; z] <-> x = y \/ x = z)
    by (intros; rewrite !elem_of_cons, elem_of_nil; naive_solver).
  assert (Hin1 : forall x y : Z, x ∈ [y] <-> x = y)
    by (intros; rewrite !elem_of_cons, elem_of_nil; naive_solver).
  assert (Hr : forall x xs, x = ch "s"%char \/ x = ch "u"%char -> replies (x :: xs) = [x])
    by (intros ? ? [-> | ->]; reflexivity).
  repeat apply Forall2_cons_2; [..|apply Forall2_nil_2].
  - unfold get_raw_listen_socket. rewrite wp_bind.
    eapply (request_sockd_fd_reply _ [] true); [exact Hs|intros _|discriminate].
    zcase; [|zcase]; wp_run; rsimpl; change (replies _) with [ch "L"%char; ch "l"%char]; rewrite Hin; naive_solver.
  - unfold get_arp_basic_socket. rewrite wp_bind.
    eapply (request_sockd_fd_reply _ [] true); [exact Hs|intros _|discriminate].
    zcase; [|zcase]; wp_run; rsimpl; change (replies _) with [ch "A"%char; ch "a"%char]; rewrite Hin; naive_solver.
  - unfold get_arp_defense_socket. wp_run. cbn [fst snd].
    assert (E : rd_range (arp (client_config w)) 0 6 = Some (arp (client_config w))).
    { unfold rd_range. replace (_ && _) with true by lia.
      change (drop (Z.to_nat 0) ?l) with l. rewrite take_ge; [done|]. unfold zlen in *. lia. }
    rewrite E. wp_run.
    eapply request_sockd_fd_reply; [exact Hs|intros _|discriminate].
    zcase; [|zcase]; wp_run; rsimpl; change (replies _) with [ch "D"%char; ch "d"%char]; rewrite Hin; naive_solver.
  - unfold get_raw_broadcast_socket. rewrite wp_bind.
    eapply (request_sockd_fd_reply _ [] false); [exact Hs|intros Hc|intros Hc]; wp_run; rsimpl;
      cbn [negb andb] in Hc; change (replies _) with [ch "s"%char]; rewrite Hin1; [|split; [|done]]; zdec; naive_solver.
  - unfold get_udp_unicast_socket. wp_run.
    eapply request_sockd_fd_reply; [exact Hs|intros Hc|intros Hc]; wp_run; rsimpl;
      cbn [negb andb] in Hc; change (replies _) with [ch "u"%char]; rewrite Hin1; [|split; [|done]]; zdec; naive_solver.
Qed.
End Master.

Lemma master_requests_agree_witness :
  let E := sample_env (ch "l"%char) 0 in
  let w := sample_world in
  Forall2 (fun (req : list Z) (m : M Z) =>
    wp m (fun r w' => r = 9 /\ ch "l"%char ∈ replies req /\ trace w' = [ASockd req])
         (fun _ w' => ch "l"%char ∉ replies req /\ trace w' = [ASockd req]) w)
    (master_requests 0 [2; 17; 34; 51; 68; 85])
    [get_raw_listen_socket; get_arp_basic_socket; get_arp_defense_socket;
     get_raw_broadcast_socket; get_udp_unicast_socket].
Proof. intros E w. apply (master_requests_agree w (ch "l"%char) 9); reflexivity. Defined.
