(* ===== verification/Ifset.v ===== *)
(** Interface settings through netlink ([ifset.c]): the requests that set flags,
    addresses, routes and the MTU, the dumps that are read back, and the functions
    [perform_*] that ndhc-ifch and the start-up code call.

    [ifset.c] keeps a sequence number and uses the configuration of the process it
    runs in; these and the system calls made form the record [ifset_world]. *)

From S2P Require Import Prelude Types World Samples Ifchange Nl Netlink.

Definition RTM_SETLINK : Z := 19.
Definition RTM_NEWADDR : Z := 20.
Definition RTM_DELADDR : Z := 21.
Definition RTM_NEWROUTE : Z := 24.
Definition NLM_F_ACK : Z := 0x4.
Definition NLM_F_REPLACE : Z := 0x100.
Definition NLM_F_CREATE : Z := 0x400.
Definition IFA_ADDRESS : Z := 1.
Definition IFA_LOCAL : Z := 2.
Definition IFA_BROADCAST : Z := 4.
Definition IFA_F_PERMANENT : Z := 0x80.
Definition IFLA_MTU : Z := 4.
Definition RTA_DST : Z := 1.
Definition RTA_OIF : Z := 4.
Definition RTA_GATEWAY : Z := 5.
Definition RTA_PRIORITY : Z := 6.
Definition RT_SCOPE_UNIVERSE : Z := 0.
Definition RTPROT_DHCP : Z := 16.
Definition RTN_UNICAST : Z := 1.
Definition ERFKILL : Z := 132.
Definition sizeof_rtmsg : Z := 12.

(** * Process state *)

Inductive ifset_action :=
| ISocket                              (** [socket(AF_NETLINK, ...)] *)
| ISend (fd : Z) (msg : list Z)        (** [safe_sendto] *)
| IClose (fd : Z).

Record ifset_world := mk_ifset_world {
  if_config : client_config_t;
  ifset_nl_seq : Z;
  if_tick : nat;
  if_trace : list ifset_action         (** latest first *)
}.
#[export] Instance ifset_world_eta : Eta ifset_world := fun r =>
  mk_ifset_world (if_config r) (ifset_nl_seq r) (if_tick r) (if_trace r).

Class IfsetEnv := {
  ie_socket : nat -> Z;                (** a descriptor or -1 *)
  ie_sendto : nat -> Z;
  ie_recvmsg : nat -> nl_reply;
  ie_fuel : nat                        (** bound on the datagrams of one dump *)
}.

Notation IM := (St ifset_world).

(** * Subnet masks *)

(** The table of [trailz]: 2^k is at the index 2^k mod 37. *)
Definition bpm37 : list Z :=
  [32; 0; 1; 26; 2; 23; 27; 0; 3; 16; 24; 30; 28; 11; 0; 13; 4; 7; 17;
   0; 25; 22; 31; 15; 29; 10; 12; 6; 0; 21; 14; 9; 5; 20; 8; 19; 18].
Definition trailz (v : Z) : option Z := rd bpm37 (Z.land (u32 (- v)) v mod 37).
Definition subnet4_to_prefixlen (sn : Z) : option Z := t ← trailz (ntohl sn); Some (32 - t).

(** * Printed addresses and numbers: the library's [inet_pton] and [strtol] *)

(** [cur]: the octet being read, [saw]: it has a digit, [octs]: those before it. *)
Fixpoint inet_pton_loop (s : list Z) (saw : bool) (cur : Z) (octs : list Z) : option (list Z) :=
  match s with
  | [] => if saw && (zlen octs =? 3) then Some (octs ++ [cur]) else None
  | c :: s =>
    if (48 <=? c) && (c <=? 57) then
      let new := cur * 10 + (c - 48) in
      if saw && (cur =? 0) then None
      else if 255 <? new then None
      else if negb saw && (3 <? zlen octs) then None
      else inet_pton_loop s true new octs
    else if (c =? ch "."%char) && saw then
      if zlen octs =? 3 then None else inet_pton_loop s false 0 (octs ++ [cur])
    else None
  end.
(** [inet_pton(AF_INET, ...)] of a string: the address bytes in memory order. *)
Definition inet_pton (s : list Z) : option (list Z) := inet_pton_loop (until_nul s) false 0 [].

Definition isspace (c : Z) : bool := (c =? 32) || ((9 <=? c) && (c <=? 13)).
Fixpoint skip_space (s : list Z) : list Z :=
  match s with c :: t => if isspace c then skip_space t else s | [] => [] end.
Fixpoint dec_digits (s : list Z) (acc : Z) : Z :=
  match s with
  | c :: s => if (48 <=? c) && (c <=? 57) then dec_digits s (acc * 10 + (c - 48)) else acc
  | [] => acc
  end.
Definition LONG_MAX : Z := 2 ^ 63 - 1.
(** [strtol(s, &end, 10)]; [None] when [end == s]. *)
Definition strtol10 (s : list Z) : option Z :=
  let '(neg, s) := match skip_space s with
                   | c :: t => if c =? ch "-"%char then (true, t)
                               else if c =? ch "+"%char then (false, t) else (false, c :: t)
                   | [] => (false, [])
                   end in
  match s with
  | c :: _ =>
    if (48 <=? c) && (c <=? 57) then
      let v := dec_digits s 0 in
      Some (Z.max (- 2 ^ 63) (Z.min LONG_MAX (if neg : bool then - v else v)))
    else None
  | [] => None
  end.

Section Ifset.
Context `{!IfsetEnv}.

Definition iask {A} (f : nat -> A) : IM A :=
  t ← gets if_tick; modify (fun w => w <| if_tick ::= S |>);; mret (f t).
Definition iemit (a : ifset_action) : IM unit := modify (fun w => w <| if_trace ::= cons a |>).

#[export] Instance ifset_NlProc : NlProc ifset_world := {|
  nl_sendto := fun fd msg => iemit (ISend fd msg);; iask ie_sendto;
  nl_recvmsg := fun _ => iask ie_recvmsg
|}.

(** [socket(AF_NETLINK, SOCK_DGRAM | SOCK_NONBLOCK, NETLINK_ROUTE)] *)
Definition nl_socket : IM Z := iemit ISocket;; iask ie_socket.
Definition iclose (fd : Z) : IM unit := iemit (IClose fd).
(** [ifset_nl_seq++] *)
Definition next_seq : IM Z :=
  s ← gets ifset_nl_seq; modify (fun w => w <| ifset_nl_seq := u32 (s + 1) |>);; mret s.

(** * Requests *)

(** 0: acknowledged, -1: failed, -2: no status in the answer, -3: rfkill. *)
Definition rtnl_do_send (fd : Z) (sbuf : list Z) : IM Z :=
  r ← nl_sendto fd sbuf;
  if (r <? 0) || negb (r =? zlen sbuf) then mret (-1)
  else
    m ← nl_recvmsg fd;
    match m with
    | NlAgain | NlFails => mret (-1)
    | NlBadAddr data | NlData data =>
      let response := zeros 80 in
      if truncated response data then mret (-1)
      else if zlen data <? NLMSG_HDRLEN then mret (-1)
      else
        let b := received response data in
        ty ← ub (nlmsg_type b 0);
        if ty =? NLMSG_ERROR then
          nlerr ← ub (nlmsg_get_error b 0);
          mret (if nlerr =? 0 then 0 else if nlerr =? ERFKILL then -3 else -1)
        else mret (if ty =? NLMSG_DONE then -2 else -1)
    end.

(** [rtnl_do_send(fd, request, header->nlmsg_len)] of a message at the start of
    [request]. *)
Definition send_request (fd : Z) (request : list Z) : IM Z :=
  len ← ub (nlmsg_len request 0);
  msg ← ub (rd_range request 0 len);
  rtnl_do_send fd msg.

Definition rtnl_if_flags_send (fd type ifi_flags : Z) : IM Z :=
  seq ← next_seq;
  cc ← gets if_config;
  send_request fd
    (nlmsghdr_image (NLMSG_HDRLEN + sizeof_ifinfomsg) type (Z.lor NLM_F_ACK NLM_F_REQUEST) seq ++
     ifinfomsg_image (ifindex cc) ifi_flags 0xffffffff).

(** [if (nl_add_rtattr(...) < 0) return -1;] before the rest [k] of a function. *)
Definition with_rtattr (request : list Z) (type : Z) (data : list Z) (k : list Z -> IM Z) : IM Z :=
  r ← ub (nl_add_rtattr request (zlen request) type data);
  if r.1 <? 0 then mret (-1) else k r.2.

(** [ipaddr], [bcast]: the four bytes behind the pointers, [None] for [NULL]. *)
Definition rtnl_addr_broadcast_send (fd type ifa_flags ifa_scope : Z)
    (ipaddr bcast : option (list Z)) (prefixlen : Z) : IM Z :=
  match ipaddr, bcast with
  | None, None => mret (-1)
  | _, _ =>
    seq ← next_seq;
    cc ← gets if_config;
    let request :=
      nlmsghdr_image (NLMSG_HDRLEN + sizeof_ifaddrmsg) type
        (Z.lor (Z.lor NLM_F_REPLACE NLM_F_ACK) NLM_F_REQUEST) seq ++
      ifaddrmsg_image AF_INET prefixlen ifa_flags ifa_scope (ifindex cc) ++ zeros 40 in
    let k2 request :=
      match bcast with
      | Some b => with_rtattr request IFA_BROADCAST b (send_request fd)
      | None => send_request fd request
      end in
    match ipaddr with
    | Some a => with_rtattr request IFA_LOCAL a k2
    | None => k2 request
    end
  end.

Definition rtmsg_image (family table protocol scope type : Z) : list Z :=
  [u8 family; 0; 0; 0; u8 table; u8 protocol; u8 scope; u8 type] ++ le32 0.

Definition rtnl_set_default_gw_v4 (fd gw4 metric : Z) : IM Z :=
  seq ← next_seq;
  cc ← gets if_config;
  let request :=
    nlmsghdr_image (NLMSG_HDRLEN + sizeof_rtmsg) RTM_NEWROUTE
      (Z.lor (Z.lor (Z.lor NLM_F_CREATE NLM_F_REPLACE) NLM_F_ACK) NLM_F_REQUEST) seq ++
    rtmsg_image AF_INET 0 RTPROT_DHCP RT_SCOPE_UNIVERSE RTN_UNICAST ++ zeros 68 in
  with_rtattr request RTA_DST (le32 0) (fun request =>
  with_rtattr request RTA_OIF (le32 (ifindex cc)) (fun request =>
  with_rtattr request RTA_GATEWAY (le32 gw4) (fun request =>
  if 0 <? metric then with_rtattr request RTA_PRIORITY (le32 metric) (send_request fd)
  else send_request fd request))).

(** * Dumps *)

(** The [do ... while (ret > 0)] loop that reads the answer to a dump request:
    [data] is what the callback's pointer points to. *)
Fixpoint dump_loop {D} (fuel : nat) (fd seq : Z) (nlbuf : list Z)
    (pfn : list Z -> Z -> D -> IM D) (data : D) : IM (Z * D) :=
  match fuel with
  | O => fatal HFuel
  | S fuel =>
    r ← nl_recv_buf fd nlbuf;
    let '(ret, nlbuf) := r in
    if ret <? 0 then mret (-2, data)
    else
      f ← nl_foreach_st nlbuf ret seq 0 pfn data;
      if f.1 <? 0 then mret (-3, f.2)
      else if 0 <? ret then dump_loop fuel fd seq nlbuf pfn f.2
      else mret (0, f.2)
  end.
Definition dump {D} (fd seq : Z) (pfn : list Z -> Z -> D -> IM D) (data : D) : IM (Z * D) :=
  dump_loop ie_fuel fd seq (zeros (Z.to_nat sizeof_nlbuf)) pfn data.

(** [struct link_flag_data]: the flags, once they were found. *)
Definition link_flags_get_do (nlbuf : list Z) (nlh : Z) (ifd : option Z) : IM (option Z) :=
  ty ← ub (nlmsg_type nlbuf nlh);
  if ty =? RTM_NEWLINK then
    idx ← ub (ifi_index nlbuf nlh);
    cc ← gets if_config;
    if negb (idx =? ifindex cc) then mret ifd
    else flags ← ub (ifi_flags nlbuf nlh); mret (Some flags)
  else mret ifd.

(** The result and [*flags]. *)
Definition link_flags_get (fd : Z) : IM (Z * Z) :=
  seq ← next_seq;
  cc ← gets if_config;
  s ← nl_sendgetlink fd seq (ifindex cc);
  if s <? 0 then mret (-1, 0)
  else
    r ← dump fd seq link_flags_get_do None;
    if r.1 <? 0 then mret (r.1, 0)
    else mret (match r.2 with Some flags => (0, flags) | None => (-4, 0) end).

Definition perform_carrier : IM Z :=
  fd ← nl_socket;
  if fd <? 0 then mret (-1)
  else
    f ← link_flags_get fd;
    iclose fd;;
    mret (if f.1 <? 0 then -1
          else if negb (Z.land f.2 IFF_RUNNING =? 0) && negb (Z.land f.2 IFF_UP =? 0) then 0 else -1).

Definition link_set_flags (fd flags : Z) : IM Z :=
  r ← link_flags_get fd;
  let oldflags := r.2 in
  if r.1 <? 0 then mret (-1)
  else if Z.land oldflags flags =? flags then mret 1
  else rtnl_if_flags_send fd RTM_SETLINK (Z.lor flags oldflags).

(** [struct ipbcpfx]; the descriptor is passed apart. *)
Record ipbcpfx := mk_ipbcpfx { ipx_ipaddr : Z; ipx_bcast : Z; ipx_prefixlen : Z; already_ok : bool }.
#[export] Instance ipbcpfx_eta : Eta ipbcpfx := fun r =>
  mk_ipbcpfx (ipx_ipaddr r) (ipx_bcast r) (ipx_prefixlen r) (already_ok r).

(** [struct ifaddrmsg] in the payload of the message at [nlh]. *)
Definition ifa_byte (b : list Z) (nlh k : Z) : option Z := rd b (nlh + NLMSG_HDRLEN + k).
Definition ifa_family b nlh := ifa_byte b nlh 0.
Definition ifa_prefixlen b nlh := ifa_byte b nlh 1.
Definition ifa_flags b nlh := ifa_byte b nlh 2.
Definition ifa_scope b nlh := ifa_byte b nlh 3.
Definition ifa_index (b : list Z) (nlh : Z) : option Z := rd32 b (nlh + NLMSG_HDRLEN + 4).

(** [!memcmp(RTA_DATA(attr), &addr, 4)] *)
Definition rta_is (b : list Z) (attr : Z) (addr : Z) : option bool :=
  d ← rd_range b (attr + sizeof_rtattr) 4; Some (bytes_eqb d (le32 addr)).

(** The checks of [ipbcpfx_clear_others_do] on an address of the interface: is it
    the one that is wanted?  Otherwise the code jumps to [erase]. *)
Definition is_wanted_addr (ipx : ipbcpfx) (b : list Z) (nlh : Z) (tb : Z -> option Z) : option bool :=
  flags ← ifa_flags b nlh;
  if Z.land flags IFA_F_PERMANENT =? 0 then Some false
  else
    scope ← ifa_scope b nlh;
    if negb (scope =? RT_SCOPE_UNIVERSE) then Some false
    else
      plen ← ifa_prefixlen b nlh;
      if negb (plen =? ipx_prefixlen ipx) then Some false
      else
        match tb IFA_ADDRESS with
        | None => Some false
        | Some a =>
          same ← rta_is b a (ipx_ipaddr ipx);
          if negb same then Some false
          else
            match tb IFA_BROADCAST with
            | None => Some false
            | Some a => rta_is b a (ipx_bcast ipx)
            end
        end.

Definition rta_addr (b : list Z) (attr : option Z) : option (option (list Z)) :=
  match attr with
  | None => Some None
  | Some a => Some <$> rd_range b (a + sizeof_rtattr) 4
  end.

Definition ipbcpfx_clear_others_do (fd : Z) (b : list Z) (nlh : Z) (ipx : ipbcpfx) : IM ipbcpfx :=
  tb ← ub (nl_rtattr_parse b nlh sizeof_ifaddrmsg rtattr_assign (fun _ => None));
  ty ← ub (nlmsg_type b nlh);
  if negb (ty =? RTM_NEWADDR) then mret ipx
  else
    idx ← ub (ifa_index b nlh);
    cc ← gets if_config;
    if negb (idx =? u32 (ifindex cc)) then mret ipx
    else
      fam ← ub (ifa_family b nlh);
      if negb (fam =? AF_INET) then mret ipx
      else
        ok ← ub (is_wanted_addr ipx b nlh tb);
        if ok : bool then mret (ipx <| already_ok := true |>)
        else
          flags ← ub (ifa_flags b nlh);
          scope ← ub (ifa_scope b nlh);
          plen ← ub (ifa_prefixlen b nlh);
          addr ← ub (rta_addr b (tb IFA_ADDRESS));
          bc ← ub (rta_addr b (tb IFA_BROADCAST));
          rtnl_addr_broadcast_send fd RTM_DELADDR flags scope addr bc plen;;
          mret ipx.

Definition ipbcpfx_clear_others (fd ipaddr bcast prefixlen : Z) : IM Z :=
  let ipx := {| ipx_ipaddr := ipaddr; ipx_bcast := bcast; ipx_prefixlen := prefixlen;
                already_ok := false |} in
  seq ← next_seq;
  cc ← gets if_config;
  s ← nl_sendgetaddr4 fd seq (u32 (ifindex cc));
  if s <? 0 then mret (-1)
  else
    r ← dump fd seq (ipbcpfx_clear_others_do fd) ipx;
    mret (if r.1 <? 0 then r.1 else if already_ok r.2 then 1 else 0).

(** * The operations *)

Definition rtnl_if_mtu_set (fd mtu : Z) : IM Z :=
  r ← link_flags_get fd;
  if r.1 <? 0 then mret (-1)
  else
    seq ← next_seq;
    cc ← gets if_config;
    let request :=
      nlmsghdr_image (NLMSG_HDRLEN + sizeof_ifinfomsg) RTM_SETLINK (Z.lor NLM_F_ACK NLM_F_REQUEST) seq ++
      ifinfomsg_image (ifindex cc) r.2 0xffffffff ++ zeros 8 in
    with_rtattr request IFLA_MTU (le32 mtu) (send_request fd).

Definition perform_ifup : IM Z :=
  fd ← nl_socket;
  if fd <? 0 then mret fd
  else
    r ← link_set_flags fd IFF_UP;
    iclose fd;;
    mret r.

(** [htonl(0xfffffffflu >> prefixlen)] *)
Definition host_mask (prefixlen : Z) : Z := htonl (Z.shiftr 0xffffffff prefixlen).

(** [str_bcast] is [None] for [NULL]. *)
Definition perform_ip_subnet_bcast (str_ipaddr str_subnet : list Z) (str_bcast : option (list Z))
  : IM Z :=
  match inet_pton str_ipaddr with
  | None => mret (-99)
  | Some ipaddr =>
    let ipaddr := of_le ipaddr in
    match inet_pton str_subnet with
    | None => mret (-99)
    | Some subnet =>
      prefixlen ← ub (subnet4_to_prefixlen (of_le subnet));
      match (match str_bcast with
             | Some s => of_le <$> inet_pton s
             | None => Some (Z.lor ipaddr (host_mask prefixlen))
             end) with
      | None => mret (-99)
      | Some bcast =>
        fd ← nl_socket;
        if fd <? 0 then mret (-99)
        else
          r ← ipbcpfx_clear_others fd ipaddr bcast prefixlen;
          if (r <? 0) && (-3 <? r) then iclose fd;; mret (-99)
          else
            r ← (if r <? 1 then
                   rtnl_addr_broadcast_send fd RTM_NEWADDR IFA_F_PERMANENT RT_SCOPE_UNIVERSE
                     (Some (le32 ipaddr)) (Some (le32 bcast)) prefixlen
                 else mret 0);
            if r <? 0 then iclose fd;; mret (-99)
            else
              f ← link_set_flags fd (Z.lor IFF_UP IFF_RUNNING);
              iclose fd;;
              mret (if f <? 0 then -1 else 0)
      end
    end
  end.

Definition perform_router (str_router : list Z) (len : Z) : IM Z :=
  if len <? 7 then mret (-99)
  else
    match inet_pton str_router with
    | None => mret (-99)
    | Some router =>
      fd ← nl_socket;
      if fd <? 0 then mret (-99)
      else
        cc ← gets if_config;
        r ← rtnl_set_default_gw_v4 fd (of_le router) (metric cc);
        iclose fd;;
        mret (if r <? 0 then -99 else 0)
    end.

Definition perform_mtu (str : list Z) (len : Z) : IM Z :=
  if len <? 2 then mret (-99)
  else
    match strtol10 (until_nul str) with
    | None => mret (-99)
    | Some tmtu =>
      if INT_MAX <? tmtu then mret (-99)
      else if tmtu <? 68 then mret (-99)
      else
        fd ← nl_socket;
        if fd <? 0 then mret (-99)
        else
          r ← rtnl_if_mtu_set fd tmtu;
          iclose fd;;
          mret (if r <? 0 then -99 else 0)
    end.
End Ifset.
