(* ===== verification/Ifaddr.v ===== *)
(** What the functions of [ifset.c] ask of the kernel and make of its answers: the
    prefix length of a mask, the requests as messages, the dumps as walks over
    messages, and which addresses [ipbcpfx_clear_others] removes. *)

From S2P Require Import Prelude Types World Samples Ifchange Nl Nlmsg Netlink Ifset.

(** * Prefix lengths *)

(** The number of trailing zero bits; 32 for zero. *)
Fixpoint pos_ctz (p : positive) : Z := match p with xO p => 1 + pos_ctz p | _ => 0 end.
Definition ctz (v : Z) : Z := match v with Zpos p => pos_ctz p | _ => 32 end.

Lemma pos_ctz_spec p : exists m, 0 <= m /\ Zpos p = 2 ^ pos_ctz p * (2 * m + 1) /\ 0 <= pos_ctz p.
Proof.
  induction p as [p _|p (m & Hm & IH & H0)|]; cbn [pos_ctz].
  - exists (Zpos p). lia.
  - exists m. split; [done|]. rewrite Z.pow_add_r by lia. split; [|lia]. rewrite Pos2Z.inj_xO, IH. lia.
  - exists 0. lia.
Qed.

Lemma land_odd_neg m : Z.land (- (2 * m + 1)) (2 * m + 1) = 1.
Proof.
  replace (- (2 * m + 1)) with (2 * Z.lnot m + 1) by (unfold Z.lnot; lia).
  apply Z.bits_inj'. intros n Hn. rewrite Z.land_spec.
  destruct (decide (n = 0)) as [->|Hn0].
  - by rewrite !Z.testbit_odd_0.
  - replace n with (Z.succ (n - 1)) by lia. rewrite !Z.testbit_odd_succ, Z.lnot_spec by lia.
    rewrite andb_comm. destruct (Z.testbit m (n - 1)); cbn; symmetry; change 1 with (2 * 0 + 1);
      rewrite Z.testbit_odd_succ by lia; apply Z.bits_0.
Qed.

(** [-v & v] in 32 bits isolates the lowest set bit. *)
Lemma lowest_bit v : 0 < v < 2 ^ 32 -> Z.land (u32 (- v)) v = 2 ^ ctz v /\ 0 <= ctz v < 32.
Proof.
  intros Hv. destruct v as [|p|p]; try lia. cbn [ctz].
  destruct (pos_ctz_spec p) as (m & Hm & Hp & H0). set (k := pos_ctz p) in *.
  assert (Hk : k < 32).
  { destruct (Z.lt_ge_cases k 32) as [|Hge]; [done|]. pose proof (Z.pow_le_mono_r 2 32 k). nia. }
  split; [|lia]. unfold u32. change 4294967296 with (2 ^ 32).
  rewrite <- Z.land_ones, <- Z.land_assoc, (Z.land_comm (Z.ones 32)), Z.land_ones, (Z.mod_small (Zpos p)) by lia.
  rewrite Hp, Z.mul_comm, <- Z.mul_opp_l. rewrite <- !Z.shiftl_mul_pow2, <- Z.shiftl_land by lia.
  rewrite land_odd_neg, Z.shiftl_mul_pow2 by lia. lia.
Qed.

(** The table of [trailz] is a perfect hash of the powers of two. *)
Lemma bpm37_table k : 0 <= k < 32 -> rd bpm37 (2 ^ k mod 37) = Some k.
Proof.
  intros Hk.
  assert (Hall : forallb (fun n => bool_decide (rd bpm37 (2 ^ Z.of_nat n mod 37) = Some (Z.of_nat n))) (seq 0 32) = true)
    by (vm_compute; reflexivity).
  rewrite forallb_forall in Hall. specialize (Hall (Z.to_nat k)). rewrite Z2Nat.id in Hall by lia.
  eapply bool_decide_eq_true_1, Hall, in_seq. lia.
Qed.

Lemma trailz_ctz v : 0 <= v < 2 ^ 32 -> trailz v = Some (ctz v).
Proof.
  intros Hv. unfold trailz. destruct (decide (v = 0)) as [->|Hne]; [reflexivity|].
  destruct (lowest_bit v) as [-> Hk]; [lia|]. by apply bpm37_table.
Qed.

(** The mask with [p] leading ones, as the number its dotted form spells. *)
Definition mask (p : Z) : Z := 2 ^ 32 - 2 ^ (32 - p).

Lemma ctz_mask p : 0 <= p <= 32 -> ctz (mask p) = 32 - p.
Proof.
  intros Hp.
  assert (Hall : forallb (fun n => ctz (mask (Z.of_nat n)) =? 32 - Z.of_nat n) (seq 0 33) = true)
    by (vm_compute; reflexivity).
  rewrite forallb_forall in Hall. specialize (Hall (Z.to_nat p)). rewrite Z2Nat.id in Hall by lia.
  apply Z.eqb_eq, Hall, in_seq. lia.
Qed.

(** * Requests as messages *)

Definition attr4 (ty : Z) (o : option (list Z)) : list nlattr :=
  match o with Some d => [mk_nlattr ty d] | None => [] end.

Definition addr_request (type flags scope : Z) (ipaddr bcast : option (list Z)) (prefixlen seq idx : Z) : nlmsg :=
  mk_nlmsg type (Z.lor (Z.lor NLM_F_REPLACE NLM_F_ACK) NLM_F_REQUEST) seq 0
    (ifaddrmsg_image AF_INET prefixlen flags scope idx)
    (attr4 IFA_LOCAL ipaddr ++ attr4 IFA_BROADCAST bcast).
Definition gw_request (gw4 metric seq idx : Z) : nlmsg :=
  mk_nlmsg RTM_NEWROUTE (Z.lor (Z.lor (Z.lor NLM_F_CREATE NLM_F_REPLACE) NLM_F_ACK) NLM_F_REQUEST) seq 0
    (rtmsg_image AF_INET 0 RTPROT_DHCP RT_SCOPE_UNIVERSE RTN_UNICAST)
    ([mk_nlattr RTA_DST (le32 0); mk_nlattr RTA_OIF (le32 idx); mk_nlattr RTA_GATEWAY (le32 gw4)] ++
     (if 0 <? metric then [mk_nlattr RTA_PRIORITY (le32 metric)] else [])).
Definition link_request (flags seq idx : Z) (attrs : list nlattr) : nlmsg :=
  mk_nlmsg RTM_SETLINK (Z.lor NLM_F_ACK NLM_F_REQUEST) seq 0 (ifinfomsg_image idx flags 0xffffffff) attrs.

Section Requests.
Context `{!IfsetEnv}.

Lemma fresh_message ty fl sq fixed z :
  nlmsghdr_image (NLMSG_HDRLEN + zlen fixed) ty fl sq ++ fixed ++ z =
  msg_image (mk_nlmsg ty fl sq 0 fixed []) ++ z.
Proof.
  unfold msg_image, msg_len, msg_body, nlmsghdr_image. cbn [m_type m_flags m_seq m_pid m_fixed m_attrs].
  change (attrs_image []) with (@nil Z). by rewrite app_nil_r, <- !app_assoc.
Qed.

Lemma send_request_image fd m n w :
  msg_ok m -> send_request fd (msg_image m ++ zeros n) w = rtnl_do_send fd (msg_image m) w.
Proof.
  intros Hm. unfold send_request.
  replace (nlmsg_len (msg_image m ++ zeros n) 0) with (Some (msg_len m))
    by (symmetry; exact (msg_image_nlmsg_len [] (zeros n) m Hm)).
  st_run. replace (rd_range (msg_image m ++ zeros n) 0 (msg_len m)) with (Some (msg_image m)); [done|].
  symmetry. apply (rd_range_at [] (msg_image m) (zeros n)); [done|]. by rewrite msg_image_len.
Qed.

Lemma with_rtattr_image m a n k w :
  msg_ok m -> attr_ok a -> zlen (attr_image a) <= Z.of_nat n ->
  with_rtattr (msg_image m ++ zeros n) (at_type a) (at_data a) k w =
  k (msg_image (with_attr m a) ++ zeros (n - length (attr_image a))) w.
Proof.
  intros Hm Ha Hn. unfold with_rtattr. rewrite nl_add_rtattr_image by done. zcase; [lia|]. st_run. done.
Qed.
Lemma attr_ok_4 ty d : 0 <= ty < 2 ^ 16 -> bytes_ok d = true -> zlen d = 4 -> attr_ok (mk_nlattr ty d).
Proof.
  intros Ht Hd Hl. unfold attr_ok, RTA_LENGTH, sizeof_rtattr. cbn [at_type at_data]. rewrite Hl.
  split_and!; try done; lia.
Qed.
Lemma attr_image_4 ty d : zlen d = 4 -> zlen (attr_image (mk_nlattr ty d)) = 8.
Proof. intros Hl. rewrite attr_image_len. cbn [at_data]. by rewrite Hl. Qed.
Lemma with_rtattr_image_4 m ty d n k w :
  msg_ok m -> 0 <= ty < 2 ^ 16 -> bytes_ok d = true -> zlen d = 4 -> (8 <= n)%nat ->
  with_rtattr (msg_image m ++ zeros n) ty d k w =
  k (msg_image (with_attr m (mk_nlattr ty d)) ++ zeros (n - 8)) w.
Proof.
  intros Hm Ht Hd Hl Hn. set (a := mk_nlattr ty d). pose proof (attr_image_4 ty d Hl) as Hal. fold a in Hal.
  change ty with (at_type a) at 1. change d with (at_data a) at 1.
  rewrite with_rtattr_image; [|done|by apply attr_ok_4|lia].
  replace (length (attr_image a)) with 8%nat by (unfold zlen in Hal; lia). done.
Qed.
End Requests.

(** * The request functions *)

(** [ifset_nl_seq] is a 32-bit counter, the interface index an [int]. *)
Definition ifset_ok (w : ifset_world) : Prop :=
  0 <= ifset_nl_seq w < 2 ^ 32.
Definition addr4 (o : option (list Z)) : Prop :=
  match o with Some d => bytes_ok d = true /\ zlen d = 4 | None => True end.

Lemma addr_request_ok ty fl sc plen sq idx :
  0 <= ty < 2 ^ 16 -> 0 <= sq < 2 ^ 32 -> msg_ok (addr_request ty fl sc None None plen sq idx).
Proof.
  intros Ht Hs. unfold msg_ok, addr_request, ifaddrmsg_image. cbn [m_type m_flags m_seq m_pid m_fixed m_attrs].
  split_and!; try lia; try done.
  rewrite bytes_ok_app, !bytes_ok_cons, !u8_ok, le32_ok. done.
Qed.

(** The configuration is only read, the sequence number stays in range. *)
Definition ifset_step (w w' : ifset_world) : Prop :=
  if_config w' = if_config w /\ (ifset_ok w -> ifset_ok w').
#[export] Instance ifset_step_preorder : PreOrder ifset_step.
Proof. split; [by split|]. intros a b c [H1 H2] [H3 H4]. split; [congruence|auto]. Qed.

Section Functions.
Context `{!IfsetEnv}.

Ltac istep_step :=
  lazymatch goal with
  | |- keeps _ (_ ≫= _) => apply (keeps_bind ifset_step); [|intros]
  | |- keeps _ (mret _) => apply (keeps_ret ifset_step)
  | |- keeps _ (gets _) => apply (keeps_gets ifset_step)
  | |- keeps _ (fatal _) => apply (keeps_fatal ifset_step)
  | |- keeps _ (ub _) => apply (keeps_ub ifset_step)
  | |- keeps _ (modify _) => apply (keeps_modify ifset_step); intros; split; [reflexivity|]
  | |- keeps _ (if ?b then _ else _) => destruct b
  | |- keeps _ (match ?o with _ => _ end) => destruct o
  end.
Ltac istep_tac := repeat (istep_step || solve [done | eauto with istep]).

Lemma next_seq_keeps : keeps ifset_step next_seq.
Proof. unfold next_seq. istep_tac. intros _. unfold ifset_ok. apply u32_range. Qed.
Lemma nl_sendto_keeps fd msg : keeps ifset_step (nl_sendto fd msg).
Proof. cbn [nl_sendto ifset_NlProc]. unfold iemit, iask. istep_tac. Qed.
Lemma nl_recv_buf_keeps fd buf : keeps ifset_step (nl_recv_buf fd buf).
Proof. unfold nl_recv_buf. cbn [nl_recvmsg ifset_NlProc]. unfold iask. istep_tac. Qed.
Lemma nl_send_all_keeps fd msg : keeps ifset_step (nl_send_all fd msg).
Proof. unfold nl_send_all. pose proof nl_sendto_keeps. istep_tac. Qed.
Lemma rtnl_do_send_keeps fd sbuf : keeps ifset_step (rtnl_do_send fd sbuf).
Proof.
  unfold rtnl_do_send. pose proof nl_sendto_keeps. cbn [nl_recvmsg ifset_NlProc]. unfold iask. istep_tac.
Qed.
Lemma dump_keeps {D} fd seq (pfn : list Z -> Z -> D -> IM D) d :
  (forall b i d, keeps ifset_step (pfn b i d)) -> keeps ifset_step (dump fd seq pfn d).
Proof.
  intros Hp. unfold dump. generalize (zeros (Z.to_nat sizeof_nlbuf)) as buf.
  pose proof nl_recv_buf_keeps as Hr. revert d. induction ie_fuel as [|fuel IH]; intros d buf; cbn [dump_loop]; istep_tac.
  apply keeps_foreach_st; [apply _|done].
Qed.
Lemma link_flags_get_keeps fd : keeps ifset_step (link_flags_get fd).
Proof.
  unfold link_flags_get, nl_sendgetlink, nl_sendgetlink_do. pose proof next_seq_keeps. pose proof nl_send_all_keeps.
  istep_tac. apply dump_keeps. intros. unfold link_flags_get_do. istep_tac.
Qed.

Lemma rtnl_addr_broadcast_send_image fd ty fl sc ip bc plen w :
  ifset_ok w -> 0 <= ty < 2 ^ 16 -> addr4 ip -> addr4 bc ->
  rtnl_addr_broadcast_send fd ty fl sc ip bc plen w =
  match ip, bc with
  | None, None => (Ret (-1), w)
  | _, _ => (seq ← next_seq;
             rtnl_do_send fd (msg_image (addr_request ty fl sc ip bc plen seq (ifindex (if_config w))))) w
  end.
Proof.
  intros Hw Ht Hip Hbc. unfold rtnl_addr_broadcast_send, next_seq.
  set (idx := ifindex (if_config w)). set (sq := ifset_nl_seq w) in *.
  pose proof (addr_request_ok ty fl sc plen sq idx Ht Hw) as H0.
  set (m0 := addr_request ty fl sc None None plen sq idx) in *.
  assert (Hm0 : nlmsghdr_image (NLMSG_HDRLEN + sizeof_ifaddrmsg) ty
      (Z.lor (Z.lor NLM_F_REPLACE NLM_F_ACK) NLM_F_REQUEST) sq ++
      ifaddrmsg_image AF_INET plen fl sc idx ++ zeros 40 = msg_image m0 ++ zeros 40)
    by apply (fresh_message ty _ sq (ifaddrmsg_image AF_INET plen fl sc idx)).
  assert (Hok1 : forall t d, 0 <= t < 2 ^ 16 -> bytes_ok d = true -> zlen d = 4 ->
    msg_ok (with_attr m0 (mk_nlattr t d))).
  { intros t d Ht' Hd Hl. apply with_attr_ok; [done|by apply attr_ok_4|].
    by rewrite with_attr_len, attr_image_4. }
  destruct ip as [a|], bc as [b|]; try done; st_run; rsimpl; fold sq idx; rewrite Hm0.
  - destruct Hip as [Ha1 Ha2], Hbc as [Hb1 Hb2].
    rewrite with_rtattr_image_4 by (done || lia). rewrite with_rtattr_image_4; [|by apply Hok1|done..|lia].
    rewrite send_request_image; [done|]. apply with_attr_ok; [by apply Hok1|by apply attr_ok_4|].
    by rewrite !with_attr_len, !attr_image_4.
  - destruct Hip as [Ha1 Ha2]. rewrite with_rtattr_image_4 by (done || lia).
    by rewrite send_request_image by by apply Hok1.
  - destruct Hbc as [Hb1 Hb2]. rewrite with_rtattr_image_4 by (done || lia).
    by rewrite send_request_image by by apply Hok1.
Qed.

Lemma with_attr_4_ok m ty d :
  msg_ok m -> 0 <= ty < 2 ^ 16 -> bytes_ok d = true -> zlen d = 4 -> msg_len m + 8 < 2 ^ 32 ->
  msg_ok (with_attr m (mk_nlattr ty d)).
Proof.
  intros Hm Ht Hd Hl Hlen. apply with_attr_ok; [done|by apply attr_ok_4|]. by rewrite with_attr_len, attr_image_4.
Qed.

Lemma addr_request_full_ok ty fl sc ip bc plen sq idx :
  0 <= ty < 2 ^ 16 -> 0 <= sq < 2 ^ 32 -> addr4 ip -> addr4 bc -> msg_ok (addr_request ty fl sc ip bc plen sq idx).
Proof.
  intros Ht Hs Hip Hbc. pose proof (addr_request_ok ty fl sc plen sq idx Ht Hs) as H0.
  assert (H1 : msg_ok (addr_request ty fl sc ip None plen sq idx)).
  { destruct ip as [a|]; [|done]. destruct Hip. by apply (with_attr_4_ok (addr_request ty fl sc None None plen sq idx)). }
  destruct bc as [b|]; [|done]. destruct Hbc.
  destruct ip as [a|]; [destruct Hip as [Ha1 Ha2]|].
  - apply (with_attr_4_ok (addr_request ty fl sc (Some a) None plen sq idx)); try done.
    change (addr_request _ _ _ (Some a) None _ _ _) with (with_attr (addr_request ty fl sc None None plen sq idx) (mk_nlattr IFA_LOCAL a)).
    by rewrite with_attr_len, attr_image_4.
  - by apply (with_attr_4_ok (addr_request ty fl sc None None plen sq idx)).
Qed.
Lemma gw_request_ok gw4 metric sq idx : 0 <= sq < 2 ^ 32 -> msg_ok (gw_request gw4 metric sq idx).
Proof.
  intros Hs. unfold msg_ok, gw_request, rtmsg_image. cbn [m_type m_flags m_seq m_pid m_fixed m_attrs].
  split_and!; try done; try lia; destruct (0 <? metric); cbn [app]; try done;
    repeat constructor; cbn; try done; apply le32_ok.
Qed.
(** The length field of a message counts its bytes. *)
Lemma msg_image_own_len m : msg_ok m -> nlmsg_len (msg_image m) 0 = Some (zlen (msg_image m)).
Proof.
  intros Hm. rewrite msg_image_len, <- (msg_image_nlmsg_len [] [] m Hm). by rewrite app_nil_r.
Qed.

Lemma rtnl_set_default_gw_v4_image fd gw4 metric w :
  ifset_ok w ->
  rtnl_set_default_gw_v4 fd gw4 metric w =
  (seq ← next_seq; rtnl_do_send fd (msg_image (gw_request gw4 metric seq (ifindex (if_config w))))) w.
Proof.
  intros Hw. unfold rtnl_set_default_gw_v4, next_seq. st_run. rsimpl.
  set (idx := ifindex (if_config w)). set (sq := ifset_nl_seq w) in *.
  set (m0 := mk_nlmsg RTM_NEWROUTE (Z.lor (Z.lor (Z.lor NLM_F_CREATE NLM_F_REPLACE) NLM_F_ACK) NLM_F_REQUEST) sq 0
    (rtmsg_image AF_INET 0 RTPROT_DHCP RT_SCOPE_UNIVERSE RTN_UNICAST) []).
  assert (H0 : msg_ok m0).
  { unfold msg_ok. cbn [m0 m_type m_flags m_seq m_pid m_fixed m_attrs]. split_and!; try done; apply Hw. }
  assert (Hm0 : nlmsghdr_image (NLMSG_HDRLEN + sizeof_rtmsg) RTM_NEWROUTE
      (Z.lor (Z.lor (Z.lor NLM_F_CREATE NLM_F_REPLACE) NLM_F_ACK) NLM_F_REQUEST) sq ++
      rtmsg_image AF_INET 0 RTPROT_DHCP RT_SCOPE_UNIVERSE RTN_UNICAST ++ zeros 68 = msg_image m0 ++ zeros 68)
    by apply (fresh_message RTM_NEWROUTE _ sq (rtmsg_image _ _ _ _ _)).
  rewrite Hm0.
  rewrite with_rtattr_image_4; [|done|done|apply le32_ok|done|lia].
  set (m1 := with_attr m0 _). assert (H1 : msg_ok m1) by (apply with_attr_4_ok; (done || apply le32_ok)).
  rewrite with_rtattr_image_4; [|done|done|apply le32_ok|done|lia].
  set (m2 := with_attr m1 _). assert (H2 : msg_ok m2) by (apply with_attr_4_ok; (done || apply le32_ok)).
  rewrite with_rtattr_image_4; [|done|done|apply le32_ok|done|lia].
  set (m3 := with_attr m2 _). assert (H3 : msg_ok m3) by (apply with_attr_4_ok; (done || apply le32_ok)).
  unfold gw_request. zcase.
  - rewrite with_rtattr_image_4; [|done|done|apply le32_ok|done|lia].
    rewrite send_request_image; [done|]. apply with_attr_4_ok; (done || apply le32_ok).
  - by rewrite send_request_image.
Qed.

Lemma link_request_ok flags sq idx : 0 <= sq < 2 ^ 32 -> msg_ok (link_request flags sq idx []).
Proof.
  intros Hs. unfold msg_ok, link_request, ifinfomsg_image. cbn [m_type m_flags m_seq m_pid m_fixed m_attrs].
  split_and!; try done; try lia. by rewrite !bytes_ok_app, !le32_ok, bytes_ok_zeros.
Qed.

Lemma rtnl_if_flags_send_image fd flags w :
  ifset_ok w ->
  rtnl_if_flags_send fd RTM_SETLINK flags w =
  (seq ← next_seq; rtnl_do_send fd (msg_image (link_request flags seq (ifindex (if_config w)) []))) w.
Proof.
  intros Hw. unfold rtnl_if_flags_send, next_seq. st_run. rsimpl.
  set (idx := ifindex (if_config w)). set (sq := ifset_nl_seq w) in *.
  pose proof (link_request_ok flags sq idx Hw) as H0.
  by rewrite <- (send_request_image fd _ 0).
Qed.

(** The MTU goes with the flags the link has. *)
Lemma rtnl_if_mtu_set_image fd mtu w :
  ifset_ok w ->
  rtnl_if_mtu_set fd mtu w =
  (r ← link_flags_get fd;
   if r.1 <? 0 then mret (-1)
   else seq ← next_seq; cc ← gets if_config;
        rtnl_do_send fd (msg_image (link_request r.2 seq (ifindex cc) [mk_nlattr IFLA_MTU (le32 mtu)]))) w.
Proof.
  intros Hok. unfold rtnl_if_mtu_set. apply run_after. intros r w1 Hrun.
  assert (Hw1 : ifset_ok w1).
  { pose proof (link_flags_get_keeps fd w) as [_ Hk]. rewrite Hrun in Hk. by apply Hk. }
  destruct (r.1 <? 0); [done|]. unfold next_seq. st_run. rsimpl.
  set (idx := ifindex (if_config w1)). set (sq := ifset_nl_seq w1) in *.
  pose proof (link_request_ok r.2 sq idx Hw1) as H0.
  assert (Hm0 : nlmsghdr_image (NLMSG_HDRLEN + sizeof_ifinfomsg) RTM_SETLINK (Z.lor NLM_F_ACK NLM_F_REQUEST) sq ++
      ifinfomsg_image idx r.2 0xffffffff ++ zeros 8 = msg_image (link_request r.2 sq idx []) ++ zeros 8)
    by apply (fresh_message RTM_SETLINK _ sq (ifinfomsg_image idx r.2 0xffffffff)).
  rewrite Hm0. rewrite with_rtattr_image_4; [|done|done|apply le32_ok|done|lia].
  rewrite send_request_image; [done|]. apply with_attr_4_ok; (done || apply le32_ok).
Qed.
End Functions.

(** * Properties *)

(** C34. The prefix length of a subnet mask, computed through the perfect hash of
    [trailz], is 32 less the number of trailing zero bits of the mask in host order,
    for every 32-bit value: the table is never read out of range, the bits below the
    prefix are zero and the last bit of it is set; the mask of [p] leading ones has
    prefix length [p], for [p] from 0 to 32. *)
Theorem prefixlen_of_mask (sn : Z) :
  0 <= sn < 2 ^ 32 ->
  (exists k, subnet4_to_prefixlen sn = Some (32 - k) /\ 0 <= k <= 32 /\
     ntohl sn mod 2 ^ k = 0 /\ (Z.testbit (ntohl sn) k = true <-> k < 32)) /\
  forall p, 0 <= p <= 32 -> sn = htonl (mask p) -> subnet4_to_prefixlen sn = Some p.
Proof.
  intros Hsn. pose proof (htonl_range sn) as Hr. fold (ntohl sn) in Hr. unfold subnet4_to_prefixlen.
  split.
  - exists (ctz (ntohl sn)). rewrite trailz_ctz by done. split; [done|]. revert Hr. generalize (ntohl sn). intros v Hv.
    destruct (decide (v = 0)) as [->|Hne]; [cbn; split_and!; done|].
    destruct (lowest_bit v) as [_ Hk]; [lia|]. destruct v as [|p|p]; try lia. cbn [ctz] in *.
    destruct (pos_ctz_spec p) as (m & Hm & Hp & H0). split; [lia|]. rewrite Hp. split.
    + rewrite Z.mul_comm. apply Z.mod_mul. lia.
    + rewrite Z.mul_comm, <- Z.shiftl_mul_pow2, Z.shiftl_spec, Z.sub_diag, Z.testbit_odd_0 by lia.
      split; [lia|done].
  - intros p Hp ->. unfold ntohl. assert (Hm : 0 <= mask p < 2 ^ 32)
      by (unfold mask; pose proof (Z.pow_le_mono_r 2 (32 - p) 32); pose proof (Z.pow_pos_nonneg 2 (32 - p)); lia).
    rewrite htonl_htonl, trailz_ctz, ctz_mask by done. cbn. f_equal. lia.
Qed.

(** 255.255.240.0 *)
Lemma prefixlen_of_mask_witness :
  let sn := of_le [255; 255; 240; 0] in
  (exists k, subnet4_to_prefixlen sn = Some (32 - k) /\ 0 <= k <= 32 /\
     ntohl sn mod 2 ^ k = 0 /\ (Z.testbit (ntohl sn) k = true <-> k < 32)) /\
  subnet4_to_prefixlen sn = Some 20.
Proof.
  intros sn. assert (Hsn : 0 <= sn < 2 ^ 32) by (vm_compute; split; congruence).
  destruct (prefixlen_of_mask sn Hsn) as [Hk Hp]. split; [exact Hk|].
  apply Hp; [split; discriminate|vm_compute; reflexivity].
Defined.

(** C36. The requests that change an interface are well-formed netlink messages: each
    carries the next sequence number, the interface's index and the attributes it
    is about, its length field counts its bytes, and the request buffers have room for
    every attribute; an address request with neither address is not sent, and the
    MTU is only set together with flags that were read back. *)
Theorem ifset_requests_wellformed `{!IfsetEnv} (w : ifset_world) (fd : Z) :
  ifset_ok w ->
  let seq := ifset_nl_seq w in
  let idx := ifindex (if_config w) in
  let w1 := (w <| ifset_nl_seq := u32 (seq + 1) |>) in
  (forall ty fl sc ip bc plen, 0 <= ty < 2 ^ 16 -> addr4 ip -> addr4 bc -> (ip <> None \/ bc <> None) ->
     let m := addr_request ty fl sc ip bc plen seq idx in
     rtnl_addr_broadcast_send fd ty fl sc ip bc plen w = rtnl_do_send fd (msg_image m) w1 /\
     msg_ok m /\ nlmsg_len (msg_image m) 0 = Some (zlen (msg_image m))) /\
  (forall ty fl sc plen, rtnl_addr_broadcast_send fd ty fl sc None None plen w = (Ret (-1), w)) /\
  (forall gw4 metric,
     let m := gw_request gw4 metric seq idx in
     rtnl_set_default_gw_v4 fd gw4 metric w = rtnl_do_send fd (msg_image m) w1 /\
     msg_ok m /\ nlmsg_len (msg_image m) 0 = Some (zlen (msg_image m))) /\
  (forall flags,
     let m := link_request flags seq idx [] in
     rtnl_if_flags_send fd RTM_SETLINK flags w = rtnl_do_send fd (msg_image m) w1 /\
     msg_ok m /\ nlmsg_len (msg_image m) 0 = Some (zlen (msg_image m))) /\
  (forall mtu r flags w', link_flags_get fd w = (Ret (r, flags), w') ->
     if r <? 0 then rtnl_if_mtu_set fd mtu w = (Ret (-1), w')
     else
       let m := link_request flags (ifset_nl_seq w') idx [mk_nlattr IFLA_MTU (le32 mtu)] in
       rtnl_if_mtu_set fd mtu w =
         rtnl_do_send fd (msg_image m) (w' <| ifset_nl_seq := u32 (ifset_nl_seq w' + 1) |>) /\
       msg_ok m /\ nlmsg_len (msg_image m) 0 = Some (zlen (msg_image m))).
Proof.
  intros Hw seq idx w1. split_and!.
  - intros ty fl sc ip bc plen Ht Hip Hbc Hone m.
    assert (Hm : msg_ok m) by by apply addr_request_full_ok.
    split_and!; [|done|by apply msg_image_own_len].
    rewrite rtnl_addr_broadcast_send_image by done. destruct ip, bc; try done. by destruct Hone.
  - done.
  - intros gw4 metric m. assert (Hm : msg_ok m) by by apply gw_request_ok.
    split_and!; [|done|by apply msg_image_own_len]. by rewrite rtnl_set_default_gw_v4_image.
  - intros flags m. assert (Hm : msg_ok m) by by apply link_request_ok.
    split_and!; [|done|by apply msg_image_own_len]. by rewrite rtnl_if_flags_send_image.
  - intros mtu r flags w' Hrun. rewrite rtnl_if_mtu_set_image by done.
    rewrite (run_val _ _ _ _ _ Hrun). cbn [fst snd]. pose proof (link_flags_get_keeps fd w) as Hk.
    rewrite Hrun in Hk. destruct Hk as [Hc Hk]. cbn [snd] in Hc, Hk.
    destruct (r <? 0); [done|]. cbv zeta.
    set (m := link_request flags _ idx [mk_nlattr _ _]).
    assert (Hm : msg_ok m) by (apply (with_attr_4_ok (link_request flags (ifset_nl_seq w') idx []));
                               [by apply link_request_ok, Hk|done|apply le32_ok|done..]).
    split_and!; [|done|by apply msg_image_own_len].
    unfold next_seq. st_run. rsimpl. by rewrite Hc.
Qed.

Lemma ifset_requests_wellformed_witness :
  let env : IfsetEnv := {| ie_socket := fun _ => 3; ie_sendto := fun _ => -1; ie_recvmsg := fun _ => NlAgain; ie_fuel := 1 |} in
  let w := mk_ifset_world sample_config 7 0 [] in
  let m := addr_request RTM_NEWADDR IFA_F_PERMANENT 0 (Some [10; 0; 0; 9]) None 24 7 (ifindex sample_config) in
  ifset_ok w /\
  rtnl_addr_broadcast_send 3 RTM_NEWADDR IFA_F_PERMANENT 0 (Some [10; 0; 0; 9]) None 24 w =
    rtnl_do_send 3 (msg_image m) (w <| ifset_nl_seq := 8 |>) /\
  msg_ok m /\ nlmsg_len (msg_image m) 0 = Some (zlen (msg_image m)).
Proof.
  intros env w m. assert (Hw : ifset_ok w) by by split. split; [exact Hw|].
  destruct (ifset_requests_wellformed w 3 Hw) as (Ha & _).
  apply (Ha RTM_NEWADDR IFA_F_PERMANENT 0 (Some [10; 0; 0; 9]) None 24); try done. by left.
Defined.
