(* ===== verification/Ifdump.v ===== *)
(** Address dumps: what [ipbcpfx_clear_others] makes of the kernel's answers, seen as
    messages instead of bytes.  [visit_addr] is its callback on a message, and
    [clear_requests] the deletions it asks for. *)

From S2P Require Import Prelude Types World Samples Ifchange Nl Nlmsg Netlink Ifset Ifaddr.

(** * An address message *)

(** [struct ifaddrmsg] of a message. *)
Definition fixed_byte (m : nlmsg) (k : nat) : Z := nth k (m_fixed m) 0.
Definition msg_ifa_family (m : nlmsg) : Z := fixed_byte m 0.
Definition msg_ifa_prefixlen (m : nlmsg) : Z := fixed_byte m 1.
Definition msg_ifa_flags (m : nlmsg) : Z := fixed_byte m 2.
Definition msg_ifa_scope (m : nlmsg) : Z := fixed_byte m 3.
Definition msg_ifa_index (m : nlmsg) : Z := of_le (drop 4 (m_fixed m)).
Definition msg_attr (m : nlmsg) (ty : Z) : option (list Z) := attr_data (m_attrs m) ty.

(** What the kernel sends in an address dump: status messages, and messages with a
    [struct ifaddrmsg] whose two addresses are IPv4 addresses. *)
Definition addr_msg (m : nlmsg) : Prop :=
  msg_ok m /\
  (NLMSG_MIN_TYPE <= m_type m ->
   zlen (m_fixed m) = sizeof_ifaddrmsg /\ addr4 (msg_attr m IFA_ADDRESS) /\ addr4 (msg_attr m IFA_BROADCAST)).
Lemma addr_msg_ok m : addr_msg m -> msg_ok m.
Proof. by intros []. Qed.

(** An IPv4 address of the interface [idx]. *)
Definition our_addr (idx : Z) (m : nlmsg) : bool :=
  (m_type m =? RTM_NEWADDR) && (msg_ifa_index m =? u32 idx) && (msg_ifa_family m =? AF_INET).
(** The address that is wanted. *)
Definition wanted (ipaddr bcast prefixlen : Z) (m : nlmsg) : bool :=
  negb (Z.land (msg_ifa_flags m) IFA_F_PERMANENT =? 0) && (msg_ifa_scope m =? RT_SCOPE_UNIVERSE) &&
  (msg_ifa_prefixlen m =? prefixlen) &&
  bool_decide (msg_attr m IFA_ADDRESS = Some (le32 ipaddr)) &&
  bool_decide (msg_attr m IFA_BROADCAST = Some (le32 bcast)).

(** The request that deletes the address of [m]. *)
Definition del_request (seq idx : Z) (m : nlmsg) : nlmsg :=
  addr_request RTM_DELADDR (msg_ifa_flags m) (msg_ifa_scope m) (msg_attr m IFA_ADDRESS) (msg_attr m IFA_BROADCAST)
    (msg_ifa_prefixlen m) seq idx.
Definition has_address (m : nlmsg) : bool :=
  bool_decide (is_Some (msg_attr m IFA_ADDRESS)) || bool_decide (is_Some (msg_attr m IFA_BROADCAST)).

(** The deletions for the messages [ms], numbered from [seq]. *)
Fixpoint clear_requests (idx ipaddr bcast prefixlen seq : Z) (ms : list nlmsg) : list nlmsg :=
  match ms with
  | [] => []
  | m :: ms =>
    if our_addr idx m && negb (wanted ipaddr bcast prefixlen m) && has_address m
    then del_request seq idx m :: clear_requests idx ipaddr bcast prefixlen (u32 (seq + 1)) ms
    else clear_requests idx ipaddr bcast prefixlen seq ms
  end.

Section Visit.
Context `{!IfsetEnv}.

Definition visit_addr (fd : Z) (m : nlmsg) (ipx : ipbcpfx) : IM ipbcpfx :=
  cc ← gets if_config;
  if negb (our_addr (ifindex cc) m) then mret ipx
  else if wanted (ipx_ipaddr ipx) (ipx_bcast ipx) (ipx_prefixlen ipx) m then mret (ipx <| already_ok := true |>)
  else
    rtnl_addr_broadcast_send fd RTM_DELADDR (msg_ifa_flags m) (msg_ifa_scope m)
      (msg_attr m IFA_ADDRESS) (msg_attr m IFA_BROADCAST) (msg_ifa_prefixlen m);;
    mret ipx.

(** The fixed part follows the header. *)
Lemma msg_fixed_at pre m post :
  exists hdr, pre ++ msg_image m ++ post = hdr ++ m_fixed m ++ (attrs_image (m_attrs m) ++ post) /\
    zlen hdr = zlen pre + NLMSG_HDRLEN.
Proof.
  exists (pre ++ le32 (msg_len m) ++ le16 (m_type m) ++ le16 (m_flags m) ++ le32 (m_seq m) ++ le32 (m_pid m)).
  split; [unfold msg_image, msg_body; by rewrite <- !app_assoc|].
  rewrite !zlen_app, !le32_len, !le16_len. unfold NLMSG_HDRLEN. lia.
Qed.

Lemma ifa_fields pre m post :
  zlen (m_fixed m) = sizeof_ifaddrmsg ->
  let b := pre ++ msg_image m ++ post in
  ifa_family b (zlen pre) = Some (msg_ifa_family m) /\ ifa_prefixlen b (zlen pre) = Some (msg_ifa_prefixlen m) /\
  ifa_flags b (zlen pre) = Some (msg_ifa_flags m) /\ ifa_scope b (zlen pre) = Some (msg_ifa_scope m) /\
  ifa_index b (zlen pre) = Some (msg_ifa_index m).
Proof.
  intros Hf b. destruct (msg_fixed_at pre m post) as (hdr & Hb & Hh). subst b.
  unfold ifa_family, ifa_prefixlen, ifa_flags, ifa_scope, ifa_index, ifa_byte,
    msg_ifa_family, msg_ifa_prefixlen, msg_ifa_flags, msg_ifa_scope, msg_ifa_index, fixed_byte.
  rewrite Hb, <- Hh. destruct (m_fixed m) as [|c0 [|c1 [|c2 [|c3 l]]]]; try by (cbv in Hf; lia).
  cbn [nth app drop].
  split_and!.
  - by rewrite rd_at by lia.
  - by rewrite rd_at1 by lia.
  - change (c0 :: c1 :: c2 :: ?r) with ([c0; c1] ++ c2 :: r). rewrite app_assoc. rewrite rd_at; [done|].
    rewrite zlen_app, !zlen_cons, zlen_nil. lia.
  - change (c0 :: c1 :: c2 :: c3 :: ?r) with ([c0; c1; c2] ++ c3 :: r). rewrite app_assoc. rewrite rd_at; [done|].
    rewrite zlen_app, !zlen_cons, zlen_nil. lia.
  - unfold rd32. change (c0 :: c1 :: c2 :: c3 :: ?r) with ([c0; c1; c2; c3] ++ r). rewrite (app_assoc hdr).
    rewrite (rd_range_at (hdr ++ [c0; c1; c2; c3]) l _); [done|rewrite zlen_app, !zlen_cons, zlen_nil; lia|].
    unfold sizeof_ifaddrmsg, zlen in *. cbn [length] in Hf. lia.
Qed.

(** An entry of the attribute table and the message's attribute. *)
Definition table_entry (b : list Z) (o : option (list Z)) (e : option Z) : Prop :=
  match o with
  | Some d => exists p, e = Some p /\ rd_range b (p + sizeof_rtattr) 4 = Some d
  | None => e = None
  end.
Lemma table_of_entry b l tb ty :
  table_of b l (fun _ => None) tb -> ty < IFA_MAX -> addr4 (attr_data l ty) -> table_entry b (attr_data l ty) (tb ty).
Proof.
  intros Ht Hty Ha. specialize (Ht ty Hty). unfold table_entry. destruct (attr_data l ty) as [d|]; [|done].
  destruct Ht as (p & Hp & Hd & _), Ha as [_ <-]. by exists p.
Qed.
Lemma rta_addr_entry b o e : table_entry b o e -> rta_addr b e = Some o.
Proof. destruct o; [intros (p & -> & Hp)|intros ->]; [|done]. unfold rta_addr. by rewrite Hp. Qed.

Lemma is_wanted_addr_wanted ipx b nlh tb m :
  ifa_prefixlen b nlh = Some (msg_ifa_prefixlen m) -> ifa_flags b nlh = Some (msg_ifa_flags m) ->
  ifa_scope b nlh = Some (msg_ifa_scope m) ->
  table_entry b (msg_attr m IFA_ADDRESS) (tb IFA_ADDRESS) ->
  table_entry b (msg_attr m IFA_BROADCAST) (tb IFA_BROADCAST) ->
  is_wanted_addr ipx b nlh tb = Some (wanted (ipx_ipaddr ipx) (ipx_bcast ipx) (ipx_prefixlen ipx) m).
Proof.
  intros Hp Hf Hs Ha Hb. unfold is_wanted_addr, wanted. rewrite Hf, Hs, Hp. cbn [mbind option_bind].
  destruct (_ =? 0); cbn [negb andb]; [done|]. destruct (_ =? RT_SCOPE_UNIVERSE); cbn [negb andb]; [|done].
  destruct (_ =? ipx_prefixlen ipx); cbn [negb andb]; [|done].
  assert (Hrta : forall d p a, rd_range b (p + sizeof_rtattr) 4 = Some d ->
    rta_is b p a = Some (bool_decide (Some d = Some (le32 a)))).
  { intros d p a Hd. unfold rta_is. rewrite Hd. cbn [mbind option_bind]. f_equal. unfold bytes_eqb.
    apply bool_decide_ext. naive_solver. }
  unfold table_entry in Ha, Hb.
  destruct (msg_attr m IFA_ADDRESS) as [d|].
  2: { rewrite Ha. by rewrite bool_decide_eq_false_2 by done. }
  destruct Ha as (p & -> & Ha). rewrite (Hrta _ _ _ Ha). cbn [mbind option_bind].
  case_bool_decide; cbn [negb andb]; [|done].
  destruct (msg_attr m IFA_BROADCAST) as [d'|].
  2: { rewrite Hb. by rewrite bool_decide_eq_false_2 by done. }
  destruct Hb as (p' & -> & Hb). by rewrite (Hrta _ _ _ Hb).
Qed.

Lemma clear_others_do_visit fd pre m post ipx w :
  let b := pre ++ msg_image m ++ post in
  addr_msg m -> NLMSG_MIN_TYPE <= m_type m -> zlen b < 2 ^ 64 ->
  ipbcpfx_clear_others_do fd b (zlen pre) ipx w = visit_addr fd m ipx w.
Proof.
  intros b [Hm Ha] Hty H64. destruct (Ha Hty) as (Hf & Ha1 & Ha2).
  destruct (rtattr_parse_table pre m post Hm H64) as (tb & Htb & Htab).
  destruct (ifa_fields pre m post Hf) as (Hfam & Hplen & Hfl & Hsc & Hidx). fold b in Htb, Htab, Hfam, Hplen, Hfl, Hsc, Hidx.
  pose proof (table_of_entry _ _ _ IFA_ADDRESS Htab eq_refl Ha1) as Hea.
  pose proof (table_of_entry _ _ _ IFA_BROADCAST Htab eq_refl Ha2) as Heb.
  unfold ipbcpfx_clear_others_do, visit_addr. rewrite <- Hf, Htb.
  replace (nlmsg_type b (zlen pre)) with (Some (m_type m)) by (symmetry; by apply msg_image_nlmsg_type).
  st_run. unfold our_addr.
  destruct (m_type m =? RTM_NEWADDR); cbn [negb andb]; [|by st_run].
  rewrite Hidx. st_run. destruct (_ =? u32 _); cbn [negb andb]; [|by st_run].
  rewrite Hfam. st_run. destruct (_ =? AF_INET); cbn [negb andb]; [|by st_run].
  rewrite (is_wanted_addr_wanted ipx b (zlen pre) tb m) by done. st_run.
  destruct (wanted _ _ _ m); [done|].
  by rewrite Hplen, Hfl, Hsc, (rta_addr_entry _ _ _ Hea), (rta_addr_entry _ _ _ Heb).
Qed.

(** * The run of a dump *)

(** Between [w] and [w'] the messages [ms] were sent, [n] sequence numbers used. *)
Definition sends (fd : Z) (ms : list nlmsg) (w w' : ifset_world) : Prop :=
  if_config w' = if_config w /\ (if_tick w <= if_tick w')%nat /\
  if_trace w' = rev ((fun m => ISend fd (msg_image m)) <$> ms) ++ if_trace w.
Lemma sends_nil fd w : sends fd [] w w.
Proof. by split_and!. Qed.
Lemma sends_app fd l1 l2 w1 w2 w3 : sends fd l1 w1 w2 -> sends fd l2 w2 w3 -> sends fd (l1 ++ l2) w1 w3.
Proof.
  intros (H1 & H2 & H3) (H4 & H5 & H6). split_and!; [congruence|lia|].
  by rewrite H6, H3, fmap_app, rev_app_distr, <- app_assoc.
Qed.
Lemma sends_seq fd ms v w w' : sends fd ms (w <| ifset_nl_seq := v |>) w' -> sends fd ms w w'.
Proof. exact id. Qed.
Definition never (h : halt) (w : ifset_world) : Prop := False.

(** Whatever is answered, a request is sent once and the call returns. *)
Lemma rtnl_do_send_wp fd m w :
  wp (rtnl_do_send fd (msg_image m))
    (fun _ w' => sends fd [m] w w' /\ ifset_nl_seq w' = ifset_nl_seq w) never w.
Proof.
  unfold rtnl_do_send. cbn [nl_sendto nl_recvmsg ifset_NlProc]. unfold iemit, iask. wp_run.
  set (w1 := set_field if_tick _ _). assert (Hw1 : sends fd [m] w w1 /\ ifset_nl_seq w1 = ifset_nl_seq w)
    by (subst w1; unfold sends; rsimpl; split_and!; (done || lia)).
  destruct (_ || _); wp_run; [done|]. set (w2 := set_field if_tick _ _).
  assert (Hw2 : sends fd [m] w w2 /\ ifset_nl_seq w2 = ifset_nl_seq w).
  { destruct Hw1 as [(H1 & H2 & H3) H4]. subst w2. unfold sends. rsimpl. split_and!; (done || lia). }
  assert (Hbuf : forall data, zlen (received (zeros 80) data) = 80) by (intros; by rewrite received_length).
  destruct (ie_recvmsg _) as [| |data|data]; wp_run; try done; cbv zeta;
    destruct (truncated _ _); wp_run; try done; destruct (_ <? NLMSG_HDRLEN); wp_run; try done;
    specialize (Hbuf data); set (b := received _ _) in *;
    destruct (rd16_total b (0 + 4)) as [ty Hty]; try lia; unfold nlmsg_type; rewrite Hty; wp_run;
    (destruct (ty =? NLMSG_ERROR); [|wp_run; done]);
    destruct (rd32_total b 0) as [ml Hml]; try lia;
    destruct (rd32_total b (0 + NLMSG_HDRLEN)) as [e He]; unfold NLMSG_HDRLEN; try lia;
    unfold nlmsg_get_error, nlmsg_len; rewrite Hml; cbn [mbind option_bind];
    (destruct (ml <? _); [by wp_run|]); rewrite He; cbn [mbind option_bind]; by wp_run.
Qed.

Lemma visit_addr_wp fd m ipx w :
  ifset_ok w -> addr_msg m -> NLMSG_MIN_TYPE <= m_type m ->
  let idx := ifindex (if_config w) in
  let found := wanted (ipx_ipaddr ipx) (ipx_bcast ipx) (ipx_prefixlen ipx) m in
  wp (visit_addr fd m ipx)
    (fun ipx' w' => ipx' = (ipx <| already_ok := already_ok ipx || (our_addr idx m && found) |>) /\ ifset_ok w' /\
       if our_addr idx m && negb found && has_address m
       then sends fd [del_request (ifset_nl_seq w) idx m] w w' /\ ifset_nl_seq w' = u32 (ifset_nl_seq w + 1)
       else w' = w) never w.
Proof.
  intros Hw [Hm Ha] Hty idx found. destruct (Ha Hty) as (_ & Ha1 & Ha2). unfold visit_addr. wp_run. fold idx found.
  assert (Hsame : ipx = (ipx <| already_ok := already_ok ipx || false |>)) by (rewrite orb_false_r; by destruct ipx).
  destruct (our_addr idx m); cbn [negb andb]; wp_run; [|by split_and!].
  destruct found; cbn [negb andb]; wp_run; [by rewrite orb_true_r|].
  unfold has_address.
  destruct (bool_decide_reflect (is_Some (msg_attr m IFA_ADDRESS) \/ is_Some (msg_attr m IFA_BROADCAST))) as [Hs|Hs].
  - replace (bool_decide (is_Some _) || bool_decide (is_Some _)) with true
      by (symmetry; rewrite orb_true_iff, !bool_decide_eq_true; done).
    apply (wp_eq _ (seq ← next_seq; rtnl_do_send fd (msg_image (del_request seq idx m)))).
    { rewrite rtnl_addr_broadcast_send_image by done. unfold del_request.
      destruct (msg_attr m IFA_ADDRESS), (msg_attr m IFA_BROADCAST); try done. by destruct Hs as [[]|[]]. }
    unfold next_seq. wp_run. eapply wp_mono; [apply rtnl_do_send_wp| |done]. intros r w' [Hs1 Hs2]. wp_run.
    apply sends_seq in Hs1. rewrite Hs2. unfold ifset_ok. rewrite Hs2. rsimpl.
    split_and!; (done || apply u32_range).
  - replace (bool_decide (is_Some _) || bool_decide (is_Some _)) with false
      by (symmetry; rewrite orb_false_iff, !bool_decide_eq_false; tauto).
    apply (wp_eq _ (mret (-1))); [|by wp_run].
    rewrite rtnl_addr_broadcast_send_image by done.
    destruct (msg_attr m IFA_ADDRESS), (msg_attr m IFA_BROADCAST); try done; exfalso; naive_solver.
Qed.

(** ** The walk over a datagram *)

(** A message of the dump that [seq] asked for, and one that does not belong to it:
    the acknowledgement of another request, or the end of the dump. *)
Definition dump_msg (seq : Z) (m : nlmsg) : Prop := addr_msg m /\ m_seq m = seq /\ NLMSG_MIN_TYPE <= m_type m.
Definition status_msg (seq : Z) (m : nlmsg) : Prop :=
  addr_msg m /\ msg_len m <= sizeof_nlbuf /\ (m_seq m <> seq \/ m_type m = NLMSG_DONE).

Lemma walk_status {D} seq (visit : nlmsg -> D -> IM D) tail d w :
  seq <> 0 -> Forall (status_msg seq) tail -> walk_st seq visit tail d w = (Ret (0, d), w).
Proof.
  intros Hseq. induction 1 as [|m tail (_ & _ & Hm) _ IH]; [done|]. cbn [walk_st].
  destruct Hm as [Hm|Hm].
  - replace (_ && _) with true; [done|]. symmetry. rewrite andb_true_iff, !negb_true_iff, !Z.eqb_neq. done.
  - rewrite Hm. destruct (_ && _); [exact IH|]. done.
Qed.

Lemma walk_dump fd seq tail ms : seq <> 0 -> Forall (status_msg seq) tail ->
  forall ipx w, Forall (dump_msg seq) ms -> ifset_ok w ->
  let idx := ifindex (if_config w) in
  let found := wanted (ipx_ipaddr ipx) (ipx_bcast ipx) (ipx_prefixlen ipx) in
  wp (walk_st seq (visit_addr fd) (ms ++ tail) ipx)
    (fun r w' => r = (0, ipx <| already_ok := already_ok ipx || existsb (fun m => our_addr idx m && found m) ms |>) /\
       sends fd (clear_requests idx (ipx_ipaddr ipx) (ipx_bcast ipx) (ipx_prefixlen ipx) (ifset_nl_seq w) ms) w w')
    never w.
Proof.
  intros Hseq Ht. induction ms as [|m ms IH]; intros ipx w Hms Hw idx found; cbn [app].
  - apply (wp_eq _ (mret (0, ipx))); [by apply walk_status|]. wp_run. cbn [existsb clear_requests].
    rewrite orb_false_r. split; [by destruct ipx|apply sends_nil].
  - apply Forall_cons in Hms as [(Hm & Hms1 & Hty) Hms]. cbn [walk_st existsb clear_requests].
    rewrite Hms1, Z.eqb_refl, andb_false_r. zcase; [|lia]. wp_run.
    eapply wp_mono; [by apply visit_addr_wp| |done]. intros ipx' w1 (-> & Hw1 & Hs).
    assert (Hidx : ifindex (if_config w1) = idx) by (subst idx; destruct (_ && has_address m); [by destruct Hs as [(-> & _) _]|by subst]).
    eapply wp_mono; [by apply IH| |done]. rewrite Hidx. rsimpl. fold found.
    intros r w' [-> Hs']. rewrite <- orb_assoc. split; [done|]. fold found in Hs.
    destruct (_ && has_address m); [|by subst w1]. destruct Hs as [Hs1 Hs2]. rewrite Hs2 in Hs'.
    eapply (sends_app fd [_]); [exact Hs1|exact Hs'].
Qed.

(** ** The loop over datagrams *)

Lemma received_at buf data :
  bytes_ok data = true -> zlen data <= zlen buf -> received buf data = data ++ drop (length data) buf.
Proof.
  intros Hb Hl. unfold received. rewrite take_ge by (rewrite length_map; unfold zlen in *; lia).
  rewrite length_map. f_equal. rewrite <- (map_id data) at 2. apply map_ext_in. intros x Hx.
  apply u8_id. apply (bytes_ok_elem data); [done|by apply list_elem_of_In].
Qed.

Lemma dump_datagram fuel fd seq buf ms ipx w :
  zlen buf = sizeof_nlbuf -> Forall addr_msg ms -> zlen (datagram ms) <= sizeof_nlbuf ->
  ie_recvmsg (if_tick w) = NlData (datagram ms) ->
  exists buf', zlen buf' = sizeof_nlbuf /\
    dump_loop (S fuel) fd seq buf (ipbcpfx_clear_others_do fd) ipx w =
    (f ← walk_st seq (visit_addr fd) ms ipx;
     if f.1 <? 0 then mret (-3, f.2)
     else if 0 <? zlen (datagram ms) then dump_loop fuel fd seq buf' (ipbcpfx_clear_others_do fd) f.2
     else mret (0, f.2)) (w <| if_tick ::= S |>).
Proof.
  intros Hbuf Hms Hlen Hr. exists (received buf (datagram ms)). split; [by rewrite received_length|].
  assert (Hok : Forall msg_ok ms) by (eapply Forall_impl; [exact Hms|apply addr_msg_ok]).
  cbn [dump_loop]. unfold nl_recv_buf. cbn [nl_recvmsg ifset_NlProc]. unfold iask. st_run. rewrite Hr.
  unfold truncated. replace (zlen buf <? zlen (datagram ms)) with false by lia.
  zcase; [pose proof (zlen_nonneg (datagram ms)); lia|].
  assert (Hrc := received_at buf (datagram ms) (datagram_bytes ms Hok) ltac:(lia)).
  apply run_cong; [|done]. rewrite Hrc.
  apply (foreach_st_walk seq (visit_addr fd) addr_msg); [apply addr_msg_ok|done|done| |].
  - rewrite <- Hrc, received_length, Hbuf. done.
  - intros pre m post d s Hb Hm Hty. rewrite Hb. apply clear_others_do_visit; [done|done|].
    rewrite <- Hb, <- Hrc, received_length, Hbuf. done.
Qed.

(** Nothing more of the dump: the socket is empty or holds a status message. *)
Definition quiet (seq : Z) (t : nat) : Prop :=
  ie_recvmsg t = NlAgain \/ exists m, ie_recvmsg t = NlData (msg_image m) /\ status_msg seq m.

Lemma dump_quiet fd seq fuel : forall buf ipx w,
  seq <> 0 -> zlen buf = sizeof_nlbuf -> (0 < fuel)%nat ->
  (forall t, (if_tick w <= t)%nat -> quiet seq t) ->
  (forall t, (if_tick w + fuel <= S t)%nat -> ie_recvmsg t = NlAgain) ->
  wp (dump_loop fuel fd seq buf (ipbcpfx_clear_others_do fd) ipx) (fun r w' => r = (0, ipx) /\ sends fd [] w w') never w.
Proof.
  induction fuel as [|fuel IH]; intros buf ipx w Hseq Hbuf Hf Hq Ha; [lia|].
  destruct (Hq (if_tick w)) as [Hr|(m & Hr & Hm)]; [done|..].
  - cbn [dump_loop]. unfold nl_recv_buf. cbn [nl_recvmsg ifset_NlProc]. unfold iask. wp_run. rewrite Hr.
    change (0 <? 0) with false. cbv iota. wp_run.
    apply (wp_eq _ (mret (0, ipx))).
    + rewrite <- (app_nil_l buf). apply (foreach_st_walk seq (visit_addr fd) addr_msg []); try done.
      { apply addr_msg_ok. } { cbn [datagram app]. change (zlen buf < 2 ^ 64). by rewrite Hbuf. }
      intros pre m post d s Hb Hm Hty. rewrite Hb. apply clear_others_do_visit; [done|done|].
      rewrite <- Hb. change (zlen buf < 2 ^ 64). by rewrite Hbuf.
    + wp_run. split; [done|]. unfold sends. rsimpl. split_and!; (done || lia).
  - assert (Hd : msg_image m = datagram [m]) by (unfold datagram; cbn; by rewrite app_nil_r).
    rewrite Hd in Hr. destruct (dump_datagram fuel fd seq buf [m] ipx w) as (buf' & Hbuf' & Heq);
      [done|apply Forall_singleton, Hm|rewrite <- Hd, msg_image_len; apply Hm|done|].
    eapply wp_at; [exact Heq|]. clear Heq. wp_run.
    apply (wp_eq _ (mret (0, ipx))); [apply walk_status; [done|by apply Forall_singleton]|]. wp_run. cbn [fst snd].
    change (0 <? 0) with false. cbv iota. rewrite <- Hd, msg_image_len.
    pose proof (msg_len_min m). unfold NLMSG_HDRLEN in *. zcase; [|lia].
    destruct fuel as [|fuel]; [by rewrite (Ha (if_tick w)) in Hr by lia|].
    eapply wp_mono; [apply IH; try done; [lia|..]| |done].
    + intros t Ht. rsimpl. apply Hq. revert Ht. rsimpl. lia.
    + intros t Ht. apply Ha. revert Ht. rsimpl. lia.
    + intros r w' [-> (H1 & H2 & H3)]. split; [done|]. revert H1 H2 H3. unfold sends. rsimpl. intros.
      split_and!; (done || lia).
Qed.

(** ** The whole call *)

Definition getaddr4_request (seq idx : Z) : nlmsg :=
  mk_nlmsg RTM_GETADDR (Z.lor NLM_F_REQUEST NLM_F_ROOT) seq 0 (ifaddrmsg_image AF_INET 0 0 0 (u32 idx)) [].

(** The kernel answers the dump request sent at the tick [t] with one datagram, the
    messages [ms] and then [tail], and later reads find no more of the dump; the
    socket is empty before the fuel ends. *)
Record dump_answered (seq : Z) (t : nat) (ms tail : list nlmsg) : Prop := {
  da_sent : ie_sendto t = NLMSG_HDRLEN + sizeof_ifaddrmsg;
  da_dump : Forall (dump_msg seq) ms;
  da_tail : Forall (status_msg seq) tail;
  da_fits : zlen (datagram (ms ++ tail)) <= sizeof_nlbuf;
  da_read : ie_recvmsg (S t) = NlData (datagram (ms ++ tail));
  da_later : forall t', (S t < t')%nat -> quiet seq t';
  da_fuel : (2 <= ie_fuel)%nat;
  da_empty : forall t', (t + ie_fuel <= t')%nat -> ie_recvmsg t' = NlAgain
}.

Lemma dump_msgs_addr seq ms tail :
  Forall (dump_msg seq) ms -> Forall (status_msg seq) tail -> Forall addr_msg (ms ++ tail).
Proof.
  intros H1 H2. apply Forall_app. split; eapply Forall_impl; [exact H1|by intros m []|exact H2|by intros m []].
Qed.

Lemma dump_answered_wp fd seq ms tail ipx w t :
  seq <> 0 -> ifset_ok w -> dump_answered seq t ms tail -> if_tick w = S t ->
  let idx := ifindex (if_config w) in
  let found := wanted (ipx_ipaddr ipx) (ipx_bcast ipx) (ipx_prefixlen ipx) in
  wp (dump fd seq (ipbcpfx_clear_others_do fd) ipx)
    (fun r w' => r = (0, ipx <| already_ok := already_ok ipx || existsb (fun m => our_addr idx m && found m) ms |>) /\
       sends fd (clear_requests idx (ipx_ipaddr ipx) (ipx_bcast ipx) (ipx_prefixlen ipx) (ifset_nl_seq w) ms) w w')
    never w.
Proof.
  intros Hseq Hw Hda Ht idx found. unfold dump.
  pose proof (da_fuel _ _ _ _ Hda) as Hfuel. pose proof (da_empty _ _ _ _ Hda) as Hempty.
  destruct ie_fuel as [|fuel]; [lia|].
  destruct (dump_datagram fuel fd seq (zeros (Z.to_nat sizeof_nlbuf)) (ms ++ tail) ipx w) as (buf' & Hbuf' & Heq).
  { reflexivity. } { eapply dump_msgs_addr; apply Hda. } { apply Hda. } { rewrite Ht. apply Hda. }
  eapply wp_at; [exact Heq|]. clear Heq. wp_run.
  eapply wp_mono; [apply walk_dump; [done|apply Hda|apply Hda|exact Hw]| |done].
  intros r w1 [-> Hs]. assert (Hs' : sends fd (clear_requests idx (ipx_ipaddr ipx) (ipx_bcast ipx) (ipx_prefixlen ipx) (ifset_nl_seq w) ms) w w1)
    by (destruct Hs as (H1 & H2 & H3); unfold sends; revert H2; rsimpl; intros; split_and!; (done || lia)).
  assert (Htick : (S (S t) <= if_tick w1)%nat) by (destruct Hs as (_ & H2 & _); revert H2; rsimpl; lia).
  cbn [fst snd]. change (0 <? 0) with false. cbv iota. destruct (0 <? _); [|by wp_run].
  eapply wp_mono; [apply dump_quiet; try done; [lia|..]| |done].
  - intros t' Ht'. apply Hda. lia.
  - intros t' Ht'. apply Hempty. lia.
  - intros r w2 [-> Hs2]. split; [done|]. rewrite <- (app_nil_r (clear_requests _ _ _ _ _ _)).
    by eapply sends_app.
Qed.
End Visit.

(** * Properties *)

(** C25. The requests of [ipbcpfx_clear_others] when the kernel answers its dump with one
    datagram and the reads after it find only acknowledgements, the end of the dump or
    nothing: the dump request and then one deletion request per IPv4 address of the
    interface other than the wanted one (addresses that the kernel names by neither
    address nor broadcast attribute apart, which cannot be asked for), in the order
    of the dump and with consecutive sequence numbers; none for addresses of other
    interfaces, other families and other kinds of message; acknowledgements, errors
    and lost requests change nothing, and the result is 1 exactly when the wanted
    address (permanent, of universe scope, with this prefix length and broadcast
    address) was in the dump.  A dump in several datagrams is not covered: see
    [dump_second_datagram_lost]. *)
Theorem clear_others_deletes `{!IfsetEnv} (fd ipaddr bcast prefixlen : Z) (ms tail : list nlmsg) (w : ifset_world) :
  let seq := ifset_nl_seq w in
  let idx := ifindex (if_config w) in
  ifset_ok w -> seq <> 0 -> dump_answered seq (if_tick w) ms tail ->
  exists w', ipbcpfx_clear_others fd ipaddr bcast prefixlen w =
      (Ret (if existsb (fun m => our_addr idx m && wanted ipaddr bcast prefixlen m) ms then 1 else 0), w') /\
    if_trace w' = rev ((fun m => ISend fd (msg_image m)) <$>
      getaddr4_request seq idx :: clear_requests idx ipaddr bcast prefixlen (u32 (seq + 1)) ms) ++ if_trace w.
Proof.
  intros seq idx Hw Hseq Hda.
  cut (wp (ipbcpfx_clear_others fd ipaddr bcast prefixlen)
    (fun r w' => r = (if existsb (fun m => our_addr idx m && wanted ipaddr bcast prefixlen m) ms then 1 else 0) /\
       sends fd (getaddr4_request seq idx :: clear_requests idx ipaddr bcast prefixlen (u32 (seq + 1)) ms) w w') never w).
  { unfold wp. destruct (ipbcpfx_clear_others _ _ _ _ _) as [[r|h] w']; [|done]. intros [-> (_ & _ & Ht)]. by exists w'. }
  unfold ipbcpfx_clear_others, next_seq, nl_sendgetaddr4, nl_sendgetaddr_do, nl_send_all.
  cbn [nl_sendto ifset_NlProc]. unfold iemit, iask. wp_run. rsimpl. fold seq idx.
  rewrite (da_sent _ _ _ _ Hda). change (_ || _) with false. cbv iota. wp_run. change (0 <? 0) with false. cbv iota. wp_run.
  set (w1 := set_field if_tick _ _).
  assert (Hs1 : sends fd [getaddr4_request seq idx] w w1).
  { subst w1. unfold sends. rsimpl. split_and!; (done || lia). }
  eapply wp_mono; [apply (dump_answered_wp fd seq ms tail _ w1 (if_tick w))| |done]; try done.
  - subst w1. unfold ifset_ok. rsimpl. apply u32_range.
  - cbn [already_ok ipx_ipaddr ipx_bcast ipx_prefixlen orb].
    intros r w' [-> Hs2]. wp_run. split; [|exact (sends_app fd [_] _ _ _ _ Hs1 Hs2)]. done.
Qed.


Definition sample_idx : Z := ifindex sample_config.
Definition sample_addr (ix : Z) (ip : list Z) (bc : option (list Z)) : nlmsg :=
  mk_nlmsg RTM_NEWADDR 2 7 100 (ifaddrmsg_image AF_INET 24 IFA_F_PERMANENT RT_SCOPE_UNIVERSE ix)
    (mk_nlattr IFA_ADDRESS ip :: attr4 IFA_BROADCAST bc).
Definition sample_ack : nlmsg := mk_nlmsg NLMSG_ERROR 0 8 100 (le32 0 ++ zeros 16) [].
Definition sample_done : nlmsg := mk_nlmsg NLMSG_DONE 2 7 100 (zeros 4) [].
(** Another address of the interface, the wanted one, one of another interface. *)
Definition sample_dump : list nlmsg :=
  [sample_addr sample_idx [10; 0; 0; 7] None; sample_addr sample_idx [10; 0; 0; 9] (Some [10; 0; 0; 255]);
   sample_addr (sample_idx + 1) [10; 0; 0; 8] None].
Definition dump_env : IfsetEnv := {|
  ie_socket := fun _ => 3;
  ie_sendto := fun t => match t with O => 24 | _ => 32 end;
  ie_recvmsg := fun t => match t with
    | 1%nat => NlData (datagram (sample_dump ++ [sample_done]))
    | 3%nat => NlData (msg_image sample_ack)
    | _ => NlAgain
    end;
  ie_fuel := 5
|}.
Definition dump_world : ifset_world := mk_ifset_world sample_config 7 0 [].

Lemma sample_addr_dump ix ip bc :
  bytes_ok ip = true -> zlen ip = 4 -> addr4 bc -> dump_msg 7 (sample_addr ix ip bc).
Proof.
  intros Hip Hl Hbc. unfold dump_msg, addr_msg, msg_ok, sample_addr. cbn [m_type m_flags m_seq m_pid m_fixed m_attrs].
  assert (Hat : Forall attr_ok (mk_nlattr IFA_ADDRESS ip :: attr4 IFA_BROADCAST bc)).
  { apply Forall_cons. split; [by apply attr_ok_4|]. destruct bc as [b|]; [|done]. destruct Hbc.
    by apply Forall_singleton, attr_ok_4. }
  assert (Hlen : zlen (attrs_image (mk_nlattr IFA_ADDRESS ip :: attr4 IFA_BROADCAST bc)) <= 16).
  { destruct bc as [b|]; cbn [attr4]; rewrite !attrs_image_cons, !zlen_app, !attr_image_4 by (done || apply Hbc);
      change (attrs_image []) with (@nil Z); rewrite zlen_nil; lia. }
  split_and!; try done.
  - unfold ifaddrmsg_image. by rewrite bytes_ok_app, !bytes_ok_cons, !u8_ok, le32_ok.
  - unfold msg_len, msg_body. cbn [m_fixed m_attrs]. rewrite zlen_app.
    change (zlen (ifaddrmsg_image _ _ _ _ _)) with 8. unfold NLMSG_HDRLEN. lia.
  - intros _. split; [done|]. by destruct bc.
Qed.

Lemma clear_others_deletes_witness :
  (exists w', ipbcpfx_clear_others (H := dump_env) 3 (of_le [10; 0; 0; 9]) (of_le [10; 0; 0; 255]) 24 dump_world =
    (Ret 1, w') /\
    if_trace w' = [ISend 3 (msg_image (del_request 8 sample_idx (sample_addr sample_idx [10; 0; 0; 7] None)));
                   ISend 3 (msg_image (getaddr4_request 7 sample_idx))]).
Proof.
  apply (clear_others_deletes (H := dump_env) 3 (of_le [10; 0; 0; 9]) (of_le [10; 0; 0; 255]) 24 sample_dump [sample_done] dump_world).
  - by split.
  - done.
  - split.
    + done.
    + repeat (apply Forall_cons; split); try done; by apply sample_addr_dump.
    + apply Forall_singleton. split_and!; try done. by right.
    + vm_compute. congruence.
    + done.
    + intros [|[|[|[|t]]]] Ht; try lia; [by left| |by left].
      right. exists sample_ack. split; [done|]. split_and!; try done. by left.
    + cbn. lia.
    + intros [|[|[|[|t]]]] Ht; cbn in Ht; try lia. done.
Defined.

(** A dump in two datagrams: the acknowledgement of the first deletion is read from the
    socket that still holds the second datagram, which is taken for the answer and
    dropped; the address in it stays. *)
Definition split_env : IfsetEnv := {|
  ie_socket := fun _ => 3;
  ie_sendto := fun t => match t with O => 24 | _ => 32 end;
  ie_recvmsg := fun t => match t with
    | 1%nat => NlData (datagram [sample_addr sample_idx [10; 0; 0; 7] None])
    | 3%nat => NlData (datagram [sample_addr sample_idx [10; 0; 0; 6] None])
    | 4%nat => NlData (msg_image sample_ack)
    | _ => NlAgain
    end;
  ie_fuel := 5
|}.
Lemma dump_second_datagram_lost :
  let run := ipbcpfx_clear_others (H := split_env) 3 (of_le [10; 0; 0; 9]) (of_le [10; 0; 0; 255]) 24 dump_world in
  fst run = Ret 0 /\
  if_trace (snd run) = [ISend 3 (msg_image (del_request 8 sample_idx (sample_addr sample_idx [10; 0; 0; 7] None)));
                        ISend 3 (msg_image (getaddr4_request 7 sample_idx))].
Proof. vm_compute. split; reflexivity. Qed.
