(* ===== verification/Ifsafe.v ===== *)
(** The netlink operations of [ifset.c] never leave their buffers: whatever well-formed
    datagrams the kernel sends, in whatever order, each operation returns. *)

From Stdlib Require Import Sorting.Sorted.
From S2P Require Import Prelude Types World Samples Ifchange Nl Nlmsg Netlink Ifset Ifaddr.

(** A message of at least its header and a [struct ifaddrmsg]. *)
Definition kernel_msg (m : nlmsg) : Prop :=
  msg_ok m /\ (NLMSG_MIN_TYPE <= m_type m -> sizeof_ifaddrmsg <= zlen (m_fixed m)).

(** What the code relies on of the kernel: a datagram is a sequence of well-formed
    messages and leaves room for a [struct ifinfomsg] in the receive buffer. *)
Definition kernel_ok `{!IfsetEnv} : Prop := forall t data, ie_recvmsg t = NlData data ->
  exists ms, data = datagram ms /\ Forall kernel_msg ms /\ zlen data + sizeof_ifinfomsg <= sizeof_nlbuf.

(** The kernel has sent [n] datagrams after the tick [t], in one dump. *)
Definition flooded `{!IfsetEnv} (n t : nat) : Prop :=
  exists ts, length ts = n /\ StronglySorted lt ts /\
    Forall (fun t' => (t <= t')%nat /\ exists x d, ie_recvmsg t' = NlData (x :: d)) ts.

(** * Walking attributes *)

(** Every entry is an attribute with room for [k] bytes of data behind its header. *)
Definition table_in (k : Z) (b : list Z) (tb : Z -> option Z) : Prop :=
  forall ty p, tb ty = Some p -> 0 <= p /\ p + sizeof_rtattr + k <= zlen b.

Lemma rtattr_loop_total k b fuel : 0 <= k -> forall i rtlen tb,
  0 <= i -> 0 <= rtlen -> rtlen mod 4 = 0 -> i + rtlen + k <= zlen b -> zlen b < 2 ^ 64 -> rtlen < Z.of_nat fuel ->
  table_in k b tb -> exists tb', rtattr_loop fuel b i rtlen rtattr_assign tb = Some tb' /\ table_in k b tb'.
Proof.
  intros Hk. induction fuel as [|fuel IH]; intros i rtlen tb Hi H0 Hal Hb H64 Hf Ht; [lia|]. cbn [rtattr_loop].
  unfold sizeof_rtattr. zcase; cbn [negb]; [|eauto]. unfold rta_len, rta_type.
  destruct (rd16_total b i) as [rl ->]; [lia..|]. cbn [mbind option_bind].
  zcase; cbn [andb negb]; [|eauto]. zcase; cbn [negb]; [|eauto].
  destruct (rd16_total b (i + 2)) as [ty ->]; [lia..|]. cbn [mbind option_bind]. unfold rtattr_assign.
  destruct (NLMSG_ALIGN_bounds rl) as [Hb1 Hb2]. pose proof (NLMSG_ALIGN_le rl rtlen ltac:(lia) Hal).
  rewrite size_t_id by lia.
  assert (Hnext : forall tb, table_in k b tb -> exists tb',
     rtattr_loop fuel b (i + NLMSG_ALIGN rl) (rtlen - NLMSG_ALIGN rl) rtattr_assign tb = Some tb' /\ table_in k b tb').
  { intros t Htt. apply IH; try lia; [|done]. Z.div_mod_to_equations. lia. }
  destruct (IFA_MAX <=? ty); apply Hnext; [done|].
  intros ty' p. destruct (decide (ty' = ty)) as [->|Hne]; [rewrite fn_update_eq|rewrite fn_update_ne by done; apply Ht].
  intros [= <-]. unfold sizeof_rtattr. lia.
Qed.

(** The attributes behind a struct of [off] bytes. *)
Lemma msg_parse k off pre m post :
  let b := pre ++ msg_image m ++ post in
  msg_ok m -> 0 <= k -> 0 <= off -> off mod 4 = 0 -> off <= zlen (m_fixed m) ->
  zlen pre + msg_len m + k <= zlen b -> zlen b < 2 ^ 64 ->
  exists tb, nl_rtattr_parse b (zlen pre) off rtattr_assign (fun _ => None) = Some tb /\ table_in k b tb.
Proof.
  intros b Hm Hk Hoff Hoa Hf Hb H64. unfold nl_rtattr_parse. subst b.
  rewrite (msg_image_nlmsg_len pre post m Hm). cbn [mbind option_bind]. set (b := pre ++ msg_image m ++ post) in *.
  rewrite (align_id off) by done.
  pose proof (msg_len_aligned m Hm) as Hal. pose proof Hm as (_ & _ & _ & _ & _ & _ & _ & Hl).
  assert (Hlen : 16 + off <= msg_len m).
  { unfold msg_len, msg_body, NLMSG_HDRLEN. rewrite zlen_app. pose proof (zlen_nonneg (attrs_image (m_attrs m))). lia. }
  pose proof (zlen_nonneg pre). unfold NLMSG_HDRLEN. rewrite u32_id, size_t_id by lia.
  apply (rtattr_loop_total k); try done; try lia.
  - Z.div_mod_to_equations. lia.
  - unfold zlen in *. lia.
Qed.

(** * Operations that return *)

Section Safe.
Context `{!IfsetEnv} (Hk : kernel_ok).

(** A dump that the kernel never ends is the only way not to return. *)
Definition endless (w0 : ifset_world) (h : halt) (w : ifset_world) : Prop :=
  h = HFuel /\ flooded ie_fuel (if_tick w0).
Definition advances (w w' : ifset_world) : Prop := (if_tick w <= if_tick w')%nat.
#[local] Instance advances_preorder : PreOrder advances.
Proof. unfold advances. split; [intros ?; lia|intros ???; lia]. Qed.

Definition isafe {A} (m : IM A) : Prop := forall w, ifset_ok w ->
  wp m (fun _ w' => advances w w' /\ ifset_ok w') (endless w) w.
Definition itotal {A} (m : IM A) : Prop := forall w, ifset_ok w ->
  wp m (fun _ w' => advances w w' /\ ifset_ok w') (fun _ _ => False) w.

Lemma itotal_safe {A} (m : IM A) : itotal m -> isafe m.
Proof. intros Hm w Hw. eapply wp_mono; [by apply Hm|done|done]. Qed.
Lemma flooded_earlier n t t' : (t <= t')%nat -> flooded n t' -> flooded n t.
Proof.
  intros Ht (ts & H1 & H2 & H3). exists ts. split_and!; [done..|]. eapply Forall_impl; [exact H3|].
  cbn. intros x [? ?]. split; [lia|done].
Qed.
Lemma isafe_bind {A B} (m : IM A) (f : A -> IM B) : isafe m -> (forall a, isafe (f a)) -> isafe (m ≫= f).
Proof.
  intros Hm Hf w Hw. rewrite wp_bind. eapply wp_mono; [by apply Hm| |done]. intros a w1 [Ha Hw1].
  eapply wp_mono; [by apply Hf|..].
  - intros b w2 [Hb Hw2]. split; [by etrans|done].
  - intros h w2 [-> Hfl]. split; [done|]. by eapply flooded_earlier.
Qed.
Lemma itotal_bind {A B} (m : IM A) (f : A -> IM B) : itotal m -> (forall a, itotal (f a)) -> itotal (m ≫= f).
Proof.
  intros Hm Hf w Hw. rewrite wp_bind. eapply wp_mono; [by apply Hm| |done]. intros a w1 [Ha Hw1].
  eapply wp_mono; [by apply Hf| |done]. intros b w2 [Hb Hw2]. split; [by etrans|done].
Qed.
Lemma itotal_ret {A} (a : A) : itotal (mret a).
Proof. intros w Hw. wp_run. by split. Qed.
Lemma itotal_gets {A} (f : ifset_world -> A) : itotal (gets f).
Proof. intros w Hw. wp_run. by split. Qed.
Lemma itotal_ub {A} (o : option A) : is_Some o -> itotal (ub o).
Proof. intros [a ->] w Hw. wp_run. by split. Qed.
Lemma itotal_known {A B} (a : A) (f : A -> IM B) : itotal (f a) -> itotal (ub (Some a) ≫= f).
Proof. intros Hf w Hw. wp_run. by apply Hf. Qed.
Lemma itotal_iask {A} (f : nat -> A) : itotal (iask f).
Proof. intros w Hw. unfold iask. wp_run. split; [unfold advances; rsimpl; lia|exact Hw]. Qed.
Lemma itotal_iemit a : itotal (iemit a).
Proof. intros w Hw. unfold iemit. wp_run. split; [exact (Nat.le_refl _)|exact Hw]. Qed.
Lemma itotal_next_seq : itotal next_seq.
Proof. intros w Hw. unfold next_seq. wp_run. split; [exact (Nat.le_refl _)|]. apply u32_range. Qed.

Ltac itotal_step :=
  lazymatch goal with
  | |- itotal (_ ≫= _) => apply itotal_bind; [|intros]
  | |- itotal (mret _) => apply itotal_ret
  | |- itotal (gets _) => apply itotal_gets
  | |- itotal (iask _) => apply itotal_iask
  | |- itotal (iemit _) => apply itotal_iemit
  | |- itotal next_seq => apply itotal_next_seq
  | |- itotal (if ?b then _ else _) => destruct b eqn:?
  | |- itotal (match ?o with _ => _ end) => destruct o
  end.
Ltac itotal_tac := cbv zeta; repeat (itotal_step; cbv zeta).

Lemma rtnl_do_send_total fd sbuf : itotal (rtnl_do_send fd sbuf).
Proof.
  unfold rtnl_do_send. cbn [nl_sendto nl_recvmsg ifset_NlProc].
  assert (Hbuf : forall data, zlen (received (zeros 80) data) = 80) by (intros; by rewrite received_length).
  itotal_step; [itotal_tac|]. itotal_step; [itotal_tac|]. itotal_step; [itotal_tac|].
  assert (Hend : forall data, itotal (
      let response := zeros 80 in
      if truncated response data then mret (-1)
      else if zlen data <? NLMSG_HDRLEN then mret (-1)
      else
        let b := received response data in
        ty ← ub (nlmsg_type b 0);
        if ty =? NLMSG_ERROR then
          nlerr ← ub (nlmsg_get_error b 0);
          mret (if nlerr =? 0 then 0 else if nlerr =? ERFKILL then -3 else -1)
        else mret (if ty =? NLMSG_DONE then -2 else -1))).
  { intros data. cbv zeta. specialize (Hbuf data). set (b := received _ _) in *.
    destruct (truncated (zeros 80) data); [by itotal_tac|].
    destruct (zlen data <? NLMSG_HDRLEN); [by itotal_tac|].
    itotal_step; [apply itotal_ub; unfold nlmsg_type; destruct (rd16_total b (0 + 4)) as [v ->]; [lia..|done]|].
    destruct (_ =? NLMSG_ERROR); [|by itotal_tac]. itotal_step; [|by itotal_tac].
    apply itotal_ub. unfold nlmsg_get_error, nlmsg_len, NLMSG_HDRLEN.
    destruct (rd32_total b 0) as [v ->]; [lia..|]. destruct (rd32_total b (0 + 16)) as [e ->]; [lia..|]. cbn.
    by destruct (v <? _). }
  destruct a0; [by itotal_tac..|apply Hend|apply Hend].
Qed.

Lemma send_request_total fd m : msg_ok m -> forall n, itotal (send_request fd (msg_image m ++ zeros n)).
Proof. intros Hm n w Hw. eapply wp_eq; [by apply send_request_image|]. by apply rtnl_do_send_total. Qed.

Lemma numbered_send_total fd (f : Z -> nlmsg) : itotal (seq ← next_seq; rtnl_do_send fd (msg_image (f seq))).
Proof. itotal_step; [apply itotal_next_seq|apply rtnl_do_send_total]. Qed.

Lemma rtnl_addr_broadcast_send_total fd ty fl sc ip bc plen :
  0 <= ty < 2 ^ 16 -> addr4 ip -> addr4 bc -> itotal (rtnl_addr_broadcast_send fd ty fl sc ip bc plen).
Proof.
  intros Ht Hip Hbc w Hw.
  set (idx := ifindex (if_config w)).
  set (m' := match ip, bc with
             | None, None => mret (-1)
             | _, _ => seq ← next_seq; rtnl_do_send fd (msg_image (addr_request ty fl sc ip bc plen seq idx))
             end : IM Z).
  apply (wp_eq _ m'); [rewrite rtnl_addr_broadcast_send_image by done; subst m'; by destruct ip, bc|].
  assert (Hm' : itotal m'); [|by apply Hm'].
  subst m'. destruct ip, bc; itotal_tac; apply rtnl_do_send_total.
Qed.

Lemma nl_sendto_total fd msg : itotal (nl_sendto fd msg).
Proof. cbn [nl_sendto ifset_NlProc]. itotal_tac. Qed.
Lemma nl_send_all_total fd msg : itotal (nl_send_all fd msg).
Proof. unfold nl_send_all. itotal_step; [apply nl_sendto_total|itotal_tac]. Qed.

(** ** Callbacks *)

(** A receive buffer of [sizeof_nlbuf] bytes holding a well-formed message at the
    position [i], with room for a [struct ifinfomsg] behind it. *)
Definition at_msg (b : list Z) (i : Z) : Prop := exists pre m post,
  b = pre ++ msg_image m ++ post /\ i = zlen pre /\ kernel_msg m /\ NLMSG_MIN_TYPE <= m_type m /\
  bytes_ok b = true /\ zlen b = sizeof_nlbuf /\ i + msg_len m + sizeof_ifinfomsg <= zlen b.

Lemma at_msg_bounds b i : at_msg b i -> 0 <= i /\ i + NLMSG_HDRLEN + sizeof_ifinfomsg <= zlen b.
Proof.
  intros (pre & m & post & -> & -> & _ & _ & _ & _ & Hl). pose proof (msg_len_min m). pose proof (zlen_nonneg pre). lia.
Qed.

Lemma link_flags_get_do_total b i d : at_msg b i -> itotal (link_flags_get_do b i d).
Proof.
  intros [H0 Hb]%at_msg_bounds. unfold link_flags_get_do, NLMSG_HDRLEN, sizeof_ifinfomsg in *.
  assert (Hty : is_Some (nlmsg_type b i)) by (destruct (rd16_total b (i + 4)) as [v Hv]; [lia..|by exists v]).
  assert (Hidx : is_Some (ifi_index b i)).
  { unfold ifi_index, NLMSG_HDRLEN. destruct (rd32_total b (i + 16 + 4)) as [v ->]; [lia..|done]. }
  assert (Hfl : is_Some (ifi_flags b i)) by (destruct (rd32_total b (i + 16 + 8)) as [v Hv]; [lia..|by exists v]).
  itotal_tac; by apply itotal_ub.
Qed.

Lemma ifa_byte_total b i k : at_msg b i -> 0 <= k < 8 -> is_Some (ifa_byte b i k).
Proof.
  intros [H0 Hb]%at_msg_bounds Hk8. unfold ifa_byte, NLMSG_HDRLEN, sizeof_ifinfomsg in *.
  destruct (rd_Some b (i + 16 + k)) as (v & -> & _); [lia|done].
Qed.
Lemma table_data b tb ty p :
  table_in 4 b tb -> bytes_ok b = true -> tb ty = Some p ->
  exists d, rd_range b (p + sizeof_rtattr) 4 = Some d /\ bytes_ok d = true /\ zlen d = 4.
Proof.
  intros Ht Hb Hp. destruct (Ht ty p Hp) as [H0 H1]. unfold sizeof_rtattr in *.
  destruct (rd_range_Some b (p + 4) 4) as (d & Hd & Hl); [lia..|]. exists d. split; [done|].
  split; [by eapply bytes_ok_rd_range|by eapply rd_range_len].
Qed.

Lemma ipbcpfx_clear_others_do_total fd b i ipx : at_msg b i -> itotal (ipbcpfx_clear_others_do fd b i ipx).
Proof.
  intros Hat. pose proof Hat as (pre & m & post & Hb & Hi & [Hm Hfix] & Hty & Hok & Hlen & Hroom).
  destruct (at_msg_bounds b i Hat) as [H0 Hbnd]. unfold NLMSG_HDRLEN, sizeof_ifinfomsg in *.
  assert (Hparse : exists tb, nl_rtattr_parse b i sizeof_ifaddrmsg rtattr_assign (fun _ => None) = Some tb /\ table_in 4 b tb).
  { rewrite Hb, Hi. apply (msg_parse 4); [done..|by apply Hfix|rewrite <- Hb; lia|rewrite <- Hb, Hlen; done]. }
  destruct Hparse as (tb & Htb & Htab). unfold ipbcpfx_clear_others_do. rewrite Htb.
  assert (Hmty : is_Some (nlmsg_type b i)) by (destruct (rd16_total b (i + 4)) as [v Hv]; [lia..|by exists v]).
  assert (Hidx : is_Some (ifa_index b i)).
  { unfold ifa_index, NLMSG_HDRLEN. destruct (rd32_total b (i + 16 + 4)) as [v ->]; [lia..|done]. }
  destruct (ifa_byte_total b i 0 Hat ltac:(lia)) as [v0 Hv0], (ifa_byte_total b i 1 Hat ltac:(lia)) as [v1 Hv1],
    (ifa_byte_total b i 2 Hat ltac:(lia)) as [v2 Hv2], (ifa_byte_total b i 3 Hat ltac:(lia)) as [v3 Hv3].
  unfold ifa_family, ifa_prefixlen, ifa_flags, ifa_scope.
  assert (Hrta : forall ty, exists o, rta_addr b (tb ty) = Some o /\ addr4 o).
  { intros ty. unfold rta_addr. destruct (tb ty) as [p|] eqn:Ep; [|by exists None].
    destruct (table_data b tb ty p Htab Hok Ep) as (d & -> & Hd). by exists (Some d). }
  assert (Hwant : is_Some (is_wanted_addr ipx b i tb)).
  { unfold is_wanted_addr, ifa_flags, ifa_scope, ifa_prefixlen. rewrite Hv1, Hv2, Hv3. cbn [mbind option_bind].
    repeat (destruct (_ =? _); cbn [negb]; try done).
    unfold rta_is. destruct (tb IFA_ADDRESS) as [p|] eqn:Ep; [|done].
    destruct (table_data b tb _ p Htab Hok Ep) as (d & -> & _). cbn [mbind option_bind].
    destruct (negb _); [done|]. destruct (tb IFA_BROADCAST) as [q|] eqn:Eq; [|done].
    destruct (table_data b tb _ q Htab Hok Eq) as (d' & -> & _). done. }
  destruct (Hrta IFA_ADDRESS) as (oa & Hoa & Ha4), (Hrta IFA_BROADCAST) as (ob & Hob & Hb4).
  destruct Hmty as [mty ->], Hidx as [ix ->], Hwant as [ok Hwant].
  apply itotal_known. itotal_step; [by apply itotal_ub|].
  itotal_step; [by itotal_tac|]. itotal_step; [by apply itotal_ub|]. itotal_step; [apply itotal_gets|].
  itotal_step; [by itotal_tac|]. rewrite Hv0, Hwant, Hv1, Hv2, Hv3, Hoa, Hob.
  itotal_step; [by apply itotal_ub|]. itotal_step; [by itotal_tac|]. itotal_step; [by apply itotal_ub|].
  itotal_step; [by itotal_tac|]. do 5 apply itotal_known.
  itotal_step; [|by itotal_tac]. by apply rtnl_addr_broadcast_send_total.
Qed.

(** ** Dumps *)

Lemma bytes_ok_u8 l : bytes_ok (List.map u8 l) = true.
Proof. induction l as [|x l IH]; [done|]. cbn [List.map]. by rewrite bytes_ok_cons, u8_ok, IH. Qed.
Lemma received_bytes buf data : bytes_ok buf = true -> bytes_ok (received buf data) = true.
Proof.
  intros Hb. unfold received. rewrite bytes_ok_app. rewrite bytes_ok_take by apply bytes_ok_u8.
  by rewrite bytes_ok_drop.
Qed.
Lemma received_datagram buf data :
  bytes_ok data = true -> zlen data <= zlen buf -> received buf data = data ++ drop (length data) buf.
Proof.
  intros Hb Hl. unfold received. rewrite take_ge by (rewrite length_map; unfold zlen in *; lia).
  rewrite length_map. f_equal. rewrite <- (map_id data) at 2. apply map_ext_in. intros x Hx.
  apply u8_id. apply (bytes_ok_elem data); [done|by apply list_elem_of_In].
Qed.

(** One datagram of a dump, for a callback that returns on every message. *)
Lemma foreach_received {D} fd buf data ms seq (pfn : list Z -> Z -> D -> IM D) d w :
  data = datagram ms -> Forall kernel_msg ms -> zlen data + sizeof_ifinfomsg <= sizeof_nlbuf ->
  zlen buf = sizeof_nlbuf -> bytes_ok buf = true -> (forall b i d, at_msg b i -> itotal (pfn b i d)) -> ifset_ok w ->
  let _ := fd : Z in
  wp (nl_foreach_st (received buf data) (zlen data) seq 0 pfn d)
    (fun _ w' => advances w w' /\ ifset_ok w') (fun _ _ => False) w.
Proof.
  intros -> Hms Hroom Hbuf Hb Hp Hw _. unfold sizeof_ifinfomsg in *.
  assert (Hmok : forall m, kernel_msg m -> msg_ok m) by by intros m [].
  assert (Hok : Forall msg_ok ms) by (eapply Forall_impl; [exact Hms|done]).
  pose proof (received_bytes buf (datagram ms) Hb) as Hrb.
  pose proof (received_length buf (datagram ms)) as Hrl. rewrite Hbuf in Hrl.
  rewrite (received_datagram buf (datagram ms)) in * by (lia || by apply datagram_bytes).
  apply (foreach_st_safe advances ifset_ok kernel_msg); try done.
  - by rewrite Hrl.
  - intros pre m post d0 s Heq Hpos Hm Hty Hs. apply Hp; [|done].
    exists pre, m, post. split_and!; try done. rewrite Hrl. unfold sizeof_ifinfomsg. lia.
Qed.

Lemma dump_loop_safe {D} fd seq (pfn : list Z -> Z -> D -> IM D) : (forall b i d, at_msg b i -> itotal (pfn b i d)) ->
  forall fuel buf d w, zlen buf = sizeof_nlbuf -> bytes_ok buf = true -> ifset_ok w ->
  wp (dump_loop fuel fd seq buf pfn d) (fun _ w' => advances w w' /\ ifset_ok w')
    (fun h w' => h = HFuel /\ flooded fuel (if_tick w)) w.
Proof.
  intros Hp. induction fuel as [|fuel IH]; intros buf d w Hbuf Hb Hw; cbn [dump_loop].
  { wp_run. split; [done|]. exists []. split_and!; [done|constructor|constructor]. }
  unfold nl_recv_buf. cbn [nl_recvmsg ifset_NlProc]. unfold iask. wp_run.
  set (w1 := set_field if_tick _ w). assert (Hw1 : ifset_ok w1) by exact Hw.
  assert (Hadv : advances w w1) by (unfold advances, w1; rsimpl; lia).
  assert (Hret : forall (r : Z * D), wp (mret r) (fun _ w' => advances w w' /\ ifset_ok w')
    (fun h w' => h = HFuel /\ flooded (S fuel) (if_tick w)) w1) by (intros r; wp_run; by split).
  destruct (ie_recvmsg (if_tick w)) as [| |data|data] eqn:Er; cbv iota; [|apply Hret|apply Hret|].
  - change (0 <? 0) with false. cbv iota. wp_run.
    eapply wp_mono; [apply (foreach_st_safe advances ifset_ok kernel_msg seq [] buf 0 pfn d)| |done]; try done.
    + by intros m [].
    + change (zlen buf < 2 ^ 64). by rewrite Hbuf.
    + intros pre m post d0 s _ Hpos. pose proof (msg_len_min m). pose proof (zlen_nonneg pre).
      change (zlen (datagram [])) with 0 in Hpos. unfold NLMSG_HDRLEN in *. lia.
    + intros [r d'] w2 [Ha2 Hw2]. cbn [fst snd]. destruct (r <? 0); wp_run; (split; [by etrans|done]).
  - destruct (Hk _ _ Er) as (ms & Hdata & Hms & Hroom). unfold truncated. rewrite Hbuf.
    replace (sizeof_nlbuf <? zlen data) with false by (unfold sizeof_ifinfomsg, sizeof_nlbuf in *; lia).
    pose proof (zlen_nonneg data). zcase; [lia|]. wp_run.
    eapply wp_mono; [by apply (foreach_received fd buf data ms)| |done]. intros [r d'] w2 [Ha2 Hw2]. cbn [fst snd].
    destruct (r <? 0); [wp_run; split; [by etrans|done]|]. zcase; [|wp_run; split; [by etrans|done]].
    eapply wp_mono; [apply (IH _ d' w2); [by rewrite received_length|by apply received_bytes|done]|..].
    + intros r3 w3 [Ha3 Hw3]. split; [|done]. by etrans; [exact Hadv|]; etrans.
    + intros h w3 [-> (ts & Hl & Hs & Hf)]. split; [done|]. exists (if_tick w :: ts).
      assert (Hlt : (if_tick w < if_tick w2)%nat) by (unfold advances, w1 in Ha2; revert Ha2; rsimpl; lia).
      split_and!; [cbn; lia|constructor; [done|]|constructor].
      * eapply Forall_impl; [exact Hf|]. cbn. intros t [Ht _]. lia.
      * split; [lia|]. destruct data as [|x data]; [done|by exists x, data].
      * eapply Forall_impl; [exact Hf|]. cbn. intros t [Ht ?]. split; [lia|done].
Qed.

Lemma dump_safe {D} fd seq (pfn : list Z -> Z -> D -> IM D) d :
  (forall b i d, at_msg b i -> itotal (pfn b i d)) -> isafe (dump fd seq pfn d).
Proof.
  intros Hp w Hw. unfold dump, endless. by apply dump_loop_safe.
Qed.

(** ** The operations *)

Lemma rtnl_addr_broadcast_send_safe fd ty fl sc ip bc plen :
  0 <= ty < 2 ^ 16 -> isafe (rtnl_addr_broadcast_send fd ty fl sc (Some (le32 ip)) (Some (le32 bc)) plen).
Proof. intros Ht. apply itotal_safe, rtnl_addr_broadcast_send_total; [done|by split; [apply le32_ok|]..]. Qed.

Ltac isafe_step :=
  lazymatch goal with
  | |- isafe (_ ≫= _) => apply isafe_bind; [|intros]
  | |- isafe (mret _) => apply itotal_safe, itotal_ret
  | |- isafe (gets _) => apply itotal_safe, itotal_gets
  | |- isafe next_seq => apply itotal_safe, itotal_next_seq
  | |- isafe (ub _) => apply itotal_safe, itotal_ub
  | |- isafe (rtnl_addr_broadcast_send _ _ _ _ _ _ _) => apply rtnl_addr_broadcast_send_safe; done
  | |- isafe (nl_sendgetlink _ _ _) => apply itotal_safe, nl_send_all_total
  | |- isafe (nl_sendgetaddr4 _ _ _) => apply itotal_safe, nl_send_all_total
  | |- isafe nl_socket => apply itotal_safe; unfold nl_socket; itotal_tac
  | |- isafe (iclose _) => apply itotal_safe, itotal_iemit
  | |- isafe (if ?b then _ else _) => destruct b eqn:?
  | |- isafe (match ?o with _ => _ end) => destruct o
  end.
Ltac isafe_tac := cbv zeta; repeat (first [isafe_step | lazymatch goal with |- isafe _ => solve [auto with isafe] end]; cbv zeta).

Lemma link_flags_get_safe fd : isafe (link_flags_get fd).
Proof.
  unfold link_flags_get. isafe_tac. apply dump_safe. intros. by apply link_flags_get_do_total.
Qed.
#[local] Hint Resolve link_flags_get_safe : isafe.
Lemma perform_carrier_safe : isafe perform_carrier.
Proof. unfold perform_carrier. isafe_tac. Qed.
Lemma rtnl_if_flags_send_safe fd flags : isafe (rtnl_if_flags_send fd RTM_SETLINK flags).
Proof.
  apply itotal_safe. intros w Hw. eapply wp_eq; [by apply rtnl_if_flags_send_image|].
  by apply (numbered_send_total fd (fun seq => link_request flags seq _ [])).
Qed.
#[local] Hint Resolve rtnl_if_flags_send_safe : isafe.
Lemma link_set_flags_safe fd flags : isafe (link_set_flags fd flags).
Proof. unfold link_set_flags. isafe_tac. Qed.
#[local] Hint Resolve link_set_flags_safe : isafe.
Lemma perform_ifup_safe : isafe perform_ifup.
Proof. unfold perform_ifup. isafe_tac. Qed.

Lemma ipbcpfx_clear_others_safe fd ip bc plen : isafe (ipbcpfx_clear_others fd ip bc plen).
Proof.
  unfold ipbcpfx_clear_others. isafe_tac. apply dump_safe. intros. by apply ipbcpfx_clear_others_do_total.
Qed.
#[local] Hint Resolve ipbcpfx_clear_others_safe : isafe.

Lemma perform_ip_subnet_bcast_safe ip sn bc : isafe (perform_ip_subnet_bcast ip sn bc).
Proof.
  unfold perform_ip_subnet_bcast. isafe_tac.
  all: unfold subnet4_to_prefixlen; rewrite trailz_ctz; [done|]; apply htonl_range.
Qed.

Lemma rtnl_set_default_gw_v4_safe fd gw m : isafe (rtnl_set_default_gw_v4 fd gw m).
Proof.
  apply itotal_safe. intros w Hw. eapply wp_eq; [by apply rtnl_set_default_gw_v4_image|].
  by apply (numbered_send_total fd (fun seq => gw_request gw m seq _)).
Qed.
#[local] Hint Resolve rtnl_set_default_gw_v4_safe : isafe.
Lemma perform_router_safe s n : isafe (perform_router s n).
Proof. unfold perform_router. isafe_tac. Qed.

Lemma rtnl_if_mtu_set_safe fd mtu : isafe (rtnl_if_mtu_set fd mtu).
Proof.
  intros w Hw. eapply wp_eq; [by apply rtnl_if_mtu_set_image|]. revert w Hw.
  match goal with |- forall w, _ -> wp ?m _ _ _ => assert (Hm : isafe m); [|exact Hm] end.
  isafe_tac. apply itotal_safe, rtnl_do_send_total.
Qed.
#[local] Hint Resolve rtnl_if_mtu_set_safe : isafe.
Lemma perform_mtu_safe s n : isafe (perform_mtu s n).
Proof. unfold perform_mtu. isafe_tac. Qed.
End Safe.
