(* ===== verification/Ifchd.v ===== *)
(** The process ndhc-ifch ([ifchd.c]): its state, the files of resolv.conf, and the
    operations [perform_*] that do not go through netlink.

    A file is its content and the position of its descriptor.  Reads, writes and
    seeks may fail or stop short as the environment says; a failed or short
    [writeordie] ends the process. *)

From stdpp Require Import gmap.
From S2P Require Import Prelude Types World Ifchange Nl Netlink Ifset.

(** * Process state *)

Record ofile := mk_ofile { fcontent : list Z; fpos : nat }.

Inductive ifch_state :=
| STATE_NOTHING | STATE_IP4SET | STATE_TIMEZONE | STATE_ROUTER | STATE_DNS | STATE_LPRSVR
| STATE_HOSTNAME | STATE_DOMAIN | STATE_IPTTL | STATE_MTU | STATE_NTPSVR | STATE_WINS
| STATE_CARRIER.
#[export] Instance ifch_state_eq_dec : EqDecision ifch_state.
Proof. solve_decision. Defined.

(** [struct ifchd_client]; the arrays are [MAX_BUF] bytes long. *)
Record ifchd_client := mk_ifchd_client {
  cl_state : ifch_state;
  ibuf : list Z;
  namesvrs : list Z;
  domains : list Z
}.
#[export] Instance ifchd_client_eta : Eta ifchd_client := fun r =>
  mk_ifchd_client (cl_state r) (ibuf r) (namesvrs r) (domains r).

Inductive ifch_action :=
| CHostname (name : list Z)          (** [sethostname] *)
| CReply (c : Z)                     (** the answer to the master *)
| CSync (fd : Z).                    (** [fsync] *)

(** The answers among the actions. *)
Fixpoint answers_sent (tr : list ifch_action) : list Z :=
  match tr with
  | [] => []
  | CReply c :: tr => c :: answers_sent tr
  | _ :: tr => answers_sent tr
  end.

Record ifch_world := mk_ifch_world {
  cl : ifchd_client;
  resolv_conf_fd : Z; resolv_conf_head_fd : Z; resolv_conf_tail_fd : Z;
  allow_hostname : bool;
  files : gmap Z ofile;
  ifset : ifset_world;               (** the state of [ifset.c] in this process *)
  ch_tick : nat;
  ch_trace : list ifch_action
}.
#[export] Instance ifch_world_eta : Eta ifch_world := fun r =>
  mk_ifch_world (cl r) (resolv_conf_fd r) (resolv_conf_head_fd r) (resolv_conf_tail_fd r)
    (allow_hostname r) (files r) (ifset r) (ch_tick r) (ch_trace r).

Class IfchEnv := {
  ch_ifset :: IfsetEnv;
  ch_lseek : nat -> bool;
  ch_read : nat -> Z;                (** the result of [safe_read], if no less is left *)
  ch_write : nat -> Z;               (** the result of [safe_write], if no less is asked *)
  ch_ftruncate : nat -> bool;        (** final result, after the EINTR retries *)
  ch_fsync : nat -> bool;
  ch_sethostname : nat -> bool;
  ch_recv : nat -> read_reply;       (** [safe_recv] from the master *)
  ch_reply : nat -> Z                (** [safe_write] to the master *)
}.

Notation CM := (St ifch_world).

(** * Strings in arrays *)

(** The string at [p] of an array, without its NUL. *)
Definition cstr_at (arr : list Z) (p : Z) : option (list Z) :=
  if (0 <=? p) && (p <=? zlen arr) then cstr (drop (Z.to_nat p) arr) else None.

(** [strchr]: the position in the string, if the character is there. *)
Fixpoint strchr (s : list Z) (c : Z) : option Z :=
  match s with
  | [] => None
  | d :: s => if d =? c then Some 0 else Z.succ <$> strchr s c
  end.

(** [snprintf(arr, n, "%s", s)]: the array afterwards. *)
Definition snprintf_s (arr : list Z) (n : Z) (s : list Z) : option (list Z) :=
  wr_range arr 0 (take (Z.to_nat (n - 1)) s ++ [0]).

Section Ifchd.
Context `{!IfchEnv}.

Definition cask {A} (f : nat -> A) : CM A :=
  t ← gets ch_tick; modify (fun w => w <| ch_tick ::= S |>);; mret (f t).
Definition cemit (a : ifch_action) : CM unit := modify (fun w => w <| ch_trace ::= cons a |>).
(** A function of [ifset.c], run in this process. *)
Definition lift_ifset {A} (m : IM A) : CM A := fun w =>
  let '(r, i) := m (ifset w) in (r, w <| ifset := i |>).

(** * Files *)

Definition file_of (fd : Z) : CM (option ofile) := gets (fun w => files w !! fd).
Definition set_file (fd : Z) (f : ofile) : CM unit := modify (fun w => w <| files ::= insert fd f |>).

(** [lseek]: [pos] computes the new position from the file; -1 on failure. *)
Definition lseek (fd : Z) (pos : ofile -> nat) : CM Z :=
  ok ← cask ch_lseek;
  f ← file_of fd;
  match f with
  | Some f =>
    if ok : bool then set_file fd (mk_ofile (fcontent f) (pos f));; mret (Z.of_nat (pos f))
    else mret (-1)
  | None => mret (-1)
  end.
Definition SEEK_END (f : ofile) : nat := length (fcontent f).
Definition SEEK_CUR (f : ofile) : nat := fpos f.
Definition SEEK_SET_0 (_ : ofile) : nat := 0%nat.

Definition file_write (f : ofile) (bs : list Z) : ofile :=
  let c := fcontent f ++ zeros (fpos f - length (fcontent f)) in
  mk_ofile (take (fpos f) c ++ bs ++ drop (fpos f + length bs) c) (fpos f + length bs).

(** [safe_write]: its result; it may write a part only. *)
Definition safe_write (fd : Z) (bs : list Z) : CM Z :=
  r ← cask ch_write;
  f ← file_of fd;
  match f with
  | Some f =>
    if r <? 0 then mret (-1)
    else
      let bs := take (Z.to_nat r) bs in
      set_file fd (file_write f bs);; mret (zlen bs)
  | None => mret (-1)
  end.

(** [safe_read] of at most [n] bytes: [None] on failure. *)
Definition safe_read (fd : Z) (n : Z) : CM (option (list Z)) :=
  r ← cask ch_read;
  f ← file_of fd;
  match f with
  | Some f =>
    if r <? 0 then mret None
    else
      let bs := take (Z.to_nat (Z.min n r)) (drop (fpos f) (fcontent f)) in
      set_file fd (mk_ofile (fcontent f) (fpos f + length bs));; mret (Some bs)
  | None => mret None
  end.

Definition ftruncate (fd off : Z) : CM bool :=
  ok ← cask ch_ftruncate;
  f ← file_of fd;
  match f with
  | Some f =>
    if ok : bool then
      set_file fd (mk_ofile (take (Z.to_nat off) (fcontent f ++ zeros (Z.to_nat off))) (fpos f));;
      mret true
    else mret false
  | None => mret false
  end.
Definition fsync (fd : Z) : CM bool := ok ← cask ch_fsync; cemit (CSync fd);; mret ok.

(** * resolv.conf *)

Definition writeordie (fd : Z) (buf : list Z) : CM unit :=
  r ← safe_write fd buf;
  if (r <? 0) || negb (r =? zlen buf) then suicide "writeordie: write failed" else mret tt.

(** The loop of [write_append_fd]; every round copies up to 4096 bytes. *)
Fixpoint append_loop (fuel : nat) (to_fd from_fd from_fd_len : Z) : CM Z :=
  match fuel with
  | O => fatal HFuel
  | S fuel =>
    if negb (0 <? from_fd_len) then mret 0
    else
      let to_read := if from_fd_len <=? 4096 then from_fd_len else 4096 in
      r ← safe_read from_fd to_read;
      match r with
      | None => suicide "write_append_fd: read failed"
      | Some buf =>
        if negb (zlen buf =? to_read) then suicide "write_append_fd: read failed"
        else
          r ← safe_write to_fd buf;
          if (r <? 0) || negb (r =? to_read) then suicide "write_append_fd: write failed"
          else append_loop fuel to_fd from_fd (from_fd_len - to_read)
      end
  end.

Definition write_append_fd (to_fd from_fd : Z) : CM Z :=
  if from_fd <? 0 then mret 0
  else if to_fd <? 0 then mret (-1)
  else
    lse ← lseek from_fd SEEK_END;
    if lse <? 0 then mret (-2)
    else
      r ← lseek from_fd SEEK_SET_0;
      if r <? 0 then mret (-2)
      else append_loop (S (Z.to_nat lse)) to_fd from_fd lse.

(** The common part of the two loops of [write_resolve_conf]: the element at [p] of
    a comma-separated array, the array after its comma has become a NUL, and the
    next position. *)
Definition next_element (arr : list Z) (p : Z) : option (list Z * list Z * Z) :=
  s ← cstr_at arr p;
  match strchr s (ch ","%char) with
  | Some i => arr ← wr arr (p + i) 0; e ← cstr_at arr p; Some (e, arr, p + i + 1)
  | None => Some (s, arr, p + zlen s)
  end.

(** [snprintf(buf, sizeof buf, "%s", p)] keeps at most [MAX_BUF - 1] characters. *)
Definition fit_buf (s : list Z) : list Z := take (Z.to_nat (MAX_BUF - 1)) s.

Fixpoint namesvrs_loop (fuel : nat) (fd p : Z) : CM unit :=
  match fuel with
  | O => fatal HFuel
  | S fuel =>
    arr ← gets (fun w => namesvrs (cl w));
    c ← ub (rd arr p);
    if c =? 0 then mret tt
    else
      e ← ub (next_element arr p);
      let '(s, arr, q) := e in
      modify (fun w => w <| cl ::= fun c => c <| namesvrs := arr |> |>);;
      writeordie fd (chars "nameserver ");;
      writeordie fd (fit_buf s);;
      writeordie fd [10];;
      namesvrs_loop fuel fd q
  end.

Fixpoint domains_loop (fuel : nat) (fd p numdoms : Z) : CM unit :=
  match fuel with
  | O => fatal HFuel
  | S fuel =>
    arr ← gets (fun w => domains (cl w));
    c ← ub (rd arr p);
    if c =? 0 then mret tt
    else
      e ← ub (next_element arr p);
      let '(s, arr, q) := e in
      modify (fun w => w <| cl ::= fun c => c <| domains := arr |> |>);;
      (if numdoms =? 0 then
         writeordie fd (chars "domain ");; writeordie fd (fit_buf s)
       else if numdoms =? 1 then
         writeordie fd [10];; writeordie fd (chars "search ");; writeordie fd (fit_buf s)
       else
         writeordie fd [32];; writeordie fd (fit_buf s));;
      if 6 <? numdoms + 1 then mret tt else domains_loop fuel fd q (numdoms + 1)
  end.

(** Every round moves [p] forward in an array of [MAX_BUF] bytes. *)
Definition list_fuel : nat := S (Z.to_nat MAX_BUF).

Definition write_resolve_conf : CM Z :=
  fd ← gets resolv_conf_fd;
  if fd <? 0 then mret 0
  else
    ns ← gets (fun w => namesvrs (cl w));
    n ← ub (strlen ns);
    if n =? 0 then mret (-1)
    else
      r ← lseek fd SEEK_SET_0;
      if r <? 0 then mret (-1)
      else
        head ← gets resolv_conf_head_fd;
        write_append_fd fd head;;
        namesvrs_loop list_fuel fd 0;;
        domains_loop list_fuel fd 0 0;;
        writeordie fd [10];;
        tail ← gets resolv_conf_tail_fd;
        write_append_fd fd tail;;
        off ← lseek fd SEEK_CUR;
        if off <? 0 then mret (-1)
        else
          ok ← ftruncate fd off;
          if negb ok then mret (-1)
          else ok ← fsync fd; mret (if ok : bool then 0 else -1).

(** * The commands that are not netlink requests *)

(** [str] is the string handed over, [len] its length according to the caller. *)
Definition perform_timezone (str : list Z) (len : Z) : CM Z := mret 0.
Definition perform_lprsvr (str : list Z) (len : Z) : CM Z := mret 0.
Definition perform_ipttl (str : list Z) (len : Z) : CM Z := mret 0.
Definition perform_ntpsrv (str : list Z) (len : Z) : CM Z := mret 0.
Definition perform_wins (str : list Z) (len : Z) : CM Z := mret 0.

Definition perform_dns (str : list Z) (len : Z) : CM Z :=
  fd ← gets resolv_conf_fd;
  if fd <? 0 then mret 0
  else if MAX_BUF <? len then mret (-1)
  else
    ns ← gets (fun w => namesvrs (cl w));
    ns ← ub (snprintf_s ns MAX_BUF (until_nul str));
    modify (fun w => w <| cl ::= fun c => c <| namesvrs := ns |> |>);;
    write_resolve_conf.

Definition perform_hostname (str : list Z) (len : Z) : CM Z :=
  allow ← gets allow_hostname;
  if negb allow then mret 0
  else
    name ← ub (rd_range str 0 len);
    cemit (CHostname name);;
    ok ← cask ch_sethostname;
    mret (if ok : bool then 0 else -1).

Definition perform_domain (str : list Z) (len : Z) : CM Z :=
  fd ← gets resolv_conf_fd;
  if fd <? 0 then mret 0
  else if MAX_BUF <? len then mret (-1)
  else
    ds ← gets (fun w => domains (cl w));
    ds ← ub (snprintf_s ds MAX_BUF (until_nul str));
    modify (fun w => w <| cl ::= fun c => c <| domains := ds |> |>);;
    write_resolve_conf.

End Ifchd.
