(* ===== verification/Ragel.v ===== *)
(** State machines of the Ragel compiler: regular expressions with embedded
    actions, run one character at a time.

    [ifchd-parse.rl] and [cfg.rl] describe their parsers as regular expressions;
    the build turns them into C.  What this file models is the documented meaning
    of the operators those two files use: concatenation, [|], [*], [+], repetition,
    and actions that run on entering ([>]), on leaving ([%]), on finishing ([@]) and
    on every character ([$]) of an expression.

    A running machine is the list of the expressions that may still follow (the
    states of an automaton without determinisation): [deriv] consumes one
    character, [step] does so for all expressions of the list at once.  An action
    that several paths run on the same character runs once, and actions run in the
    order of the path; in the two grammars this is the order in which they appear,
    which is the order Ragel uses. *)

From stdpp Require Import sets.
From S2P Require Import Prelude World.

(** * Character classes and machines *)

Inductive cclass :=
| CChar (c : Z)               (** ['c'] *)
| CDigit                      (** [digit] *)
| COneOf (cs : list Z)        (** [[abc]] *)
| CNoneOf (cs : list Z)       (** [[^abc]] *)
| CExtend.                    (** [extend]: any character *)
#[export] Instance cclass_eq_dec : EqDecision cclass.
Proof. solve_decision. Defined.

Definition in_class (k : cclass) (c : Z) : bool :=
  match k with
  | CChar d => c =? d
  | CDigit => (48 <=? c) && (c <=? 57)
  | COneOf cs => existsb (Z.eqb c) cs
  | CNoneOf cs => negb (existsb (Z.eqb c) cs)
  | CExtend => true
  end.

Inductive ragel (A : Type) :=
| REps
| RClass (k : cclass)
| RSeq (a b : ragel A)
| RAlt (a b : ragel A)
| RStar (a : ragel A)
| REnter (x : A) (a : ragel A)      (** [a > x] *)
| RLeave (a : ragel A) (x : A)      (** [a % x] *)
| RFinish (a : ragel A) (x : A)     (** [a @ x] *)
| RAll (a : ragel A) (x : A).       (** [a $ x] *)
Arguments REps {A}.
Arguments RClass {A} k.
Arguments RSeq {A} a b.
Arguments RAlt {A} a b.
Arguments RStar {A} a.
Arguments REnter {A} x a.
Arguments RLeave {A} a x.
Arguments RFinish {A} a x.
Arguments RAll {A} a x.
#[export] Instance ragel_eq_dec {A} `{EqDecision A} : EqDecision (ragel A).
Proof. solve_decision. Defined.

Declare Scope ragel_scope.
Delimit Scope ragel_scope with ragel.
Notation "a ⋅ b" := (RSeq a b) (at level 40, left associativity) : ragel_scope.
Notation "a ∥ b" := (RAlt a b) (at level 50, left associativity) : ragel_scope.

Section Operators.
Context {A : Type}.
Implicit Types a r : ragel A.

(** ['text'] *)
Fixpoint RLit (s : list Z) : ragel A :=
  match s with
  | [] => REps
  | [c] => RClass (CChar c)
  | c :: s => RSeq (RClass (CChar c)) (RLit s)
  end.
Definition RPlus a : ragel A := RSeq a (RStar a).
(** [a{n}] and [a{0,k}] *)
Fixpoint RTimes (n : nat) a : ragel A :=
  match n with O => REps | 1%nat => a | S n => RSeq a (RTimes n a) end.
Fixpoint RUpTo (k : nat) a : ragel A :=
  match k with O => REps | S k => RAlt REps (RSeq a (RUpTo k a)) end.
(** [a{n,m}] *)
Definition RRange (n m : nat) a : ragel A := RSeq (RTimes n a) (RUpTo (m - n) a).

(** * One character *)

(** The action sequences with which an expression can be left here; none when it
    has to go on. *)
Fixpoint leave (r : ragel A) : list (list A) :=
  match r with
  | REps => [[]]
  | RClass _ => []
  | RSeq a b => la ← leave a; lb ← leave b; [la ++ lb]
  | RAlt a b => leave a ++ leave b
  | RStar a => [[]]
  | REnter _ a => leave a
  | RLeave a x => la ← leave a; [la ++ [x]]
  | RFinish a _ => leave a
  | RAll a _ => leave a
  end.

Definition final (r : ragel A) : bool := match leave r with [] => false | _ => true end.

(** All ways to consume [c]: the actions run on it and what may follow. *)
Fixpoint deriv (r : ragel A) (c : Z) : list (list A * ragel A) :=
  match r with
  | REps => []
  | RClass k => if in_class k c then [([], REps)] else []
  | RSeq a b =>
    (t ← deriv a c; [(t.1, RSeq t.2 b)]) ++
    (la ← leave a; t ← deriv b c; [(la ++ t.1, t.2)])
  | RAlt a b => deriv a c ++ deriv b c
  | RStar a => t ← deriv a c; [(t.1, RSeq t.2 (RStar a))]
  | REnter x a => t ← deriv a c; [(x :: t.1, t.2)]
  | RLeave a x => t ← deriv a c; [(t.1, RLeave t.2 x)]
  | RFinish a x => t ← deriv a c; [(t.1 ++ (if final t.2 then [x] else []), RFinish t.2 x)]
  | RAll a x => t ← deriv a c; [(t.1 ++ [x], RAll t.2 x)]
  end.
End Operators.

(** The list without later repetitions. *)
Fixpoint uniq {X} `{EqDecision X} (l : list X) : list X :=
  match l with
  | [] => []
  | x :: l => x :: filter (fun y => y <> x) (uniq l)
  end.

Section Run.
Context {A : Type} `{EqDecision A}.

(** The machine [rs] on the character [c]; [None] is Ragel's error state. *)
Definition step (rs : list (ragel A)) (c : Z) : option (list A * list (ragel A)) :=
  let ts := r ← rs; deriv r c in
  match ts with
  | [] => None
  | _ => Some (uniq (t ← ts; t.1), uniq (snd <$> ts))
  end.

Definition final_any (rs : list (ragel A)) : bool := existsb final rs.
(** What runs at the end of the input ([eof]). *)
Definition eof_actions (rs : list (ragel A)) : list A := uniq (r ← rs; la ← leave r; la).

(** The actions of each character of [s], and where the machine ends. *)
Fixpoint trace_run (rs : list (ragel A)) (s : list Z) : option (list (list A) * list (ragel A)) :=
  match s with
  | [] => Some ([], rs)
  | c :: s => t ← step rs c; u ← trace_run t.2 s; Some (t.1 :: u.1, u.2)
  end.

(** * Running the actions

    [act x p l]: action [x] at position [p] with the local variables [l] of the
    function around the machine; it may return from that function. *)
Context {S L R : Type} (act : A -> Z -> L -> St S (R + L)).

Fixpoint run_actions (xs : list A) (p : Z) (l : L) : St S (R + L) :=
  match xs with
  | [] => mret (inr l)
  | x :: xs =>
    r ← act x p l;
    match r with
    | inl r => mret (inl r)
    | inr l => run_actions xs p l
    end
  end.

(** [%% write exec]: ends at the end of the input or before the character that has
    no transition ([rs] is then empty, the position that of the character). *)
Fixpoint exec (rs : list (ragel A)) (p : Z) (s : list Z) (l : L) : St S (R + (list (ragel A) * Z * L)) :=
  match s with
  | [] => mret (inr (rs, p, l))
  | c :: s =>
    match step rs c with
    | None => mret (inr ([], p, l))
    | Some (xs, rs) =>
      r ← run_actions xs p l;
      match r with
      | inl r => mret (inl r)
      | inr l => exec rs (p + 1) s l
      end
    end
  end.

(** The actions of a whole trace, the first at [p]. *)
Fixpoint run_trace (tr : list (list A)) (p : Z) (l : L) : St S (R + L) :=
  match tr with
  | [] => mret (inr l)
  | xs :: tr =>
    r ← run_actions xs p l;
    match r with
    | inl r => mret (inl r)
    | inr l => run_trace tr (p + 1) l
    end
  end.
End Run.

Lemma elem_of_each {X Y} (f : X -> Y) (l : list X) y : y ∈ (x ← l; [f x]) -> exists x, x ∈ l /\ y = f x.
Proof. intros (x & Hx & Hl)%list_elem_of_bind. apply list_elem_of_singleton in Hx. eauto. Qed.
Lemma each_elem_of {X Y} (f : X -> Y) (l : list X) x : x ∈ l -> f x ∈ (x ← l; [f x]).
Proof. intros. apply list_elem_of_bind. eexists. split; [by apply list_elem_of_here|done]. Qed.

Section Deriv.
Context {A : Type}.
Implicit Types (a b : ragel A) (t : list A * ragel A).
Lemma elem_of_deriv_seq a b c t :
  t ∈ deriv (RSeq a b) c ->
  (exists u, u ∈ deriv a c /\ t = (u.1, RSeq u.2 b)) \/
  (exists la u, la ∈ leave a /\ u ∈ deriv b c /\ t = (la ++ u.1, u.2)).
Proof.
  cbn [deriv]. intros [Ht|Ht]%elem_of_app.
  - left. by apply elem_of_each in Ht.
  - right. apply list_elem_of_bind in Ht as (la & Ht & Hla).
    apply elem_of_each in Ht as (u & Hu & ->). eauto.
Qed.
Lemma elem_of_deriv_leave a x c t :
  t ∈ deriv (RLeave a x) c -> exists u, u ∈ deriv a c /\ t = (u.1, RLeave u.2 x).
Proof. apply elem_of_each. Qed.
Lemma elem_of_deriv_enter a x c t :
  t ∈ deriv (REnter x a) c -> exists u, u ∈ deriv a c /\ t = (x :: u.1, u.2).
Proof. apply elem_of_each. Qed.
End Deriv.

(** * The language of a machine *)

Section Lang.
Context {A : Type}.
Implicit Types r : ragel A.

Inductive lang : ragel A -> list Z -> Prop :=
| lang_eps : lang REps []
| lang_class k c : in_class k c = true -> lang (RClass k) [c]
| lang_seq a b s t : lang a s -> lang b t -> lang (RSeq a b) (s ++ t)
| lang_alt_l a b s : lang a s -> lang (RAlt a b) s
| lang_alt_r a b s : lang b s -> lang (RAlt a b) s
| lang_star_nil a : lang (RStar a) []
| lang_star_cons a s t : lang a s -> lang (RStar a) t -> lang (RStar a) (s ++ t)
| lang_enter x a s : lang a s -> lang (REnter x a) s
| lang_leave a x s : lang a s -> lang (RLeave a x) s
| lang_finish a x s : lang a s -> lang (RFinish a x) s
| lang_all a x s : lang a s -> lang (RAll a x) s.
Hint Constructors lang : core.

Lemma lang_final r : final r = true <-> lang r [].
Proof.
  assert (Hf : forall r, final r = true <-> exists l, l ∈ leave r).
  { intros q. unfold final. destruct (leave q) as [|l ls]; split; try done.
    - intros (l & Hl). by apply elem_of_nil in Hl.
    - intros _. exists l. by apply list_elem_of_here. }
  rewrite Hf. split.
  - intros [l Hl]. revert l Hl. induction r; cbn [leave]; intros l Hl.
    + constructor.
    + by apply elem_of_nil in Hl.
    + apply list_elem_of_bind in Hl as (la & (lb & _ & Hb)%list_elem_of_bind & Ha).
      rewrite <- (app_nil_r []). eauto.
    + apply elem_of_app in Hl as [Hl|Hl]; eauto.
    + constructor.
    + eauto.
    + apply list_elem_of_bind in Hl as (la & _ & Ha). eauto.
    + eauto.
    + eauto.
  - remember [] as s eqn:Es. intros Hl. revert Es.
    induction Hl as [|k c|a b s t _ IHa _ IHb|a b s _ IH|a b s _ IH|a|a s t|x a s _ IH|a x s _ IH|a x s _ IH|a x s _ IH];
      intros Es; cbn [leave]; try done.
    + exists []. by apply list_elem_of_here.
    + apply app_eq_nil in Es as [-> ->]. destruct (IHa eq_refl) as [la Ha], (IHb eq_refl) as [lb Hb].
      exists (la ++ lb). apply list_elem_of_bind. exists la. split; [|done].
      apply list_elem_of_bind. exists lb. split; [by apply list_elem_of_here|done].
    + destruct (IH Es) as [l H]. exists l. apply elem_of_app. by left.
    + destruct (IH Es) as [l H]. exists l. apply elem_of_app. by right.
    + exists []. by apply list_elem_of_here.
    + exists []. by apply list_elem_of_here.
    + by apply IH.
    + destruct (IH Es) as [l H]. exists (l ++ [x]). apply list_elem_of_bind. exists l.
      split; [by apply list_elem_of_here|done].
    + by apply IH.
    + by apply IH.
Qed.

Lemma final_leave r l : l ∈ leave r -> final r = true.
Proof. unfold final. destruct (leave r); [by intros ?%elem_of_nil|done]. Qed.

Lemma lang_seq_inv a b s : lang (RSeq a b) s -> exists u v, s = u ++ v /\ lang a u /\ lang b v.
Proof. inversion 1; subst; eauto. Qed.
Lemma lang_alt_inv a b s : lang (RAlt a b) s -> lang a s \/ lang b s.
Proof. inversion 1; subst; auto. Qed.
Lemma lang_leave_inv a x s : lang (RLeave a x) s -> lang a s.
Proof. by inversion 1. Qed.
Lemma lang_enter_inv a x s : lang (REnter x a) s -> lang a s.
Proof. by inversion 1. Qed.
Lemma lang_lit_inv t s : lang (RLit t) s -> s = t.
Proof.
  revert s. induction t as [|c t IH]; intros s; [by inversion 1|].
  assert (Hc : forall u, lang (RClass (CChar c)) u -> u = [c]).
  { inversion 1 as [|k d Hk| | | | | | | | |]; subst. cbn in Hk. f_equal. lia. }
  destruct t as [|d t]; [apply Hc|]. cbn [RLit]. intros (u & v & -> & Hu & Hv)%lang_seq_inv.
  by rewrite (Hc u Hu), (IH v Hv).
Qed.

(** Consuming a character takes the residual of the language. *)
Lemma deriv_sound r c t s : t ∈ deriv r c -> lang t.2 s -> lang r (c :: s).
Proof.
  revert t s. induction r as [|k|a IHa b IHb|a IHa b IHb|a IHa|x a IHa|a IHa x|a IHa x|a IHa x];
    cbn [deriv]; intros t s Ht Hs.
  - by apply elem_of_nil in Ht.
  - destruct (in_class k c) eqn:E; [|by apply elem_of_nil in Ht].
    apply list_elem_of_singleton in Ht as ->. inversion Hs; subst. eauto.
  - apply elem_of_app in Ht as [Ht|Ht].
    + apply elem_of_each in Ht as (u & Hu & ->). inversion Hs; subst. rewrite app_comm_cons. eauto.
    + apply list_elem_of_bind in Ht as (la & Ht & Hla). apply elem_of_each in Ht as (u & Hu & ->).
      change (c :: s) with ([] ++ c :: s). constructor; [|by eauto].
      apply lang_final. by eapply final_leave.
  - apply elem_of_app in Ht as [Ht|Ht]; eauto.
  - apply elem_of_each in Ht as (u & Hu & ->). inversion Hs; subst. rewrite app_comm_cons. eauto.
  - apply elem_of_each in Ht as (u & Hu & ->). eauto.
  - apply elem_of_each in Ht as (u & Hu & ->). inversion Hs; subst. eauto.
  - apply elem_of_each in Ht as (u & Hu & ->). inversion Hs; subst. eauto.
  - apply elem_of_each in Ht as (u & Hu & ->). inversion Hs; subst. eauto.
Qed.

Lemma deriv_complete r c s : lang r (c :: s) -> exists t, t ∈ deriv r c /\ lang t.2 s.
Proof.
  remember (c :: s) as cs eqn:Ecs. intros Hl. revert c s Ecs.
  induction Hl as [|k c E|a b s t Ha IHa Hb IHb|a b s _ IH|a b s _ IH|a|a s t _ IHa Ht IHt|x a s _ IH|a x s _ IH|a x s _ IH|a x s _ IH];
    intros c0 s0 Ecs; cbn [deriv]; try done.
  - injection Ecs as -> <-. rewrite E. eexists. split; [by apply list_elem_of_here|constructor].
  - destruct s as [|c s].
    + destruct (IHb c0 s0 Ecs) as (u & Hu & Hs).
      assert (exists la, la ∈ leave a) as [la Hla].
      { assert (Hf : final a = true) by by apply lang_final. unfold final in Hf.
        destruct (leave a) as [|la ls]; [done|]. exists la. by apply list_elem_of_here. }
      exists (la ++ u.1, u.2). split; [|done]. apply elem_of_app. right.
      apply list_elem_of_bind. exists la. split; [|done].
      by apply (each_elem_of (fun t => (la ++ t.1, t.2))).
    + injection Ecs as -> <-. destruct (IHa c0 s eq_refl) as (u & Hu & Hs).
      exists (u.1, RSeq u.2 b). split; [|by constructor]. apply elem_of_app. left.
      by apply (each_elem_of (fun t => (t.1, RSeq t.2 b))).
  - destruct (IH _ _ Ecs) as (u & Hu & Hs). exists u. split; [apply elem_of_app; by left|done].
  - destruct (IH _ _ Ecs) as (u & Hu & Hs). exists u. split; [apply elem_of_app; by right|done].
  - destruct s as [|c s]; [by apply IHt|]. injection Ecs as -> <-.
    destruct (IHa c0 s eq_refl) as (u & Hu & Hs). exists (u.1, RSeq u.2 (RStar a)).
    split; [|by constructor]. by apply (each_elem_of (fun t => (t.1, RSeq t.2 (RStar a)))).
  - destruct (IH _ _ Ecs) as (u & Hu & Hs). exists (x :: u.1, u.2). split; [|done].
    by apply (each_elem_of (fun t => (x :: t.1, t.2))).
  - destruct (IH _ _ Ecs) as (u & Hu & Hs). exists (u.1, RLeave u.2 x). split; [|by constructor].
    by apply (each_elem_of (fun t => (t.1, RLeave t.2 x))).
  - destruct (IH _ _ Ecs) as (u & Hu & Hs).
    eexists. split; [by apply (each_elem_of (fun t => (t.1 ++ (if final t.2 then [x] else []), RFinish t.2 x)))|].
    by constructor.
  - destruct (IH _ _ Ecs) as (u & Hu & Hs). exists (u.1 ++ [x], RAll u.2 x). split; [|by constructor].
    by apply (each_elem_of (fun t => (t.1 ++ [x], RAll t.2 x))).
Qed.
End Lang.
#[export] Hint Constructors lang : ragel.

Section Uniq.
Context {X : Type} `{EqDecision X}.
Lemma filter_absent (x : X) (l : list X) : x ∉ l -> filter (fun y => y <> x) l = l.
Proof.
  induction l as [|z l IH]; intros Hx; [done|]. rewrite not_elem_of_cons in Hx.
  rewrite filter_cons_True by naive_solver. f_equal. apply IH. naive_solver.
Qed.
Lemma elem_of_uniq (x : X) l : x ∈ uniq l <-> x ∈ l.
Proof.
  induction l as [|y l IH]; [done|]. cbn [uniq]. rewrite !elem_of_cons, list_elem_of_filter, IH.
  destruct (decide (x = y)); naive_solver.
Qed.
Lemma uniq_nodup (l : list X) : NoDup l -> uniq l = l.
Proof.
  induction l as [|y l IH]; [done|]. rewrite NoDup_cons. intros [Hy Hl]. cbn [uniq].
  rewrite IH by done. by rewrite filter_absent.
Qed.
Lemma filter_uniq (P : X -> Prop) `{forall x, Decision (P x)} (l : list X) :
  filter P (uniq l) = uniq (filter P l).
Proof.
  induction l as [|x l IH]; [done|]. cbn [uniq]. rewrite !filter_cons.
  assert (Hc : forall k : list X, filter P (filter (fun y => y <> x) k) = filter (fun y => y <> x) (filter P k)).
  { intros k. rewrite !list_filter_filter. apply list_filter_iff. naive_solver. }
  rewrite Hc, IH. destruct (decide (P x)) as [Hx|Hx]; cbn [uniq]; [done|].
  apply filter_absent. rewrite elem_of_uniq, list_elem_of_filter. naive_solver.
Qed.
Lemma uniq_absorb (xs rest : list X) :
  NoDup xs -> (forall x, x ∈ rest -> x ∈ xs) -> uniq (xs ++ rest) = xs.
Proof.
  revert rest. induction xs as [|x xs IH]; intros rest Hnd Hr; cbn [app].
  - destruct rest as [|y rest]; [done|]. destruct (not_elem_of_nil y). apply Hr, list_elem_of_here.
  - apply NoDup_cons in Hnd as [Hx Hnd]. cbn [uniq]. f_equal.
    rewrite filter_uniq, filter_app.
    rewrite filter_absent by done. apply IH; [done|]. intros y (Hy & Hin)%list_elem_of_filter.
    apply Hr in Hin. rewrite elem_of_cons in Hin. naive_solver.
Qed.
End Uniq.

Section Accepts.
Context {A : Type} `{EqDecision A}.
Implicit Types (r : ragel A) (rs : list (ragel A)).

Lemma elem_of_step rs c xs rs' r' :
  step rs c = Some (xs, rs') ->
  r' ∈ rs' <-> exists r t, r ∈ rs /\ t ∈ deriv r c /\ t.2 = r'.
Proof.
  unfold step. set (ts := r ← rs; deriv r c). intros Hs.
  assert (Hrs : rs' = uniq (snd <$> ts)) by (destruct ts; [done|by injection Hs as _ <-]).
  rewrite Hrs, elem_of_uniq, list_elem_of_fmap. subst ts. split.
  - intros (t & -> & (r & Ht & Hr)%list_elem_of_bind). eauto.
  - intros (r & t & Hr & Ht & <-). exists t. split; [done|]. apply list_elem_of_bind. eauto.
Qed.

Lemma NoDup_uniq {X} `{EqDecision X} (l : list X) : NoDup (uniq l).
Proof.
  induction l as [|x l IH]; cbn [uniq]; constructor.
  - rewrite list_elem_of_filter. naive_solver.
  - by apply NoDup_filter.
Qed.
Lemma step_nodup rs c xs rs' : step rs c = Some (xs, rs') -> NoDup rs'.
Proof.
  unfold step. generalize (r ← rs; deriv r c). intros [|t ts]; [done|]. intros E.
  assert (rs' = uniq (snd <$> t :: ts)) as -> by congruence. apply NoDup_uniq.
Qed.

Lemma step_None rs c : step rs c = None <-> forall r t, r ∈ rs -> t ∉ deriv r c.
Proof.
  unfold step. split.
  - intros Hs r t Hr Ht. assert (Hi : t ∈ (r ← rs; deriv r c)) by (apply list_elem_of_bind; eauto).
    destruct (_ ≫= _); [by apply elem_of_nil in Hi|done].
  - intros Hn. destruct (_ ≫= _) as [|t ts] eqn:E; [done|].
    assert (Hi : t ∈ (r ← rs; deriv r c)) by (rewrite E; apply list_elem_of_here).
    apply list_elem_of_bind in Hi as (r & Ht & Hr). by destruct (Hn r t).
Qed.

(** The machine accepts exactly its language. *)
Lemma trace_run_lang rs s :
  (exists tr rs', trace_run rs s = Some (tr, rs') /\ final_any rs' = true) <->
  exists r, r ∈ rs /\ lang r s.
Proof.
  revert rs. induction s as [|c s IH]; intros rs; cbn [trace_run].
  - unfold final_any. split.
    + intros (tr & rs' & [= <- <-] & Hf). apply existsb_exists in Hf as (r & Hr & Hf).
      exists r. split; [by apply list_elem_of_In|by apply lang_final].
    + intros (r & Hr & Hf). exists [], rs. split; [done|]. apply existsb_exists.
      exists r. split; [by apply list_elem_of_In|by apply lang_final].
  - destruct (step rs c) as [[xs rs1]|] eqn:Es; cbn [mbind option_bind fst snd].
    + pose proof (fun r' => elem_of_step _ _ _ _ r' Es) as Hst.
      transitivity (exists r, r ∈ rs1 /\ lang r s).
      * rewrite <- IH. split.
        -- intros (tr & rs' & Hr & Hf). destruct (trace_run rs1 s) as [[tr1 rs2]|]; [|done].
           cbn in Hr. injection Hr as <- <-. eauto.
        -- intros (tr & rs' & -> & Hf). cbn. eauto.
      * split.
        -- intros (r' & Hr' & Hl). apply Hst in Hr' as (r & t & Hr & Ht & <-).
           exists r. split; [done|]. by eapply deriv_sound.
        -- intros (r & Hr & Hl). apply deriv_complete in Hl as (t & Ht & Hl).
           exists t.2. split; [|done]. apply Hst. eauto.
    + split; [by intros (? & ? & ? & _)|].
      intros (r & Hr & Hl). apply deriv_complete in Hl as (t & Ht & _).
      rewrite step_None in Es. by destruct (Es r t).
Qed.

Lemma trace_run_app rs s t :
  trace_run rs (s ++ t) =
  u ← trace_run rs s; v ← trace_run u.2 t; Some (u.1 ++ v.1, v.2).
Proof.
  revert rs. induction s as [|c s IH]; intros rs; cbn [app trace_run].
  - cbn [mbind option_bind fst snd app]. by destruct (trace_run rs t) as [[]|].
  - destruct (step rs c) as [[xs rs1]|]; [|done]. cbn [mbind option_bind fst snd].
    rewrite IH. destruct (trace_run rs1 s) as [[tr rs2]|]; [|done]. cbn [mbind option_bind fst snd].
    by destruct (trace_run rs2 t) as [[]|].
Qed.

Lemma trace_run_length rs s tr rs' : trace_run rs s = Some (tr, rs') -> length tr = length s.
Proof.
  revert rs tr. induction s as [|c s IH]; intros rs tr; cbn [trace_run]; [by intros [= <- _]|].
  destruct (step rs c) as [[xs rs1]|]; [|done]. cbn [mbind option_bind fst snd].
  destruct (trace_run rs1 s) as [[tr1 rs2]|] eqn:E; [|done]. cbn. intros [= <- <-].
  cbn [length]. f_equal. by eapply IH.
Qed.

(** Running a machine over [s] is running the actions of its trace. *)
Lemma exec_trace {S L R} (act : A -> Z -> L -> St S (R + L)) rs p s l tr rs' w :
  trace_run rs s = Some (tr, rs') ->
  exec act rs p s l w =
  (r ← run_trace act tr p l;
   mret (match r with inl r => inl r | inr l => inr (rs', p + zlen s, l) end)) w.
Proof.
  revert rs p l tr w. induction s as [|c s IH]; intros rs p l tr w; cbn [trace_run exec].
  - intros [= <- <-]. cbn. by rewrite Z.add_0_r.
  - destruct (step rs c) as [[xs rs1]|]; [|done]. cbn [mbind option_bind fst snd].
    destruct (trace_run rs1 s) as [[tr1 rs2]|] eqn:E; [|done]. cbn [mbind option_bind fst snd].
    intros [= <- <-]. cbn [run_trace]. unfold mbind, M_bind.
    destruct (run_actions act xs p l w) as [[[r|l']|h] w']; [done| |done].
    rewrite (IH _ _ _ _ _ E). unfold mbind, M_bind.
    replace (p + 1 + zlen s) with (p + zlen (c :: s)) by zlen_lia. done.
Qed.
End Accepts.

(** * Running without knowing the set of states

    In an unambiguous part of a grammar the states of the list differ, but agree on
    the actions to run.  [live rs s]: the machine can accept [s]. *)

Section Uniform.
Context {A : Type} `{EqDecision A}.
Implicit Types (r : ragel A) (rs : list (ragel A)) (xs : list A).

Definition live rs (s : list Z) : Prop := exists r, r ∈ rs /\ lang r s.

Lemma uniq_concat (ts : list (list A * ragel A)) xs :
  ts <> [] -> (forall t, t ∈ ts -> t.1 = xs) -> NoDup xs -> uniq (t ← ts; t.1) = xs.
Proof.
  intros Hne Hall Hnd. destruct ts as [|t ts]; [done|]. clear Hne. rewrite bind_cons.
  rewrite (Hall t) by apply list_elem_of_here. apply uniq_absorb; [done|].
  intros x (u & Hx & Hu)%list_elem_of_bind. rewrite <- (Hall u); [done|]. by right.
Qed.

Lemma step_uniform (Q : ragel A -> Prop) rs c s xs :
  live rs (c :: s) -> NoDup xs ->
  (forall r t, r ∈ rs -> t ∈ deriv r c -> t.1 = xs /\ Q t.2) ->
  exists rs', step rs c = Some (xs, rs') /\ Forall Q rs' /\ live rs' s.
Proof.
  intros (r & Hr & Hl) Hnd Hall. apply deriv_complete in Hl as (t & Ht & Hl).
  assert (Hi : t ∈ (r ← rs; deriv r c)) by (apply list_elem_of_bind; eauto).
  assert (Hs : exists rs', step rs c = Some (xs, rs')).
  { unfold step. destruct (r ← rs; deriv r c) as [|u us] eqn:E; [by apply elem_of_nil in Hi|].
    eexists. do 2 f_equal. apply uniq_concat; [done| |done]. rewrite <- E.
    intros v (q & Hv & Hq)%list_elem_of_bind. by apply (Hall q v). }
  destruct Hs as [rs' Hs]. exists rs'. split; [done|].
  pose proof (fun r' => elem_of_step _ _ _ _ r' Hs) as Hst. split.
  - apply Forall_forall. intros r' (q & u & Hq & Hu & <-)%Hst. by apply (Hall q u).
  - exists t.2. split; [|done]. apply Hst. eauto.
Qed.

(** An expression without actions. *)
Fixpoint plain r : bool :=
  match r with
  | REps | RClass _ => true
  | RSeq a b | RAlt a b => plain a && plain b
  | RStar a => plain a
  | _ => false
  end.

Lemma plain_leave r l : plain r = true -> l ∈ leave r -> l = [].
Proof.
  revert l. induction r; cbn [plain leave]; intros l Hp Hl; try done; bool_hyps.
  - by apply list_elem_of_singleton in Hl.
  - by apply elem_of_nil in Hl.
  - apply list_elem_of_bind in Hl as (la & (lb & Hl & Hb)%list_elem_of_bind & Ha).
    apply list_elem_of_singleton in Hl as ->. by rewrite (IHr1 la), (IHr2 lb).
  - apply elem_of_app in Hl as [Hl|Hl]; eauto.
  - by apply list_elem_of_singleton in Hl.
Qed.
Lemma plain_deriv r c t : plain r = true -> t ∈ deriv r c -> t.1 = [] /\ plain t.2 = true.
Proof.
  revert t. induction r as [|k|a IHa b IHb|a IHa b IHb|a IHa|x a IHa|a IHa x|a IHa x|a IHa x];
    cbn [plain deriv]; intros t Hp Ht; try done.
  - by apply elem_of_nil in Ht.
  - destruct (in_class k c); [|by apply elem_of_nil in Ht].
    apply list_elem_of_singleton in Ht as ->. done.
  - bool_hyps. apply elem_of_app in Ht as [Ht|Ht].
    + apply elem_of_each in Ht as (u & Hu & ->). destruct (IHa u) as [E1 E2]; [done..|]. cbn. by rewrite E1, E2.
    + apply list_elem_of_bind in Ht as (la & Ht & Hla). apply elem_of_each in Ht as (u & Hu & ->).
      destruct (IHb u) as [E1 E2]; [done..|]. cbn. by rewrite E1, (plain_leave a la), E2.
  - bool_hyps. apply elem_of_app in Ht as [Ht|Ht]; eauto.
  - apply elem_of_each in Ht as (u & Hu & ->). destruct (IHa u) as [E1 E2]; [done..|]. cbn. by rewrite E1, E2.
Qed.

(** Every class has a character, so that every expression has a word. *)
Fixpoint productive r : bool :=
  match r with
  | REps => true
  | RClass k => existsb (in_class k) (seqZ 0 256)
  | RSeq a b | RAlt a b => productive a && productive b
  | RStar a | REnter _ a | RLeave a _ | RFinish a _ | RAll a _ => productive a
  end.
Lemma productive_word r : productive r = true -> exists s, lang r s.
Proof.
  induction r; cbn [productive]; intros Hp; bool_hyps; eauto with ragel.
  - apply existsb_exists in Hp as (c & _ & Hc). eauto with ragel.
  - destruct IHr1, IHr2; eauto with ragel.
  - destruct IHr1; eauto with ragel.
  - destruct IHr; eauto with ragel.
  - destruct IHr; eauto with ragel.
  - destruct IHr; eauto with ragel.
  - destruct IHr; eauto with ragel.
Qed.
Lemma productive_deriv r c t : productive r = true -> t ∈ deriv r c -> productive t.2 = true.
Proof.
  revert t. induction r as [|k|a IHa b IHb|a IHa b IHb|a IHa|x a IHa|a IHa x|a IHa x|a IHa x];
    cbn [productive]; intros t Hp Ht; bool_hyps.
  - by apply elem_of_nil in Ht.
  - cbn [deriv] in Ht. destruct (in_class k c); [|by apply elem_of_nil in Ht].
    by apply list_elem_of_singleton in Ht as ->.
  - apply elem_of_deriv_seq in Ht as [(u & Hu & ->)|(la & u & _ & Hu & ->)]; cbn; [|by apply IHb].
    by rewrite (IHa u).
  - cbn [deriv] in Ht. apply elem_of_app in Ht as [Ht|Ht]; eauto.
  - apply elem_of_each in Ht as (u & Hu & ->). cbn. by rewrite (IHa u).
  - apply elem_of_each in Ht as (u & Hu & ->). by apply (IHa u).
  - apply elem_of_each in Ht as (u & Hu & ->). by apply (IHa u).
  - apply elem_of_each in Ht as (u & Hu & ->). by apply (IHa u).
  - apply elem_of_each in Ht as (u & Hu & ->). by apply (IHa u).
Qed.

(** No class of the expression holds [c]. *)
Fixpoint avoids (c : Z) r : bool :=
  match r with
  | REps => true
  | RClass k => negb (in_class k c)
  | RSeq a b | RAlt a b => avoids c a && avoids c b
  | RStar a | REnter _ a | RLeave a _ | RFinish a _ | RAll a _ => avoids c a
  end.
Lemma avoids_lang c r s : avoids c r = true -> lang r s -> c ∉ s.
Proof.
  intros Ha Hl. induction Hl; cbn [avoids] in Ha; bool_hyps;
    rewrite ?elem_of_app, ?list_elem_of_singleton; try (intros ?%elem_of_nil); try naive_solver.
  match goal with E : in_class _ _ = true |- _ => intros ->; by rewrite E in Ha end.
Qed.
End Uniform.

(** * Composition of runs *)

Section RunLemmas.
Context {A S L R : Type} (act : A -> Z -> L -> St S (R + L)).

Lemma run_trace_app t1 t2 p l w :
  run_trace act (t1 ++ t2) p l w =
  (r ← run_trace act t1 p l;
   match r with inl r => mret (inl r) | inr l => run_trace act t2 (p + Z.of_nat (length t1)) l end) w.
Proof.
  revert p l w. induction t1 as [|xs t1 IH]; intros p l w.
  - cbn. by rewrite Z.add_0_r.
  - cbn [app run_trace length]. unfold mbind, M_bind.
    destruct (run_actions act xs p l w) as [[[r|l']|h] w']; [done| |done].
    rewrite IH. unfold mbind, M_bind.
    destruct (run_trace act t1 (p + 1) l' w') as [[[r|l2]|h] w2]; [done| |done].
    by replace (p + Z.of_nat (Datatypes.S (length t1))) with (p + 1 + Z.of_nat (length t1)) by lia.
Qed.
Lemma run_trace_app_bind {B} t1 t2 p l (k : R + L -> St S B) w :
  (run_trace act (t1 ++ t2) p l ≫= k) w =
  (r ← run_trace act t1 p l;
   match r with
   | inl r => k (inl r)
   | inr l => run_trace act t2 (p + Z.of_nat (length t1)) l ≫= k
   end) w.
Proof.
  transitivity (((r ← run_trace act t1 p l;
    match r with inl r => mret (inl r) | inr l => run_trace act t2 (p + Z.of_nat (length t1)) l end) ≫= k) w).
  { apply run_cong; [apply run_trace_app|done]. }
  rewrite run_bind. apply run_cong; [done|]. by intros [r|l'] w'.
Qed.
Lemma run_trace_nops n p l : run_trace act (replicate n []) p l = mret (inr l).
Proof. revert p. induction n as [|n IH]; intros p; [done|]. exact (IH (p + 1)). Qed.
End RunLemmas.

(** * Deciding and using acceptance *)

Section Accept.
Context {A : Type} `{EqDecision A}.

Definition accepts (r : ragel A) (s : list Z) : bool :=
  match trace_run [r] s with Some (_, rs) => final_any rs | None => false end.
Lemma accepts_lang r s : accepts r s = true <-> lang r s.
Proof.
  unfold accepts. transitivity (exists q, q ∈ [r] /\ lang q s).
  - rewrite <- trace_run_lang. split.
    + destruct (trace_run [r] s) as [[tr rs]|]; [eauto|done].
    + by intros (tr & rs & -> & ?).
  - split; [by intros (q & ->%list_elem_of_singleton & ?)|]. intros. exists r. by rewrite list_elem_of_singleton.
Qed.

(** How a run can end: an action has returned with a result it may return with, or
    the end of the input was reached as [trace_run] says, or the machine is in its
    error state. *)
Lemma exec_ends {S L R} (act : A -> Z -> L -> St S (R + L)) (P : R -> Prop) rs p s l w :
  (forall x p l w, wp (act x p l) (fun r _ => match r with inl r => P r | inr _ => True end)
                      (fun _ _ => True) w) ->
  wp (exec act rs p s l) (fun r _ =>
    match r with
    | inl r => P r
    | inr (q, p', _) => q = [] \/ p' = p + zlen s /\ exists tr, trace_run rs s = Some (tr, q)
    end) (fun _ _ => True) w.
Proof.
  intros Hact.
  assert (Hxs : forall xs p l w, wp (run_actions act xs p l)
    (fun r _ => match r with inl r => P r | inr _ => True end) (fun _ _ => True) w).
  { induction xs as [|x xs IH]; intros p0 l0 w0; cbn [run_actions]; [done|]. rewrite wp_bind.
    eapply wp_mono; [apply Hact| |done]. intros [r|l1] w1 Hr; [done|]. apply IH. }
  revert rs p l w. induction s as [|c s IH]; intros rs p l w; cbn [exec trace_run].
  - rewrite wp_ret. right. change (zlen []) with 0. rewrite Z.add_0_r. eauto.
  - destruct (step rs c) as [[xs rs1]|]; [|rewrite wp_ret; by left].
    rewrite wp_bind. eapply wp_mono; [apply Hxs| |done]. intros [r|l1] w1 Hr; [done|].
    eapply wp_mono; [apply IH| |done]. cbn [mbind option_bind fst snd].
    intros [r'|[[q p'] l']] _; [done|]. intros [->|[-> [tr ->]]]; [by left|]. right.
    split; [zlen_lia|]. cbn. eauto.
Qed.
End Accept.

(** * Characters a machine cannot tell apart *)

Section Blind.
Context {A : Type} `{EqDecision A} (f : Z -> Z).

Fixpoint classes (r : ragel A) : list cclass :=
  match r with
  | REps => []
  | RClass k => [k]
  | RSeq a b | RAlt a b => classes a ++ classes b
  | RStar a | REnter _ a | RLeave a _ | RFinish a _ | RAll a _ => classes a
  end.
Definition blind (r : ragel A) : Prop := Forall (fun k => forall c, in_class k (f c) = in_class k c) (classes r).

Lemma deriv_blind r c : blind r -> deriv r (f c) = deriv r c.
Proof.
  unfold blind. induction r; cbn [classes deriv]; rewrite ?Forall_app, ?Forall_singleton; try done.
  - by intros ->.
  - intros [H1 H2]. by rewrite IHr1, IHr2.
  - intros [H1 H2]. by rewrite IHr1, IHr2.
  - intros H1. by rewrite IHr.
  - intros H1. by rewrite IHr.
  - intros H1. by rewrite IHr.
  - intros H1. by rewrite IHr.
  - intros H1. by rewrite IHr.
Qed.

Lemma classes_deriv r c t : t ∈ deriv r c -> classes t.2 ⊆ classes r.
Proof.
  revert t. induction r as [|k|a IHa b IHb|a IHa b IHb|a IHa|x a IHa|a IHa x|a IHa x|a IHa x];
    cbn [deriv classes]; intros t Ht.
  - by apply elem_of_nil in Ht.
  - destruct (in_class k c); [|by apply elem_of_nil in Ht].
    apply list_elem_of_singleton in Ht as ->. apply list_subseteq_nil.
  - apply elem_of_app in Ht as [Ht|Ht].
    + apply elem_of_each in Ht as (u & Hu & ->). cbn [snd classes]. specialize (IHa u Hu). set_solver.
    + apply list_elem_of_bind in Ht as (la & Ht & _). apply elem_of_each in Ht as (u & Hu & ->).
      cbn [snd]. specialize (IHb u Hu). set_solver.
  - apply elem_of_app in Ht as [Ht|Ht]; [specialize (IHa t Ht)|specialize (IHb t Ht)]; set_solver.
  - apply elem_of_each in Ht as (u & Hu & ->). cbn [snd classes]. specialize (IHa u Hu). set_solver.
  - apply elem_of_each in Ht as (u & Hu & ->). exact (IHa u Hu).
  - apply elem_of_each in Ht as (u & Hu & ->). exact (IHa u Hu).
  - apply elem_of_each in Ht as (u & Hu & ->). exact (IHa u Hu).
  - apply elem_of_each in Ht as (u & Hu & ->). exact (IHa u Hu).
Qed.

Lemma step_blind rs c : Forall blind rs -> step rs (f c) = step rs c.
Proof.
  intros Hrs. unfold step. assert (Hb : (r ← rs; deriv r (f c)) = (r ← rs; deriv r c)); [|by rewrite Hb].
  induction Hrs as [|r rs Hr _ IH]; [done|]. rewrite !bind_cons, deriv_blind by done. by rewrite IH.
Qed.
Lemma trace_run_blind rs s : Forall blind rs -> trace_run rs (f <$> s) = trace_run rs s.
Proof.
  revert rs. induction s as [|c s IH]; intros rs Hrs; [done|]. rewrite fmap_cons. cbn [trace_run].
  rewrite step_blind by done. destruct (step rs c) as [[xs rs1]|] eqn:E; [|done]. cbn [mbind option_bind fst snd].
  rewrite IH; [done|]. rewrite Forall_forall in Hrs |- *. intros r' Hr'.
  apply (elem_of_step _ _ _ _ _ E) in Hr' as (r & t & Hr & Ht & <-). specialize (Hrs r Hr).
  unfold blind in *. rewrite Forall_forall in Hrs |- *. intros k Hk. apply Hrs. by eapply classes_deriv.
Qed.
End Blind.

(** * Where an action can run

    [ends_marked]: a marked action runs only on the last character of a word of the
    language. *)

Section Marked.
Context {A : Type} `{EqDecision A} (mark : A -> bool).

Fixpoint unmarked (r : ragel A) : bool :=
  match r with
  | REps | RClass _ => true
  | RSeq a b | RAlt a b => unmarked a && unmarked b
  | RStar a => unmarked a
  | REnter x a | RLeave a x | RFinish a x | RAll a x => negb (mark x) && unmarked a
  end.
(** No marked action on leaving. *)
Fixpoint leaves_unmarked (r : ragel A) : bool :=
  match r with
  | REps | RClass _ => true
  | RSeq a b => (leaves_unmarked a || negb (final b)) && leaves_unmarked b
  | RAlt a b => leaves_unmarked a && leaves_unmarked b
  | RStar a | REnter _ a | RFinish a _ | RAll a _ => leaves_unmarked a
  | RLeave a x => negb (mark x) && leaves_unmarked a
  end.
(** No marked action before leaving. *)
Definition inside_unmarked (r : ragel A) : bool :=
  match r with RLeave a _ => unmarked a | _ => unmarked r end.
(** One character is a word. *)
Definition one_char (r : ragel A) : bool :=
  match r with RClass _ | REnter _ (RClass _) => true | _ => false end.
Fixpoint ends_marked (r : ragel A) : bool :=
  match r with
  | REps | RClass _ => true
  | RSeq a b =>
    (inside_unmarked a || ends_marked a && final b) && (leaves_unmarked a || one_char b) && ends_marked b
  | RAlt a b => ends_marked a && ends_marked b
  | RStar a => ends_marked a && leaves_unmarked a
  | REnter x a => ends_marked a && (negb (mark x) || one_char a)
  | RLeave a x => ends_marked a
  | RFinish a x | RAll a x => ends_marked a && negb (mark x)
  end.

Definition no_mark (xs : list A) : Prop := Forall (fun x => mark x = false) xs.

Lemma leaves_unmarked_leave r l : leaves_unmarked r = true -> l ∈ leave r -> no_mark l.
Proof.
  unfold no_mark. revert l. induction r; cbn [leave leaves_unmarked]; intros l Hu Hl.
  - apply list_elem_of_singleton in Hl as ->. constructor.
  - by apply elem_of_nil in Hl.
  - apply andb_prop in Hu as [Hu1 Hu2].
    apply list_elem_of_bind in Hl as (la & (lb & ->%list_elem_of_singleton & Hb)%list_elem_of_bind & Ha).
    rewrite (final_leave _ _ Hb), orb_false_r in Hu1. apply Forall_app. auto.
  - bool_hyps. apply elem_of_app in Hl as [?|?]; auto.
  - apply list_elem_of_singleton in Hl as ->. constructor.
  - auto.
  - bool_hyps. apply list_elem_of_bind in Hl as (la & ->%list_elem_of_singleton & Ha).
    apply Forall_app. split; [auto|]. constructor; [|constructor]. by destruct (mark x).
  - auto.
  - auto.
Qed.
Lemma leaves_unmarked_deriv r c t : leaves_unmarked r = true -> t ∈ deriv r c -> leaves_unmarked t.2 = true.
Proof.
  revert t. induction r; cbn [deriv leaves_unmarked]; intros t Hu Ht.
  - by apply elem_of_nil in Ht.
  - destruct (in_class k c); [|by apply elem_of_nil in Ht]. by apply list_elem_of_singleton in Ht as ->.
  - bool_hyps. apply elem_of_app in Ht as [Ht|Ht].
    + apply elem_of_each in Ht as (u & Hw & ->). cbn [snd leaves_unmarked].
      destruct (final r2); [|by rewrite orb_true_r]. rewrite orb_false_r in *. by rewrite IHr1.
    + apply list_elem_of_bind in Ht as (la & Ht & _). apply elem_of_each in Ht as (u & Hw & ->). cbn [snd leaves_unmarked]. auto.
  - bool_hyps. apply elem_of_app in Ht as [Ht|Ht]; auto.
  - apply elem_of_each in Ht as (u & Hw & ->). cbn [snd leaves_unmarked]. by rewrite IHr, Hu.
  - apply elem_of_each in Ht as (u & Hw & ->). cbn [snd leaves_unmarked]. auto.
  - bool_hyps. apply elem_of_each in Ht as (u & Hw & ->). cbn [snd leaves_unmarked]. rewrite IHr by done. by destruct (mark x).
  - apply elem_of_each in Ht as (u & Hw & ->). cbn [snd leaves_unmarked]. auto.
  - apply elem_of_each in Ht as (u & Hw & ->). cbn [snd leaves_unmarked]. auto.
Qed.
Lemma unmarked_leaves r : unmarked r = true -> leaves_unmarked r = true.
Proof.
  induction r; cbn [unmarked leaves_unmarked]; intros; bool_hyps; rewrite ?andb_true_iff, ?orb_true_iff; auto.
Qed.
Lemma unmarked_deriv r c t : unmarked r = true -> t ∈ deriv r c -> no_mark t.1 /\ unmarked t.2 = true.
Proof.
  unfold no_mark. revert t. induction r; cbn [deriv unmarked]; intros t Hu Ht.
  - by apply elem_of_nil in Ht.
  - destruct (in_class k c); [|by apply elem_of_nil in Ht].
    apply list_elem_of_singleton in Ht as ->. split; [constructor|done].
  - bool_hyps. apply elem_of_app in Ht as [Ht|Ht].
    + apply elem_of_each in Ht as (u & Hw & ->). cbn [fst snd unmarked].
      destruct (IHr1 u) as [? ->]; [done..|]. by split.
    + apply list_elem_of_bind in Ht as (la & Ht & Hla). apply elem_of_each in Ht as (u & Hw & ->).
      cbn [fst snd]. destruct (IHr2 u) as [? ->]; [done..|]. split; [|done]. apply Forall_app. split; [|done].
      eapply leaves_unmarked_leave; [|done]. by apply unmarked_leaves.
  - bool_hyps. apply elem_of_app in Ht as [Ht|Ht]; auto.
  - apply elem_of_each in Ht as (u & Hw & ->). cbn [fst snd unmarked].
    destruct (IHr u) as [? ->]; [done..|]. by rewrite Hu.
  - bool_hyps. apply elem_of_each in Ht as (u & Hw & ->). cbn [fst snd].
    destruct (IHr u) as [? ->]; [done..|]. split; [|done]. constructor; [by destruct (mark x)|done].
  - bool_hyps. apply elem_of_each in Ht as (u & Hw & ->). cbn [fst snd unmarked].
    destruct (IHr u) as [? ->]; [done..|]. split; [done|by destruct (mark x)].
  - bool_hyps. apply elem_of_each in Ht as (u & Hw & ->). cbn [fst snd unmarked].
    destruct (IHr u) as [? ->]; [done..|]. split; [|by destruct (mark x)]. apply Forall_app. split; [done|].
    destruct (final _); repeat constructor. by destruct (mark x).
  - bool_hyps. apply elem_of_each in Ht as (u & Hw & ->). cbn [fst snd unmarked].
    destruct (IHr u) as [? ->]; [done..|]. split; [|by destruct (mark x)]. apply Forall_app. split; [done|].
    repeat constructor. by destruct (mark x).
Qed.
Lemma unmarked_inside r : unmarked r = true -> inside_unmarked r = true.
Proof. destruct r; try done. cbn [unmarked inside_unmarked]. by intros [_ ?]%andb_prop. Qed.
Lemma inside_unmarked_deriv r c t :
  inside_unmarked r = true -> t ∈ deriv r c -> no_mark t.1 /\ inside_unmarked t.2 = true.
Proof.
  destruct r as [| | | | | |a x| |]; cbn [inside_unmarked]; intros Hu Ht;
    try (destruct (unmarked_deriv _ _ _ Hu Ht) as [H1 H2]; split; [exact H1|by apply unmarked_inside]).
  apply elem_of_deriv_leave in Ht as (u & Hw & ->). exact (unmarked_deriv _ _ _ Hu Hw).
Qed.
Lemma one_char_deriv r c t : one_char r = true -> t ∈ deriv r c -> final t.2 = true.
Proof.
  destruct r as [|k| | | |x [|k| | | | | | |]| | |]; try done; intros _ Ht.
  - cbn [deriv] in Ht. destruct (in_class k c); [|by apply elem_of_nil in Ht].
    by apply list_elem_of_singleton in Ht as ->.
  - apply elem_of_deriv_enter in Ht as (u & Hu & ->). cbn [deriv] in Hu.
    destruct (in_class k c); [|by apply elem_of_nil in Hu]. by apply list_elem_of_singleton in Hu as ->.
Qed.

Lemma final_seq (a b : ragel A) : final (RSeq a b) = final a && final b.
Proof.
  apply eq_bool_prop_intro. rewrite !Is_true_true, andb_true_iff, !lang_final. split.
  - intros (u & v & E & Hu & Hv)%lang_seq_inv. symmetry in E. apply app_eq_nil in E as [-> ->]. done.
  - intros [Ha Hb]. apply (lang_seq a b [] []); done.
Qed.
Lemma final_wrap (a r : ragel A) : (forall s, lang r s <-> lang a s) -> final r = final a.
Proof. intros H. apply eq_bool_prop_intro. by rewrite !Is_true_true, !lang_final. Qed.
Lemma final_leave_op (a : ragel A) x : final (RLeave a x) = final a.
Proof. apply final_wrap. intros s. split; [apply lang_leave_inv|by constructor]. Qed.
Lemma final_finish (a : ragel A) x : final (RFinish a x) = final a.
Proof. apply final_wrap. intros s. split; [by inversion 1|by constructor]. Qed.
Lemma final_all (a : ragel A) x : final (RAll a x) = final a.
Proof. apply final_wrap. intros s. split; [by inversion 1|by constructor]. Qed.
Lemma no_mark_snoc xs x (b : bool) : no_mark xs -> mark x = false -> no_mark (xs ++ (if b then [x] else [])).
Proof. intros. apply Forall_app. split; [done|]. destruct b; by repeat constructor. Qed.

Lemma ends_marked_deriv r c t :
  ends_marked r = true -> t ∈ deriv r c -> ends_marked t.2 = true /\ (no_mark t.1 \/ final t.2 = true).
Proof.
  revert t. induction r; cbn [deriv ends_marked]; intros t Hu Ht.
  - by apply elem_of_nil in Ht.
  - destruct (in_class k c); [|by apply elem_of_nil in Ht].
    apply list_elem_of_singleton in Ht as ->. split; [done|left; constructor].
  - apply andb_prop in Hu as [[H1 H2]%andb_prop H3]. apply elem_of_app in Ht as [Ht|Ht].
    + apply elem_of_each in Ht as (u & Hw & ->). cbn [fst snd ends_marked]. rewrite final_seq, H3.
      assert (Hl : leaves_unmarked u.2 || one_char r2 = true).
      { apply orb_prop in H2 as [H2| ->]; [|by rewrite orb_true_r]. by rewrite (leaves_unmarked_deriv _ _ _ H2 Hw). }
      rewrite Hl. apply orb_prop in H1 as [H1|[H1 ->]%andb_prop].
      * destruct (inside_unmarked_deriv _ _ _ H1 Hw) as [? ->]. by split; [|left].
      * destruct (IHr1 u H1 Hw) as [-> Hm]. rewrite orb_true_r. split; [done|].
        destruct Hm as [?| ->]; [by left|by right].
    + apply list_elem_of_bind in Ht as (la & Ht & Hla). apply elem_of_each in Ht as (u & Hw & ->).
      cbn [fst snd]. destruct (IHr2 u H3 Hw) as [He Hm]. split; [done|].
      apply orb_prop in H2 as [H2|H2]; [|right; by eapply one_char_deriv].
      destruct Hm as [?|?]; [left|by right]. apply Forall_app. split; [|done]. by eapply leaves_unmarked_leave.
  - bool_hyps. apply elem_of_app in Ht as [Ht|Ht]; auto.
  - apply andb_prop in Hu as [H1 H2]. apply elem_of_each in Ht as (u & Hw & ->). cbn [fst snd ends_marked].
    destruct (IHr u H1 Hw) as [-> Hm]. rewrite final_seq, H1, H2, (leaves_unmarked_deriv _ _ _ H2 Hw).
    change (final (RStar r)) with true. rewrite !orb_true_r. split; [done|]. destruct Hm as [?| ->]; [by left|by right].
  - apply andb_prop in Hu as [H1 H2]. apply elem_of_each in Ht as (u & Hw & ->). cbn [fst snd].
    destruct (IHr u H1 Hw) as [-> Hm]. split; [done|].
    apply orb_prop in H2 as [H2|H2]; [|right; by eapply one_char_deriv].
    destruct Hm as [?|?]; [left|by right]. constructor; [by destruct (mark x)|done].
  - apply elem_of_each in Ht as (u & Hw & ->). cbn [fst snd ends_marked]. rewrite final_leave_op. auto.
  - apply andb_prop in Hu as [H1 H2]. apply elem_of_each in Ht as (u & Hw & ->). cbn [fst snd ends_marked].
    destruct (IHr u H1 Hw) as [-> Hm]. rewrite H2, final_finish. split; [done|].
    destruct Hm as [?|?]; [left|by right]. apply no_mark_snoc; [done|by destruct (mark x)].
  - apply andb_prop in Hu as [H1 H2]. apply elem_of_each in Ht as (u & Hw & ->). cbn [fst snd ends_marked].
    destruct (IHr u H1 Hw) as [-> Hm]. rewrite H2, final_all. split; [done|].
    destruct Hm as [?|?]; [left|by right]. apply (no_mark_snoc _ _ true); [done|by destruct (mark x)].
Qed.

Lemma step_ends_marked rs c xs rs' :
  Forall (fun r => ends_marked r = true) rs -> step rs c = Some (xs, rs') ->
  Forall (fun r => ends_marked r = true) rs' /\ (no_mark xs \/ final_any rs' = true).
Proof.
  rewrite !Forall_forall. intros Hrs Hst. pose proof (fun r' => elem_of_step _ _ _ _ r' Hst) as Hel.
  split; [intros r' (r & t & Hr & Ht & <-)%Hel; by eapply ends_marked_deriv; [apply Hrs|]|].
  destruct (final_any rs') eqn:Ef; [by right|left]. apply Forall_forall. intros x Hx.
  unfold step in Hst. destruct (r ← rs; deriv r c) as [|t0 ts] eqn:Ets; [done|].
  rewrite <- Ets in Hst. assert (Hxs : xs = uniq (t ← (r ← rs; deriv r c); t.1)) by congruence.
  rewrite Hxs, elem_of_uniq in Hx. apply list_elem_of_bind in Hx as (t & Hxt & (r & Ht & Hr)%list_elem_of_bind).
  destruct (ends_marked_deriv _ _ _ (Hrs r Hr) Ht) as [_ [Hm|Hf]].
  - unfold no_mark in Hm. rewrite Forall_forall in Hm. by apply Hm.
  - assert (final_any rs' = true); [|congruence]. apply existsb_exists. exists t.2. split; [|done].
    apply list_elem_of_In, Hel. eauto.
Qed.

(** The part of a run up to its last marked action is a word. *)
Lemma last_marked rs s tr rs' :
  Forall (fun r => ends_marked r = true) rs -> trace_run rs s = Some (tr, rs') ->
  Forall no_mark tr \/
  exists u v tu tv rs1, s = u ++ v /\ u <> [] /\ trace_run rs u = Some (tu, rs1) /\ final_any rs1 = true /\
    trace_run rs1 v = Some (tv, rs') /\ tr = tu ++ tv /\ Forall no_mark tv.
Proof.
  revert rs tr. induction s as [|c s IH]; intros rs tr Hrs; cbn [trace_run].
  { intros [= <- <-]. left. constructor. }
  destruct (step rs c) as [[xs rs1]|] eqn:Es; [|done]. cbn [mbind option_bind fst snd].
  destruct (trace_run rs1 s) as [[tr1 rs2]|] eqn:Et; [|done]. cbn [mbind option_bind fst snd]. intros [= <- <-].
  destruct (step_ends_marked _ _ _ _ Hrs Es) as [Hrs1 Hm].
  destruct (IH rs1 tr1 Hrs1 Et) as [Hno|(u & v & tu & tv & rs3 & -> & Hne & Hu & Hf & Hv & -> & Hno)].
  - destruct Hm as [Hm|Hf]; [left; by constructor|right].
    exists [c], s, [xs], tr1, rs1. split_and!; try done. cbn [trace_run]. by rewrite Es.
  - right. exists (c :: u), v, (xs :: tu), tv, rs3. split_and!; try done.
    cbn [trace_run]. rewrite Es. cbn [mbind option_bind fst snd]. by rewrite Hu.
Qed.
End Marked.

(** * Traces by pieces *)

Section Traces.
Context {A : Type} `{EqDecision A}.
Implicit Types (rs : list (ragel A)) (xs : list A) (s : list Z).

(** A state that a class of characters does not leave. *)
Lemma trace_loop (P : Z -> Prop) rs xs s :
  (forall c, P c -> step rs c = Some (xs, rs)) -> Forall P s ->
  trace_run rs s = Some (replicate (length s) xs, rs).
Proof.
  intros Hst. induction 1 as [|c s Hc _ IH]; [done|]. cbn [trace_run length replicate].
  rewrite (Hst c Hc). cbn [mbind option_bind fst snd]. by rewrite IH.
Qed.
Lemma trace_enter (P : Z -> Prop) rs rs1 xs s :
  (forall c, P c -> step rs c = Some (xs, rs1)) -> (forall c, P c -> step rs1 c = Some (xs, rs1)) -> Forall P s ->
  trace_run rs s = Some (replicate (length s) xs, match s with [] => rs | _ => rs1 end).
Proof.
  intros H0 H1 [|c t Hc Ht]; [done|]. cbn [trace_run length replicate]. rewrite (H0 c Hc).
  cbn [mbind option_bind fst snd]. by rewrite (trace_loop P rs1 xs).
Qed.
Lemma trace_then rs s t tr rs1 tr' rs2 :
  trace_run rs s = Some (tr, rs1) -> trace_run rs1 t = Some (tr', rs2) ->
  trace_run rs (s ++ t) = Some (tr ++ tr', rs2).
Proof. intros H1 H2. by rewrite trace_run_app, H1; cbn [mbind option_bind fst snd]; rewrite H2. Qed.
Lemma trace_one rs c xs rs1 : step rs c = Some (xs, rs1) -> trace_run rs [c] = Some ([xs], rs1).
Proof. cbn [trace_run]. by intros ->. Qed.
End Traces.

(** * Any input

    The machine consumes the longest part of its input that it has transitions for. *)

Section Consume.
Context {A : Type} `{EqDecision A}.

Lemma consume (rs : list (ragel A)) s : exists u v tr rs',
  s = u ++ v /\ trace_run rs u = Some (tr, rs') /\ match v with [] => True | c :: _ => step rs' c = None end.
Proof.
  revert rs. induction s as [|c s IH]; intros rs; [by exists [], [], [], rs|].
  destruct (step rs c) as [[xs rs1]|] eqn:E; [|by exists [], (c :: s), [], rs].
  destruct (IH rs1) as (u & v & tr & rs' & -> & Hu & Hv).
  exists (c :: u), v, (xs :: tr), rs'. split_and!; [done| |done]. cbn [trace_run]. rewrite E.
  cbn [mbind option_bind fst snd]. by rewrite Hu.
Qed.

(** A prefix with transitions is part of what is consumed. *)
Lemma consume_longest (rs : list (ragel A)) u v tr rs' p q tp :
  trace_run rs u = Some (tr, rs') -> match v with [] => True | c :: _ => step rs' c = None end ->
  u ++ v = p ++ q -> trace_run rs p = Some tp -> exists u2, u = p ++ u2.
Proof.
  intros Hu Hv E Hp. apply app_eq_inv in E as [(k & -> & ->)|(k & -> & ->)]; [by exists k|].
  destruct k as [|c k]; [exists []; by rewrite !app_nil_r|]. exfalso.
  rewrite trace_run_app, Hu in Hp. cbn [mbind option_bind fst snd trace_run app] in Hp, Hv. by rewrite Hv in Hp.
Qed.

Lemma exec_consume {S L R} (act : A -> Z -> L -> St S (R + L)) u v : forall rs p l tr rs' w,
  trace_run rs u = Some (tr, rs') -> match v with [] => True | c :: _ => step rs' c = None end ->
  exec act rs p (u ++ v) l w =
  (r ← run_trace act tr p l;
   mret (match r with
         | inl r => inl r
         | inr l => inr (match v with [] => rs' | _ => [] end, p + zlen u, l)
         end)) w.
Proof.
  induction u as [|c u IH]; intros rs p l tr rs' w; cbn [trace_run app].
  - intros [= <- <-] Hv. cbn [run_trace]. st_run. replace (p + zlen []) with p by zlen_lia.
    destruct v as [|c v]; cbn [exec]; [done|]. by rewrite Hv.
  - cbn [exec]. destruct (step rs c) as [[xs rs1]|]; [|done]. cbn [mbind option_bind fst snd].
    destruct (trace_run rs1 u) as [[tr1 rs2]|] eqn:E; [|done]. cbn [mbind option_bind fst snd].
    intros [= <- <-] Hv. cbn [run_trace]. st_run. apply run_cong; [done|]. intros [r|l1] w1; [done|].
    rewrite (IH _ _ _ _ _ _ E Hv). apply run_cong; [done|]. intros [r|l2] w2; [done|].
    by replace (p + 1 + zlen u) with (p + zlen (c :: u)) by zlen_lia.
Qed.
End Consume.

(** Invariants: [Q] of the machine's expressions, [J] of the locals and the state. *)
Section Invariant.
Context {A : Type} `{EqDecision A} {S L R : Type} (act : A -> Z -> L -> St S (R + L)).
Context (Q : ragel A -> Prop) (J : L -> S -> Prop) (P : R -> S -> Prop) (D : halt -> S -> Prop) (lo hi : Z).
Context (HQ : forall r c t, Q r -> t ∈ deriv r c -> Q t.2).
Definition either_inv (r : R + L) (w : S) : Prop := match r with inl r => P r w | inr l => J l w end.
Context (Hact : forall x p l w, lo <= p < hi -> J l w -> wp (act x p l) either_inv D w).

Lemma run_actions_inv xs p l w : lo <= p < hi -> J l w -> wp (run_actions act xs p l) either_inv D w.
Proof using Hact.
  intros Hp. revert l w. induction xs as [|x xs IH]; intros l w Hj; cbn [run_actions]; [by wp_run|].
  wp_run. eapply wp_mono; [by apply Hact| |done]. intros [r|l'] w' Hr; [by wp_run|by apply IH].
Qed.
Lemma step_inv rs c xs rs' : Forall Q rs -> step rs c = Some (xs, rs') -> Forall Q rs'.
Proof using HQ.
  rewrite !Forall_forall. intros Hrs Hst r' (r & t & Hr & Ht & <-)%(elem_of_step _ _ _ _ _ Hst). eauto.
Qed.
Lemma exec_inv s : forall rs p l w, lo <= p -> p + zlen s <= hi -> Forall Q rs -> J l w ->
  wp (exec act rs p s l)
     (fun r w' => match r with inl r => P r w' | inr (rs, _, l) => Forall Q rs /\ J l w' end) D w.
Proof using HQ Hact.
  induction s as [|c s IH]; intros rs p l w Hlo Hhi Hrs Hj; cbn [exec]; [by wp_run|].
  rewrite zlen_cons in Hhi. pose proof (zlen_nonneg s).
  destruct (step rs c) as [[xs rs1]|] eqn:E; [|by wp_run]. wp_run.
  eapply wp_mono; [apply run_actions_inv; [lia|done]| |done]. intros [r|l'] w' Hr; [by wp_run|].
  apply IH; [lia|lia|by eapply step_inv|done].
Qed.
End Invariant.

(** Frames: a machine keeps what its actions keep. *)
Section Keep.
Context {A : Type} `{EqDecision A} {S L R : Type} (act : A -> Z -> L -> St S (R + L)).
Context (F : S -> S -> Prop) `{!PreOrder F} (Hact : forall x p l, keeps F (act x p l)).

Lemma run_actions_keeps xs p l : keeps F (run_actions act xs p l).
Proof using All.
  revert l. induction xs as [|x xs IH]; intros l; cbn [run_actions]; [by apply keeps_ret|].
  apply keeps_bind; [done..|]. intros [r|l']; [by apply keeps_ret|apply IH].
Qed.
Lemma exec_keeps rs p s l : keeps F (exec act rs p s l).
Proof using All.
  revert rs p l. induction s as [|c s IH]; intros rs p l; cbn [exec]; [by apply keeps_ret|].
  destruct (step rs c) as [[xs rs1]|]; [|by apply keeps_ret].
  apply keeps_bind; [done|apply run_actions_keeps|]. intros [r|l']; [by apply keeps_ret|apply IH].
Qed.
End Keep.
