(* ===== verification/Ifchparse.v ===== *)
(** The command language of ndhc-ifch ([ifchd-parse.rl]) and the handling of a
    request ([execute_buffer], [ifchd.c: process_client_socket]).

    The two machines are written with the operators of [Ragel]; an action is named
    by a constructor and its code is a case of [ip4set_act] or [ifchd_act].  The
    local variables of the C function around a machine are a record. *)

From stdpp Require Import gmap.
From S2P Require Import Prelude Types World Ifchange Nl Netlink Ifset Ifchd Ragel.
Local Open Scope ragel_scope.

(** * The arguments of "ip4:" *)

Inductive ip4_action := XSt | IpEn | SnEn | BcEn.
#[export] Instance ip4_action_eq_dec : EqDecision ip4_action.
Proof. solve_decision. Defined.

Definition digit {A} : ragel A := RClass CDigit.
Definition rchar {A} (c : Z) : ragel A := RClass (CChar c).
Definition v4addr {A} : ragel A :=
  RRange 1 3 digit ⋅ rchar (ch ".") ⋅ RRange 1 3 digit ⋅ rchar (ch ".") ⋅
  RRange 1 3 digit ⋅ rchar (ch ".") ⋅ RRange 1 3 digit.

Definition ip4_nobc : ragel ip4_action :=
  RLeave (REnter XSt v4addr) IpEn ⋅ rchar (ch ",") ⋅ RLeave (REnter XSt v4addr) SnEn.
Definition ip4_bc : ragel ip4_action :=
  RLeave (REnter XSt v4addr) IpEn ⋅ rchar (ch ",") ⋅ RLeave (REnter XSt v4addr) SnEn ⋅
  rchar (ch ",") ⋅ RLeave (REnter XSt v4addr) BcEn.
Definition ipv4set_parser : ragel ip4_action := ip4_bc ∥ ip4_nobc.

Record ip4_locals := mk_ip4_locals {
  ip4_arg_start : Z;
  ip4_addr : list Z; ip4_subnet : list Z; ip4_bcast : list Z;
  have_ip : bool; have_subnet : bool; have_bcast : bool
}.
#[export] Instance ip4_locals_eta : Eta ip4_locals := fun r =>
  mk_ip4_locals (ip4_arg_start r) (ip4_addr r) (ip4_subnet r) (ip4_bcast r)
    (have_ip r) (have_subnet r) (have_bcast r).

(** The body that [IpEn], [SnEn] and [BcEn] share: the array [dst] afterwards, and
    whether the argument was copied. *)
Definition copy_arg (buf : list Z) (arg_start p : Z) (dst : list Z) : option (list Z * bool) :=
  let arg_len := p - arg_start in
  let fits := (0 <? arg_len) && (arg_len <? INET_ADDRSTRLEN) in
  dst ← (if fits then arg ← rd_range buf arg_start arg_len; wr_range dst 0 arg else Some dst);
  dst ← wr dst arg_len 0;
  Some (dst, fits).

Section Parse.
Context `{!IfchEnv}.

Definition ip4set_act (buf : list Z) (x : ip4_action) (p : Z) (l : ip4_locals)
  : CM (Z + ip4_locals) :=
  match x with
  | XSt => mret (inr (l <| ip4_arg_start := p |>))
  | IpEn =>
    r ← ub (copy_arg buf (ip4_arg_start l) p (ip4_addr l));
    mret (inr (l <| ip4_addr := r.1 |> <| have_ip := have_ip l || r.2 |>))
  | SnEn =>
    r ← ub (copy_arg buf (ip4_arg_start l) p (ip4_subnet l));
    mret (inr (l <| ip4_subnet := r.1 |> <| have_subnet := have_subnet l || r.2 |>))
  | BcEn =>
    r ← ub (copy_arg buf (ip4_arg_start l) p (ip4_bcast l));
    mret (inr (l <| ip4_bcast := r.1 |> <| have_ip := have_ip l || r.2 |>))
  end.

(** [input] are the characters from [p] to [pe]; all the machine reads is there.
    The arrays are not initialised in C; none is read before it is written. *)
Definition perform_ip4set (buf : list Z) (len : Z) : CM Z :=
  input ← ub (rd_range buf 0 len);
  let l := {| ip4_arg_start := 0; ip4_addr := zeros 16; ip4_subnet := zeros 16;
              ip4_bcast := zeros 16; have_ip := false; have_subnet := false; have_bcast := false |} in
  r ← exec (ip4set_act input) [ipv4set_parser] 0 input l;
  match r with
  | inl r => mret r
  | inr (rs, p, l) =>
    r ← (if p =? len then run_actions (ip4set_act input) (eof_actions rs) p l else mret (inr l));
    match r with
    | inl r => mret r
    | inr l =>
      if negb (final_any rs) then mret (-1)
      else if negb (have_ip l) then mret (-1)
      else if negb (have_subnet l) then mret (-1)
      else lift_ifset (perform_ip_subnet_bcast (ip4_addr l) (ip4_subnet l)
                         (if have_bcast l then Some (ip4_bcast l) else None))
    end
  end.

(** * The command language *)

Inductive ifchd_action := Reset | ArgSt | ArgEn | Dispatch | SetState (s : ifch_state).
#[export] Instance ifchd_action_eq_dec : EqDecision ifchd_action.
Proof. solve_decision. Defined.

Definition terminator : ragel ifchd_action := REnter Dispatch (rchar (ch ";")).
Definition arg_of (a : ragel ifchd_action) : ragel ifchd_action :=
  RLeave (REnter ArgSt a) ArgEn ⋅ terminator.
Definition v4comma : ragel ifchd_action := v4addr ⋅ rchar (ch ",").
Definition ip_arg := arg_of v4addr.
Definition ip4set_arg := arg_of (RRange 1 2 v4comma ⋅ v4addr).
Definition iplist_arg := arg_of (RStar v4comma ⋅ v4addr).
Definition str_arg := arg_of (RPlus (RClass (CNoneOf [ch ";"; 0]))).
Definition s32_arg := arg_of (RTimes 4 (RClass CExtend)).
Definition u16_arg := arg_of (RTimes 2 (RClass CExtend)).
Definition u8_arg := arg_of (RTimes 1 (RClass CExtend)).

(** ['name:' % { cl.state = s; }] *)
Definition keyword (name : string) (s : ifch_state) : ragel ifchd_action :=
  RLeave (RLit (chars name)) (SetState s).
Definition cmd_ip := keyword "routr:" STATE_ROUTER ⋅ ip_arg.
Definition cmd_ip4set := keyword "ip4:" STATE_IP4SET ⋅ ip4set_arg.
Definition cmd_iplist :=
  (keyword "dns:" STATE_DNS ∥ keyword "lpr:" STATE_LPRSVR ∥ keyword "ntp:" STATE_NTPSVR ∥
   keyword "wins:" STATE_WINS) ⋅ iplist_arg.
Definition cmd_str := (keyword "host:" STATE_HOSTNAME ∥ keyword "dom:" STATE_DOMAIN) ⋅ str_arg.
Definition cmd_s32 := keyword "tzone:" STATE_TIMEZONE ⋅ s32_arg.
Definition cmd_u16 := keyword "mtu:" STATE_MTU ⋅ u16_arg.
Definition cmd_u8 := keyword "ipttl:" STATE_IPTTL ⋅ u8_arg.
Definition cmd_none := keyword "carrier:" STATE_CARRIER ⋅ terminator.
Definition command : ragel ifchd_action :=
  cmd_ip ∥ cmd_ip4set ∥ cmd_iplist ∥ cmd_str ∥ cmd_s32 ∥ cmd_u16 ∥ cmd_u8 ∥ cmd_none.
Definition ifchd_parser : ragel ifchd_action := RPlus (REnter Reset command).

Record parse_locals := mk_parse_locals {
  arg_start : Z; arg_len : Z; tb : list Z; cmdf : Z
}.
#[export] Instance parse_locals_eta : Eta parse_locals := fun r =>
  mk_parse_locals (arg_start r) (arg_len r) (tb r) (cmdf r).

Definition set_state (s : ifch_state) : CM unit :=
  modify (fun w => w <| cl ::= fun c => c <| cl_state := s |> |>).

(** The [switch] of [Dispatch]; [None] is its default case. *)
Definition perform (s : ifch_state) (tb : list Z) (arg_len : Z) : option (CM Z) :=
  match s with
  | STATE_IP4SET => Some (perform_ip4set tb arg_len)
  | STATE_TIMEZONE => Some (perform_timezone tb arg_len)
  | STATE_ROUTER => Some (lift_ifset (perform_router tb arg_len))
  | STATE_DNS => Some (perform_dns tb arg_len)
  | STATE_LPRSVR => Some (perform_lprsvr tb arg_len)
  | STATE_HOSTNAME => Some (perform_hostname tb arg_len)
  | STATE_DOMAIN => Some (perform_domain tb arg_len)
  | STATE_IPTTL => Some (perform_ipttl tb arg_len)
  | STATE_MTU => Some (lift_ifset (perform_mtu tb arg_len))
  | STATE_NTPSVR => Some (perform_ntpsrv tb arg_len)
  | STATE_WINS => Some (perform_wins tb arg_len)
  | STATE_CARRIER => Some (lift_ifset perform_carrier)
  | STATE_NOTHING => None
  end.

Definition ifchd_act (buf : list Z) (x : ifchd_action) (p : Z) (l : parse_locals)
  : CM (Z + parse_locals) :=
  match x with
  | Reset => set_state STATE_NOTHING;; mret (inr l)
  | SetState s => set_state s;; mret (inr l)
  | ArgSt => mret (inr (l <| arg_start := p |>))
  | ArgEn =>
    let al := p - arg_start l in
    if (al <? 0) || (MAX_BUF - 1 <? al) then mret (inl (-99))
    else
      arg ← ub (rd_range buf (arg_start l) al);
      t ← ub (wr_range (tb l) 0 arg);
      t ← ub (wr t al 0);
      mret (inr (l <| arg_len := al |> <| tb := t |>))
  | Dispatch =>
    s ← gets (fun w => cl_state (cl w));
    match perform s (tb l) (arg_len l) with
    | None => mret (inl (-99))
    | Some m =>
      pr ← m;
      if pr =? -99 then mret (inl (-99))
      else mret (inr (l <| arg_len := 0 |> <| cmdf := Z.lor (cmdf l) pr |>))
    end
  end.

(** -99: the request is invalid; -1: a command failed; 0: all succeeded.  [newbuf]
    is the string received, the machine runs on the characters of [buf]. *)
Definition execute_buffer (newbuf : list Z) : CM Z :=
  old ← gets (fun w => ibuf (cl w));
  old ← ub (cstr old);
  let buf := old ++ newbuf in
  if 2 * MAX_BUF <=? zlen buf then mret (-99)
  else
    let init_siz := zlen buf in
    let l := {| arg_start := 0; arg_len := 0; tb := zeros (Z.to_nat MAX_BUF); cmdf := 0 |} in
    r ← exec (ifchd_act buf) [ifchd_parser] 0 buf l;
    match r with
    | inl r => mret r
    | inr (rs, p, l) =>
      let bytes_left := init_siz - p in
      r ← (if 0 <? bytes_left then
             let rest := drop (Z.to_nat p) buf in
             ib ← gets (fun w => ibuf (cl w));
             ib ← ub (snprintf_s ib MAX_BUF rest);
             modify (fun w => w <| cl ::= fun c => c <| ibuf := ib |> |>);;
             mret (2 * MAX_BUF <=? zlen rest)
           else mret false);
      if r : bool then mret (-99)
      else if negb (final_any rs) then mret (-99)
      else mret (if cmdf l =? 0 then 0 else -1)
    end.

(** * Requests *)

Definition inform_execute (c : Z) : CM unit :=
  cemit (CReply c);;
  r ← cask ch_reply;
  if r =? 0 then exit EXIT_SUCCESS
  else if r <? 0 then suicide "inform_execute: error writing to ifch -> ndhc socket"
  else mret tt.

Definition process_client_socket : CM unit :=
  r ← cask ch_recv;
  match r with
  | ReadAgain => mret tt
  | ReadFails => suicide "process_client_socket: error reading from ndhc -> ifch socket"
  | ReadData data =>
    let data := take (Z.to_nat (MAX_BUF - 1)) (List.map u8 data) in
    if zlen data =? 0 then exit EXIT_SUCCESS
    else
      ebr ← execute_buffer (until_nul data);
      if ebr <? 0 then
        inform_execute (ch "-");;
        if ebr =? -99 then suicide "process_client_socket: received invalid commands" else mret tt
      else inform_execute (ch "+")
  end.
End Parse.
