(* ===== verification/Ifcmd.v ===== *)
(** The abstract command language of ndhc-ifch, and the proof that
    [execute_buffer] of [ifchd-parse.rl] implements it: a request that is a sequence
    of well-formed commands is executed command by command; anything else is
    refused. *)

From stdpp Require Import gmap.
From S2P Require Import Prelude Types World Samples Ifchange Nl Netlink Ifset Ifchd Ragel Ifchparse.
Local Open Scope ragel_scope.

(** * Commands *)

(** A command is the state it selects and the text of its argument. *)
Definition ifch_command : Type := ifch_state * list Z.

Definition keyword_text (s : ifch_state) : list Z :=
  match s with
  | STATE_NOTHING => []
  | STATE_IP4SET => chars "ip4:" | STATE_TIMEZONE => chars "tzone:"
  | STATE_ROUTER => chars "routr:" | STATE_DNS => chars "dns:" | STATE_LPRSVR => chars "lpr:"
  | STATE_HOSTNAME => chars "host:" | STATE_DOMAIN => chars "dom:"
  | STATE_IPTTL => chars "ipttl:" | STATE_MTU => chars "mtu:" | STATE_NTPSVR => chars "ntp:"
  | STATE_WINS => chars "wins:" | STATE_CARRIER => chars "carrier:"
  end.

(** The form of the argument. *)
Definition arg_form (s : ifch_state) : ragel ifchd_action :=
  match s with
  | STATE_ROUTER => v4addr
  | STATE_IP4SET => RRange 1 2 v4comma ⋅ v4addr
  | STATE_DNS | STATE_LPRSVR | STATE_NTPSVR | STATE_WINS => RStar v4comma ⋅ v4addr
  | STATE_HOSTNAME | STATE_DOMAIN => RPlus (RClass (CNoneOf [ch ";"; 0]))
  | STATE_TIMEZONE => RTimes 4 (RClass CExtend)
  | STATE_MTU => RTimes 2 (RClass CExtend)
  | STATE_IPTTL => RTimes 1 (RClass CExtend)
  | STATE_NOTHING | STATE_CARRIER => REps
  end.

Definition command_ok (c : ifch_command) : Prop := c.1 <> STATE_NOTHING /\ lang (arg_form c.1) c.2.
Definition command_text (c : ifch_command) : list Z := keyword_text c.1 ++ c.2 ++ [ch ";"].
Definition request_text (cs : list ifch_command) : list Z := mjoin (command_text <$> cs).

(** * The trace of a command *)

Definition ifchd_loop : ragel ifchd_action := RStar (REnter Reset command).
(** The machine at the start, and between two commands. *)
Definition at_command (rs : list (ragel ifchd_action)) : Prop :=
  rs = [ifchd_parser] \/ rs = [REps ⋅ ifchd_loop].

Definition nops (n : nat) : list (list ifchd_action) := replicate n [].
Definition command_trace (c : ifch_command) : list (list ifchd_action) :=
  [Reset] :: nops (length (keyword_text c.1) - 1) ++
  match c.1 with
  | STATE_CARRIER => [[SetState STATE_CARRIER; Dispatch]]
  | s => ([SetState s; ArgSt] :: nops (length c.2 - 1)) ++ [[ArgEn; Dispatch]]
  end.

(** After the keyword, before the first character of the argument. *)
Definition at_arg (s : ifch_state) : ragel ifchd_action :=
  RLeave REps (SetState s) ⋅ arg_of (arg_form s) ⋅ ifchd_loop.

Lemma keyword_trace rs s :
  at_command rs -> s <> STATE_NOTHING -> s <> STATE_CARRIER ->
  trace_run rs (keyword_text s) = Some ([Reset] :: nops (length (keyword_text s) - 1), [at_arg s]).
Proof. intros [-> | ->] H1 H2; destruct s; try done; vm_compute; reflexivity. Qed.
Lemma carrier_trace rs :
  at_command rs ->
  trace_run rs (command_text (STATE_CARRIER, [])) =
  Some (command_trace (STATE_CARRIER, []), [REps ⋅ ifchd_loop]).
Proof. intros [-> | ->]; vm_compute; reflexivity. Qed.

(** The argument [s] ends at its terminator and nowhere else. *)
Definition delimited (a : ragel ifchd_action) (s : list Z) : Prop :=
  (forall u v, s = u ++ ch ";" :: v -> ~ lang a u) /\ (forall v, ~ lang a (s ++ ch ";" :: v)).

(** Inside an argument of form [a], after [pre]. *)
Definition in_arg (a : ragel ifchd_action) (pre : list Z) (r : ragel ifchd_action) : Prop :=
  exists q, r = RLeave q ArgEn ⋅ terminator ⋅ ifchd_loop /\ plain q = true /\ productive q = true /\
    forall u, lang q u -> lang a (pre ++ u).

Lemma leave_terminator q : leave (RLeave q ArgEn ⋅ terminator) = [].
Proof. cbn [leave]. by induction (leave q ≫= _). Qed.

Lemma deriv_terminator c t :
  t ∈ deriv terminator c -> c = ch ";" /\ t = ([Dispatch], REps).
Proof.
  intros (u & Hu & ->)%elem_of_deriv_enter. cbn [deriv rchar in_class] in Hu. revert Hu. zcase.
  - intros ->%list_elem_of_singleton. done.
  - by intros ?%elem_of_nil.
Qed.

(** The transitions inside an argument: it goes on, or the terminator ends it. *)
Lemma in_arg_deriv a pre r c t :
  in_arg a pre r -> t ∈ deriv r c ->
  (t.1 = [] /\ in_arg a (pre ++ [c]) t.2) \/
  (c = ch ";" /\ lang a pre /\ t = ([ArgEn; Dispatch], REps ⋅ ifchd_loop)).
Proof.
  intros (q & -> & Hp & Hpr & Hq) [(u & Hu & ->)|(la & u & Hla & _)]%elem_of_deriv_seq;
    [|by rewrite leave_terminator, elem_of_nil in Hla].
  apply elem_of_deriv_seq in Hu as [(v & Hv & ->)|(la & v & Hla & Hv & ->)].
  - apply elem_of_deriv_leave in Hv as (x & Hx & ->). left. cbn [fst snd].
    destruct (plain_deriv q c x Hp Hx) as [E1 E2]. split; [done|].
    exists x.2. split_and!; [done..|by eapply productive_deriv|].
    intros s Hs. rewrite <- app_assoc. apply Hq. by eapply deriv_sound.
  - right. apply deriv_terminator in Hv as [-> ->]. split; [done|].
    apply elem_of_each in Hla as (l & Hl & ->). rewrite (plain_leave q l Hp Hl). split; [|done].
    rewrite <- (app_nil_r pre). apply Hq, lang_final. by eapply final_leave.
Qed.

Lemma arg_rest_trace a s : delimited a s -> forall rest pre rs,
  s = pre ++ rest -> Forall (in_arg a pre) rs -> live rs (rest ++ [ch ";"]) ->
  trace_run rs (rest ++ [ch ";"]) = Some (nops (length rest) ++ [[ArgEn; Dispatch]], [REps ⋅ ifchd_loop]).
Proof.
  intros [Hd1 Hd2]. induction rest as [|c rest IH]; intros pre rs Hs Hrs Hl; cbn [app trace_run].
  - rewrite app_nil_r in Hs. subst pre.
    destruct (step_uniform (fun r => r = REps ⋅ ifchd_loop) rs (ch ";") [] [ArgEn; Dispatch] Hl)
      as (rs' & Hst & Hall & Hlive).
    { repeat constructor; rewrite ?list_elem_of_singleton; by try intros ?%elem_of_nil. }
    { intros r t Hr Ht. rewrite Forall_forall in Hrs.
      destruct (in_arg_deriv a s r _ t (Hrs r Hr) Ht) as [[_ (q & _ & _ & Hpr & Hq)]|(_ & _ & ->)]; [|done].
      destruct (productive_word q Hpr) as [u Hu]. destruct (Hd2 u).
      rewrite cons_middle, app_assoc. by apply Hq. }
    rewrite Hst. cbn [mbind option_bind fst snd]. do 2 f_equal.
    pose proof (step_nodup _ _ _ _ Hst) as Hnd. destruct Hlive as (r & Hr & _).
    destruct rs' as [|r1 [|r2 rs']]; [by apply elem_of_nil in Hr|by decompose_Forall_hyps|].
    decompose_Forall_hyps. apply NoDup_cons in Hnd as [Hn _]. destruct Hn. apply list_elem_of_here.
  - destruct (step_uniform (in_arg a (pre ++ [c])) rs c (rest ++ [ch ";"]) [] Hl)
      as (rs' & Hst & Hall & Hlive); [constructor| |].
    { intros r t Hr Ht. rewrite Forall_forall in Hrs.
      destruct (in_arg_deriv a pre r _ t (Hrs r Hr) Ht) as [[-> Hi]|(-> & Hpre & _)]; [done|].
      by destruct (Hd1 pre rest Hs). }
    rewrite Hst. cbn [mbind option_bind fst snd].
    rewrite (IH (pre ++ [c]) rs'); [done| |done..]. by rewrite <- app_assoc.
Qed.

Lemma arg_trace st s :
  plain (arg_form st) = true -> productive (arg_form st) = true -> s <> [] ->
  lang (arg_form st) s -> delimited (arg_form st) s -> ~ lang (arg_form st) [] ->
  trace_run [at_arg st] (s ++ [ch ";"]) =
  Some (([SetState st; ArgSt] :: nops (length s - 1)) ++ [[ArgEn; Dispatch]], [REps ⋅ ifchd_loop]).
Proof.
  intros Hp Hpr Hne Hl Hd H0. destruct s as [|c s]; [done|]. clear Hne.
  assert (Hlive : live [at_arg st] ((c :: s) ++ [ch ";"])).
  { exists (at_arg st). split; [apply list_elem_of_here|]. unfold at_arg, arg_of.
    rewrite <- (app_nil_r (_ ++ _)). apply lang_seq; [|constructor].
    rewrite <- (app_nil_l (_ ++ _)). apply lang_seq; [repeat constructor|].
    apply lang_seq; [by repeat constructor|]. repeat constructor. }
  cbn [app] in *. cbn [trace_run].
  destruct (step_uniform (in_arg (arg_form st) [c]) [at_arg st] c (s ++ [ch ";"]) [SetState st; ArgSt] Hlive)
    as (rs' & Hst & Hall & Hl').
  { repeat constructor; rewrite ?list_elem_of_singleton; by try intros ?%elem_of_nil. }
  { intros r t Hr Ht. apply list_elem_of_singleton in Hr as ->. unfold at_arg in Ht.
    apply elem_of_deriv_seq in Ht as [(u & Hu & ->)|(la & u & Hla & _)].
    2: { cbn [leave arg_of terminator] in Hla. exfalso. revert Hla.
         set (l := _ ≫= _). assert (l = []) as ->; [|by intros ?%elem_of_nil].
         subst l. cbn. by induction (leave (arg_form st) ≫= _). }
    apply elem_of_deriv_seq in Hu as [(v & Hv & _)|(la & v & Hla & Hv & ->)].
    { apply elem_of_deriv_leave in Hv as (x & Hx & _). by apply elem_of_nil in Hx. }
    cbn [leave] in Hla. apply elem_of_each in Hla as (l & ->%list_elem_of_singleton & ->).
    unfold arg_of in Hv. apply elem_of_deriv_seq in Hv as [(x & Hx & ->)|(la & x & Hla & _)].
    - apply elem_of_deriv_leave in Hx as (y & Hy & ->). apply elem_of_deriv_enter in Hy as (z & Hz & ->).
      destruct (plain_deriv _ _ _ Hp Hz) as [E1 E2]. cbn [fst snd app]. rewrite E1. split; [done|].
      exists z.2. split_and!; [done..|by eapply productive_deriv|].
      intros w Hw. by eapply deriv_sound.
    - exfalso. apply H0, lang_final. apply elem_of_each in Hla as (l & Hl1 & _). by eapply final_leave. }
  rewrite Hst. cbn [mbind option_bind fst snd].
  rewrite (arg_rest_trace _ _ Hd s [c] rs'); [|done..]. cbn [length fst snd app].
  by replace (S (length s) - 1)%nat with (length s) by lia.
Qed.

Lemma lang_times n k s : lang (RTimes n (RClass k) : ragel ifchd_action) s -> length s = n.
Proof.
  revert s. induction n as [|n IH]; intros s Hs; [by inversion Hs|].
  destruct n as [|n]; [by inversion Hs|]. cbn [RTimes] in *. inversion Hs as [| |? ? u v Hu Hv| | | | | | | |]; subst.
  inversion Hu; subst. cbn [app length]. f_equal. by apply IH.
Qed.

Lemma delimited_avoids a s : avoids (ch ";") a = true -> lang a s -> delimited a s.
Proof.
  intros Ha Hs. split.
  - intros u v -> _. apply (avoids_lang _ _ _ Ha Hs). set_solver.
  - intros v Hv. apply (avoids_lang _ _ _ Ha Hv). set_solver.
Qed.
Lemma delimited_times n k s :
  lang (RTimes n (RClass k) : ragel ifchd_action) s -> delimited (RTimes n (RClass k)) s.
Proof.
  intros Hs%lang_times. split.
  - intros u v -> Hu%lang_times. rewrite length_app in Hs. cbn in Hs. lia.
  - intros v Hv%lang_times. rewrite length_app in Hv. cbn in Hv. lia.
Qed.

Lemma arg_form_facts st s :
  st <> STATE_NOTHING -> st <> STATE_CARRIER -> lang (arg_form st) s ->
  plain (arg_form st) = true /\ productive (arg_form st) = true /\
  ~ lang (arg_form st) [] /\ delimited (arg_form st) s.
Proof.
  intros H1 H2 Hs. split_and!.
  - by destruct st.
  - destruct st; vm_compute; reflexivity.
  - rewrite <- lang_final. by destruct st.
  - destruct st; try done; cbn [arg_form] in Hs |- *;
      first [by apply delimited_times | apply delimited_avoids; [vm_compute; reflexivity|done]].
Qed.

(** A well-formed command runs its actions in order and leaves the machine between
    two commands. *)
Lemma command_trace_run rs c :
  at_command rs -> command_ok c ->
  trace_run rs (command_text c) = Some (command_trace c, [REps ⋅ ifchd_loop]).
Proof.
  intros Hrs [Hn Ha]. destruct (decide (c.1 = STATE_CARRIER)) as [Hc|Hc].
  - destruct c as [s a]. cbn in *. subst s. inversion Ha; subst. by apply carrier_trace.
  - destruct (arg_form_facts c.1 c.2 Hn Hc Ha) as (Hp & Hpr & H0 & Hd).
    unfold command_text. rewrite trace_run_app, (keyword_trace rs c.1 Hrs Hn Hc).
    cbn [mbind option_bind fst snd]. rewrite (arg_trace c.1 c.2) by (by try intros E; rewrite ?E in Ha).
    cbn [mbind option_bind fst snd]. do 2 f_equal. unfold command_trace.
    destruct c as [[] a]; cbn [fst snd] in *; done.
Qed.

(** * The specification *)

Section Spec.
Context `{!IfchEnv}.

(** What a command does: its handler gets the argument as a string. *)
Definition perform_command (c : ifch_command) : CM Z :=
  set_state c.1;;
  match perform c.1 (c.2 ++ [0]) (zlen c.2) with
  | Some m => m
  | None => mret (-99)
  end.

(** The commands of a request in order, up to the first fatal one: -99 when there
    is one, else -1 when one failed, else 0. *)
Fixpoint run_commands (cs : list ifch_command) (failed : Z) : CM Z :=
  match cs with
  | [] => mret (if failed =? 0 then 0 else -1)
  | c :: cs =>
    pr ← perform_command c;
    if pr =? -99 then mret (-99) else run_commands cs (Z.lor failed pr)
  end.

(** * The actions of a command *)

Lemma until_nul_string s rest : Forall (fun c => c <> 0) s -> until_nul (s ++ 0 :: rest) = s.
Proof.
  induction s as [|c s IH]; [done|]. intros Hs. decompose_Forall_hyps. cbn [app until_nul].
  zcase; [done|]. by rewrite IH.
Qed.

Lemma until_nul_id s : 0 ∉ s -> until_nul s = s.
Proof.
  induction s as [|c s IH]; [done|]. rewrite not_elem_of_cons. intros [Hc Hs]. cbn [until_nul].
  zcase; [done|]. by rewrite IH.
Qed.

(** A handler sees its argument only: what lies behind it in [tb] has no effect. *)
Lemma perform_string s arg rest :
  Forall (fun c => c <> 0) arg ->
  perform s (arg ++ 0 :: rest) (zlen arg) = perform s (arg ++ [0]) (zlen arg).
Proof.
  intros Ha.
  assert (E1 : forall r, until_nul (arg ++ 0 :: r) = arg) by (intros; by apply until_nul_string).
  assert (E2 : forall r, rd_range (arg ++ 0 :: r) 0 (zlen arg) = Some arg)
    by (intros r; by apply (rd_range_at [] arg (0 :: r) 0)).
  destruct s; try done; cbn [perform]; f_equal.
  - unfold perform_ip4set. by rewrite !E2.
  - unfold perform_router, inet_pton. by rewrite !E1.
  - unfold perform_dns. by rewrite !E1.
  - unfold perform_hostname. by rewrite !E2.
  - unfold perform_domain. by rewrite !E1.
  - unfold perform_mtu. by rewrite !E1.
Qed.

Lemma run_nops buf n p l : run_trace (ifchd_act buf) (nops n) p l = mret (inr l).
Proof. apply run_trace_nops. Qed.
Lemma length_nops n : length (nops n) = n.
Proof. apply length_replicate. Qed.

Definition locals_ok (l : parse_locals) : Prop := zlen (tb l) = MAX_BUF.

(** What [ArgEn] and [Dispatch] do with the argument that starts at [arg_start]. *)
Lemma arg_end_run pre arg post s l w :
  let buf := pre ++ arg ++ post in
  Forall (fun c => c <> 0) arg -> zlen arg < MAX_BUF -> locals_ok l -> s <> STATE_NOTHING ->
  arg_start l = zlen pre -> cl_state (cl w) = s ->
  exists l', locals_ok l' /\
  run_actions (ifchd_act buf) [ArgEn; Dispatch] (zlen pre + zlen arg) l w =
  (pr ← match perform s (arg ++ [0]) (zlen arg) with Some m => m | None => mret (-99) end;
   mret (if pr =? -99 then inl (-99) else inr (l' <| cmdf := Z.lor (cmdf l) pr |>))) w.
Proof.
  intros buf Ha Hlen Hl Hs Hst Hw. unfold locals_ok, MAX_BUF in *. pose proof (zlen_nonneg arg) as H0.
  set (tb' := arg ++ 0 :: drop (length arg + 1) (tb l)).
  exists (l <| arg_len := 0 |> <| tb := tb' |>). split.
  { rsimpl. subst tb'. unfold zlen in *. rewrite length_app. cbn [length]. rewrite length_drop. lia. }
  cbn [run_actions ifchd_act]. rewrite Hst, Z.add_simpl_l. unfold MAX_BUF.
  replace ((zlen arg <? 0) || (1024 - 1 <? zlen arg)) with false by lia.
  assert (E1 : rd_range buf (zlen pre) (zlen arg) = Some arg) by by apply rd_range_at.
  assert (E2 : wr_range (tb l) 0 arg = Some (arg ++ drop (length arg) (tb l))).
  { rewrite wr_range_Some by lia. change (take (Z.to_nat 0) (tb l)) with (@nil Z). done. }
  assert (E3 : wr (arg ++ drop (length arg) (tb l)) (zlen arg) 0 = Some tb').
  { subst tb'. destruct (drop (length arg) (tb l)) as [|x d] eqn:Ed.
    { apply (f_equal length) in Ed. rewrite length_drop in Ed. unfold zlen in *. cbn in Ed. lia. }
    rewrite (wr_at arg d x 0) by done. rewrite <- drop_drop, Ed. done. }
  rewrite E1. st_run. rewrite E2. st_run. rewrite E3. st_run. cbv iota.
  cbn [run_actions ifchd_act]. st_run. rewrite Hw. rsimpl.
  unfold tb'. rewrite perform_string by done. fold tb'.
  assert (Hm : exists m, perform s (arg ++ [0]) (zlen arg) = Some m) by (destruct s; try done; eexists; done).
  destruct Hm as [m ->]. st_run. apply run_cong; [done|]. intros pr w'.
  by destruct (pr =? -99).
Qed.

Lemma command_run pre c post l w :
  let buf := pre ++ command_text c ++ post in
  command_ok c -> Forall (fun d => d <> 0) c.2 -> zlen c.2 < MAX_BUF -> locals_ok l ->
  exists l', locals_ok l' /\
  run_trace (ifchd_act buf) (command_trace c) (zlen pre) l w =
  (pr ← perform_command c;
   mret (if pr =? -99 then inl (-99) else inr (l' <| cmdf := Z.lor (cmdf l) pr |>))) w.
Proof.
  intros buf [Hn Ha] Hnz Hlen Hl. unfold command_trace.
  set (w2 := w <| cl ::= fun d => d <| cl_state := c.1 |> |>).
  assert (Hpc : forall B (k : Z -> CM B), (perform_command c ≫= k) w =
    (match perform c.1 (c.2 ++ [0]) (zlen c.2) with Some m => m | None => mret (-99) end ≫= k) w2).
  { intros B k. unfold perform_command, set_state. by st_run. }
  cbn [run_trace app run_actions ifchd_act]. unfold set_state. st_run. cbv iota.
  set (w1 := w <| cl ::= fun d => d <| cl_state := STATE_NOTHING |> |>).
  rewrite run_trace_app. rewrite run_nops. st_run. cbv iota.
  rewrite length_nops.
  destruct (decide (c.1 = STATE_CARRIER)) as [Hc|Hc].
  - destruct c as [s a]. cbn in Hc. subst s. cbn [fst snd] in *.
    exists (l <| arg_len := 0 |>). split; [done|]. rewrite Hpc.
    cbn [run_trace run_actions ifchd_act]. unfold set_state. st_run. cbv iota. st_run.
    change (w1 <| cl ::= _ |>) with w2. change (cl_state (cl w2)) with STATE_CARRIER.
    cbn [perform]. st_run. apply run_cong; [done|]. intros pr w'. by destruct (pr =? -99).
  - set (p1 := zlen pre + 1 + Z.of_nat (length (keyword_text c.1) - 1)).
    assert (Hk : p1 = zlen (pre ++ keyword_text c.1)).
    { subst p1. destruct c as [[] a]; try done; cbn [fst keyword_text]; rewrite zlen_app;
        unfold zlen; cbn [length chars List.map String.list_ascii_of_string]; lia. }
    assert (Hne : c.2 <> []).
    { destruct (arg_form_facts c.1 c.2 Hn Hc Ha) as (_ & _ & H0 & _). intros E. by rewrite E in Ha. }
    set (l1 := l <| arg_start := p1 |>).
    destruct (arg_end_run (pre ++ keyword_text c.1) c.2 ([ch ";"] ++ post) c.1 l1 w2)
      as (l' & Hl' & Hrun); [done..|].
    exists l'. split; [done|]. change (cmdf l1) with (cmdf l) in Hrun.
    assert (Hb : (pre ++ keyword_text c.1) ++ c.2 ++ [ch ";"] ++ post = buf).
    { subst buf. unfold command_text. by rewrite <- !app_assoc. }
    cbv zeta in Hrun. rewrite Hb in Hrun. rewrite Hpc, <- Hrun. clear Hrun Hpc Hb.
    set (end_run := run_actions (ifchd_act buf) [ArgEn; Dispatch] (zlen _ + _) l1 w2).
    assert (Hbody : forall tr, (match c.1 with STATE_CARRIER => tr | s => ([SetState s; ArgSt] :: nops (length c.2 - 1)) ++ [[ArgEn; Dispatch]] end)
      = [SetState c.1; ArgSt] :: nops (length c.2 - 1) ++ [[ArgEn; Dispatch]]) by (intros; by destruct c as [[] ?]).
    rewrite Hbody. cbn [run_trace run_actions]. cbn [ifchd_act]. unfold set_state. st_run. cbv iota. st_run. cbv iota.
    change (w1 <| cl ::= _ |>) with w2. fold l1.
    rewrite run_trace_app. rewrite run_nops. st_run. cbv iota.
    rewrite length_nops. cbn [run_trace].
    replace (p1 + 1 + Z.of_nat (length c.2 - 1)) with (zlen (pre ++ keyword_text c.1) + zlen c.2).
    2: { rewrite <- Hk. unfold zlen. destruct c.2; [done|]. cbn [length]. lia. }
    unfold mbind, M_bind. fold end_run. by destruct end_run as [[[r|l2]|h] w'].
Qed.

Lemma request_trace cs rs :
  at_command rs -> Forall command_ok cs ->
  trace_run rs (request_text cs) =
  Some (mjoin (command_trace <$> cs), match cs with [] => rs | _ => [REps ⋅ ifchd_loop] end).
Proof.
  intros Hrs Hcs. revert rs Hrs. induction Hcs as [|c cs Hc _ IH]; intros rs Hrs; [done|].
  unfold request_text in *. rewrite !fmap_cons, !mjoin_cons, trace_run_app.
  rewrite (command_trace_run rs c Hrs Hc). cbn [mbind option_bind fst snd].
  rewrite (IH [REps ⋅ ifchd_loop]) by (by right). cbn [mbind option_bind fst snd]. by destruct cs.
Qed.

(** The value [execute_buffer] makes of the end of the run. *)
Definition verdict (r : Z + parse_locals) : Z :=
  match r with inl r => r | inr l => if cmdf l =? 0 then 0 else -1 end.

Lemma request_run cs : forall pre post l w,
  Forall command_ok cs -> Forall (fun c => Forall (fun d => d <> 0) c.2 /\ zlen c.2 < MAX_BUF) cs ->
  locals_ok l ->
  (r ← run_trace (ifchd_act (pre ++ request_text cs ++ post)) (mjoin (command_trace <$> cs)) (zlen pre) l;
   mret (verdict r)) w = run_commands cs (cmdf l) w.
Proof.
  induction cs as [|c cs IH]; intros pre post l w Hcs Hnz Hl; [done|].
  apply Forall_cons in Hcs as [Hc Hcs]. apply Forall_cons in Hnz as [[Hcz Hcl] Hnz].
  destruct (command_run pre c (request_text cs ++ post) l w) as (l' & Hl' & Hrun); [done..|].
  unfold request_text in *. rewrite !fmap_cons, !mjoin_cons. cbn [run_commands].
  rewrite <- app_assoc. cbv zeta in Hrun. set (buf := pre ++ command_text c ++ _) in *.
  assert (Hlen : length (command_trace c) = length (command_text c)).
  { eapply trace_run_length, (command_trace_run [ifchd_parser]); [by left|done]. }
  rewrite run_trace_app_bind. unfold mbind at 1, M_bind. rewrite Hrun.
  unfold mbind at 1 3, M_bind.
  destruct (perform_command c w) as [[pr|h] w']; [|done]. cbn [mret M_ret].
  destruct (pr =? -99); [done|].
  specialize (IH (pre ++ command_text c) post (l' <| cmdf := Z.lor (cmdf l) pr |>) w').
  rewrite Hlen. rewrite zlen_app, <- app_assoc in IH. unfold zlen at 2 in IH. fold buf in IH.
  by apply IH.
Qed.

Lemma request_text_args cs :
  Forall (fun c => c <> 0) (request_text cs) -> zlen (request_text cs) < MAX_BUF ->
  Forall (fun c : ifch_command => Forall (fun d => d <> 0) c.2 /\ zlen c.2 < MAX_BUF) cs.
Proof.
  induction cs as [|c cs IH]; [done|]. unfold request_text. rewrite fmap_cons, mjoin_cons.
  fold (request_text cs). intros [Hc Hcs]%Forall_app Hl. unfold command_text in Hc, Hl.
  apply Forall_app in Hc as [_ [Ha _]%Forall_app]. constructor; [split; [done|zlen_lia]|].
  apply IH; [done|]. zlen_lia.
Qed.
End Spec.

(** * The language of requests *)

Lemma keyword_inv name st s : lang (keyword name st) s -> s = chars name.
Proof. intros Hs%lang_leave_inv. by apply lang_lit_inv in Hs. Qed.
Lemma arg_of_inv a s : lang (arg_of a) s -> exists x, s = x ++ [ch ";"] /\ lang a x.
Proof.
  intros (x & t & -> & Hx & Ht)%lang_seq_inv.
  apply lang_leave_inv, lang_enter_inv in Hx. apply lang_enter_inv in Ht.
  apply (lang_lit_inv [ch ";"]) in Ht as ->. eauto.
Qed.

Lemma command_inv s : lang command s -> exists c, command_ok c /\ s = command_text c.
Proof.
  assert (Hk : forall name st a, st <> STATE_NOTHING -> chars name = keyword_text st -> a = arg_form st ->
    lang (keyword name st ⋅ arg_of a) s -> exists c, command_ok c /\ s = command_text c).
  { intros name st a Hst Hn -> (k & t & -> & ->%keyword_inv & (x & -> & Hx)%arg_of_inv)%lang_seq_inv.
    exists (st, x). rewrite Hn. done. }
  assert (Hd : forall a b x, lang (RAlt a b ⋅ x : ragel ifchd_action) s -> lang (a ⋅ x) s \/ lang (b ⋅ x) s).
  { intros a b x (k & t & -> & [Ha|Hb]%lang_alt_inv & Ht)%lang_seq_inv; [left|right]; by constructor. }
  unfold command. intros [[[[[[[H|H]%lang_alt_inv|H]%lang_alt_inv|H]%lang_alt_inv|H]%lang_alt_inv|H]%lang_alt_inv|H]%lang_alt_inv|H]%lang_alt_inv.
  - by eapply (Hk _ STATE_ROUTER) in H.
  - by eapply (Hk _ STATE_IP4SET) in H.
  - apply Hd in H as [[[H|H]%Hd|H]%Hd|H].
    + by eapply (Hk _ STATE_DNS) in H.
    + by eapply (Hk _ STATE_LPRSVR) in H.
    + by eapply (Hk _ STATE_NTPSVR) in H.
    + by eapply (Hk _ STATE_WINS) in H.
  - apply Hd in H as [H|H].
    + by eapply (Hk _ STATE_HOSTNAME) in H.
    + by eapply (Hk _ STATE_DOMAIN) in H.
  - by eapply (Hk _ STATE_TIMEZONE) in H.
  - by eapply (Hk _ STATE_MTU) in H.
  - by eapply (Hk _ STATE_IPTTL) in H.
  - apply lang_seq_inv in H as (k & t & -> & ->%keyword_inv & Ht).
    apply lang_enter_inv, (lang_lit_inv [ch ";"]) in Ht as ->.
    exists (STATE_CARRIER, []). split; [by split; [|constructor]|done].
Qed.

(** The grammar describes the sequences of well-formed commands. *)
Lemma request_lang s :
  lang ifchd_parser s <-> exists cs, cs <> [] /\ Forall command_ok cs /\ s = request_text cs.
Proof.
  split.
  - intros (u & v & -> & Hu%lang_enter_inv & Hv)%lang_seq_inv.
    apply command_inv in Hu as (c & Hc & ->).
    assert (exists cs, Forall command_ok cs /\ v = request_text cs) as (cs & Hcs & ->).
    { remember (RStar (REnter Reset command)) as r eqn:Er.
      induction Hv as [| | | | | |a s t Hs _ _ IH| | | |]; try done; [by exists []|].
      injection Er as ->. destruct (IH eq_refl) as (cs & Hcs & ->).
      apply lang_enter_inv, command_inv in Hs as (d & Hd & ->). exists (d :: cs). by split; [constructor|]. }
    exists (c :: cs). split_and!; [done|by constructor|done].
  - intros (cs & Hne & Hcs & ->). apply accepts_lang. unfold accepts.
    rewrite (request_trace cs _ (or_introl eq_refl) Hcs). by destruct cs.
Qed.

(** * Executing a request *)

Section Execute.
Context `{!IfchEnv}.

Lemma execute_request cs w :
  cs <> [] -> Forall command_ok cs ->
  Forall (fun c => c <> 0) (request_text cs) -> zlen (request_text cs) < MAX_BUF ->
  cstr (ibuf (cl w)) = Some [] ->
  execute_buffer (request_text cs) w = run_commands cs 0 w.
Proof.
  intros Hne Hok Hnz Hlen Hib. unfold execute_buffer. st_run. rewrite Hib. st_run. cbn [app].
  unfold MAX_BUF in *. replace (2 * 1024 <=? _) with false by lia.
  set (l := {| arg_start := 0; arg_len := 0; tb := _; cmdf := 0 |}).
  rewrite <- (request_run cs [] [] l w); [|done|by apply request_text_args|done].
  rewrite app_nil_r. cbn [app]. change (zlen []) with 0.
  unfold mbind at 1, M_bind.
  rewrite (exec_trace _ _ _ _ _ _ _ _ (request_trace cs [ifchd_parser] (or_introl eq_refl) Hok)).
  unfold mbind, M_bind.
  destruct (run_trace _ _ 0 l w) as [[[r|l']|h] w']; [done| |done]. cbn [mret M_ret verdict].
  rewrite Z.add_0_l, Z.sub_diag. change (0 <? 0) with false. cbv iota.
  destruct cs as [|c cs]; [done|]. reflexivity.
Qed.


Lemma execute_refuses s w :
  cstr (ibuf (cl w)) = Some [] -> ~ lang ifchd_parser s ->
  wp (execute_buffer s) (fun r _ => r = -99) (fun _ _ => True) w.
Proof.
  intros Hib Hno. unfold execute_buffer. wp_run. rewrite Hib. wp_run.
  cbn [app]. zcase; wp_run; [done|].
  eapply wp_mono; [apply (exec_ends _ (fun r => r = -99))| |done].
  - intros x p l w'. destruct x; cbn [ifchd_act]; unfold set_state; wp_run; try done.
    + zcase; [by wp_run|]. zcase; [by wp_run|].
      destruct (rd_range _ _ _); wp_run; [|done]. destruct (wr_range _ _ _); wp_run; [|done].
      by destruct (wr _ _ _); wp_run.
    + destruct (perform _ _ _) as [m|]; wp_run; [|done]. unfold wp.
      destruct (m w') as [[pr|h] w1]; [|done]. by destruct (pr =? -99).
  - intros [r|[[rs p] l]] w1; [by intros ->|]. intros Hend.
    assert (Hf : final_any rs = false).
    { destruct Hend as [->|[_ [tr Htr]]]; [done|]. apply not_true_is_false. intros Hf.
      apply Hno, accepts_lang. unfold accepts. by rewrite Htr. }
    wp_run. zcase.
    + wp_run. destruct (snprintf_s _ _ _) as [ib|]; wp_run; [|done].
      destruct (_ <=? _); wp_run; [done|]. rewrite Hf. cbn [negb]. by wp_run.
    + wp_run. rewrite Hf. cbn [negb]. by wp_run.
Qed.
End Execute.

(** * What a command cannot touch: the buffer of pending input and the answers sent *)

Create HintDb ibuf.

Section Ibuf.
Context `{!IfchEnv}.

Definition same_ibuf (w w' : ifch_world) : Prop :=
  (ibuf (cl w'), answers_sent (ch_trace w')) = (ibuf (cl w), answers_sent (ch_trace w)).
#[export] Instance same_ibuf_preorder : PreOrder same_ibuf.
Proof. split; [done|]. intros a b c Hab Hbc. unfold same_ibuf in *. congruence. Qed.

Ltac ibuf_step :=
  lazymatch goal with
  | |- keeps _ (_ ≫= _) => apply (keeps_bind same_ibuf); [|intros]
  | |- keeps _ (mret _) => apply (keeps_ret same_ibuf)
  | |- keeps _ (gets _) => apply (keeps_gets same_ibuf)
  | |- keeps _ (fatal _) => apply (keeps_fatal same_ibuf)
  | |- keeps _ (suicide _) => apply (keeps_fatal same_ibuf)
  | |- keeps _ (ub _) => apply (keeps_ub same_ibuf)
  | |- keeps _ (modify _) => apply (keeps_modify same_ibuf); intros; reflexivity
  | |- keeps _ (lift_ifset ?m) => intros ?; unfold lift_ifset; destruct (m _); reflexivity
  | |- keeps _ (if ?b then _ else _) => destruct b
  | |- keeps _ (match ?o with _ => _ end) => destruct o
  end.
Ltac ibuf_tac := repeat (ibuf_step || solve [eauto with ibuf]).

Lemma lseek_ibuf fd pos : keeps same_ibuf (lseek fd pos).
Proof. unfold lseek, cask, file_of, set_file. ibuf_tac. Qed.
Lemma safe_write_ibuf fd bs : keeps same_ibuf (safe_write fd bs).
Proof. unfold safe_write, cask, file_of, set_file. ibuf_tac. Qed.
Lemma safe_read_ibuf fd n : keeps same_ibuf (safe_read fd n).
Proof. unfold safe_read, cask, file_of, set_file. ibuf_tac. Qed.
Lemma ftruncate_ibuf fd off : keeps same_ibuf (ftruncate fd off).
Proof. unfold ftruncate, cask, file_of, set_file. ibuf_tac. Qed.
Hint Resolve lseek_ibuf safe_write_ibuf safe_read_ibuf ftruncate_ibuf : ibuf.
Lemma writeordie_ibuf fd bs : keeps same_ibuf (writeordie fd bs).
Proof. unfold writeordie. ibuf_tac. Qed.
Lemma append_loop_ibuf fuel to from n : keeps same_ibuf (append_loop fuel to from n).
Proof. revert n. induction fuel as [|fuel IH]; intros n; cbn [append_loop]; cbv zeta; ibuf_tac. Qed.
Hint Resolve writeordie_ibuf append_loop_ibuf : ibuf.
Lemma write_append_fd_ibuf to from : keeps same_ibuf (write_append_fd to from).
Proof. unfold write_append_fd. ibuf_tac. Qed.
Lemma namesvrs_loop_ibuf fuel fd p : keeps same_ibuf (namesvrs_loop fuel fd p).
Proof. revert p. induction fuel as [|fuel IH]; intros p; cbn [namesvrs_loop]; ibuf_tac. Qed.
Lemma domains_loop_ibuf fuel fd p n : keeps same_ibuf (domains_loop fuel fd p n).
Proof. revert p n. induction fuel as [|fuel IH]; intros p n; cbn [domains_loop]; ibuf_tac. Qed.
Hint Resolve write_append_fd_ibuf namesvrs_loop_ibuf domains_loop_ibuf : ibuf.
Lemma write_resolve_conf_ibuf : keeps same_ibuf write_resolve_conf.
Proof. unfold write_resolve_conf, fsync, cask, cemit. ibuf_tac. Qed.
Hint Resolve write_resolve_conf_ibuf : ibuf.

Lemma perform_ibuf s tb n m : perform s tb n = Some m -> keeps same_ibuf m.
Proof.
  destruct s; cbn [perform]; intros [= <-];
    unfold perform_timezone, perform_lprsvr, perform_ipttl, perform_ntpsrv, perform_wins; ibuf_tac.
  - unfold perform_ip4set. ibuf_tac.
    + apply exec_keeps; [apply _|]. intros x p l. unfold ip4set_act. destruct x; ibuf_tac.
    + apply run_actions_keeps; [apply _|]. intros x p' l'. unfold ip4set_act. destruct x; ibuf_tac.
  - unfold perform_dns. ibuf_tac.
  - unfold perform_hostname, cemit, cask. ibuf_tac.
  - unfold perform_domain. ibuf_tac.
Qed.
Lemma perform_command_ibuf c : keeps same_ibuf (perform_command c).
Proof.
  unfold perform_command, set_state. ibuf_step; [ibuf_step|].
  destruct (perform _ _ _) eqn:E; [by eapply perform_ibuf|ibuf_step].
Qed.
Hint Resolve perform_command_ibuf : ibuf.
Lemma run_commands_ibuf cs failed : keeps same_ibuf (run_commands cs failed).
Proof. revert failed. induction cs as [|c cs IH]; intros failed; cbn [run_commands]; ibuf_tac. Qed.
Lemma ifchd_act_ibuf buf x p l : keeps same_ibuf (ifchd_act buf x p l).
Proof.
  destruct x; cbn [ifchd_act]; unfold set_state; cbv zeta; try solve [ibuf_tac].
  apply (keeps_bind same_ibuf); [ibuf_tac|intros st]. destruct (perform st _ _) as [m|] eqn:Em; [|ibuf_tac].
  apply (keeps_bind same_ibuf); [by eapply perform_ibuf|intros pr]. destruct (pr =? -99); ibuf_tac.
Qed.
End Ibuf.

(** * A concrete process *)

(** Every call succeeds; the kernel acknowledges every netlink request, and the
    master's next request is [req]. *)
Definition nl_ack : list Z := nlmsghdr_image 36 NLMSG_ERROR 0 0 ++ zeros 20.
Definition sample_ifset_env : IfsetEnv := {|
  ie_socket := fun _ => 4; ie_sendto := fun n => 32; ie_recvmsg := fun _ => NlData nl_ack; ie_fuel := 10
|}.
Definition sample_ifch_env (req : list Z) : IfchEnv := {|
  ch_ifset := sample_ifset_env;
  ch_lseek := fun _ => true; ch_read := fun _ => 4096; ch_write := fun _ => 4096;
  ch_ftruncate := fun _ => true; ch_fsync := fun _ => true; ch_sethostname := fun _ => true;
  ch_recv := fun _ => ReadData req; ch_reply := fun _ => 1
|}.
(** resolv.conf is descriptor 5 and has some old content. *)
Definition sample_ifch_world : ifch_world := {|
  cl := {| cl_state := STATE_NOTHING; ibuf := zeros (Z.to_nat MAX_BUF);
           namesvrs := zeros (Z.to_nat MAX_BUF); domains := zeros (Z.to_nat MAX_BUF) |};
  resolv_conf_fd := 5; resolv_conf_head_fd := -1; resolv_conf_tail_fd := -1;
  allow_hostname := true;
  files := {[ 5 := mk_ofile (chars "old") 0 ]};
  ifset := {| if_config := sample_config; ifset_nl_seq := 1; if_tick := 0; if_trace := [] |};
  ch_tick := 0; ch_trace := []
|}.
Definition sample_request : list ifch_command :=
  [(STATE_DNS, chars "10.0.0.1,10.0.0.2"); (STATE_HOSTNAME, chars "box")].

(** * Properties *)

(** What the handler does with the result of a request. *)
Definition answer `{!IfchEnv} (ebr : Z) : CM unit :=
  if ebr <? 0 then
    inform_execute (ch "-");;
    if ebr =? -99 then suicide "process_client_socket: received invalid commands" else mret tt
  else inform_execute (ch "+").

(** A request that arrives whole. *)
Lemma process_request `{!IfchEnv} (cs : list ifch_command) (w : ifch_world) :
  ch_recv (ch_tick w) = ReadData (request_text cs) ->
  cs <> [] -> Forall command_ok cs -> bytes_ok (request_text cs) = true ->
  Forall (fun c => c <> 0) (request_text cs) -> zlen (request_text cs) < MAX_BUF ->
  cstr (ibuf (cl w)) = Some [] ->
  process_client_socket w = (ebr ← run_commands cs 0; answer ebr) (w <| ch_tick ::= S |>).
Proof.
  intros Hr Hne Hok Hb Hnz Hl Hib. unfold process_client_socket, cask. st_run. rewrite Hr. cbv zeta.
  assert (Hu : List.map u8 (request_text cs) = request_text cs).
  { apply bytes_ok_Forall in Hb. clear -Hb. induction Hb as [|c s Hc _ IH]; [done|].
    cbn [List.map]. by rewrite u8_id, IH. }
  rewrite Hu, take_ge by (unfold MAX_BUF, zlen in *; lia).
  assert (Hn : request_text cs <> []).
  { destruct cs as [|[s a] cs]; [done|]. unfold request_text. rewrite fmap_cons, mjoin_cons.
    unfold command_text. cbn [snd]. intros [[_ [_ ?]%app_eq_nil]%app_eq_nil _]%app_eq_nil. done. }
  zcase; [destruct (request_text cs); [done|zlen_lia]|].
  assert (Hun : until_nul (request_text cs) = request_text cs).
  { clear -Hnz. induction Hnz as [|c s Hc _ IH]; [done|]. cbn [until_nul]. zcase; [done|]. by rewrite IH. }
  rewrite Hun. apply run_cong; [by apply execute_request|]. intros ebr w'. unfold answer.
  by destruct (ebr <? 0).
Qed.

(** C22. ndhc-ifch implements its command language: a request that is a sequence of
    well-formed commands is executed command by command, in order, and answered with
    '+' exactly when all of them succeeded. *)
Theorem ifch_serves_requests `{!IfchEnv} (cs : list ifch_command) (w : ifch_world) :
  ch_recv (ch_tick w) = ReadData (request_text cs) ->
  cs <> [] -> Forall command_ok cs -> bytes_ok (request_text cs) = true ->
  Forall (fun c => c <> 0) (request_text cs) -> zlen (request_text cs) < MAX_BUF ->
  cstr (ibuf (cl w)) = Some [] ->
  process_client_socket w = (ebr ← run_commands cs 0; answer ebr) (w <| ch_tick ::= S |>).
Proof. apply process_request. Qed.

Lemma ifch_serves_requests_witness :
  let E := sample_ifch_env (request_text sample_request) in
  process_client_socket sample_ifch_world =
  (ebr ← run_commands sample_request 0; answer ebr) (sample_ifch_world <| ch_tick ::= S |>).
Proof.
  intros E. apply (ifch_serves_requests sample_request sample_ifch_world); try reflexivity; try done.
  - repeat constructor; cbn [fst snd]; try done; apply accepts_lang; vm_compute; reflexivity.
  - vm_compute. repeat constructor; discriminate.
Defined.

(** Nothing else is executed as a request: when the text that arrives is not a
    sequence of well-formed commands, the handler never returns to serve another
    request, the process ends. *)
Theorem ifch_refuses_others `{!IfchEnv} (data : list Z) (w : ifch_world) :
  ch_recv (ch_tick w) = ReadData data -> cstr (ibuf (cl w)) = Some [] ->
  (forall cs, cs <> [] -> Forall command_ok cs ->
     until_nul (take (Z.to_nat (MAX_BUF - 1)) (List.map u8 data)) <> request_text cs) ->
  wp process_client_socket (fun _ _ => False) (fun _ _ => True) w.
Proof.
  intros Hr Hib Hno. unfold process_client_socket, cask. wp_run. rewrite Hr. cbv zeta.
  zcase; [by wp_run|]. rewrite wp_bind. eapply wp_mono; [apply execute_refuses| |done]; [done| |].
  { rewrite request_lang. intros (cs & Hne & Hok & E). by apply (Hno cs). }
  intros ebr w' ->. cbn [Z.ltb Z.compare]. unfold inform_execute, cemit, cask. wp_run.
  zcase; [by wp_run|]. zcase; by wp_run.
Qed.

(** A broadcast address alone is not a command. *)
Lemma ifch_refuses_others_witness :
  let E := sample_ifch_env (chars "ip4:10.0.0.1;") in
  wp process_client_socket (fun _ _ => False) (fun _ _ => True) sample_ifch_world.
Proof.
  intros E. apply (ifch_refuses_others (chars "ip4:10.0.0.1;")); [reflexivity..|].
  intros cs Hne Hok Heq.
  assert (Hl : lang ifchd_parser (chars "ip4:10.0.0.1;"))
    by (apply request_lang; exists cs; split_and!; [exact Hne|exact Hok|exact Heq]).
  apply accepts_lang in Hl. vm_compute in Hl. discriminate.
Defined.
