(* ===== verification/Ifip4.v ===== *)
(** The command "ip4" ([ifchd-parse.rl: perform_ip4set]): which of its addresses
    reach [perform_ip_subnet_bcast]. *)

From stdpp Require Import gmap.
From S2P Require Import Prelude Types World Samples Ifchange Nl Netlink Ifset Ifchd Ragel Ifchparse Ifcmd.
Local Open Scope ragel_scope.

(** * Addresses up to their digits

    The machine does not tell one digit from another, so its runs on addresses are
    those on the 81 patterns of zeros. *)

Definition blot (c : Z) : Z := if in_class CDigit c then 48 else c.

Definition octet_patterns : list (list Z) := [[48]; [48; 48]; [48; 48; 48]].
Definition patterns : list (list Z) :=
  a ← octet_patterns; b ← octet_patterns; c ← octet_patterns; d ← octet_patterns;
  [a ++ [ch "."%char] ++ b ++ [ch "."%char] ++ c ++ [ch "."%char] ++ d].

Lemma octet_pattern {A} s : lang (RRange 1 3 digit : ragel A) s -> blot <$> s ∈ octet_patterns.
Proof.
  assert (Hd : forall t, lang (digit : ragel A) t -> blot <$> t = [48]).
  { intros t Ht. inversion Ht as [|k c Hk| | | | | | | | |]; subst. unfold fmap, list_fmap, blot. by rewrite Hk. }
  intros (u & v & -> & Hu & Hv)%lang_seq_inv. rewrite fmap_app, (Hd u Hu).
  apply lang_alt_inv in Hv as [Hv|(x & y & -> & Hx & Hy)%lang_seq_inv].
  { inversion Hv. cbn. set_solver. }
  rewrite fmap_app, (Hd x Hx).
  apply lang_alt_inv in Hy as [Hy|(z & e & -> & Hz & He)%lang_seq_inv].
  { inversion Hy. cbn. set_solver. }
  rewrite fmap_app, (Hd z Hz). inversion He. cbn. set_solver.
Qed.
Lemma v4addr_pattern {A} s : lang (v4addr : ragel A) s -> blot <$> s ∈ patterns.
Proof.
  assert (Hdot : forall t, lang (rchar (ch "."%char) : ragel A) t -> t = [ch "."%char]).
  { intros t Ht. by apply (lang_lit_inv [ch "."%char]) in Ht. }
  unfold v4addr.
  intros (s6 & d & -> & (s5 & d3 & -> & (s4 & c & -> & (s3 & d2 & -> & (s2 & b & -> & (a & d1 & -> & Ha &
    ->%Hdot)%lang_seq_inv & Hb)%lang_seq_inv & ->%Hdot)%lang_seq_inv & Hc)%lang_seq_inv &
    ->%Hdot)%lang_seq_inv & Hd)%lang_seq_inv.
  apply octet_pattern in Ha, Hb, Hc, Hd. rewrite !fmap_app. unfold patterns.
  apply list_elem_of_bind. exists (blot <$> a). split; [|done].
  apply list_elem_of_bind. exists (blot <$> b). split; [|done].
  apply list_elem_of_bind. exists (blot <$> c). split; [|done].
  apply list_elem_of_bind. exists (blot <$> d). split; [|done].
  rewrite <- !app_assoc. apply list_elem_of_here.
Qed.

(** * The runs of the machine *)

Definition run_from (rs : list (ragel ip4_action)) (s : list Z) := trace_run rs s.

(** The machine after "ip,", and after "ip,subnet,". *)
Definition after (s : list Z) : list (ragel ip4_action) := default [] (snd <$> trace_run [ipv4set_parser] s).
Definition after1 := after (chars "0.0.0.0,").
Definition after2 := after (chars "0.0.0.0,0.0.0.0,").

Definition address_trace (s : list Z) : list (list ip4_action) := [XSt] :: replicate (length s - 1) [].

Definition run_is (rs : list (ragel ip4_action)) (s : list Z) (tr : list (list ip4_action))
    (P : list (ragel ip4_action) -> bool) : bool :=
  match trace_run rs s with Some (t, q) => bool_decide (t = tr) && P q | None => false end.

Lemma first_runs :
  forallb (fun s => run_is [ipv4set_parser] (s ++ [ch ","%char]) (address_trace s ++ [[IpEn]])
                      (fun q => bool_decide (q = after1))) patterns = true.
Proof. vm_compute. reflexivity. Qed.
Lemma second_runs :
  forallb (fun s => run_is after1 (s ++ [ch ","%char]) (address_trace s ++ [[SnEn]])
                      (fun q => bool_decide (q = after2))) patterns = true.
Proof. vm_compute. reflexivity. Qed.
Lemma second_ends :
  forallb (fun s => run_is after1 s (address_trace s)
                      (fun q => final_any q && bool_decide (eof_actions q = [SnEn]))) patterns = true.
Proof. vm_compute. reflexivity. Qed.
Lemma third_ends :
  forallb (fun s => run_is after2 s (address_trace s)
                      (fun q => final_any q && bool_decide (eof_actions q = [BcEn]))) patterns = true.
Proof. vm_compute. reflexivity. Qed.

Lemma digit_blind c : in_class CDigit (blot c) = in_class CDigit c.
Proof. unfold blot. destruct (in_class CDigit c) eqn:E; [done|exact E]. Qed.
Lemma char_blind d c : in_class CDigit d = false -> in_class (CChar d) (blot c) = in_class (CChar d) c.
Proof.
  intros Hnd. unfold blot. destruct (in_class CDigit c) eqn:E; [|done]. cbn [in_class] in *.
  assert (d <> c) by congruence. assert (d <> 48) by (intros ->; done).
  replace (48 =? d) with false by lia. by replace (c =? d) with false by lia.
Qed.
(** Digits and characters that are no digits are all a machine asks for. *)
Definition digits_only (r : ragel ip4_action) : bool :=
  forallb (fun k => match k with CDigit => true | CChar d => negb (in_class CDigit d) | _ => false end) (classes r).
Lemma digits_only_blind rs : forallb digits_only rs = true -> Forall (blind blot) rs.
Proof.
  intros Hrs. rewrite forallb_forall in Hrs. apply Forall_forall. intros r Hr. apply Forall_forall. intros k Hk c.
  specialize (Hrs r (proj1 (list_elem_of_In _ _) Hr)). unfold digits_only in Hrs. rewrite forallb_forall in Hrs.
  specialize (Hrs k (proj1 (list_elem_of_In _ _) Hk)).
  destruct k; try done; [apply char_blind; by destruct (in_class CDigit c0)|apply digit_blind].
Qed.

Lemma address_run rs s tail extra P :
  forallb digits_only rs = true -> lang (v4addr : ragel ifchd_action) s -> blot <$> tail = tail ->
  forallb (fun s => run_is rs (s ++ tail) (address_trace s ++ extra) P) patterns = true ->
  exists q, trace_run rs (s ++ tail) = Some (address_trace s ++ extra, q) /\ P q = true.
Proof.
  intros Hrs Hs Htail Hall. apply v4addr_pattern in Hs. rewrite forallb_forall in Hall.
  specialize (Hall _ (proj1 (list_elem_of_In _ _) Hs)). cbn beta in Hall. unfold run_is in Hall.
  rewrite <- Htail, <- fmap_app, trace_run_blind in Hall by by apply digits_only_blind.
  destruct (trace_run rs (s ++ tail)) as [[t q]|]; [|done]. bool_hyps. exists q. split; [|done].
  f_equal. f_equal. unfold address_trace in *. rewrite length_fmap in *. by apply bool_decide_eq_true in H.
Qed.

Lemma address_length s : lang (v4addr : ragel ifchd_action) s -> 7 <= zlen s < INET_ADDRSTRLEN.
Proof.
  intros Hs%v4addr_pattern.
  assert (Hall : forallb (fun s => (7 <=? zlen s) && (zlen s <? INET_ADDRSTRLEN)) patterns = true)
    by (vm_compute; reflexivity).
  rewrite forallb_forall in Hall. specialize (Hall _ (proj1 (list_elem_of_In _ _) Hs)). cbn beta in Hall.
  unfold zlen in *. rewrite length_fmap in Hall. lia.
Qed.
Lemma address_nonul s : lang (v4addr : ragel ifchd_action) s -> 0 ∉ s.
Proof. apply avoids_lang. vm_compute. reflexivity. Qed.

(** * The actions *)

Section Ip4.
Context `{!IfchEnv}.

Lemma address_actions buf s p l :
  s <> [] -> run_trace (ip4set_act buf) (address_trace s) p l = mret (inr (l <| ip4_arg_start := p |>)).
Proof.
  intros Hs. unfold address_trace. cbn [run_trace run_actions ip4set_act].
  etrans; [|apply (run_trace_nops (ip4set_act buf) (length s - 1) (p + 1))]. done.
Qed.

Lemma address_trace_length s : s <> [] -> length (address_trace s) = length s.
Proof. intros Hs. unfold address_trace. cbn [app length]. rewrite length_replicate. destruct s; [done|]. cbn. lia. Qed.

Lemma copy_arg_address pre s post dst :
  lang (v4addr : ragel ifchd_action) s -> zlen dst = 16 ->
  exists rest, copy_arg (pre ++ s ++ post) (zlen pre) (zlen pre + zlen s) dst = Some (s ++ 0 :: rest, true).
Proof.
  intros Hs Hd. apply address_length in Hs as Hl. unfold INET_ADDRSTRLEN in Hl. unfold copy_arg, INET_ADDRSTRLEN.
  rewrite Z.add_simpl_l. replace (_ && _) with true by lia. rewrite (rd_range_at pre s post) by done.
  cbn [mbind option_bind]. rewrite wr_range_Some by zlen_lia. cbn [mbind option_bind].
  change (take (Z.to_nat 0) dst) with (@nil Z). cbn [app].
  destruct (drop (Z.to_nat 0 + length s) dst) as [|x rest] eqn:E.
  { apply (f_equal length) in E. rewrite length_drop in E. unfold zlen in *. cbn in E. lia. }
  rewrite (wr_at s rest x 0) by done. cbn [mbind option_bind]. by eexists.
Qed.

Lemma inet_pton_string s rest : 0 ∉ s -> inet_pton (s ++ 0 :: rest) = inet_pton s.
Proof.
  intros H0. unfold inet_pton. rewrite (until_nul_id s) by done. rewrite until_nul_string; [done|].
  rewrite Forall_forall. by intros x Hx ->.
Qed.

(** The three arrays, and what the action [x] does to its own. *)
Definition array_of (x : ip4_action) (l : ip4_locals) : list Z :=
  match x with SnEn => ip4_subnet l | BcEn => ip4_bcast l | _ => ip4_addr l end.
Definition stored (x : ip4_action) (a : list Z) (l : ip4_locals) : ip4_locals :=
  match x with
  | XSt => l
  | IpEn => l <| ip4_addr := a |> <| have_ip := true |>
  | SnEn => l <| ip4_subnet := a |> <| have_subnet := true |>
  | BcEn => l <| ip4_bcast := a |> <| have_ip := true |>
  end.

Lemma arg_action x pre s post l :
  x <> XSt -> lang (v4addr : ragel ifchd_action) s -> zlen (array_of x l) = 16 -> ip4_arg_start l = zlen pre ->
  exists rest, forall w, run_actions (ip4set_act (pre ++ s ++ post)) [x] (zlen pre + zlen s) l w =
    (Ret (inr (stored x (s ++ 0 :: rest) l)), w).
Proof.
  intros Hx Hs Hl Hst. destruct (copy_arg_address pre s post _ Hs Hl) as [rest Hc]. exists rest. intros w.
  cbn [run_actions]. destruct x; [done|..]; cbn [ip4set_act array_of stored] in *;
    rewrite Hst, Hc; st_run; by rewrite orb_true_r.
Qed.

(** An address with the separator that ends it. *)
Lemma arg_run x pre s post l :
  x <> XSt -> lang (v4addr : ragel ifchd_action) s -> zlen (array_of x l) = 16 ->
  exists rest, forall w, run_trace (ip4set_act (pre ++ s ++ post)) (address_trace s ++ [[x]]) (zlen pre) l w =
    (Ret (inr (stored x (s ++ 0 :: rest) (l <| ip4_arg_start := zlen pre |>))), w).
Proof.
  intros Hx Hs Hl. apply address_length in Hs as Hsl.
  assert (Hne : s <> []) by (intros ->; unfold zlen in Hsl; cbn in Hsl; lia).
  destruct (arg_action x pre s post (l <| ip4_arg_start := zlen pre |>)) as [rest Hr]; [done|done|by destruct x|done|].
  exists rest. intros w. rewrite run_trace_app, address_actions by done. st_run. cbv iota.
  rewrite address_trace_length by done. cbn [run_trace]. change (Z.of_nat (length s)) with (zlen s).
  unfold mbind, M_bind. by rewrite Hr.
Qed.

Lemma perform_ip_subnet_bcast_strings a r b r' bc :
  0 ∉ a -> 0 ∉ b ->
  perform_ip_subnet_bcast (a ++ 0 :: r) (b ++ 0 :: r') bc = perform_ip_subnet_bcast a b bc.
Proof. intros Ha Hb. unfold perform_ip_subnet_bcast. by rewrite !inet_pton_string. Qed.

(** The separator and the two ways an argument goes on after the subnet. *)
Definition sep : list Z := [ch ","%char].
Definition ip4_arg_text (ip sn : list Z) (bc : option (list Z)) : list Z :=
  ip ++ sep ++ sn ++ match bc with Some bc => sep ++ bc | None => [] end.

Section Run.
Context (ip sn : list Z) (Hip : lang (v4addr : ragel ifchd_action) ip) (Hsn : lang (v4addr : ragel ifchd_action) sn).

Lemma first_run : trace_run [ipv4set_parser] (ip ++ sep) = Some (address_trace ip ++ [[IpEn]], after1).
Proof using Hip.
  destruct (address_run [ipv4set_parser] ip sep [[IpEn]] (fun q => bool_decide (q = after1))) as (q & -> & Hq);
    [vm_compute; reflexivity|done..|exact first_runs|].
  by apply bool_decide_eq_true in Hq as ->.
Qed.
Lemma second_run : trace_run after1 (sn ++ sep) = Some (address_trace sn ++ [[SnEn]], after2).
Proof using Hsn.
  destruct (address_run after1 sn sep [[SnEn]] (fun q => bool_decide (q = after2))) as (q & -> & Hq);
    [vm_compute; reflexivity|done..|exact second_runs|].
  by apply bool_decide_eq_true in Hq as ->.
Qed.
(** The last address of the argument ends with the input. *)
Lemma end_run rs s x :
  forallb digits_only rs = true -> lang (v4addr : ragel ifchd_action) s ->
  forallb (fun s => run_is rs s (address_trace s)
                      (fun q => final_any q && bool_decide (eof_actions q = [x]))) patterns = true ->
  exists q, trace_run rs s = Some (address_trace s, q) /\ final_any q = true /\ eof_actions q = [x].
Proof using.
  intros Hrs Hs Hall.
  assert (Hall' : forallb (fun s => run_is rs (s ++ []) (address_trace s ++ [])
    (fun q => final_any q && bool_decide (eof_actions q = [x]))) patterns = true).
  { rewrite forallb_forall in Hall |- *. intros y Hy. rewrite !app_nil_r. by apply Hall. }
  destruct (address_run rs s [] [] (fun q => final_any q && bool_decide (eof_actions q = [x])))
    as (q & Hq & [Hf He]%andb_prop); [done..|].
  rewrite !app_nil_r in Hq. apply bool_decide_eq_true in He. eauto.
Qed.
End Run.

Definition fresh_locals : ip4_locals :=
  {| ip4_arg_start := 0; ip4_addr := zeros 16; ip4_subnet := zeros 16; ip4_bcast := zeros 16;
     have_ip := false; have_subnet := false; have_bcast := false |}.

(** The last address [s] of the argument, after [pre]: its action runs at the end of
    the input. *)
Lemma last_address pre s x tr rs l w :
  let input := pre ++ s in
  trace_run [ipv4set_parser] pre = Some (tr, rs) ->
  run_trace (ip4set_act input) tr 0 fresh_locals w = (Ret (inr l), w) ->
  (exists q, trace_run rs s = Some (address_trace s, q) /\ final_any q = true /\ eof_actions q = [x]) ->
  x <> XSt -> lang (v4addr : ragel ifchd_action) s -> zlen (array_of x l) = 16 ->
  (forall a, have_ip (stored x a l) = true /\ have_subnet (stored x a l) = true) ->
  exists rest, let l' := stored x (s ++ 0 :: rest) l in
    perform_ip4set (input ++ [0]) (zlen input) w =
    lift_ifset (perform_ip_subnet_bcast (ip4_addr l') (ip4_subnet l')
                  (if have_bcast l' then Some (ip4_bcast l') else None)) w.
Proof.
  intros input Hpre Hl (q & Hq & Hf & He) Hx Hs Harr Hhave. apply address_length in Hs as Hsl.
  assert (Hne : s <> []) by (intros ->; unfold zlen in Hsl; cbn in Hsl; lia).
  set (l1 := l <| ip4_arg_start := zlen pre |>).
  destruct (arg_action x pre s [] l1) as [rest Hr]; [done|done|by destruct x|done|]. rewrite app_nil_r in Hr.
  fold input in Hr. exists rest. cbv zeta.
  assert (Htr : trace_run [ipv4set_parser] input = Some (tr ++ address_trace s, q)).
  { subst input. rewrite trace_run_app, Hpre. cbn [mbind option_bind fst snd]. by rewrite Hq. }
  pose proof (trace_run_length _ _ _ _ Hpre) as Hlen.
  unfold perform_ip4set. rewrite (rd_range_at [] input [0]) by done. st_run.
  fold fresh_locals.
  assert (Hexec : exec (ip4set_act input) [ipv4set_parser] 0 input fresh_locals w = (Ret (inr (q, zlen input, l1)), w)).
  { rewrite (exec_trace _ _ _ _ _ _ _ _ Htr), run_trace_app_bind, (run_val _ _ _ _ _ Hl), Hlen.
    by rewrite address_actions by done. }
  rewrite (run_val _ _ _ _ _ Hexec), Z.eqb_refl, He.
  replace (zlen input) with (zlen pre + zlen s) by (subst input; zlen_lia).
  rewrite (run_val _ _ _ _ _ (Hr w)), Hf. cbn [negb].
  destruct (Hhave (s ++ 0 :: rest)) as [H1 H2]. subst l1. clear -H1 H2 Hx.
  destruct x; [done|..]; cbn [stored] in *; destruct l; cbn in H1, H2; subst; reflexivity.
Qed.

(** What [perform_ip4set] does with any argument the grammar lets through. *)
Lemma perform_ip4set_addresses ip sn bc w :
  lang (v4addr : ragel ifchd_action) ip -> lang (v4addr : ragel ifchd_action) sn ->
  (forall b, bc = Some b -> lang (v4addr : ragel ifchd_action) b) ->
  perform_ip4set (ip4_arg_text ip sn bc ++ [0]) (zlen (ip4_arg_text ip sn bc)) w =
  lift_ifset (perform_ip_subnet_bcast ip sn None) w.
Proof.
  intros Hip Hsn Hbc.
  assert (Hne : forall s, lang (v4addr : ragel ifchd_action) s -> s <> []).
  { intros s Hs ->. apply address_length in Hs. unfold zlen in Hs. cbn in Hs. lia. }
  destruct (arg_run IpEn [] ip (sep ++ sn ++ match bc with Some bc => sep ++ bc | None => [] end) fresh_locals)
    as [r1 H1]; [done..|]. cbn [app] in H1. fold (ip4_arg_text ip sn bc) in H1.
  change (zlen []) with 0 in H1. set (l1 := stored IpEn _ _) in H1.
  assert (Hlen1 : length (address_trace ip ++ [[IpEn]]) = length (ip ++ sep))
    by (rewrite !length_app, address_trace_length by auto; done).
  destruct bc as [bc|].
  - specialize (Hbc bc eq_refl).
    destruct (arg_run SnEn (ip ++ sep) sn (sep ++ bc) l1) as [r2 H2]; [done..|].
    set (l2 := stored SnEn _ _) in H2.
    assert (Hin : ip4_arg_text ip sn (Some bc) = ((ip ++ sep) ++ sn ++ sep) ++ bc)
      by (unfold ip4_arg_text; by rewrite <- !app_assoc).
    destruct (last_address ((ip ++ sep) ++ sn ++ sep) bc BcEn
      ((address_trace ip ++ [[IpEn]]) ++ address_trace sn ++ [[SnEn]]) after2 l2 w) as [r3 H3].
    + rewrite trace_run_app, first_run by done. cbn [mbind option_bind fst snd]. by rewrite second_run.
    + rewrite <- Hin, run_trace_app, (run_val _ _ _ _ _ (H1 w)), Hlen1.
      replace (ip4_arg_text ip sn (Some bc)) with ((ip ++ sep) ++ sn ++ sep ++ bc)
        by (unfold ip4_arg_text; by rewrite <- !app_assoc).
      apply H2.
    + apply end_run; [vm_compute; reflexivity|done|exact third_ends].
    + done.
    + done.
    + done.
    + done.
    + rewrite <- Hin in H3. etrans; [exact H3|].
      rewrite <- (perform_ip_subnet_bcast_strings ip r1 sn r2 None) by by apply address_nonul. reflexivity.
  - assert (Hin : ip4_arg_text ip sn None = (ip ++ sep) ++ sn)
      by (unfold ip4_arg_text; by rewrite app_nil_r, <- !app_assoc).
    destruct (last_address (ip ++ sep) sn SnEn (address_trace ip ++ [[IpEn]]) after1 l1 w) as [r3 H3].
    + by apply first_run.
    + rewrite <- Hin. apply H1.
    + apply end_run; [vm_compute; reflexivity|done|exact second_ends].
    + done.
    + done.
    + done.
    + done.
    + rewrite <- Hin in H3. etrans; [exact H3|].
      rewrite <- (perform_ip_subnet_bcast_strings ip r1 sn r3 None) by by apply address_nonul. reflexivity.
Qed.

(** * Properties *)

(** The command "ip4:address,subnet,broadcast" sets the address with the
    broadcast address that follows from the mask; the one in the command is parsed,
    copied and never used ([BcEn] sets [have_ip] where [have_bcast] is tested). *)
Theorem ip4_command_ignores_broadcast (ip sn : list Z) (bc : option (list Z)) (w : ifch_world) :
  lang (v4addr : ragel ifchd_action) ip -> lang (v4addr : ragel ifchd_action) sn ->
  (forall b, bc = Some b -> lang (v4addr : ragel ifchd_action) b) ->
  perform_command (STATE_IP4SET, ip ++ sep ++ sn ++ match bc with Some bc => sep ++ bc | None => [] end) w =
  (set_state STATE_IP4SET;; lift_ifset (perform_ip_subnet_bcast ip sn None)) w.
Proof.
  intros Hip Hsn Hbc. unfold perform_command, set_state. st_run. cbn [fst snd perform].
  fold (ip4_arg_text ip sn bc). by apply perform_ip4set_addresses.
Qed.
End Ip4.

Lemma ip4_command_ignores_broadcast_witness :
  let E := sample_ifch_env [] in
  perform_command (STATE_IP4SET, chars "10.0.0.9" ++ sep ++ chars "255.255.255.0" ++ sep ++ chars "10.0.0.127")
    sample_ifch_world =
  (set_state STATE_IP4SET;;
   lift_ifset (perform_ip_subnet_bcast (chars "10.0.0.9") (chars "255.255.255.0") None)) sample_ifch_world.
Proof.
  intros E. apply (ip4_command_ignores_broadcast (chars "10.0.0.9") (chars "255.255.255.0") (Some (chars "10.0.0.127"))).
  - apply accepts_lang. vm_compute. reflexivity.
  - apply accepts_lang. vm_compute. reflexivity.
  - intros b [= <-]. apply accepts_lang. vm_compute. reflexivity.
Defined.
