(* ===== verification/Ifany.v ===== *)
(** What ndhc-ifch does with a request of any content: the complete commands it
    starts with are executed, what follows them is refused. *)

From stdpp Require Import gmap.
From S2P Require Import Prelude Types World Samples Ifchange Nl Netlink Ifset Ifchd Ragel Ifchparse Ifcmd.
Local Open Scope ragel_scope.

(** * The commands a text starts with *)

(** The actions that hand an argument to a handler. *)
Definition hands_over (x : ifchd_action) : bool :=
  match x with ArgEn | Dispatch => true | _ => false end.

Lemma parser_ends : ends_marked hands_over ifchd_parser = true.
Proof. vm_compute. reflexivity. Qed.

(** [cs] are the complete commands at the start of a text, [t] what the machine
    reads of a further one, [rest] what it does not read. *)
Record command_prefix (s : list Z) (cs : list ifch_command) (t rest : list Z)
    (tr : list (list ifchd_action)) (rs : list (ragel ifchd_action)) : Prop := {
  cp_text : s = (request_text cs ++ t) ++ rest;
  cp_ok : Forall command_ok cs;
  cp_run : trace_run [ifchd_parser] (request_text cs ++ t) = Some (mjoin (command_trace <$> cs) ++ tr, rs);
  cp_tail : Forall (no_mark hands_over) tr;
  cp_stuck : match rest with [] => True | c :: _ => step rs c = None end
}.

Lemma has_command_prefix s : exists cs t rest tr rs, command_prefix s cs t rest tr rs.
Proof.
  destruct (consume [ifchd_parser] s) as (u & rest & tr & rs & -> & Hu & Hstuck).
  destruct (last_marked hands_over [ifchd_parser] u tr rs) as
    [Hno|(u1 & t & tu & tv & rs1 & -> & Hne & Hu1 & Hf & Ht & -> & Hno)]; [by repeat constructor|done|..].
  - by exists [], u, rest, tr, rs.
  - assert (Hl : lang ifchd_parser u1) by (apply accepts_lang; unfold accepts; by rewrite Hu1).
    apply request_lang in Hl as (cs & _ & Hok & ->).
    rewrite (request_trace cs _ (or_introl eq_refl) Hok) in Hu1.
    exists cs, t, rest, tv, rs. split; try done. rewrite Hu. by injection Hu1 as <- <-.
Qed.

(** No further command is complete. *)
Lemma command_prefix_longest s cs t rest tr rs c q :
  command_prefix s cs t rest tr rs -> command_ok c -> s <> request_text (cs ++ [c]) ++ q.
Proof.
  intros [-> Hok Hrun Hno Hstuck] Hc Heq.
  assert (Hoks : Forall command_ok (cs ++ [c])) by (by rewrite Forall_app, Forall_singleton).
  pose proof (request_trace _ [ifchd_parser] (or_introl eq_refl) Hoks) as Hp.
  destruct (consume_longest _ _ _ _ _ _ _ _ Hrun Hstuck Heq Hp) as [u2 Hu2].
  rewrite Hu2, trace_run_app, Hp in Hrun. cbn [mbind option_bind fst snd] in Hrun.
  destruct (trace_run _ u2) as [[tr2 rs2]|]; [|done]. cbn in Hrun. injection Hrun as Hrun _.
  rewrite fmap_app, join_app in Hrun. cbn [fmap list_fmap mjoin list_join] in Hrun.
  rewrite app_nil_r, <- app_assoc in Hrun. apply app_inv_head in Hrun. subst tr.
  apply Forall_app in Hno as [Hno _]. unfold command_trace in Hno.
  apply Forall_cons in Hno as [_ [_ Hno]%Forall_app].
  assert (exists xs l, Dispatch ∈ xs /\ xs ∈ l /\ Forall (no_mark hands_over) l) as (xs & l & Hx & Hxs & Hl).
  { destruct c as [st a]. cbn [fst snd] in Hno.
    destruct (decide (st = STATE_CARRIER)) as [->|Hst].
    - exists [SetState STATE_CARRIER; Dispatch], [[SetState STATE_CARRIER; Dispatch]]. split_and!; [set_solver..|done].
    - exists [ArgEn; Dispatch], [[ArgEn; Dispatch]]. split_and!; [set_solver..|].
      destruct st; try done; by apply Forall_app in Hno as [_ Hno]. }
  rewrite Forall_forall in Hl. specialize (Hl xs Hxs). unfold no_mark in Hl. rewrite Forall_forall in Hl.
  by specialize (Hl Dispatch Hx).
Qed.

(** * Running it *)

Section Any.
Context `{!IfchEnv}.

(** Only the request in progress differs: the state of the parser and the pending
    input. *)
Definition same_but_request (w w' : ifch_world) : Prop :=
  exists st ib, w' = w <| cl ::= fun c => (c <| cl_state := st |>) <| ibuf := ib |> |>.

Definition in_state (st : ifch_state) (w : ifch_world) : ifch_world :=
  w <| cl ::= fun c => c <| cl_state := st |> |>.

Lemma tail_run buf tr w :
  Forall (no_mark hands_over) tr ->
  exists st, forall p l, exists l', run_trace (ifchd_act buf) tr p l w = (Ret (inr l'), in_state st w).
Proof.
  assert (Hsame : forall v : ifch_world, in_state (cl_state (cl v)) v = v) by (by intros [[] ? ? ? ? ? ? ?]).
  intros Htr. revert w. induction Htr as [|xs tr Hxs _ IH]; intros w; cbn [run_trace].
  { exists (cl_state (cl w)). intros p l. exists l. rewrite Hsame. done. }
  assert (Hact : exists st, forall p l, exists l', run_actions (ifchd_act buf) xs p l w =
    (Ret (inr l'), in_state st w)).
  { clear IH. revert w. induction Hxs as [|x xs Hx _ IH]; intros w; cbn [run_actions].
    { exists (cl_state (cl w)). intros p l. exists l. rewrite Hsame. done. }
    destruct x as [| | | |s]; try done; cbn [ifchd_act].
    - destruct (IH (in_state STATE_NOTHING w)) as [st Hst]. exists st. intros p l.
      destruct (Hst p l) as [l' Hl']. exists l'. unfold set_state. by st_run.
    - destruct (IH w) as [st Hst]. exists st. intros p l.
      destruct (Hst p (l <| arg_start := p |>)) as [l' Hl']. exists l'. by st_run.
    - destruct (IH (in_state s w)) as [st Hst]. exists st. intros p l.
      destruct (Hst p l) as [l' Hl']. exists l'. unfold set_state. by st_run. }
  destruct Hact as [st1 Hact]. destruct (IH (in_state st1 w)) as [st Hst]. exists st. intros p l.
  destruct (Hact p l) as [l1 Hl1]. destruct (Hst (p + 1) l1) as [l' Hl']. exists l'.
  unfold mbind, M_bind. by rewrite Hl1, Hl'.
Qed.

(** The commands of a text, then something that does not look at their outcome. *)
Lemma request_run_then cs (k : parse_locals -> CM Z) : forall pre post l w,
  (forall l l' w, k l w = k l' w) ->
  Forall command_ok cs -> Forall (fun c : ifch_command => Forall (fun d => d <> 0) c.2 /\ zlen c.2 < MAX_BUF) cs ->
  locals_ok l ->
  (r ← run_trace (ifchd_act (pre ++ request_text cs ++ post)) (mjoin (command_trace <$> cs)) (zlen pre) l;
   match r with inl r => mret r | inr l => k l end) w =
  (r ← run_commands cs (cmdf l); if r =? -99 then mret (-99) else k l) w.
Proof.
  induction cs as [|c cs IH]; intros pre post l w Hk Hcs Hnz Hl.
  { cbn [run_commands]. change (mjoin (command_trace <$> [])) with (@nil (list ifchd_action)). cbn [run_trace].
    st_run. by destruct (cmdf l =? 0). }
  apply Forall_cons in Hcs as [Hc Hcs]. apply Forall_cons in Hnz as [[Hcz Hcl] Hnz].
  destruct (command_run pre c (request_text cs ++ post) l w) as (l' & Hl' & Hrun); [done..|].
  unfold request_text in *. rewrite !fmap_cons, !mjoin_cons. cbn [run_commands].
  rewrite <- app_assoc. cbv zeta in Hrun. set (buf := pre ++ command_text c ++ _) in *.
  assert (Hlen : length (command_trace c) = length (command_text c)).
  { eapply trace_run_length, (command_trace_run [ifchd_parser]); [by left|done]. }
  rewrite run_bind, run_trace_app_bind. unfold mbind at 1, M_bind. rewrite Hrun.
  unfold mbind at 1 3, M_bind.
  destruct (perform_command c w) as [[pr|h] w']; [|done]. cbn [mret M_ret].
  destruct (pr =? -99); [done|].
  specialize (IH (pre ++ command_text c) post (l' <| cmdf := Z.lor (cmdf l) pr |>) w').
  rewrite Hlen. change (Z.of_nat (length (command_text c))) with (zlen (command_text c)).
  rewrite zlen_app, <- app_assoc in IH. fold buf in IH.
  etrans; [by apply IH|]. apply run_cong; [done|]. intros r w2. destruct (r =? -99); [done|]. apply Hk.
Qed.

Lemma args_nonul cs rest :
  Forall (fun c => c <> 0) (request_text cs ++ rest) -> zlen (request_text cs ++ rest) < MAX_BUF ->
  Forall (fun c : ifch_command => Forall (fun d => d <> 0) c.2 /\ zlen c.2 < MAX_BUF) cs.
Proof. intros [Hc _]%Forall_app Hl. apply request_text_args; [done|]. zlen_lia. Qed.

(** The end of [execute_buffer] for a machine that stops at [p] without accepting. *)
Definition refuse (buf : list Z) (p : Z) : CM Z :=
  r ← (if 0 <? zlen buf - p then
         ib ← gets (fun w => ibuf (cl w));
         ib ← ub (snprintf_s ib MAX_BUF (drop (Z.to_nat p) buf));
         modify (fun w => w <| cl ::= fun c => c <| ibuf := ib |> |>);;
         mret (2 * MAX_BUF <=? zlen (drop (Z.to_nat p) buf))
       else mret false);
  mret (-99).

Lemma refuse_run buf p w :
  zlen (ibuf (cl w)) = MAX_BUF -> exists w', refuse buf p w = (Ret (-99), w') /\ same_but_request w w'.
Proof.
  intros Hib. unfold refuse. destruct (0 <? _).
  - unfold snprintf_s.
    set (bs := take (Z.to_nat (MAX_BUF - 1)) (drop (Z.to_nat p) buf) ++ [0]).
    assert (Hbs : zlen bs <= MAX_BUF).
    { subst bs. unfold MAX_BUF, zlen. rewrite length_app, length_take. cbn [length]. lia. }
    pose proof (zlen_nonneg bs).
    eexists. split; [st_run; rewrite wr_range_Some by lia; st_run; reflexivity|].
    eexists (cl_state (cl w)), _. by destruct w as [[] ? ? ? ? ? ? ?].
  - exists w. split; [done|]. exists (cl_state (cl w)), (ibuf (cl w)). by destruct w as [[] ? ? ? ? ? ? ?].
Qed.

Lemma execute_any s w :
  Forall (fun c => c <> 0) s -> zlen s < MAX_BUF ->
  cstr (ibuf (cl w)) = Some [] -> zlen (ibuf (cl w)) = MAX_BUF -> ~ lang ifchd_parser s ->
  exists cs t, Forall command_ok cs /\ s = request_text cs ++ t /\
    (forall c q, command_ok c -> s <> request_text (cs ++ [c]) ++ q) /\
    wp (execute_buffer s)
      (fun r w' => r = -99 /\ exists r0 w0, run_commands cs 0 w = (Ret r0, w0) /\ same_but_request w0 w')
      (fun h w' => run_commands cs 0 w = (Halt h, w')) w.
Proof.
  intros Hnz Hl Hib Hibl Hno.
  destruct (has_command_prefix s) as (cs & t & rest & tr & rs & Hcp). exists cs, (t ++ rest).
  pose proof Hcp as [Htext Hok Hrun Htail Hstuck].
  split_and!; [done|by rewrite app_assoc|intros c q; by eapply command_prefix_longest|].
  assert (Hargs : Forall (fun c : ifch_command => Forall (fun d => d <> 0) c.2 /\ zlen c.2 < MAX_BUF) cs).
  { rewrite Htext, <- app_assoc in Hnz, Hl. by eapply args_nonul. }
  set (rs' := match rest with [] => rs | _ => [] end).
  assert (Hfin : final_any rs' = false).
  { subst rs'. destruct rest; [|done]. apply not_true_is_false. intros Hf. apply Hno, accepts_lang.
    unfold accepts. rewrite Htext, app_nil_r, Hrun. done. }
  set (l := {| arg_start := 0; arg_len := 0; tb := zeros (Z.to_nat MAX_BUF); cmdf := 0 |}).
  set (p := zlen (request_text cs ++ t)).
  assert (Heq : execute_buffer s w =
    (r ← run_trace (ifchd_act s) (mjoin (command_trace <$> cs)) 0 l;
     match r with
     | inl r => mret r
     | inr l => r ← run_trace (ifchd_act s) tr (zlen (request_text cs)) l;
                match r with inl r => mret r | inr _ => refuse s p end
     end) w).
  { assert (Hlen : length (mjoin (command_trace <$> cs)) = length (request_text cs))
      by (eapply trace_run_length, (request_trace cs [ifchd_parser]); [by left|done]).
    unfold execute_buffer. st_run. rewrite Hib. st_run. cbn [app].
    replace (2 * MAX_BUF <=? zlen s) with false by (unfold MAX_BUF in *; lia).
    etrans; [apply run_cong; [|intros; reflexivity]|].
    { rewrite Htext at 2. by apply exec_consume. }
    fold rs'. rewrite run_bind, run_trace_app_bind. apply run_cong; [done|]. intros [r|l1] w1; [done|].
    rewrite Hlen. apply run_cong; [done|]. intros [r|l2] w2; [done|]. fold p. st_run. cbv iota.
    unfold refuse. st_run. apply run_cong; [done|]. intros [] w3; [done|]. by rewrite Hfin. }
  set (k := fun l => r ← run_trace (ifchd_act s) tr (zlen (request_text cs)) l;
                     match r with inl r => mret r | inr _ => refuse s p end) in *.
  assert (Hk : forall w0, exists st, forall l, k l w0 = refuse s p (in_state st w0)).
  { intros w0. destruct (tail_run s tr w0 Htail) as [st Hst]. exists st. intros l0. subst k.
    destruct (Hst (zlen (request_text cs)) l0) as [l' Hl']. unfold mbind, M_bind. by rewrite Hl'. }
  pose proof (request_run_then cs k [] (t ++ rest) l w) as Hthen. cbn [app] in Hthen.
  rewrite (app_assoc _ t), <- Htext in Hthen. change (zlen []) with 0 in Hthen.
  assert (Heq2 : execute_buffer s w = (r ← run_commands cs 0; if r =? -99 then mret (-99) else k l) w).
  { rewrite Heq. apply Hthen; try done. intros l1 l2 w1. destruct (Hk w1) as [st Hst]. by rewrite !Hst. }
  unfold wp. rewrite Heq2. unfold mbind, M_bind. pose proof (run_commands_ibuf cs 0 w) as Hkeep.
  destruct (run_commands cs 0 w) as [[r0|h] w0]; [|done]. unfold same_ibuf in Hkeep. cbn [snd] in Hkeep. injection Hkeep as Hkeep _.
  destruct (Z.eqb_spec r0 (-99)) as [->|Hr0].
  - split; [done|]. exists (-99), w0. split; [done|]. exists (cl_state (cl w0)), (ibuf (cl w0)).
    by destruct w0 as [[] ? ? ? ? ? ? ?].
  - destruct (Hk w0) as [st Hst]. rewrite Hst.
    destruct (refuse_run s p (in_state st w0)) as (w1 & -> & (st1 & ib & ->)); [by rewrite <- Hibl, <- Hkeep|].
    split; [done|]. exists r0, w0. split; [done|]. by exists st1, ib.
Qed.
(** * Properties *)

(** What the process receives as text: a C string of at most [MAX_BUF - 1] bytes. *)
Definition received_text (data : list Z) : list Z :=
  until_nul (take (Z.to_nat (MAX_BUF - 1)) (List.map u8 data)).

Lemma received_text_ok data :
  Forall (fun c => c <> 0) (received_text data) /\ zlen (received_text data) < MAX_BUF.
Proof.
  unfold received_text. set (d := take _ _).
  assert (Hd : zlen d < MAX_BUF) by (subst d; unfold MAX_BUF, zlen; rewrite length_take; lia).
  clearbody d. revert Hd. unfold MAX_BUF. generalize 1024 as m. clear data.
  induction d as [|c d IH]; intros m Hd; cbn [until_nul]; [by split; [constructor|]|].
  zcase; [split; [constructor|zlen_lia]|]. destruct (IH (m - 1)) as [H1 H2]; [zlen_lia|].
  split; [by constructor|zlen_lia].
Qed.

(** C23. ndhc-ifch is defined by its command language on every input: of whatever it
    receives it executes the complete commands at the start, in order.  When they are
    the whole text the answer is that of the commands; when something else follows
    (or there is no command) the process says '-' and ends, and has done nothing but
    these commands. *)
Theorem ifch_serves_prefix (data : list Z) (w : ifch_world) :
  ch_recv (ch_tick w) = ReadData data -> data <> [] ->
  cstr (ibuf (cl w)) = Some [] -> zlen (ibuf (cl w)) = MAX_BUF ->
  let w1 := w <| ch_tick ::= S |> in
  exists cs t, Forall command_ok cs /\ received_text data = request_text cs ++ t /\
    (forall c q, command_ok c -> received_text data <> request_text (cs ++ [c]) ++ q) /\
    ((t = [] /\ cs <> [] /\ process_client_socket w = (ebr ← run_commands cs 0; answer ebr) w1) \/
     wp process_client_socket (fun _ _ => False)
       (fun h w' => run_commands cs 0 w1 = (Halt h, w') \/
          exists r0 w0, run_commands cs 0 w1 = (Ret r0, w0) /\
            files w' = files w0 /\ ifset w' = ifset w0 /\ ch_trace w' = CReply (ch "-"%char) :: ch_trace w0) w).
Proof.
  intros Hr Hne Hib Hibl w1. destruct (received_text_ok data) as [Hnz Hl].
  assert (Hlen : (zlen (take (Z.to_nat (MAX_BUF - 1)) (List.map u8 data)) =? 0) = false).
  { apply Z.eqb_neq. destruct data as [|c data]; [done|].
    change (Z.to_nat (MAX_BUF - 1)) with (S 1022). cbn [List.map take]. zlen_lia. }
  assert (Hstart : process_client_socket w =
    (ebr ← execute_buffer (received_text data); answer ebr) w1).
  { unfold process_client_socket, cask. st_run. rewrite Hr. cbv zeta. rewrite Hlen.
    apply run_cong; [done|]. intros ebr w'. unfold answer. by destruct (ebr <? 0). }
  destruct (accepts ifchd_parser (received_text data)) eqn:Ea.
  - apply accepts_lang, request_lang in Ea as (cs & Hcs & Hok & Ht). exists cs, []. split_and!; [done| | |].
    + by rewrite app_nil_r.
    + intros c q Hc. rewrite Ht. unfold request_text. rewrite fmap_app, join_app, <- app_assoc.
      rewrite <- (app_nil_r (mjoin _)) at 1. intros E%app_inv_head. symmetry in E.
      apply app_nil in E as [E _]. cbn in E. unfold command_text in E. rewrite !app_nil in E. naive_solver.
    + left. split_and!; [done..|]. rewrite Hstart. apply run_cong; [|done]. rewrite Ht in Hnz, Hl |- *.
      by apply execute_request.
  - assert (Hno : ~ lang ifchd_parser (received_text data)) by (rewrite <- accepts_lang; congruence).
    destruct (execute_any (received_text data) w1 Hnz Hl Hib Hibl Hno) as (cs & t & Hok & Ht & Hmax & Hw).
    exists cs, t. split_and!; [done..|]. right. unfold wp at 1. rewrite Hstart.
    change (wp (ebr ← execute_buffer (received_text data); answer ebr)
      (fun _ _ => False) (fun h w' => run_commands cs 0 w1 = (Halt h, w') \/
          exists r0 w0, run_commands cs 0 w1 = (Ret r0, w0) /\
            files w' = files w0 /\ ifset w' = ifset w0 /\ ch_trace w' = CReply (ch "-"%char) :: ch_trace w0) w1).
    rewrite wp_bind. eapply wp_mono; [exact Hw| |by left].
    intros r w2 (-> & r0 & w0 & Hrun & (st & ib & ->)). unfold answer. cbn [Z.ltb Z.compare].
    unfold inform_execute, cemit, cask. wp_run.
    zcase; [|zcase]; wp_run; try cbn [Z.eqb Z.compare]; wp_run; right; exists r0, w0; done.
Qed.
End Any.

(** Two commands, then a keyword that does not exist. *)
Lemma ifch_serves_prefix_witness :
  let E := sample_ifch_env (request_text sample_request ++ chars "nis:x;") in
  let w1 := sample_ifch_world <| ch_tick ::= S |> in
  exists cs t, Forall command_ok cs /\
    received_text (request_text sample_request ++ chars "nis:x;") = request_text cs ++ t /\
    (forall c q, command_ok c ->
       received_text (request_text sample_request ++ chars "nis:x;") <> request_text (cs ++ [c]) ++ q) /\
    ((t = [] /\ cs <> [] /\
      process_client_socket sample_ifch_world = (ebr ← run_commands cs 0; answer ebr) w1) \/
     wp process_client_socket (fun _ _ => False)
       (fun h w' => run_commands cs 0 w1 = (Halt h, w') \/
          exists r0 w0, run_commands cs 0 w1 = (Ret r0, w0) /\
            files w' = files w0 /\ ifset w' = ifset w0 /\ ch_trace w' = CReply (ch "-"%char) :: ch_trace w0)
       sample_ifch_world).
Proof. intros E w1. by apply (ifch_serves_prefix (request_text sample_request ++ chars "nis:x;")). Defined.
