(* ===== verification/Ifresolv.v ===== *)
(** What ndhc-ifch leaves in resolv.conf ([ifchd.c: write_resolve_conf]). *)

From stdpp Require Import gmap.
From S2P Require Import Prelude Types World Samples Ifchange Nl Netlink Ifset Ifchd Ragel Ifchparse Ifcmd.

(** * The text *)

Definition comma : Z := ch ","%char.

(** The elements of a comma-separated list; an empty rest has none. *)
Fixpoint split_at_commas (s cur : list Z) : list (list Z) :=
  match s with
  | [] => match cur with [] => [] | _ => [cur] end
  | c :: s => if c =? comma then cur :: split_at_commas s [] else split_at_commas s (cur ++ [c])
  end.
Definition split_commas (s : list Z) : list (list Z) := split_at_commas s [].
Definition first_of (s : list Z) : list Z := default [] (head (split_commas s)).

Definition nameserver_lines (ns : list (list Z)) : list Z :=
  mjoin ((fun s => chars "nameserver " ++ s ++ [10]) <$> ns).
(** The first domain is on a line of its own, all others on a "search" line. *)
Definition domain_sep (n : nat) : list Z :=
  match n with
  | 0%nat => chars "domain "
  | 1%nat => 10 :: chars "search "
  | _ => [32]
  end.
Fixpoint domain_text (n : nat) (ds : list (list Z)) : list Z :=
  match ds with
  | [] => []
  | d :: ds => domain_sep n ++ d ++ domain_text (S n) ds
  end.
(** Servers [ns] and domains [ds] are comma-separated lists. *)
Definition resolv_text (ns ds : list Z) : list Z :=
  nameserver_lines (split_commas ns) ++ domain_text 0 (take 7 (split_commas ds)) ++ [10].

Lemma split_commas_none s : comma ∉ s -> s <> [] -> split_commas s = [s].
Proof.
  assert (H : forall cur, comma ∉ s -> cur ++ s <> [] -> split_at_commas s cur = [cur ++ s]).
  { induction s as [|c s IH]; intros cur; cbn [split_at_commas].
    - rewrite app_nil_r. by destruct cur.
    - rewrite not_elem_of_cons. intros [Hc Hs] Hne. zcase; [done|].
      by rewrite IH, <- app_assoc; [|done|destruct cur]. }
  apply (H []).
Qed.
Lemma split_commas_cons u v : comma ∉ u -> split_commas (u ++ comma :: v) = u :: split_commas v.
Proof.
  assert (H : forall cur, comma ∉ u -> split_at_commas (u ++ comma :: v) cur = (cur ++ u) :: split_commas v).
  { induction u as [|c u IH]; intros cur; cbn [app split_at_commas].
    - by rewrite Z.eqb_refl, app_nil_r.
    - rewrite not_elem_of_cons. intros [Hc Hu]. zcase; [done|]. by rewrite IH, <- app_assoc. }
  apply (H []).
Qed.
(** The first comma, if there is one. *)
Lemma comma_cases s : comma ∉ s \/ exists u v, s = u ++ comma :: v /\ comma ∉ u.
Proof.
  induction s as [|c s [IH|(u & v & -> & Hu)]].
  - left. apply not_elem_of_nil.
  - destruct (decide (c = comma)) as [->|Hc]; [right; exists [], s; split; [done|apply not_elem_of_nil]|].
    left. rewrite not_elem_of_cons. done.
  - right. destruct (decide (c = comma)) as [->|Hc];
      [exists [], (u ++ comma :: v); split; [done|apply not_elem_of_nil]|].
    exists (c :: u), v. by rewrite not_elem_of_cons.
Qed.

(** * Strings in arrays *)

Lemma cstr_at_string pre s rest : 0 ∉ s -> cstr_at (pre ++ s ++ 0 :: rest) (zlen pre) = Some s.
Proof.
  intros H. unfold cstr_at. replace (_ && _) with true by zlen_lia. unfold zlen. rewrite Nat2Z.id, drop_app_length.
  by apply cstr_string.
Qed.

Lemma strchr_none s c : c ∉ s -> strchr s c = None.
Proof.
  induction s as [|d s IH]; [done|]. rewrite not_elem_of_cons. intros [Hc Hs]. cbn [strchr].
  zcase; [done|]. by rewrite IH.
Qed.
Lemma strchr_at u c v : c ∉ u -> strchr (u ++ c :: v) c = Some (zlen u).
Proof.
  induction u as [|d u IH]; intros Hu; cbn [app strchr]; [by rewrite Z.eqb_refl|].
  apply not_elem_of_cons in Hu as [Hc Hu]. zcase; [done|]. rewrite IH by done. cbn. f_equal. zlen_lia.
Qed.

Lemma next_element_last pre s rest :
  0 ∉ s -> comma ∉ s ->
  next_element (pre ++ s ++ 0 :: rest) (zlen pre) = Some (s, pre ++ s ++ 0 :: rest, zlen pre + zlen s).
Proof. intros. unfold next_element. rewrite cstr_at_string by done. cbn [mbind option_bind]. by rewrite strchr_none. Qed.
Lemma next_element_comma pre u v rest :
  0 ∉ u -> 0 ∉ v -> comma ∉ u ->
  next_element (pre ++ (u ++ comma :: v) ++ 0 :: rest) (zlen pre) =
  Some (u, (pre ++ u ++ [0]) ++ v ++ 0 :: rest, zlen pre + zlen u + 1).
Proof.
  intros Hu Hv Hc. unfold next_element.
  rewrite cstr_at_string by (rewrite not_elem_of_app, not_elem_of_cons; done).
  cbn [mbind option_bind]. rewrite strchr_at by done.
  rewrite <- (app_assoc u), <- app_comm_cons, (app_assoc pre u).
  rewrite (wr_at (pre ++ u)) by zlen_lia. cbn [mbind option_bind].
  rewrite <- (app_assoc pre u (0 :: _)), cstr_at_string by done. cbn [mbind option_bind].
  rewrite <- !app_assoc. done.
Qed.

(** * The file being written *)

Section Write.
Context `{!IfchEnv}.

(** No call on the files fails, none stops short. *)
Definition calls_ok : Prop := forall t,
  ch_lseek t = true /\ 4096 <= ch_read t /\ 4096 <= ch_write t /\ ch_ftruncate t = true /\ ch_fsync t = true.

(** The other ways out: a failed call ends the process or the command. *)
Definition died (h : halt) (_ : ifch_world) : Prop := (exists why, h = HSuicide why) /\ ~ calls_ok.

(** What the process is while it writes: [c] is the client, [text] what resolv.conf
    holds up to its position, the other files have the content they had in [w0]. *)
Definition writing (w0 : ifch_world) (c : ifchd_client) (text : list Z) (w : ifch_world) : Prop :=
  cl w = c /\ resolv_conf_fd w = resolv_conf_fd w0 /\
  resolv_conf_head_fd w = resolv_conf_head_fd w0 /\ resolv_conf_tail_fd w = resolv_conf_tail_fd w0 /\
  (forall d, d <> resolv_conf_fd w0 -> fcontent <$> files w !! d = fcontent <$> files w0 !! d) /\
  exists f, files w !! resolv_conf_fd w0 = Some f /\ fpos f = length text /\
    take (length text) (fcontent f) = text.

Lemma file_write_prefix f text bs :
  fpos f = length text -> take (length text) (fcontent f) = text ->
  fpos (file_write f bs) = length (text ++ bs) /\
  take (length (text ++ bs)) (fcontent (file_write f bs)) = text ++ bs.
Proof.
  intros Hp Ht. unfold file_write. cbn [fpos fcontent]. rewrite Hp, length_app. split; [done|].
  assert (Hl : (length text <= length (fcontent f))%nat).
  { apply (f_equal length) in Ht. rewrite length_take in Ht. lia. }
  replace (length text - length (fcontent f))%nat with 0%nat by lia.
  change (zeros 0) with (@nil Z). rewrite app_nil_r, Ht, app_assoc.
  rewrite <- length_app, take_app_length. done.
Qed.

Lemma wp_safe_write w0 c text bs w (Q : Z -> ifch_world -> Prop) D :
  writing w0 c text w -> zlen bs <= 4096 ->
  (forall w', writing w0 c (text ++ bs) w' ->
     (forall d, d <> resolv_conf_fd w0 -> files w' !! d = files w !! d) -> Q (zlen bs) w') ->
  (forall r w', ~ calls_ok -> r < 0 \/ r <> zlen bs -> Q r w') ->
  wp (safe_write (resolv_conf_fd w0) bs) Q D w.
Proof.
  intros (Hcl & H1 & H2 & H3 & Hd & f & Hf & Hp & Ht) Hb HQ HF. unfold safe_write, cask, file_of. wp_run.
  rsimpl. rewrite Hf. zcase; wp_run; [apply HF; [intros Ho; specialize (Ho (ch_tick w)); lia|lia]|].
  unfold set_file. wp_run. destruct (Z.ltb_spec (ch_write (ch_tick w)) (zlen bs)) as [Hs|Hs].
  - apply HF; [intros Ho; specialize (Ho (ch_tick w)); lia|]. right. unfold zlen in *. rewrite length_take. lia.
  - rewrite take_ge by (unfold zlen in *; lia). apply HQ; [unfold writing|]; rsimpl; [split_and!; try done|].
    + intros d Hne. rewrite lookup_insert_ne by done. by apply Hd.
    + exists (file_write f bs). rewrite lookup_insert_eq. split; [done|]. by apply file_write_prefix.
    + intros d Hne. by rewrite lookup_insert_ne.
Qed.

Lemma wp_writeordie w0 c text bs w (Q : unit -> ifch_world -> Prop) :
  writing w0 c text w -> zlen bs <= 4096 -> (forall w', writing w0 c (text ++ bs) w' -> Q tt w') ->
  wp (writeordie (resolv_conf_fd w0) bs) Q died w.
Proof.
  intros Hw Hb HQ. unfold writeordie. wp_run. eapply wp_safe_write; [done..| |].
  - intros w' Hw' _. zcase; [zlen_lia|]. rewrite Z.eqb_refl. cbn [negb]. wp_run. by apply HQ.
  - intros r w' Hno Hr. replace (_ || _) with true by (destruct Hr; lia). wp_run. split; [by eexists|done].
Qed.

Lemma writing_file w0 c text w d f :
  writing w0 c text w -> d <> resolv_conf_fd w0 -> files w0 !! d = Some f ->
  exists f', files w !! d = Some f' /\ fcontent f' = fcontent f.
Proof.
  intros (_ & _ & _ & _ & Hd & _) Hne Hf. specialize (Hd d Hne). rewrite Hf in Hd. cbn in Hd.
  destruct (files w !! d) as [f'|]; [|done]. cbn in Hd. injection Hd as Hd. eauto.
Qed.
(** Moving the position of another file. *)
Lemma writing_seek w0 c text w d f p n :
  writing w0 c text w -> d <> resolv_conf_fd w0 -> files w !! d = Some f ->
  writing w0 c text ((w <| ch_tick := n |>) <| files ::= insert d (mk_ofile (fcontent f) p) |>).
Proof.
  intros (Hcl & H1 & H2 & H3 & Hd & g & Hg & Hp & Ht) Hne Hf. unfold writing. rsimpl. split_and!; try done.
  - intros e He. destruct (decide (e = d)) as [->|Hed].
    + rewrite lookup_insert_eq, <- Hd, Hf by done. done.
    + rewrite lookup_insert_ne by done. by apply Hd.
  - exists g. by rewrite lookup_insert_ne.
Qed.

Lemma wp_lseek w0 c text w d pos f (Q : Z -> ifch_world -> Prop) D :
  writing w0 c text w -> d <> resolv_conf_fd w0 -> files w0 !! d = Some f ->
  (forall f' w', fcontent f' = fcontent f -> writing w0 c text w' ->
     files w' !! d = Some (mk_ofile (fcontent f') (pos f')) -> Q (Z.of_nat (pos f')) w') ->
  (forall w', ~ calls_ok -> writing w0 c text w' -> Q (-1) w') ->
  wp (lseek d pos) Q D w.
Proof.
  intros Hw Hne Hf HQ HF. destruct (writing_file _ _ _ _ _ _ Hw Hne Hf) as (f' & Hf' & Hc).
  unfold lseek, cask, file_of, set_file. wp_run. rsimpl. rewrite Hf'.
  destruct (ch_lseek (ch_tick w)) eqn:E; wp_run.
  - apply HQ; [done|by apply writing_seek|]. rsimpl. by rewrite lookup_insert_eq.
  - apply HF; [|done]. intros Ho. destruct (Ho (ch_tick w)) as [Hl _]. congruence.
Qed.

(** The copy of another file, from its position [p] on. *)
Lemma wp_append_loop w0 c d f (Q : Z -> ifch_world -> Prop) : d <> resolv_conf_fd w0 ->
  forall fuel text w p n, writing w0 c text w -> files w !! d = Some (mk_ofile (fcontent f) p) ->
  n = zlen (drop p (fcontent f)) -> n < Z.of_nat fuel ->
  (forall w', writing w0 c (text ++ drop p (fcontent f)) w' -> Q 0 w') ->
  wp (append_loop fuel (resolv_conf_fd w0) d n) Q died w.
Proof.
  intros Hne. induction fuel as [|fuel IH]; intros text w p n Hw Hf -> Hfu HQ; [zlen_lia|].
  cbn [append_loop]. zcase; cbn [negb].
  2: { wp_run. apply HQ. destruct (drop p (fcontent f)); [by rewrite app_nil_r|zlen_lia]. }
  set (s := drop p (fcontent f)) in *. set (k := if zlen s <=? 4096 then zlen s else 4096).
  assert (Hk : 0 < k <= 4096 /\ k <= zlen s) by (subst k; zcase; lia).
  unfold safe_read, cask, file_of, set_file. wp_run. rsimpl. rewrite Hf.
  zcase; wp_run; [split; [by eexists|intros Ho; specialize (Ho (ch_tick w)); lia]|].
  cbn [fpos fcontent]. fold s. set (m := Z.min k (ch_read (ch_tick w))).
  destruct (Z.eqb_spec (zlen (take (Z.to_nat m) s)) k) as [Hm|Hm]; cbn [negb]; wp_run.
  2: { split; [by eexists|]. intros Ho. specialize (Ho (ch_tick w)). apply Hm. subst m.
       unfold zlen in *. rewrite length_take. lia. }
  assert (Hmk : m = k) by (subst m; unfold zlen in *; rewrite length_take in Hm; lia).
  rewrite Hmk in *.
  eapply wp_safe_write; [by apply (writing_seek w0 c text w d (mk_ofile (fcontent f) p))|lia| |].
  - intros w' Hw' Hfr. rewrite Hm. zcase; [lia|]. rewrite Z.eqb_refl. cbn [negb].
    set (p' := (p + length (take (Z.to_nat k) s))%nat).
    assert (Hp' : p' = (p + Z.to_nat k)%nat) by (subst p'; unfold zlen in *; lia).
    eapply (IH _ w' p'); [done| | |lia|].
    + rewrite Hfr by done. rsimpl. by rewrite lookup_insert_eq.
    + rewrite Hp', <- drop_drop. fold s. unfold zlen in *. rewrite length_drop. lia.
    + intros w2 Hw2. apply HQ. rewrite <- app_assoc in Hw2.
      by rewrite Hp', <- drop_drop, take_drop in Hw2.
  - intros r w' Hno Hr. replace (_ || _) with true by (destruct Hr; lia). wp_run. split; [by eexists|done].
Qed.

(** The head or the tail file: copied, or left out when it cannot be read. *)
Definition attached (w0 : ifch_world) (d : Z) : list Z :=
  match files w0 !! d with Some f => if d <? 0 then [] else fcontent f | None => [] end.
(** Its descriptor is open, or there is none. *)
Definition attachable (w0 : ifch_world) (d : Z) : Prop :=
  d < 0 \/ d <> resolv_conf_fd w0 /\ is_Some (files w0 !! d).

Lemma wp_write_append_fd w0 c text w d (Q : Z -> ifch_world -> Prop) :
  writing w0 c text w -> 0 <= resolv_conf_fd w0 -> attachable w0 d ->
  (forall r w' t, t = attached w0 d \/ ~ calls_ok /\ t = [] -> writing w0 c (text ++ t) w' -> Q r w') ->
  wp (write_append_fd (resolv_conf_fd w0) d) Q died w.
Proof.
  intros Hw H0 Ha HQ. unfold write_append_fd, attached in *. zcase; wp_run.
  { apply (HQ 0 w []); [left; by destruct (files w0 !! d)|by rewrite app_nil_r]. }
  destruct Ha as [?|[Hne [f Hf]]]; [lia|]. rewrite Hf in HQ. zcase; [lia|].
  assert (Hfail : forall r w', ~ calls_ok -> writing w0 c text w' -> Q r w').
  { intros r w' Hno Hw'. apply (HQ r w' []); [by right|by rewrite app_nil_r]. }
  wp_run. eapply wp_lseek; [done..| |].
  2: { intros w' Hno Hw'. cbn [Z.ltb Z.compare]. wp_run. by apply Hfail. }
  intros f1 w1 Hc1 Hw1 Hf1. unfold SEEK_END. zcase; [lia|]. wp_run. eapply wp_lseek; [done..| |].
  2: { intros w' Hno Hw'. cbn [Z.ltb Z.compare]. wp_run. by apply Hfail. }
  intros f2 w2 Hc2 Hw2 Hf2. unfold SEEK_SET_0 in *. cbn [Z.of_nat Z.ltb Z.compare].
  eapply (wp_append_loop w0 c d f2); [done..| |lia|].
  - unfold zlen. rewrite drop_0. congruence.
  - intros w' Hw'. rewrite drop_0, Hc2 in Hw'. apply (HQ 0 w' (fcontent f)); [by left|]. exact Hw'.
Qed.

(** * The loops of [write_resolve_conf] *)

Definition with_namesvrs (c : ifchd_client) (a : list Z) : ifchd_client := c <| namesvrs := a |>.
Definition with_domains (c : ifchd_client) (a : list Z) : ifchd_client := c <| domains := a |>.

Lemma writing_client w0 c text w f :
  writing w0 c text w -> writing w0 (f c) text (w <| cl ::= f |>).
Proof. intros (Hcl & Hw). unfold writing. rsimpl. by rewrite Hcl. Qed.

Lemma fit_buf_id s : zlen s < MAX_BUF -> fit_buf s = s.
Proof. intros. unfold fit_buf. apply take_ge. unfold zlen, MAX_BUF in *. lia. Qed.

(** A comma-separated list [s] inside an array after [pre]; afterwards the array is
    as long as before, and the string at the same place is the first element. *)
Definition consumed (pre s rest a : list Z) : Prop :=
  exists tl, a = pre ++ tl /\ length tl = length (s ++ 0 :: rest) /\ cstr tl = Some (first_of s).

Lemma consumed_last pre s rest : 0 ∉ s -> comma ∉ s -> consumed pre s rest (pre ++ s ++ 0 :: rest).
Proof.
  intros H0 Hc. eexists. split_and!; [done..|]. rewrite cstr_string by done.
  unfold first_of. destruct s as [|x s]; [done|]. by rewrite split_commas_none.
Qed.
Lemma consumed_comma pre u v rest a :
  0 ∉ u -> comma ∉ u -> consumed (pre ++ u ++ [0]) v rest a -> consumed pre (u ++ comma :: v) rest a.
Proof.
  intros H0 Hc (tl & -> & Hl & Ht). exists (u ++ 0 :: tl). split_and!.
  - by rewrite <- !app_assoc.
  - rewrite !length_app in *. cbn [length] in *. rewrite Hl. cbn. lia.
  - rewrite cstr_string by done. unfold first_of. by rewrite split_commas_cons.
Qed.

Lemma consumed_nil pre s rest a :
  0 ∉ s -> comma ∉ s -> consumed (pre ++ s) [] rest a -> consumed pre s rest a.
Proof.
  intros H0 Hc (tl & -> & Hl & (r & -> & _)%cstr_inv). exists (s ++ 0 :: r). split_and!.
  - by rewrite <- app_assoc.
  - change (first_of []) with (@nil Z) in Hl. rewrite !length_app. cbn [length app] in *. lia.
  - rewrite cstr_string by done. unfold first_of. destruct s as [|x s]; [done|]. by rewrite split_commas_none.
Qed.

Lemma wp_server_line w0 c text e w (k : CM unit) (Q : unit -> ifch_world -> Prop) :
  writing w0 c text w -> zlen e < MAX_BUF ->
  (forall w', writing w0 c (text ++ chars "nameserver " ++ e ++ [10]) w' -> wp k Q died w') ->
  wp (writeordie (resolv_conf_fd w0) (chars "nameserver "))
    (fun _ => wp (writeordie (resolv_conf_fd w0) (fit_buf e);; writeordie (resolv_conf_fd w0) [10];; k) Q died)
    died w.
Proof.
  intros Hw He HQ. rewrite fit_buf_id by done.
  eapply wp_writeordie; [done|done|]. intros w2 Hw2. wp_run.
  eapply wp_writeordie; [done|unfold MAX_BUF in *; lia|]. intros w3 Hw3. wp_run.
  eapply wp_writeordie; [done|done|]. intros w4 Hw4. apply HQ. by rewrite <- !app_assoc in Hw4.
Qed.

Lemma writing_namesvrs w0 c a a' text w :
  writing w0 (with_namesvrs c a) text w ->
  writing w0 (with_namesvrs c a') text (w <| cl ::= fun d => d <| namesvrs := a' |> |>).
Proof. intros Hw. apply (writing_client w0 (with_namesvrs c a) text w (fun d => with_namesvrs d a') Hw). Qed.

Lemma nameserver_lines_cons e es :
  nameserver_lines (e :: es) = (chars "nameserver " ++ e ++ [10]) ++ nameserver_lines es.
Proof. reflexivity. Qed.

(** The first character of a list that is not empty does not end the loop. *)
Lemma rd_not_end pre s rest :
  0 ∉ s -> s <> [] -> exists x, rd (pre ++ s ++ 0 :: rest) (zlen pre) = Some x /\ x <> 0.
Proof.
  intros H0 Hne. destruct s as [|x s]; [done|]. exists x. cbn [app]. rewrite rd_at0. split; [done|].
  intros ->. by apply H0, list_elem_of_here.
Qed.

Lemma wp_namesvrs_loop w0 (Q : unit -> ifch_world -> Prop) rest : forall fuel s pre c text w,
  writing w0 (with_namesvrs c (pre ++ s ++ 0 :: rest)) text w ->
  0 ∉ s -> zlen s < MAX_BUF -> zlen s < Z.of_nat fuel ->
  (forall a w', consumed pre s rest a ->
     writing w0 (with_namesvrs c a) (text ++ nameserver_lines (split_commas s)) w' -> Q tt w') ->
  wp (namesvrs_loop fuel (resolv_conf_fd w0) (zlen pre)) Q died w.
Proof.
  induction fuel as [|fuel IH]; intros s pre c text w Hw H0 Hl Hf HQ; [zlen_lia|].
  cbn [namesvrs_loop]. wp_run.
  replace (namesvrs (cl w)) with (pre ++ s ++ 0 :: rest) by (rewrite (proj1 Hw); reflexivity).
  destruct (decide (s = [])) as [->|Hne].
  { cbn [app]. rewrite rd_at0. wp_run. cbn [Z.eqb]. wp_run.
    apply (HQ (pre ++ 0 :: rest)); [by apply (consumed_last pre []), not_elem_of_nil|].
    by rewrite app_nil_r. }
  destruct (rd_not_end pre s rest H0 Hne) as (x & Hx & Hx0). rewrite Hx. wp_run. zcase; [done|].
  destruct (comma_cases s) as [Hc|(u & v & -> & Hc)].
  - rewrite next_element_last by done. wp_run. apply (writing_namesvrs _ _ _ (pre ++ s ++ 0 :: rest)) in Hw.
    eapply wp_server_line; [exact Hw|done|]. intros w' Hw'.
    replace (zlen pre + zlen s) with (zlen (pre ++ s)) by zlen_lia.
    eapply (IH []); [rewrite <- app_assoc; exact Hw'|apply not_elem_of_nil|done|destruct s; [done|zlen_lia]|].
    intros a w2 Ha Hw2. apply (HQ a); [by apply consumed_nil|].
    rewrite split_commas_none, nameserver_lines_cons by done. by rewrite <- app_assoc in Hw2.
  - apply not_elem_of_app in H0 as [Hu [_ Hv]%not_elem_of_cons].
    rewrite next_element_comma by done. wp_run.
    apply (writing_namesvrs _ _ _ ((pre ++ u ++ [0]) ++ v ++ 0 :: rest)) in Hw.
    eapply wp_server_line; [exact Hw|zlen_lia|]. intros w' Hw'.
    replace (zlen pre + zlen u + 1) with (zlen (pre ++ u ++ [0])) by zlen_lia.
    eapply IH; [exact Hw'|done|zlen_lia..|].
    intros a w2 Ha Hw2. apply (HQ a); [by apply consumed_comma|].
    by rewrite split_commas_cons, nameserver_lines_cons, app_assoc.
Qed.

Lemma writing_domains w0 c a a' text w :
  writing w0 (with_domains c a) text w ->
  writing w0 (with_domains c a') text (w <| cl ::= fun d => d <| domains := a' |> |>).
Proof. intros Hw. apply (writing_client w0 (with_domains c a) text w (fun d => with_domains d a') Hw). Qed.

Lemma wp_domain_word w0 c text n e w (Q : unit -> ifch_world -> Prop) :
  writing w0 c text w -> zlen e < MAX_BUF ->
  (forall w', writing w0 c (text ++ domain_sep n ++ e) w' -> Q tt w') ->
  wp (if Z.of_nat n =? 0 then
        writeordie (resolv_conf_fd w0) (chars "domain ");; writeordie (resolv_conf_fd w0) (fit_buf e)
      else if Z.of_nat n =? 1 then
        writeordie (resolv_conf_fd w0) [10];; writeordie (resolv_conf_fd w0) (chars "search ");;
        writeordie (resolv_conf_fd w0) (fit_buf e)
      else writeordie (resolv_conf_fd w0) [32];; writeordie (resolv_conf_fd w0) (fit_buf e)) Q died w.
Proof.
  intros Hw He HQ. rewrite fit_buf_id by done.
  assert (Hlast : forall t w', writing w0 c t w' -> t = text ++ domain_sep n ->
    wp (writeordie (resolv_conf_fd w0) e) Q died w').
  { intros t w' Hw' ->. eapply wp_writeordie; [done|unfold MAX_BUF in *; lia|]. intros w2 Hw2.
    apply HQ. by rewrite <- app_assoc in Hw2. }
  destruct n as [|[|n]]; [zcase; [|lia]|zcase; [lia|zcase; [|lia]]|zcase; [lia|zcase; [lia|]]]; wp_run.
  - eapply wp_writeordie; [done|done|]. intros w2 Hw2. by eapply Hlast.
  - eapply wp_writeordie; [done|done|]. intros w2 Hw2. wp_run.
    eapply wp_writeordie; [done|done|]. intros w3 Hw3. eapply Hlast; [done|]. by rewrite <- app_assoc.
  - eapply wp_writeordie; [done|done|]. intros w2 Hw2. by eapply Hlast.
Qed.

(** The seventh domain is the last. *)
Lemma wp_domains_loop w0 (Q : unit -> ifch_world -> Prop) rest : forall fuel s pre n c text w,
  writing w0 (with_domains c (pre ++ s ++ 0 :: rest)) text w ->
  0 ∉ s -> zlen s < MAX_BUF -> zlen s < Z.of_nat fuel -> (n <= 7)%nat ->
  (forall a w', consumed pre s rest a ->
     writing w0 (with_domains c a) (text ++ domain_text n (take (7 - n) (split_commas s))) w' -> Q tt w') ->
  ((n < 7)%nat -> wp (domains_loop fuel (resolv_conf_fd w0) (zlen pre) (Z.of_nat n)) Q died w).
Proof.
  induction fuel as [|fuel IH]; intros s pre n c text w Hw H0 Hl Hf Hn7 HQ Hn; [zlen_lia|].
  cbn [domains_loop]. wp_run.
  replace (domains (cl w)) with (pre ++ s ++ 0 :: rest) by (rewrite (proj1 Hw); reflexivity).
  destruct (decide (s = [])) as [->|Hne].
  { cbn [app]. rewrite rd_at0. wp_run. cbn [Z.eqb]. wp_run.
    apply (HQ (pre ++ 0 :: rest)); [by apply (consumed_last pre []), not_elem_of_nil|].
    change (split_commas []) with (@nil (list Z)). by rewrite take_nil, app_nil_r. }
  destruct (rd_not_end pre s rest H0 Hne) as (x & Hx & Hx0). rewrite Hx. wp_run. zcase; [done|].
  assert (Htake : forall e es, domain_text n (take (7 - n) (e :: es)) =
    (domain_sep n ++ e) ++ domain_text (S n) (take (7 - S n) es)).
  { intros e es. replace (7 - n)%nat with (S (7 - S n)) by lia. cbn [take domain_text]. by rewrite app_assoc. }
  destruct (comma_cases s) as [Hc|(u & v & -> & Hc)].
  - rewrite next_element_last by done. wp_run. apply (writing_domains _ _ _ (pre ++ s ++ 0 :: rest)) in Hw.
    eapply wp_domain_word; [exact Hw|done|]. intros w' Hw'.
    rewrite split_commas_none in HQ by done. rewrite Htake, take_nil in HQ.
    cbn [domain_text] in HQ. rewrite app_nil_r in HQ.
    zcase; wp_run; [eapply HQ; [by apply consumed_last|exact Hw']|].
    replace (zlen pre + zlen s) with (zlen (pre ++ s)) by zlen_lia. replace (Z.of_nat n + 1) with (Z.of_nat (S n)) by lia.
    eapply (IH []); [rewrite <- app_assoc; exact Hw'|apply not_elem_of_nil|done|destruct s; [done|zlen_lia]|lia| |lia].
    intros a w2 Ha Hw2. apply (HQ a); [by apply consumed_nil|].
    change (split_commas []) with (@nil (list Z)) in Hw2. rewrite take_nil in Hw2.
    cbn [domain_text] in Hw2. by rewrite app_nil_r in Hw2.
  - apply not_elem_of_app in H0 as [Hu [_ Hv]%not_elem_of_cons].
    rewrite next_element_comma by done. wp_run.
    apply (writing_domains _ _ _ ((pre ++ u ++ [0]) ++ v ++ 0 :: rest)) in Hw.
    eapply wp_domain_word; [exact Hw|zlen_lia|]. intros w' Hw'.
    rewrite split_commas_cons in HQ by done. rewrite Htake in HQ.
    zcase; wp_run.
    + apply (HQ ((pre ++ u ++ [0]) ++ v ++ 0 :: rest)).
      * exists (u ++ 0 :: v ++ 0 :: rest). split_and!; [by rewrite <- !app_assoc| |].
        -- repeat (rewrite !length_app; cbn [length]). lia.
        -- rewrite cstr_string by done. unfold first_of. by rewrite split_commas_cons.
      * replace (7 - S n)%nat with 0%nat by lia. cbn [take domain_text]. by rewrite app_nil_r.
    + replace (zlen pre + zlen u + 1) with (zlen (pre ++ u ++ [0])) by zlen_lia.
      replace (Z.of_nat n + 1) with (Z.of_nat (S n)) by lia.
      eapply IH; [exact Hw'|done|zlen_lia..|lia| |lia].
      intros a w2 Ha Hw2. apply (HQ a); [by apply consumed_comma|]. by rewrite app_assoc.
Qed.

(** * The whole file *)

(** The client of [ifchd.c] as its operations leave it: three arrays of [MAX_BUF]
    bytes, servers and domains are strings in theirs, no input is pending. *)
Definition client_ok (c : ifchd_client) (ns ds : list Z) : Prop :=
  zlen (ibuf c) = MAX_BUF /\ cstr (ibuf c) = Some [] /\
  zlen (namesvrs c) = MAX_BUF /\ cstr (namesvrs c) = Some ns /\
  zlen (domains c) = MAX_BUF /\ cstr (domains c) = Some ds.

Definition resolv_open (w : ifch_world) : Prop :=
  0 <= resolv_conf_fd w /\ is_Some (files w !! resolv_conf_fd w) /\
  attachable w (resolv_conf_head_fd w) /\ attachable w (resolv_conf_tail_fd w).

(** The head or tail file as a run of [write_resolve_conf] copies it. *)
Definition copied (w : ifch_world) (d : Z) (t : list Z) : Prop := t = attached w d \/ ~ calls_ok /\ t = [].

(** What [write_resolve_conf] leaves of the servers [ns] and the domains [ds] when
    it gives [r]: the file, and the two lists, of which only the first elements are
    left. *)
Definition resolv_result (w : ifch_world) (ns ds : list Z) (r : Z) (w' : ifch_world) : Prop :=
  (r = 0 \/ r = -1 /\ ~ calls_ok) /\
  (r = 0 -> exists f h t, files w' !! resolv_conf_fd w = Some f /\ fcontent f = h ++ resolv_text ns ds ++ t /\
     copied w (resolv_conf_head_fd w) h /\ copied w (resolv_conf_tail_fd w) t) /\
  (exists ns' ds', client_ok (cl w') ns' ds' /\ (ns' = first_of ns /\ ds' = first_of ds \/ ~ calls_ok)) /\
  resolv_conf_fd w' = resolv_conf_fd w /\ resolv_conf_head_fd w' = resolv_conf_head_fd w /\
  resolv_conf_tail_fd w' = resolv_conf_tail_fd w /\
  (forall d, d <> resolv_conf_fd w -> fcontent <$> files w' !! d = fcontent <$> files w !! d) /\
  is_Some (files w' !! resolv_conf_fd w).

Lemma zlen_cstr a s : cstr a = Some s -> zlen s < zlen a.
Proof. intros (rest & -> & _)%cstr_inv. zlen_lia. Qed.

Lemma consumed_client s rest a : consumed [] s rest a -> zlen a = zlen (s ++ 0 :: rest) /\ cstr a = Some (first_of s).
Proof. intros (tl & -> & Hl & Hc). split; [unfold zlen; cbn [app]; lia|done]. Qed.

(** The descriptor is rewound and the text replaces what was there. *)
Lemma wp_rewind w fd (Q : Z -> ifch_world -> Prop) D :
  fd = resolv_conf_fd w -> is_Some (files w !! fd) ->
  (forall w', writing w (cl w) [] w' -> Q 0 w') ->
  (forall w', ~ calls_ok -> cl w' = cl w -> resolv_conf_fd w' = resolv_conf_fd w ->
     resolv_conf_head_fd w' = resolv_conf_head_fd w -> resolv_conf_tail_fd w' = resolv_conf_tail_fd w ->
     files w' = files w -> Q (-1) w') ->
  wp (lseek fd SEEK_SET_0) Q D w.
Proof.
  intros -> [f Hf] HQ HF. unfold lseek, cask, file_of, set_file. wp_run. rsimpl. rewrite Hf.
  destruct (ch_lseek (ch_tick w)) eqn:E; wp_run.
  - apply HQ. unfold writing. rsimpl. split_and!; try done.
    + intros d Hd. by rewrite lookup_insert_ne.
    + eexists. rewrite lookup_insert_eq. by split_and!.
  - apply HF; try done. intros Ho. destruct (Ho (ch_tick w)) as [Hl _]. congruence.
Qed.

Lemma writing_ext w0 c text w w' g :
  writing w0 c text w -> cl w' = cl w -> resolv_conf_fd w' = resolv_conf_fd w ->
  resolv_conf_head_fd w' = resolv_conf_head_fd w -> resolv_conf_tail_fd w' = resolv_conf_tail_fd w ->
  (forall d, d <> resolv_conf_fd w0 -> files w' !! d = files w !! d) ->
  files w' !! resolv_conf_fd w0 = Some g -> fpos g = length text -> take (length text) (fcontent g) = text ->
  writing w0 c text w'.
Proof.
  intros (Hcl & H1 & H2 & H3 & Hd & _) E1 E2 E3 E4 Hfr Hg Hp Ht. unfold writing. split_and!; try congruence.
  - intros d Hne. rewrite Hfr by done. by apply Hd.
  - by exists g.
Qed.

(** The end of [write_resolve_conf]: cut the file at the position, and sync it. *)
Lemma wp_cut w0 c text w (Q : Z -> ifch_world -> Prop) :
  writing w0 c text w ->
  (forall r w', writing w0 c text w' -> r = 0 \/ r = -1 /\ ~ calls_ok ->
     (r = 0 -> exists f, files w' !! resolv_conf_fd w0 = Some f /\ fcontent f = text) -> Q r w') ->
  wp (off ← lseek (resolv_conf_fd w0) SEEK_CUR;
      if off <? 0 then mret (-1)
      else ok ← ftruncate (resolv_conf_fd w0) off;
           if negb ok then mret (-1)
           else ok ← fsync (resolv_conf_fd w0); mret (if ok : bool then 0 else -1)) Q died w.
Proof.
  intros Hw HQ. assert (Hw' := Hw). destruct Hw' as (Hcl & H1 & H2 & H3 & Hd & f & Hf & Hp & Ht).
  unfold lseek, ftruncate, fsync, cask, cemit, file_of, set_file, SEEK_CUR. wp_run. rsimpl. rewrite Hf.
  destruct (ch_lseek (ch_tick w)) eqn:E1; wp_run; cbn [Z.ltb Z.compare].
  2: { apply HQ; [done| |done]. right. split; [done|]. intros Ho. destruct (Ho (ch_tick w)) as [Hl _]. congruence. }
  zcase; [lia|]. wp_run. rsimpl. rewrite lookup_insert_eq.
  assert (Hcut : take (Z.to_nat (Z.of_nat (fpos f))) (fcontent f ++ zeros (Z.to_nat (Z.of_nat (fpos f)))) = text).
  { rewrite Nat2Z.id, Hp. apply (f_equal length) in Ht as Hl. rewrite length_take in Hl.
    rewrite take_app_le by lia. done. }
  destruct (ch_ftruncate (S (ch_tick w))) eqn:E2; wp_run; cbn [negb].
  2: { apply HQ; [|right; split; [done|]|done].
       - eapply (writing_ext _ _ _ w _ (mk_ofile (fcontent f) (fpos f))); try done; rsimpl.
         + intros d Hne. by rewrite lookup_insert_ne.
         + by rewrite lookup_insert_eq.
       - intros Ho. destruct (Ho (S (ch_tick w))) as (_ & _ & _ & Hl & _). congruence. }
  rsimpl. cbn [fcontent fpos]. rewrite Hcut. 
  match goal with |- wp _ _ _ ?w => set (w2 := w) end.
  assert (Hw2 : writing w0 c text w2).
  { eapply (writing_ext _ _ _ w _ (mk_ofile text (fpos f))); try done; subst w2; rsimpl.
    - intros d Hne. by rewrite !lookup_insert_ne.
    - by rewrite lookup_insert_eq.
    - cbn [fcontent]. by rewrite firstn_all. }
  assert (Hf2 : files w2 !! resolv_conf_fd w0 = Some (mk_ofile text (fpos f)))
    by (subst w2; rsimpl; by rewrite lookup_insert_eq).
  wp_run. apply HQ.
  - eapply (writing_ext _ _ _ w2); [done..|rsimpl; exact Hf2|done|]. cbn [fcontent]. by rewrite firstn_all.
  - destruct (ch_fsync _) eqn:E3; [by left|right]. split; [done|].
    intros Ho. destruct (Ho (ch_tick w2)) as (_ & _ & _ & _ & Hl). revert E3. congruence.
  - intros _. eexists. split; [rsimpl; exact Hf2|done].
Qed.

Lemma client_ok_namesvrs c ns ns' ds a :
  client_ok c ns ds -> zlen a = MAX_BUF -> cstr a = Some ns' -> client_ok (with_namesvrs c a) ns' ds.
Proof. intros (? & ? & _ & _ & ? & ?) ? ?. by split_and!. Qed.
Lemma client_ok_domains c ns ds ds' a :
  client_ok c ns ds -> zlen a = MAX_BUF -> cstr a = Some ds' -> client_ok (with_domains c a) ns ds'.
Proof. intros (? & ? & ? & ? & _ & _) ? ?. by split_and!. Qed.
Lemma client_eta_namesvrs c : c = with_namesvrs c (namesvrs c).
Proof. by destruct c. Qed.
Lemma client_eta_domains c : c = with_domains c (domains c).
Proof. by destruct c. Qed.

Lemma resolv_result_of w c text ns ds r w' ns' ds' :
  writing w c text w' -> r = 0 \/ r = -1 /\ ~ calls_ok ->
  client_ok c ns' ds' -> ns' = first_of ns /\ ds' = first_of ds \/ ~ calls_ok ->
  (r = 0 -> exists f h t, files w' !! resolv_conf_fd w = Some f /\ fcontent f = h ++ resolv_text ns ds ++ t /\
     copied w (resolv_conf_head_fd w) h /\ copied w (resolv_conf_tail_fd w) t) ->
  resolv_result w ns ds r w'.
Proof.
  intros (Hcl & H1 & H2 & H3 & Hd & f & Hf & _) Hr Hok Hfst H0. unfold resolv_result.
  split_and!; try done. exists ns', ds'. by rewrite Hcl.
Qed.

Lemma wp_write_resolve_conf w ns ds :
  client_ok (cl w) ns ds -> ns <> [] -> resolv_open w ->
  wp write_resolve_conf (resolv_result w ns ds) died w.
Proof.
  intros Hok Hne (H0 & Hopen & Hhead & Htail). unfold write_resolve_conf. wp_run. zcase; [lia|]. wp_run.
  pose proof Hok as (_ & _ & Hn & Hnc & Hdm & Hdc).
  apply cstr_inv in Hnc as (nrest & En & Hn0). apply cstr_inv in Hdc as (drest & Ed & Hd0).
  rewrite En, strlen_string by done. wp_run. zcase; [destruct ns; [done|zlen_lia]|]. wp_run.
  apply (wp_rewind w); [done..| |].
  2: { intros w1 Hno Hc E1 E2 E3 Ef. cbn [Z.ltb Z.compare]. wp_run. unfold resolv_result.
       rewrite Hc, Ef. split_and!; try done; [by right|]. exists ns, ds. split_and!; try done. by right. }
  intros w1 Hw1. cbn [Z.ltb Z.compare]. wp_run.
  replace (resolv_conf_head_fd w1) with (resolv_conf_head_fd w) by (by destruct Hw1 as (_ & _ & -> & _)).
  apply (wp_write_append_fd w (cl w) []); [done..|]. intros _ w2 h Hh Hw2. cbn [app] in Hw2. wp_run.
  rewrite (client_eta_namesvrs (cl w)), En in Hw2.
  apply (wp_namesvrs_loop w _ nrest list_fuel ns [] (cl w) h); [done..| | |].
  { rewrite En in Hn. zlen_lia. }
  { rewrite En in Hn. unfold list_fuel, MAX_BUF in *. zlen_lia. }
  intros na w3 (Hna & Hnac)%consumed_client Hw3. rewrite <- En in Hna. rewrite Hn in Hna. wp_run.
  set (c1 := with_namesvrs (cl w) na) in *.
  assert (Hok1 : client_ok c1 (first_of ns) ds) by by eapply client_ok_namesvrs.
  rewrite (client_eta_domains c1) in Hw3. change (domains c1) with (domains (cl w)) in Hw3. rewrite Ed in Hw3.
  apply (wp_domains_loop w _ drest list_fuel ds [] 0 c1 (h ++ nameserver_lines (split_commas ns)));
    [done..| | |lia| |lia].
  { rewrite Ed in Hdm. zlen_lia. }
  { rewrite Ed in Hdm. unfold list_fuel, MAX_BUF in *. zlen_lia. }
  intros da w4 (Hda & Hdac)%consumed_client Hw4. rewrite <- Ed in Hda. rewrite Hdm in Hda. wp_run.
  set (c2 := with_domains c1 da) in *.
  assert (Hok2 : client_ok c2 (first_of ns) (first_of ds)) by by eapply client_ok_domains.
  eapply wp_writeordie; [done|done|]. intros w5 Hw5. wp_run.
  replace (resolv_conf_tail_fd w5) with (resolv_conf_tail_fd w) by (by destruct Hw5 as (_ & _ & _ & -> & _)).
  eapply wp_write_append_fd; [done..|]. intros _ w6 t Ht Hw6.
  eapply wp_cut; [done|]. intros r w7 Hw7 Hr Hf.
  eapply resolv_result_of; [exact Hw7|done|exact Hok2|by left|].
  intros Hr0. destruct (Hf Hr0) as (f & Hff & Hfc). exists f, h, t. split_and!; try done.
  rewrite Hfc. unfold resolv_text. by rewrite <- !app_assoc.
Qed.

(** [perform_dns] and [perform_domain] put their argument in place and write the file. *)
Lemma snprintf_s_string a s :
  zlen a = MAX_BUF -> 0 ∉ s -> zlen s < MAX_BUF ->
  exists a', snprintf_s a MAX_BUF s = Some a' /\ zlen a' = MAX_BUF /\ cstr a' = Some s.
Proof.
  intros Ha H0 Hl. unfold snprintf_s. rewrite take_ge by (unfold zlen in *; lia).
  rewrite wr_range_Some by (zlen_lia). eexists. split; [done|].
  change (take (Z.to_nat 0) a) with (@nil Z). cbn [app]. split.
  - unfold zlen in *. rewrite !length_app, length_drop. cbn [length]. lia.
  - rewrite <- app_assoc. by apply cstr_string.
Qed.

Lemma resolv_result_set w f ns ds r w' :
  resolv_result (w <| cl ::= f |>) ns ds r w' -> resolv_result w ns ds r w'.
Proof. done. Qed.

Lemma wp_perform_dns w str len ns old ds :
  client_ok (cl w) old ds -> resolv_open w -> until_nul str = ns -> 0 ∉ ns -> ns <> [] ->
  zlen ns < MAX_BUF -> len <= MAX_BUF ->
  wp (perform_dns str len) (resolv_result w ns ds) died w.
Proof.
  intros Hok Hopen Hs H0 Hne Hl Hlen. unfold perform_dns. wp_run. zcase; [destruct Hopen; lia|].
  zcase; [lia|]. wp_run. rewrite Hs.
  destruct (snprintf_s_string (namesvrs (cl w)) ns) as (a & -> & Ha & Hc); [by destruct Hok as (?&?&?&?)|done..|].
  wp_run. eapply wp_mono; [|intros r w'; apply (resolv_result_set w (fun c => with_namesvrs c a))|done].
  apply wp_write_resolve_conf; [|done|exact Hopen]. by eapply client_ok_namesvrs.
Qed.
Lemma wp_perform_domain w str len ns old ds :
  client_ok (cl w) ns old -> resolv_open w -> until_nul str = ds -> 0 ∉ ds -> ns <> [] ->
  zlen ds < MAX_BUF -> len <= MAX_BUF ->
  wp (perform_domain str len) (resolv_result w ns ds) died w.
Proof.
  intros Hok Hopen Hs H0 Hne Hl Hlen. unfold perform_domain. wp_run. zcase; [destruct Hopen; lia|].
  zcase; [lia|]. wp_run. rewrite Hs.
  destruct (snprintf_s_string (domains (cl w)) ds) as (a & -> & Ha & Hc); [by destruct Hok as (?&?&?&?&?&?)|done..|].
  wp_run. eapply wp_mono; [|intros r w'; apply (resolv_result_set w (fun c => with_domains c a))|done].
  apply wp_write_resolve_conf; [|done|exact Hopen]. by eapply client_ok_domains.
Qed.

(** * As commands *)

Lemma cmd_writes w c ns ds (m : CM Z) :
  perform c.1 (c.2 ++ [0]) (zlen c.2) = Some m ->
  (forall w1, w1 = w <| cl ::= (fun d => d <| cl_state := c.1 |>) |> -> wp m (resolv_result w1 ns ds) died w1) ->
  wp (perform_command c) (resolv_result w ns ds) died w.
Proof.
  intros Hm Hw. unfold perform_command, set_state. wp_run. rewrite Hm.
  eapply wp_mono; [by apply Hw|intros r w'; apply resolv_result_set|done].
Qed.

Lemma dns_command w ns old ds :
  client_ok (cl w) old ds -> resolv_open w -> 0 ∉ ns -> ns <> [] -> zlen ns < MAX_BUF ->
  wp (perform_command (STATE_DNS, ns)) (resolv_result w ns ds) died w.
Proof.
  intros Hok Hopen H0 Hne Hl. eapply cmd_writes; [done|]. intros w1 ->. cbn [fst snd].
  eapply (wp_perform_dns _ _ _ ns old ds); [exact Hok|exact Hopen| |done..|lia].
  apply (until_nul_string ns []). rewrite Forall_forall. by intros x Hx ->.
Qed.
Lemma domain_command w ns old ds :
  client_ok (cl w) ns old -> resolv_open w -> 0 ∉ ds -> ns <> [] -> zlen ds < MAX_BUF ->
  wp (perform_command (STATE_DOMAIN, ds)) (resolv_result w ns ds) died w.
Proof.
  intros Hok Hopen H0 Hne Hl. eapply cmd_writes; [done|]. intros w1 ->. cbn [fst snd].
  eapply (wp_perform_domain _ _ _ ns old ds); [exact Hok|exact Hopen| |done..|lia].
  apply (until_nul_string ds []). rewrite Forall_forall. by intros x Hx ->.
Qed.

(** The tail files are as good after a command as before. *)
Lemma resolv_result_open w ns ds r w' : resolv_open w -> resolv_result w ns ds r w' -> resolv_open w'.
Proof.
  intros (H0 & _ & Hh & Ht) (_ & _ & _ & E1 & E2 & E3 & Hd & Hf). unfold resolv_open.
  rewrite E1, E2, E3. split_and!; try done.
  - destruct Hh as [?|[Hne [f Hff]]]; [by left|right]. rewrite E1. split; [done|].
    specialize (Hd _ Hne). rewrite Hff in Hd. by destruct (files w' !! _).
  - destruct Ht as [?|[Hne [f Hff]]]; [by left|right]. rewrite E1. split; [done|].
    specialize (Hd _ Hne). rewrite Hff in Hd. by destruct (files w' !! _).
Qed.
Lemma attached_same w ns ds r w' d :
  attachable w d -> resolv_result w ns ds r w' -> attached w' d = attached w d.
Proof.
  intros Ha (_ & _ & _ & _ & _ & _ & Hd & _). unfold attached. destruct (d <? 0) eqn:E.
  { by destruct (files w' !! d), (files w !! d). }
  destruct Ha as [?|[Hne _]]; [lia|]. specialize (Hd d Hne).
  destruct (files w' !! d), (files w !! d); cbn in Hd; congruence.
Qed.

Lemma first_of_nonempty s : ~ (exists t, s = comma :: t) -> s <> [] -> first_of s <> [].
Proof.
  intros Hs Hne. unfold first_of. destruct (comma_cases s) as [Hc|(u & v & -> & Hc)].
  - by rewrite split_commas_none.
  - rewrite split_commas_cons by done. cbn. intros ->. apply Hs. by eexists.
Qed.

(** * Properties *)

(** C38. The command "dns" replaces resolv.conf: when it succeeds the file holds the
    head file, a "nameserver" line for every address of the command, the known
    domains, and the tail file, and nothing of what was there.  It fails, or ends the
    process, only when a call on the files fails; a head or tail that cannot be read
    is left out. *)
Theorem dns_command_writes (w : ifch_world) (old ds servers : list Z) :
  client_ok (cl w) old ds -> resolv_open w -> lang (arg_form STATE_DNS) servers -> zlen servers < MAX_BUF ->
  wp (perform_command (STATE_DNS, servers))
    (fun r w' => (r = 0 \/ r = -1 /\ ~ calls_ok) /\
       (r = 0 -> exists f h t, files w' !! resolv_conf_fd w = Some f /\
          fcontent f = h ++ resolv_text servers ds ++ t /\
          copied w (resolv_conf_head_fd w) h /\ copied w (resolv_conf_tail_fd w) t))
    died w.
Proof.
  intros Hok Hopen Hl Hlen. assert (H0 : 0 ∉ servers) by (eapply avoids_lang; [|exact Hl]; reflexivity).
  assert (Hne : servers <> []) by (intros ->; revert Hl; rewrite <- lang_final; vm_compute; done).
  eapply wp_mono; [by apply (dns_command w servers old ds)| |done]. by intros r w' (H1 & H2 & _).
Qed.

(** A lease with several servers and a domain leaves only the first server:
    writing resolv.conf for "dns" turns the commas of [cl.namesvrs] into NULs, so the
    "dom" command that follows writes the file again with the first address alone. *)
Theorem domain_command_keeps_one_server (w : ifch_world) (old ds servers domain : list Z) :
  client_ok (cl w) old ds -> resolv_open w -> calls_ok ->
  lang (arg_form STATE_DNS) servers -> zlen servers < MAX_BUF ->
  lang (arg_form STATE_DOMAIN) domain -> zlen domain < MAX_BUF ->
  wp (run_commands [(STATE_DNS, servers); (STATE_DOMAIN, domain)] 0)
    (fun r w' => r = 0 /\ exists f, files w' !! resolv_conf_fd w = Some f /\
       fcontent f = attached w (resolv_conf_head_fd w) ++ resolv_text (first_of servers) domain ++
                    attached w (resolv_conf_tail_fd w))
    (fun _ _ => False) w.
Proof.
  intros Hok Hopen Hcalls Hl Hlen Hld Hlend.
  assert (H0 : 0 ∉ servers) by (eapply avoids_lang; [|exact Hl]; reflexivity).
  assert (Hd0 : 0 ∉ domain) by (eapply avoids_lang; [|exact Hld]; reflexivity).
  assert (Hne : servers <> []) by (intros ->; revert Hl; rewrite <- lang_final; vm_compute; done).
  assert (Hhd : first_of servers <> []).
  { apply first_of_nonempty; [|done]. intros [t ->]. apply accepts_lang in Hl. unfold accepts in Hl.
    revert Hl. cbn [trace_run]. replace (step _ comma) with (@None (list ifchd_action * list (ragel ifchd_action)))
      by (vm_compute; reflexivity). done. }
  cbn [run_commands]. rewrite wp_bind.
  eapply wp_mono; [by apply (dns_command w servers old ds)| |by intros h w' [_ []]].
  intros r w1 Hr. pose proof (resolv_result_open _ _ _ _ _ Hopen Hr) as Hopen1.
  pose proof Hr as ([->|[_ []]] & _ & (ns' & ds' & Hok1 & [[-> ->]|[]]) & E1 & E2 & E3 & _); [|done..].
  cbn [Z.eqb Z.lor]. rewrite wp_bind.
  eapply wp_mono; [by eapply (domain_command w1 _ _ domain)| |by intros h w' [_ []]].
  intros r w2 ([->|[_ []]] & Hf & _); [|done]. cbn [Z.eqb Z.lor]. wp_run. split; [done|].
  destruct (Hf eq_refl) as (f & h & t & Hff & Hc & [->|[[] _]] & [->|[[] _]]); [|done..].
  rewrite E1 in Hff. exists f. split; [done|]. rewrite Hc, E2, E3.
  destruct Hopen as (_ & _ & Hh & Ht). by rewrite !(attached_same w servers ds 0 w1).
Qed.
End Write.

Lemma sample_client_ok : client_ok (cl sample_ifch_world) [] [].
Proof. by split_and!. Qed.
Lemma sample_resolv_open : resolv_open sample_ifch_world.
Proof. split_and!; [done|by eexists|by left..]. Qed.

Lemma dns_command_writes_witness :
  let E := sample_ifch_env [] in
  wp (perform_command (STATE_DNS, chars "10.0.0.1,10.0.0.2"))
    (fun r w' => (r = 0 \/ r = -1 /\ ~ calls_ok) /\
       (r = 0 -> exists f h t, files w' !! 5 = Some f /\
          fcontent f = h ++ resolv_text (chars "10.0.0.1,10.0.0.2") [] ++ t /\
          copied sample_ifch_world (-1) h /\ copied sample_ifch_world (-1) t))
    died sample_ifch_world.
Proof.
  intros E. apply (dns_command_writes sample_ifch_world [] []).
  - apply sample_client_ok.
  - apply sample_resolv_open.
  - apply accepts_lang. vm_compute. reflexivity.
  - reflexivity.
Defined.

(** "old" becomes one server and one domain. *)
Lemma domain_command_keeps_one_server_witness :
  let E := sample_ifch_env [] in
  wp (run_commands [(STATE_DNS, chars "10.0.0.1,10.0.0.2"); (STATE_DOMAIN, chars "lan")] 0)
    (fun r w' => r = 0 /\ exists f, files w' !! 5 = Some f /\
       fcontent f = chars "nameserver 10.0.0.1" ++ 10 :: chars "domain lan" ++ [10])
    (fun _ _ => False) sample_ifch_world.
Proof.
  intros E. apply (domain_command_keeps_one_server sample_ifch_world [] [] (chars "10.0.0.1,10.0.0.2") (chars "lan")).
  - apply sample_client_ok.
  - apply sample_resolv_open.
  - intros t. by split_and!.
  - apply accepts_lang. vm_compute. reflexivity.
  - reflexivity.
  - apply accepts_lang. vm_compute. reflexivity.
  - reflexivity.
Defined.
