(* ===== verification/Ifchsafe.v ===== *)
(** Every command leaves ndhc-ifch in a good state: its arrays keep their sizes and
    hold strings, and a command that does not return ends the process with a
    message, never by leaving an array. *)

From stdpp Require Import gmap.
From S2P Require Import Prelude Types World Samples Ifchange Nl Nlmsg Netlink Ifset Ifaddr Ifsafe.
From S2P Require Import Ifchd Ragel Ifchparse Ifcmd Ifip4 Ifany Ifresolv.
Local Open Scope ragel_scope.

(** An array of [MAX_BUF] bytes that holds a string. *)
Definition array_ok (a : list Z) : Prop := zlen a = MAX_BUF /\ 0 ∈ a.

(** The state between two requests, and the ways the process may end. *)
Definition ifch_ok (w : ifch_world) : Prop :=
  zlen (ibuf (cl w)) = MAX_BUF /\ cstr (ibuf (cl w)) = Some [] /\
  array_ok (namesvrs (cl w)) /\ array_ok (domains (cl w)) /\ ifset_ok (ifset w).
Definition stopped `{!IfchEnv} (h : halt) (w : ifch_world) : Prop :=
  (exists why, h = HSuicide why) \/ h = HExit EXIT_SUCCESS \/ (h = HFuel /\ exists t, flooded ie_fuel t).

Section Safe.
Context `{!IfchEnv} (Hk : kernel_ok).

Definition csafe {A} (m : CM A) : Prop := forall w, ifch_ok w -> wp m (fun _ w' => ifch_ok w') stopped w.

Lemma csafe_bind {A B} (m : CM A) (f : A -> CM B) : csafe m -> (forall a, csafe (f a)) -> csafe (m ≫= f).
Proof.
  intros Hm Hf w Hw. rewrite wp_bind. eapply wp_mono; [by apply Hm| |done]. intros a w1 Hw1. by apply Hf.
Qed.
Lemma csafe_ret {A} (a : A) : csafe (mret a).
Proof. intros w Hw. by wp_run. Qed.
Lemma csafe_gets {A} (f : ifch_world -> A) : csafe (gets f).
Proof. intros w Hw. by wp_run. Qed.
Lemma csafe_suicide {A} why : csafe (@suicide ifch_world A why).
Proof. intros w Hw. wp_run. left. by eexists. Qed.
Lemma csafe_exit {A} : csafe (@exit ifch_world A EXIT_SUCCESS).
Proof. intros w Hw. wp_run. by right; left. Qed.
Lemma csafe_cask {A} (f : nat -> A) : csafe (cask f).
Proof. intros w Hw. exact Hw. Qed.
Lemma csafe_cemit a : csafe (cemit a).
Proof. intros w Hw. exact Hw. Qed.
Lemma csafe_set_file fd f : csafe (set_file fd f).
Proof. intros w Hw. exact Hw. Qed.
Lemma csafe_set_state s : csafe (set_state s).
Proof. intros w Hw. exact Hw. Qed.
Lemma csafe_lift_ifset {A} (m : IM A) : isafe m -> csafe (lift_ifset m).
Proof.
  intros Hm w (H1 & H2 & H3 & H4 & Hi). specialize (Hm (ifset w) Hi). unfold wp, lift_ifset in *.
  destruct (m (ifset w)) as [[a|h] i].
  - split_and!; try done. by destruct Hm.
  - destruct Hm as [-> Hf]. right; right. split; [done|]. by eexists.
Qed.

Ltac csafe_step :=
  lazymatch goal with
  | |- csafe (_ ≫= _) => apply csafe_bind; [|intros]
  | |- csafe (mret _) => apply csafe_ret
  | |- csafe (gets _) => apply csafe_gets
  | |- csafe (file_of _) => apply csafe_gets
  | |- csafe (suicide _) => apply csafe_suicide
  | |- csafe (exit EXIT_SUCCESS) => apply csafe_exit
  | |- csafe (cask _) => apply csafe_cask
  | |- csafe (cemit _) => apply csafe_cemit
  | |- csafe (set_file _ _) => apply csafe_set_file
  | |- csafe (set_state _) => apply csafe_set_state
  | |- csafe (if ?b then _ else _) => destruct b eqn:?
  | |- csafe (match ?o with _ => _ end) => destruct o
  end.
Ltac csafe_tac :=
  cbv zeta; repeat (first [csafe_step | lazymatch goal with |- csafe _ => solve [auto with csafe] end]; cbv zeta).

(** ** Files *)

Lemma lseek_safe fd p : csafe (lseek fd p).
Proof. unfold lseek. csafe_tac. Qed.
Lemma file_write_safe fd bs : csafe (safe_write fd bs).
Proof. unfold safe_write. csafe_tac. Qed.
Lemma file_read_safe fd n : csafe (safe_read fd n).
Proof. unfold safe_read. csafe_tac. Qed.
Lemma ftruncate_safe fd off : csafe (ftruncate fd off).
Proof. unfold ftruncate. csafe_tac. Qed.
Lemma fsync_safe fd : csafe (fsync fd).
Proof. unfold fsync. csafe_tac. Qed.
#[local] Hint Resolve lseek_safe file_write_safe file_read_safe ftruncate_safe fsync_safe : csafe.
Lemma writeordie_safe fd bs : csafe (writeordie fd bs).
Proof. unfold writeordie. csafe_tac. Qed.
#[local] Hint Resolve writeordie_safe : csafe.

Lemma append_loop_safe fuel : forall to from n, 0 <= n < Z.of_nat fuel -> csafe (append_loop fuel to from n).
Proof.
  induction fuel as [|fuel IH]; intros to from n Hf; [lia|]. cbn [append_loop].
  destruct (Z.ltb_spec 0 n) as [H0|H0]; cbn [negb]; [|csafe_tac]. cbv zeta.
  set (k := if n <=? 4096 then n else 4096).
  assert (Hkn : 0 < k <= n) by (subst k; destruct (Z.leb_spec n 4096); lia).
  csafe_tac. apply IH. lia.
Qed.
Lemma write_append_fd_safe to from : csafe (write_append_fd to from).
Proof. unfold write_append_fd. csafe_tac. apply append_loop_safe. lia. Qed.
#[local] Hint Resolve write_append_fd_safe : csafe.

(** ** The two lists *)

Lemma has_nul_string a : 0 ∈ a -> exists s rest, a = s ++ 0 :: rest /\ 0 ∉ s.
Proof.
  induction a as [|c a IH]; [by intros ?%not_elem_of_nil|]. intros Hin.
  destruct (decide (c = 0)) as [->|Hc]; [exists [], a; split; [done|apply not_elem_of_nil]|].
  apply elem_of_cons in Hin as [?|Hin]; [congruence|]. destruct (IH Hin) as (s & rest & -> & Hs).
  exists (c :: s), rest. split; [done|]. by apply not_elem_of_cons.
Qed.

(** An element of a list is found, and what follows it is a shorter list. *)
Lemma next_element_step pre s rest :
  0 ∉ s -> s <> [] ->
  exists e pre' s' rest', next_element (pre ++ s ++ 0 :: rest) (zlen pre) = Some (e, pre' ++ s' ++ 0 :: rest', zlen pre') /\
    0 ∉ s' /\ zlen s' < zlen s /\ length (pre' ++ s' ++ 0 :: rest') = length (pre ++ s ++ 0 :: rest).
Proof.
  intros H0 Hne. destruct (comma_cases s) as [Hc|(u & v & -> & Hc)].
  - exists s, (pre ++ s), [], rest. rewrite next_element_last by done. rewrite <- app_assoc. split_and!; [|apply not_elem_of_nil| |done].
    + cbn [app]. do 2 f_equal. zlen_lia.
    + destruct s; [done|zlen_lia].
  - apply not_elem_of_app in H0 as [Hu [_ Hv]%not_elem_of_cons].
    exists u, (pre ++ u ++ [0]), v, rest. rewrite next_element_comma by done. split_and!; [|done|zlen_lia|].
    + do 2 f_equal. zlen_lia.
    + rewrite !length_app. cbn [length]. rewrite ?length_app. cbn [length]. lia.
Qed.

Lemma array_ok_string pre s rest a :
  array_ok a -> length (pre ++ s ++ 0 :: rest) = length a -> array_ok (pre ++ s ++ 0 :: rest).
Proof.
  intros [Hl _] Hlen. split; [unfold zlen in *; by rewrite Hlen|].
  apply elem_of_app. right. apply elem_of_app. right. apply elem_of_cons. by left.
Qed.

Lemma ifch_ok_namesvrs w a : ifch_ok w -> array_ok a -> ifch_ok (w <| cl ::= fun c => c <| namesvrs := a |> |>).
Proof. intros (H1 & H2 & H3 & H4 & H5) Ha. by split_and!. Qed.
Lemma ifch_ok_domains w a : ifch_ok w -> array_ok a -> ifch_ok (w <| cl ::= fun c => c <| domains := a |> |>).
Proof. intros (H1 & H2 & H3 & H4 & H5) Ha. by split_and!. Qed.

Definition resumes (m : CM unit) (Q : ifch_world -> Prop) (w : ifch_world) : Prop := wp m (fun _ => Q) stopped w.

(** Writing to a file leaves the lists as they are. *)
Definition same_lists (w w' : ifch_world) : Prop := cl w' = cl w.
#[local] Instance same_lists_preorder : PreOrder same_lists.
Proof. split; [done|]. unfold same_lists. intros ???. congruence. Qed.
Lemma writeordie_lists fd bs : keeps same_lists (writeordie fd bs).
Proof.
  unfold writeordie, safe_write, cask, file_of, set_file. intros w. unfold mbind, M_bind, gets, modify, mret, M_ret.
  destruct (files _ !! fd); [|done]. destruct (_ <? 0); [done|]. by destruct (_ || _).
Qed.
Lemma writeordie_wp fd bs w (Q : unit -> ifch_world -> Prop) :
  ifch_ok w -> (forall w', ifch_ok w' -> cl w' = cl w -> Q tt w') -> wp (writeordie fd bs) Q stopped w.
Proof.
  intros Hw HQ. pose proof (writeordie_safe fd bs w Hw) as Hs. pose proof (writeordie_lists fd bs w) as Hl.
  unfold wp in *. destruct (writeordie fd bs w) as [[[]|h] w']; [by apply HQ|done].
Qed.

Lemma namesvrs_loop_safe fuel : forall fd pre s rest w,
  ifch_ok w -> namesvrs (cl w) = pre ++ s ++ 0 :: rest -> 0 ∉ s -> zlen s < Z.of_nat fuel ->
  wp (namesvrs_loop fuel fd (zlen pre)) (fun _ w' => ifch_ok w') stopped w.
Proof.
  induction fuel as [|fuel IH]; intros fd pre s rest w Hw Hn H0 Hf; [zlen_lia|]. cbn [namesvrs_loop]. wp_run. rewrite Hn.
  destruct (decide (s = [])) as [->|Hne].
  { cbn [app]. rewrite rd_at0. wp_run. cbn [Z.eqb]. by wp_run. }
  destruct (rd_not_end pre s rest H0 Hne) as (x & -> & Hx0). wp_run. zcase; [done|].
  destruct (next_element_step pre s rest H0 Hne) as (e & pre' & s' & rest' & -> & H0' & Hlt & Hlen). wp_run.
  assert (Ha : array_ok (pre' ++ s' ++ 0 :: rest')).
  { apply (array_ok_string _ _ _ (namesvrs (cl w))); [by destruct Hw as (?&?&?&?)|by rewrite Hn]. }
  apply (ifch_ok_namesvrs _ _ Hw) in Ha.
  apply writeordie_wp; [done|]. intros w2 Hw2 Hc2. wp_run. apply writeordie_wp; [done|]. intros w3 Hw3 Hc3. wp_run.
  apply writeordie_wp; [done|]. intros w4 Hw4 Hc4. apply (IH fd pre' s' rest'); [done| |done|lia].
  by rewrite Hc4, Hc3, Hc2.
Qed.

Lemma domains_loop_safe fuel : forall fd pre s rest n w,
  ifch_ok w -> domains (cl w) = pre ++ s ++ 0 :: rest -> 0 ∉ s -> zlen s < Z.of_nat fuel ->
  wp (domains_loop fuel fd (zlen pre) n) (fun _ w' => ifch_ok w') stopped w.
Proof.
  induction fuel as [|fuel IH]; intros fd pre s rest n w Hw Hn H0 Hf; [zlen_lia|]. cbn [domains_loop]. wp_run. rewrite Hn.
  destruct (decide (s = [])) as [->|Hne].
  { cbn [app]. rewrite rd_at0. wp_run. cbn [Z.eqb]. by wp_run. }
  destruct (rd_not_end pre s rest H0 Hne) as (x & -> & Hx0). wp_run. zcase; [done|].
  destruct (next_element_step pre s rest H0 Hne) as (e & pre' & s' & rest' & -> & H0' & Hlt & Hlen). wp_run.
  assert (Ha : array_ok (pre' ++ s' ++ 0 :: rest')).
  { apply (array_ok_string _ _ _ (domains (cl w))); [by destruct Hw as (?&?&?&?&?)|by rewrite Hn]. }
  apply (ifch_ok_domains _ _ Hw) in Ha.
  set (w0 := set_field cl _ w) in *.
  assert (Hgo : forall w', ifch_ok w' -> cl w' = cl w0 ->
    wp (if 6 <? n + 1 then mret tt else domains_loop fuel fd (zlen pre') (n + 1)) (fun _ w' => ifch_ok w') stopped w').
  { intros w' Hw' Hd. destruct (_ <? _); [by wp_run|]. apply (IH fd pre' s' rest'); [done|by rewrite Hd|done|lia]. }
  destruct (n =? 0); [|destruct (n =? 1)]; wp_run;
    repeat (apply writeordie_wp; [done|]; intros ? ? ?; wp_run); apply Hgo; (done || congruence).
Qed.

Lemma all_namesvrs_safe fd : csafe (namesvrs_loop list_fuel fd 0).
Proof.
  intros w Hw. pose proof Hw as (_ & _ & [Hl Hn] & _). destruct (has_nul_string _ Hn) as (s & rest & Hs & H0).
  apply (namesvrs_loop_safe list_fuel fd [] s rest); try done. rewrite Hs in Hl. unfold list_fuel, MAX_BUF in *. zlen_lia.
Qed.
Lemma all_domains_safe fd n : csafe (domains_loop list_fuel fd 0 n).
Proof.
  intros w Hw. pose proof Hw as (_ & _ & _ & [Hl Hn] & _). destruct (has_nul_string _ Hn) as (s & rest & Hs & H0).
  apply (domains_loop_safe list_fuel fd [] s rest); try done. rewrite Hs in Hl. unfold list_fuel, MAX_BUF in *. zlen_lia.
Qed.
#[local] Hint Resolve all_namesvrs_safe all_domains_safe : csafe.

Lemma csafe_string {A} (arr : ifch_world -> list Z) (f : Z -> CM A) :
  (forall w, ifch_ok w -> 0 ∈ arr w) -> (forall n, csafe (f n)) -> csafe (a ← gets arr; n ← ub (strlen a); f n).
Proof.
  intros Harr Hf w Hw. destruct (has_nul_string _ (Harr w Hw)) as (s & rest & Hs & H0). wp_run. rewrite Hs.
  rewrite strlen_string by done. wp_run. by apply Hf.
Qed.

Lemma write_resolve_conf_safe : csafe write_resolve_conf.
Proof.
  unfold write_resolve_conf. csafe_step; [csafe_tac|]. csafe_step; [csafe_tac|].
  apply csafe_string; [by intros w (_ & _ & [_ ?] & _)|]. intros n. csafe_tac.
Qed.
#[local] Hint Resolve write_resolve_conf_safe : csafe.

(** ** The commands *)

Lemma snprintf_s_array a s : array_ok a -> exists a', snprintf_s a MAX_BUF s = Some a' /\ array_ok a'.
Proof.
  intros [Ha _]. unfold snprintf_s. set (t := take _ s).
  assert (Ht : zlen t < MAX_BUF) by (subst t; unfold zlen, MAX_BUF; rewrite length_take; lia).
  rewrite wr_range_Some by zlen_lia. eexists. split; [done|]. change (take (Z.to_nat 0) a) with (@nil Z). cbn [app].
  split; [unfold zlen in *; rewrite !length_app, length_drop; cbn [length]; lia|].
  apply elem_of_app. left. apply elem_of_app. right. apply elem_of_cons. by left.
Qed.

Lemma perform_dns_safe str n : csafe (perform_dns str n).
Proof.
  unfold perform_dns. csafe_step; [csafe_tac|]. csafe_step; [csafe_tac|]. csafe_step; [csafe_tac|].
  intros w Hw. wp_run. pose proof Hw as (_ & _ & Hns & _).
  destruct (snprintf_s_array _ (until_nul str) Hns) as (a' & -> & Ha'). wp_run.
  apply write_resolve_conf_safe. by apply ifch_ok_namesvrs.
Qed.
Lemma perform_domain_safe str n : csafe (perform_domain str n).
Proof.
  unfold perform_domain. csafe_step; [csafe_tac|]. csafe_step; [csafe_tac|]. csafe_step; [csafe_tac|].
  intros w Hw. wp_run. pose proof Hw as (_ & _ & _ & Hds & _).
  destruct (snprintf_s_array _ (until_nul str) Hds) as (a' & -> & Ha'). wp_run.
  apply write_resolve_conf_safe. by apply ifch_ok_domains.
Qed.
Lemma perform_hostname_safe str n : 0 <= n <= zlen str -> csafe (perform_hostname str n).
Proof.
  intros Hn. unfold perform_hostname. csafe_tac.
  destruct (rd_range_Some str 0 n) as (d & -> & _); [lia..|]. intros w Hw. by wp_run.
Qed.

(** The argument of an "ip4" command is two or three addresses. *)
Lemma ip4set_arg_inv s :
  lang (RRange 1 2 v4comma ⋅ v4addr : ragel ifchd_action) s ->
  exists ip sn bc, s = ip4_arg_text ip sn bc /\ lang (v4addr : ragel ifchd_action) ip /\
    lang (v4addr : ragel ifchd_action) sn /\ (forall b, bc = Some b -> lang (v4addr : ragel ifchd_action) b).
Proof.
  assert (Hcomma : forall t, lang (v4comma : ragel ifchd_action) t ->
    exists a, t = a ++ sep /\ lang (v4addr : ragel ifchd_action) a).
  { intros t (a & c & -> & Ha & Hc)%lang_seq_inv. apply (lang_lit_inv [ch ","%char]) in Hc as ->. by exists a. }
  intros (u & z & -> & Hu & Hz)%lang_seq_inv. apply lang_seq_inv in Hu as (x & y & -> & Hx & Hy).
  destruct (Hcomma x Hx) as (a & -> & Ha). apply lang_alt_inv in Hy as [Hy|Hy].
  - inversion Hy. subst. exists a, z, None. unfold ip4_arg_text. rewrite !app_nil_r, <- !app_assoc. done.
  - apply lang_seq_inv in Hy as (y1 & y2 & -> & Hy1 & Hy2).
    destruct (Hcomma y1 Hy1) as (b & -> & Hb). inversion Hy2. subst. exists a, b, (Some z). unfold ip4_arg_text.
    rewrite !app_nil_r, <- !app_assoc. split_and!; [done..|]. by intros ? [= <-].
Qed.

Lemma perform_command_safe c : command_ok c -> csafe (perform_command c).
Proof.
  intros [Hne Hc]. unfold perform_command. csafe_step; [csafe_tac|].
  destruct c as [st txt]. cbn [fst snd] in *. destruct st; cbn [perform]; try done;
    try (apply csafe_lift_ifset); try apply csafe_ret.
  - apply ip4set_arg_inv in Hc as (ip & sn & bc & -> & Hip & Hsn & Hbc). intros w Hw.
    eapply wp_eq; [by apply perform_ip4set_addresses|]. revert w Hw.
    apply csafe_lift_ifset. by apply perform_ip_subnet_bcast_safe.
  - by apply perform_router_safe.
  - apply perform_dns_safe.
  - apply perform_hostname_safe. zlen_lia.
  - apply perform_domain_safe.
  - by apply perform_mtu_safe.
  - by apply perform_carrier_safe.
Qed.
Lemma run_commands_safe cs : Forall command_ok cs -> forall n, csafe (run_commands cs n).
Proof.
  induction 1 as [|c cs Hc _ IH]; intros n; cbn [run_commands]; [csafe_tac|].
  csafe_step; [by apply perform_command_safe|]. csafe_tac.
Qed.
Lemma inform_execute_safe c : csafe (inform_execute c).
Proof. unfold inform_execute. csafe_tac. Qed.
Lemma answer_safe ebr : csafe (answer ebr).
Proof. unfold answer. csafe_tac; apply inform_execute_safe. Qed.

(** A request, whatever it holds. *)
Lemma process_client_socket_safe : csafe process_client_socket.
Proof.
  intros w Hw. unfold process_client_socket, cask. wp_run. set (w1 := set_field ch_tick _ w).
  assert (Hw1 : ifch_ok w1) by exact Hw.
  destruct (ch_recv _) as [| |data]; wp_run; [done|by left; eexists|]. cbv zeta.
  destruct (_ =? 0); wp_run; [by right; left|]. fold (received_text data).
  destruct (received_text_ok data) as [Hnz Hl]. pose proof Hw1 as (Hil & Hic & _).
  assert (Hrest : forall r w', ifch_ok w' -> wp (if r <? 0 then
       inform_execute (ch "-"%char);; if r =? -99 then suicide "process_client_socket: received invalid commands" else mret tt
       else inform_execute (ch "+"%char)) (fun _ w' => ifch_ok w') stopped w') by (intros r w' Hw'; by apply answer_safe).
  destruct (accepts ifchd_parser (received_text data)) eqn:Ea.
  - apply accepts_lang, request_lang in Ea as (cs & Hcs & Hok & Ht). rewrite Ht in *.
    eapply wp_eq; [by apply execute_request|]. eapply wp_mono; [by apply run_commands_safe| |done].
    intros r w' Hw'. by apply Hrest.
  - assert (Hno : ~ lang ifchd_parser (received_text data)) by (rewrite <- accepts_lang; congruence).
    destruct (execute_any (received_text data) w1 Hnz Hl Hic Hil Hno) as (cs & t & Hok & _ & _ & Hx).
    pose proof (run_commands_safe cs Hok 0 w1 Hw1) as Hrun. unfold wp in Hrun at 1.
    eapply wp_mono; [exact Hx|..].
    + intros r w' (-> & _). change (-99 <? 0) with true. change (-99 =? -99) with true. cbv iota.
      unfold inform_execute, cemit, cask. wp_run.
      destruct (_ =? 0); [|destruct (_ <? 0)]; wp_run; first [by right; left|by left; eexists].
    + intros h w' Heq. by rewrite Heq in Hrun.
Qed.
End Safe.
