(* ===== verification/Ifproto.v ===== *)
(** The protocol between the master and ndhc-ifch: the texts that [ifchange.c]
    builds, as [ifchd-parse.rl] and [ifset.c] read them. *)

From stdpp Require Import gmap.
From S2P Require Import Prelude Types Options World Samples Ifchange Dhcp Nl Netlink Ifset Ifchd Ragel Ifchparse Ifcmd.
Import Codec.
Local Open Scope ragel_scope.

(** * Printed addresses *)

Lemma dec_cases b :
  0 <= b < 256 ->
  b < 10 /\ dec b = [48 + b] \/
  10 <= b < 100 /\ dec b = [48 + b / 10; 48 + b mod 10] \/
  100 <= b /\ dec b = [48 + b / 100; 48 + (b / 10) mod 10; 48 + b mod 10].
Proof.
  intros Hb. unfold dec. cbn [dec_loop].
  assert (H1 : b / 10 / 10 = b / 100) by (rewrite Z.div_div by lia; done).
  assert (H2 : b / 100 / 10 = 0) by (rewrite Z.div_div by lia; apply Z.div_small; lia).
  destruct (Z.ltb_spec b 10).
  - left. rewrite (Z.div_small b 10) by lia. cbn. by rewrite Z.mod_small by lia.
  - right. assert (b / 10 <> 0) by (Z.div_mod_to_equations; lia).
    destruct (Z.ltb_spec b 100).
    + left. split; [done|]. zcase; [done|]. rewrite H1, (Z.div_small b 100) by lia. cbn.
      rewrite (Z.mod_small (b / 10)) by (Z.div_mod_to_equations; lia). done.
    + right. assert (b / 100 <> 0) by (Z.div_mod_to_equations; lia).
      split; [done|]. zcase; [done|]. rewrite H1. zcase; [done|]. rewrite H2. cbn.
      rewrite (Z.mod_small (b / 100)) by (Z.div_mod_to_equations; lia). done.
Qed.

Lemma dec_form {A} b : 0 <= b < 256 -> lang (RRange 1 3 digit : ragel A) (dec b).
Proof.
  assert (Hd : forall c, 48 <= c <= 57 -> lang (digit : ragel A) [c]).
  { intros c Hc. constructor. cbn. lia. }
  assert (Hup : forall k s, Forall (fun c => 48 <= c <= 57) s -> (length s <= k)%nat -> lang (RUpTo k (digit : ragel A)) s).
  { induction k as [|k IH]; intros s Hs Hk; [destruct s; [constructor|cbn in Hk; lia]|].
    destruct s as [|c s]; [do 2 constructor|]. cbn [RUpTo]. apply lang_alt_r. change (c :: s) with ([c] ++ s).
    apply Forall_cons in Hs as [Hc Hs]. constructor; [by apply Hd|]. apply IH; [done|cbn in Hk; lia]. }
  intros Hb. unfold RRange. cbn [RTimes Nat.sub].
  assert (Hs : exists c s, dec b = [c] ++ s /\ 48 <= c <= 57 /\ Forall (fun c => 48 <= c <= 57) s /\ (length s <= 2)%nat).
  { destruct (dec_cases b Hb) as [[H ->]|[[H ->]|[H ->]]].
    - exists (48 + b), []. split_and!; [done|lia..|constructor|cbn; lia].
    - exists (48 + b / 10), [48 + b mod 10]. split_and!; [done|Z.div_mod_to_equations; lia..| |cbn; lia].
      repeat constructor; Z.div_mod_to_equations; lia.
    - exists (48 + b / 100), [48 + (b / 10) mod 10; 48 + b mod 10].
      split_and!; [done|Z.div_mod_to_equations; lia..| |cbn; lia].
      repeat constructor; Z.div_mod_to_equations; lia. }
  destruct Hs as (c & s & -> & Hc & Hs & Hl). constructor; [by apply Hd|by apply Hup].
Qed.

Lemma inet_ntop_shape b s :
  inet_ntop b = Some s -> exists b0 b1 b2 b3 rest, b = b0 :: b1 :: b2 :: b3 :: rest /\
  s = dec b0 ++ ch "." :: dec b1 ++ ch "." :: dec b2 ++ ch "." :: dec b3.
Proof.
  unfold inet_ntop. destruct b as [|b0 [|b1 [|b2 [|b3 rest]]]]; try done.
  change (rd _ 0) with (Some b0). change (rd _ 1) with (Some b1).
  change (rd _ 2) with (Some b2). change (rd _ 3) with (Some b3).
  cbn [mbind option_bind]. intros [= <-]. eauto 10.
Qed.

(** What [inet_ntop] prints, the grammar calls an address. *)
Lemma inet_ntop_form {A} b s : bytes_ok b = true -> inet_ntop b = Some s -> lang (v4addr : ragel A) s.
Proof.
  intros Hb (b0 & b1 & b2 & b3 & rest & -> & ->)%inet_ntop_shape.
  apply bytes_ok_Forall in Hb. repeat apply Forall_cons in Hb as [? Hb].
  assert (Hdot : lang (rchar (ch ".") : ragel A) [ch "."]) by (by constructor).
  unfold v4addr. rewrite !(cons_middle (ch ".")), !app_assoc.
  repeat (constructor; [|done || by apply dec_form]). by apply dec_form.
Qed.

Lemma v4addr_chars {A} s : lang (v4addr : ragel A) s -> 0 ∉ s /\ ch "," ∉ s /\ ch ";" ∉ s.
Proof. intros Hs. split_and!; eapply avoids_lang; try exact Hs; vm_compute; reflexivity. Qed.

(** [inet_pton] reads what [inet_ntop] prints. *)
Lemma inet_pton_digit d s saw cur octs :
  0 <= d <= 9 -> saw = true /\ cur <> 0 \/ saw = false /\ cur = 0 /\ zlen octs <= 3 ->
  cur * 10 + d <= 255 ->
  inet_pton_loop (48 + d :: s) saw cur octs = inet_pton_loop s true (cur * 10 + d) octs.
Proof.
  intros Hd Hs Hc. cbn [inet_pton_loop]. replace ((48 <=? 48 + d) && (48 + d <=? 57)) with true by lia.
  replace (cur * 10 + (48 + d - 48)) with (cur * 10 + d) by lia.
  replace (saw && (cur =? 0)) with false by (destruct Hs as [[-> ?]|[-> ?]]; lia).
  replace (255 <? cur * 10 + d) with false by lia.
  by replace (negb saw && (3 <? zlen octs)) with false by (destruct Hs as [[-> ?]|[-> ?]]; lia).
Qed.

Lemma inet_pton_dec b octs s :
  0 <= b < 256 -> zlen octs <= 3 ->
  inet_pton_loop (dec b ++ s) false 0 octs = inet_pton_loop s true b octs.
Proof.
  intros Hb Ho. destruct (dec_cases b Hb) as [[H ->]|[[H ->]|[H ->]]]; cbn [app].
  - rewrite inet_pton_digit by lia. f_equal; lia.
  - do 2 (rewrite inet_pton_digit by (Z.div_mod_to_equations; lia)). f_equal. Z.div_mod_to_equations; lia.
  - do 3 (rewrite inet_pton_digit by (Z.div_mod_to_equations; lia)). f_equal. Z.div_mod_to_equations; lia.
Qed.
Lemma inet_pton_dot b octs s :
  zlen octs < 3 ->
  inet_pton_loop (ch "." :: s) true b octs = inet_pton_loop s false 0 (octs ++ [b]).
Proof. intros Ho. cbn [inet_pton_loop]. 
  replace ((48 <=? ch ".") && (ch "." <=? 57)) with false by reflexivity.
  replace ((ch "." =? ch ".") && true) with true by reflexivity.
  by replace (zlen octs =? 3) with false by lia. Qed.

Lemma inet_pton_ntop b s :
  bytes_ok b = true -> inet_ntop b = Some s -> inet_pton s = Some (take 4 b).
Proof.
  intros Hb Hs. pose proof (inet_ntop_form (A := unit) b s Hb Hs) as Hf.
  apply v4addr_chars in Hf as (H0 & _). unfold inet_pton. rewrite until_nul_id by done.
  apply inet_ntop_shape in Hs as (b0 & b1 & b2 & b3 & rest & -> & ->).
  apply bytes_ok_Forall in Hb. repeat (apply Forall_cons in Hb as [? Hb]).
  rewrite inet_pton_dec, inet_pton_dot by done. cbn [app].
  rewrite inet_pton_dec, inet_pton_dot by done. cbn [app].
  rewrite inet_pton_dec, inet_pton_dot by done. cbn [app].
  rewrite <- (app_nil_r (dec b3)), inet_pton_dec by done. done.
Qed.

(** * The commands of the master *)

(** A command whose argument holds no NUL, so that it survives as a C string. *)
Definition text_command (c : ifch_command) : Prop :=
  command_ok c /\ avoids 0 (arg_form c.1) = true.

(** An option printed as a string: what the command language can carry. *)
Definition clean_text (d : list Z) : Prop := until_nul d <> [] /\ ch ";" ∉ until_nul d.

Lemma ifcmd_raw_command bl st name d t :
  ifcmd_raw bl name d = Some t -> keyword_text st = name ++ [ch ":"] ->
  st <> STATE_NOTHING -> avoids 0 (arg_form st) = true -> lang (arg_form st) (until_nul d) ->
  exists c, text_command c /\ t = command_text c.
Proof.
  intros Ht Hk Hst H0 Ha. exists (st, until_nul d). split; [done|]. unfold command_text. cbn [fst snd].
  rewrite Hk, <- app_assoc. revert Ht. unfold ifcmd_raw. zcases; by intros [= <-].
Qed.

(** A list of addresses as [ifcmd_iplist] prints it. *)
Lemma iplist_form fuel od o acc t :
  bytes_ok od = true -> lang (arg_form STATE_DNS) acc -> iplist_loop fuel od o acc = Some t ->
  lang (arg_form STATE_DNS) t.
Proof.
  intros Hb. revert o acc. induction fuel as [|fuel IH]; intros o acc Ha; [done|]. cbn [iplist_loop].
  zcase; [|by intros [= <-]]. destruct (rd_range od o 4) as [a|] eqn:Er; [|done].
  cbn [mbind option_bind]. destruct (inet_ntop a) as [ip|] eqn:Ei; [|done]. cbn [mbind option_bind].
  zcase; [done|]. apply IH.
  assert (Hip : lang (v4addr : ragel ifchd_action) ip)
    by (eapply inet_ntop_form; [by eapply bytes_ok_rd_range|done]).
  apply lang_seq_inv in Ha as (u & v & -> & Hu & Hv).
  rewrite cons_middle, !app_assoc. constructor; [|done]. rewrite <- app_assoc.
  assert (Hw : lang v4comma (v ++ [ch ","])) by (constructor; [done|by constructor]).
  clear - Hu Hw. remember (RStar v4comma) as r eqn:Er.
  induction Hu; try done; injection Er as ->.
  - rewrite <- (app_nil_r (_ ++ _)). constructor; [done|constructor].
  - rewrite <- app_assoc. constructor; [done|]. by apply IHHu2.
Qed.

Lemma ifcmd_iplist_form bl name od t :
  bytes_ok od = true -> ifcmd_iplist bl name od = Some (Some t) ->
  exists s, lang (arg_form STATE_DNS) s /\ ifcmd_raw bl name s = Some t /\ until_nul s = s.
Proof.
  intros Hb. unfold ifcmd_iplist. zcase; [done|]. destruct (inet_ntop od) as [ip|] eqn:Ei; [|done].
  cbn [mbind option_bind]. destruct (iplist_loop _ od 4 ip) as [s|] eqn:El; [|done].
  cbn [mbind option_bind]. intros [= Ht]. exists s.
  assert (Hs : lang (arg_form STATE_DNS) s).
  { eapply iplist_form; [done| |done]. cbn [arg_form]. rewrite <- (app_nil_l ip).
    constructor; [constructor|]. by eapply inet_ntop_form. }
  split_and!; [done..|]. apply until_nul_id. eapply avoids_lang; [|done]. vm_compute. reflexivity.
Qed.

(** The options whose text the language cannot always carry. *)
Definition clean_names (p : dhcpmsg) : Prop :=
  (forall d, get_dhcp_opt p DCODE_HOSTNAME MAX_DOPT_SIZE = Some d -> d = [] \/ clean_text d) /\
  (forall d, get_dhcp_opt p DCODE_DOMAIN MAX_DOPT_SIZE = Some d -> d = [] \/ clean_text d).
Definition no_mtu (p : dhcpmsg) : Prop :=
  forall d, get_dhcp_opt p DCODE_MTU MAX_DOPT_SIZE = Some d -> zlen d < 2.
Definition carriable (p : dhcpmsg) : Prop := clean_names p /\ no_mtu p.

Lemma clean_text_form d st :
  arg_form st = arg_form STATE_HOSTNAME -> clean_text d -> lang (arg_form st) (until_nul d).
Proof.
  intros -> [Hne Hsc]. cbn [arg_form].
  assert (Hz : 0 ∉ until_nul d).
  { clear. induction d as [|c d IH]; cbn [until_nul]; [apply not_elem_of_nil|].
    zcase; [apply not_elem_of_nil|]. rewrite not_elem_of_cons. by split. }
  revert Hne Hsc Hz. generalize (until_nul d) as s. intros s Hne Hsc Hz.
  assert (Hc : forall c, c ∈ s -> lang (RClass (CNoneOf [ch ";"; 0]) : ragel ifchd_action) [c]).
  { intros c Hc. constructor. cbn. assert (c <> ch ";") by (by intros ->). assert (c <> 0) by (by intros ->).
    change (ch ";") with 59 in *. lia. }
  clear Hsc Hz. destruct s as [|c s]; [done|]. change (c :: s) with ([c] ++ s).
  constructor; [apply Hc, list_elem_of_here|].
  assert (Hs : forall d, d ∈ s -> lang (RClass (CNoneOf [ch ";"; 0]) : ragel ifchd_action) [d])
    by (intros; apply Hc; by right).
  clear Hc Hne. induction s as [|e s IH]; [constructor|]. change (e :: s) with ([e] ++ s).
  constructor; [apply Hs, list_elem_of_here|]. apply IH. intros. apply Hs. by right.
Qed.

Lemma send_cmd_command olen cfg p code t :
  opt_bufs_ok p -> clean_names p -> (code = DCODE_MTU -> no_mtu p) -> code ∈ bind_codes ->
  send_cmd olen cfg p code = Some t ->
  t = [] \/ exists c, text_command c /\ t = command_text c.
Proof.
  intros Hp (Hh & Hdm) Hm Hcode. unfold send_cmd.
  destruct (get_opt_total p code Hp) as (d & Hd & Hdl & Hdb). rewrite Hd. cbn [mbind option_bind].
  zcase; [intros [= <-]; by left|]. destruct (get_dhcp_opt cfg code MAX_DOPT_SIZE) as [old|]; [|done].
  cbn [mbind option_bind]. destruct (_ && _); [intros [= <-]; by left|].
  destruct (ifchd_cmd olen d code) as [[t'|]|] eqn:Ec; [|intros [= <-]; by left|done].
  cbn [mbind option_bind default]. intros [= <-]. right.
  assert (Hne : d <> []) by (intros ->; by apply Hz).
  unfold bind_codes in Hcode. rewrite !elem_of_cons, elem_of_nil in Hcode.
  assert (Hlist : forall st name, keyword_text st = name ++ [ch ":"] -> arg_form st = arg_form STATE_DNS ->
    st <> STATE_NOTHING -> ifcmd_iplist olen name d = Some (Some t') ->
    exists c, text_command c /\ t' = command_text c).
  { intros st name Hk Hf Hst (s & Hs & Ht & Hu)%ifcmd_iplist_form; [|done].
    eapply ifcmd_raw_command; [exact Ht|exact Hk|exact Hst|by rewrite Hf|]. by rewrite Hu, Hf. }
  assert (Htext : forall st name, keyword_text st = name ++ [ch ":"] -> arg_form st = arg_form STATE_HOSTNAME ->
    st <> STATE_NOTHING -> d = [] \/ clean_text d -> ifcmd_raw olen name d = Some t' ->
    exists c, text_command c /\ t' = command_text c).
  { intros st name Hk Hf Hst [?|Hc] Ht; [done|].
    eapply ifcmd_raw_command; [exact Ht|exact Hk|exact Hst|by rewrite Hf|]. by apply clean_text_form. }
  destruct Hcode as [-> |[-> |[-> |[-> |[-> |[-> |[]]]]]]].
  - change (ifchd_cmd olen d DCODE_ROUTER) with (ifcmd_ip olen (chars "routr") d) in Ec.
    revert Ec. unfold ifcmd_ip. zcase; [done|]. destruct (inet_ntop d) as [ip|] eqn:Ei; [|done].
    cbn [mbind option_bind]. intros [= Ht].
    pose proof (inet_ntop_form (A := ifchd_action) d ip Hdb Ei) as Hf.
    eapply (ifcmd_raw_command _ STATE_ROUTER); [exact Ht|done..|].
    rewrite until_nul_id; [done|]. by apply v4addr_chars in Hf as (? & _).
  - apply (Hlist STATE_DNS (chars "dns")); [reflexivity|reflexivity|done|exact Ec].
  - injection Ec as Ht. apply (Htext STATE_HOSTNAME (chars "host")); [reflexivity|reflexivity|done| |exact Ht]. by apply Hh.
  - injection Ec as Ht. apply (Htext STATE_DOMAIN (chars "dom")); [reflexivity|reflexivity|done| |exact Ht]. by apply Hdm.
  - change (ifchd_cmd olen d DCODE_MTU) with (ifcmd_u16 olen (chars "mtu") d) in Ec.
    revert Ec. unfold ifcmd_u16. specialize (Hm eq_refl d Hd). zcase; [done|lia].
  - apply (Hlist STATE_WINS (chars "wins")); [reflexivity|reflexivity|done|exact Ec].
Qed.

Lemma send_cmds_request cfg p codes buf t :
  opt_bufs_ok p -> clean_names p -> (DCODE_MTU ∈ codes -> no_mtu p) -> codes ⊆ bind_codes ->
  send_cmds cfg p codes buf = Some t ->
  exists cs, Forall text_command cs /\ t = buf ++ request_text cs.
Proof.
  intros Hp Hc. revert buf. induction codes as [|code codes IH]; intros buf Hm Hcodes; cbn [send_cmds].
  { intros [= <-]. exists []. by rewrite app_nil_r. }
  destruct (send_cmd _ cfg p code) as [u|] eqn:Eu; [|done]. cbn [mbind option_bind]. intros Hs.
  apply IH in Hs as (cs & Hcs & ->); [|intros ?; apply Hm; by right|set_solver].
  apply send_cmd_command in Eu as [->|(c & Hok & ->)];
    [| |done..|intros ->; apply Hm, list_elem_of_here|apply Hcodes, list_elem_of_here].
  - exists cs. by rewrite app_nil_r.
  - exists (c :: cs). split; [by constructor|]. by rewrite <- app_assoc.
Qed.

(** The three texts of [send_client_ip] are addresses. *)
Lemma send_client_ip_request olen cfg p t :
  opt_bufs_ok p -> send_client_ip olen cfg p = Some t ->
  t = [] \/ exists c, text_command c /\ c.1 = STATE_IP4SET /\ t = command_text c.
Proof.
  intros Hp. unfold send_client_ip.
  destruct (inet_ntop (le32 (yiaddr p))) as [ip|] eqn:Eip; [|done]. cbn [mbind option_bind].
  destruct (get_opt_total p DCODE_SUBNET Hp) as (sd & -> & _ & Hsb). cbn [mbind option_bind].
  destruct (if 4 <=? zlen sd then Some <$> inet_ntop sd else Some None) as [sn|] eqn:Esn; [|done].
  cbn [mbind option_bind]. 
  destruct (if 4 <=? zlen sd then option_changed cfg p DCODE_SUBNET sd else Some false) as [b1|]; [|done].
  cbn [mbind option_bind].
  destruct (get_opt_total p DCODE_BROADCAST Hp) as (bd & -> & _ & Hbb). cbn [mbind option_bind].
  destruct (if 4 <=? zlen bd then Some <$> inet_ntop bd else Some None) as [bc|] eqn:Ebc; [|done].
  cbn [mbind option_bind]. 
  destruct (if 4 <=? zlen bd then option_changed cfg p DCODE_BROADCAST bd else Some false) as [b2|]; [|done].
  cbn [mbind option_bind]. destruct (_ && _); [intros [= <-]; by left|].
  destruct (olen <=? _); [intros [= <-]; by left|]. intros [= <-]. right.
  assert (Hip : lang (v4addr : ragel ifchd_action) ip)
    by (by eapply inet_ntop_form; [apply le32_ok|]).
  assert (Ho : forall d o, bytes_ok d = true -> (if 4 <=? zlen d then Some <$> inet_ntop d else Some None) = Some o ->
    forall s, o = Some s -> lang (v4addr : ragel ifchd_action) s).
  { intros d o Hd Ho s ->. destruct (4 <=? zlen d); [|done].
    destruct (inet_ntop d) as [s'|] eqn:E; [|done]. injection Ho as <-. by eapply inet_ntop_form. }
  assert (Hsn : lang (v4addr : ragel ifchd_action) (default (chars "255.255.255.0") sn)).
  { destruct sn as [sn|]; [exact (Ho sd (Some sn) Hsb Esn sn eq_refl)|]. apply accepts_lang. vm_compute. reflexivity. }
  assert (Hcm : forall s, lang (v4addr : ragel ifchd_action) s -> lang v4comma (s ++ [ch ","]))
    by (intros; by repeat constructor).
  set (sn' := default _ sn) in *.
  exists (STATE_IP4SET, ip ++ ch "," :: sn' ++ match bc with Some bc => ch "," :: bc | None => [] end).
  split_and!; [split; [split; [done|]|done]|done|].
  - cbn [arg_form fst snd]. unfold RRange. cbn [RTimes RUpTo Nat.sub]. destruct bc as [bc|].
    + specialize (Ho bd (Some bc) Hbb Ebc bc eq_refl).
      rewrite !(cons_middle (ch ",")), !app_assoc. constructor; [|done]. rewrite <- !app_assoc, app_assoc.
      constructor; [by apply Hcm|]. apply lang_alt_r. rewrite <- (app_nil_r (sn' ++ _)).
      constructor; [by apply Hcm|constructor].
    + rewrite app_nil_r, cons_middle, app_assoc. constructor; [|done].
      rewrite <- (app_nil_r (ip ++ _)). constructor; [by apply Hcm|]. do 2 constructor.
  - unfold command_text. cbn [fst snd keyword_text]. by rewrite <- !app_assoc, <- app_comm_cons, <- app_assoc.
Qed.

Lemma bind_command_request cfg p t :
  opt_bufs_ok p -> carriable p -> bind_command cfg p = Some t ->
  exists cs, Forall text_command cs /\ t = request_text cs.
Proof.
  intros Hp [Hc Hm]. unfold bind_command. destruct (send_client_ip 2048 cfg p) as [u|] eqn:Eu; [|done].
  cbn [mbind option_bind]. intros (cs & Hcs & ->)%send_cmds_request; [|done..].
  apply send_client_ip_request in Eu as [->|(c & Hok & _ & ->)]; [by exists cs| |done].
  exists (c :: cs). by split; [constructor|].
Qed.

Lemma text_request_nonul cs : Forall text_command cs -> Forall (fun c => c <> 0) (request_text cs).
Proof.
  induction 1 as [|c cs [[Hn Ha] H0] _ IH]; [constructor|].
  unfold request_text. rewrite fmap_cons, mjoin_cons. apply Forall_app. split; [|done].
  unfold command_text. rewrite !Forall_app. split_and!.
  - destruct c as [[] a]; cbn; repeat constructor; done.
  - apply Forall_forall. intros x Hx ->. by apply (avoids_lang _ _ _ H0 Ha).
  - by repeat constructor.
Qed.

(** * Properties *)

(** The two processes agree on the command language: whatever lease a server
    grants, as long as its host and domain names are clean and it sets no MTU, the
    request that the master builds for it is a sequence of well-formed commands, and
    ndhc-ifch executes exactly these, in order. *)
Theorem bind_request_executed `{!IfchEnv} (cfg packet : dhcpmsg) (text : list Z) (w : ifch_world) :
  dhcpmsg_ok cfg = true -> dhcpmsg_ok packet = true -> carriable packet ->
  bind_command cfg packet = Some text -> text <> [] -> zlen text < MAX_BUF ->
  cstr (ibuf (cl w)) = Some [] ->
  exists cs, cs <> [] /\ Forall command_ok cs /\ text = request_text cs /\
    execute_buffer text w = run_commands cs 0 w.
Proof.
  intros _ Hp Hc Hb Hne Hl Hib.
  apply bind_command_request in Hb as (cs & Hcs & ->); [|by apply dhcpmsg_ok_bufs|done].
  assert (Hok : Forall command_ok cs) by (eapply Forall_impl; [exact Hcs|by intros ? []]).
  assert (Hn : cs <> []) by (by intros ->). exists cs. split_and!; [done..|].
  apply execute_request; try done. by apply text_request_nonul.
Qed.

Definition sample_lease : dhcpmsg := sample_message 5 [3; 4; 10; 0; 0; 254; 6; 8; 10; 0; 0; 1; 10; 0; 0; 2].

Lemma bind_request_executed_witness :
  let E := sample_ifch_env [] in
  exists text, bind_command dhcpmsg_zero sample_lease = Some text /\
  exists cs, cs <> [] /\ Forall command_ok cs /\ text = request_text cs /\
    execute_buffer text sample_ifch_world = run_commands cs 0 sample_ifch_world.
Proof.
  intros E. eexists. split; [vm_compute; reflexivity|].
  apply (bind_request_executed dhcpmsg_zero sample_lease _ sample_ifch_world); try (vm_compute; reflexivity).
  - (split; [split|]); intros d Hd; vm_compute in Hd; injection Hd as <-; [by left..|vm_compute; reflexivity].
  - discriminate.
Defined.

(** The text that [ifchange.c] prints for an MTU. *)
Lemma mtu_text bl d t :
  bytes_ok d = true -> ifchd_cmd bl d DCODE_MTU = Some (Some t) ->
  exists v, 0 <= v < 65536 /\ rd_range d 0 2 = Some (le16 (htons v)) /\
    t = chars "mtu:" ++ until_nul (dec v) ++ [ch ";"].
Proof.
  intros Hb. change (ifchd_cmd bl d DCODE_MTU) with (ifcmd_u16 bl (chars "mtu") d). unfold ifcmd_u16.
  zcase; [done|]. destruct (rd_range_Some d 0 2) as (v & Hv & Hl); [lia..|]. rewrite Hv.
  cbn [mbind option_bind]. intros [= Ht].
  assert (Hbv : bytes_ok v = true) by by eapply bytes_ok_rd_range.
  destruct v as [|a [|b [|]]]; try (by zlen_lia).
  exists (htons (of_le [a; b])). split; [apply htons_range|]. split.
  - pose proof (of_le_range [a; b] Hbv) as Hr. change (256 ^ zlen [a; b]) with (2 ^ 16) in Hr.
    rewrite htons_htons by lia. by rewrite le16_of_le.
  - revert Ht. unfold ifcmd_raw. change (ntohs ?x) with (htons x). zcases; by intros [= <-].
Qed.

Lemma mtu_arg_trace c1 c2 c3 s : c3 <> ch ";" -> trace_run [at_arg STATE_MTU] (c1 :: c2 :: c3 :: s) = None.
Proof.
  intros Hc. change (ch ";") with 59 in Hc. apply Z.eqb_neq in Hc.
  change (trace_run [at_arg STATE_MTU] ([c1; c2] ++ c3 :: s) = None).
  rewrite trace_run_app.
  assert (H2 : exists tr, trace_run [at_arg STATE_MTU] [c1; c2] =
    Some (tr, [RLeave (REps) ArgEn ⋅ terminator ⋅ ifchd_loop])) by (eexists; lazy; reflexivity).
  destruct H2 as [tr ->]. cbn [mbind option_bind fst snd trace_run].
  assert (Hs : step [RLeave (REps) ArgEn ⋅ terminator ⋅ ifchd_loop] c3 = None).
  { unfold step.
    lazy -[Z.eqb ifchd_loop]. rewrite Hc. reflexivity. }
  by rewrite Hs.
Qed.

Lemma dec_digits_only fuel n acc :
  Forall (fun c => 48 <= c <= 57) acc -> Forall (fun c => 48 <= c <= 57) (dec_loop fuel n acc).
Proof.
  revert n acc. induction fuel as [|fuel IH]; intros n acc Ha; [done|]. cbn [dec_loop].
  assert (Forall (fun c => 48 <= c <= 57) (48 + n mod 10 :: acc))
    by (constructor; [Z.div_mod_to_equations; lia|done]).
  zcase; [done|by apply IH].
Qed.
Lemma dec_loop_length fuel n acc : (length acc <= length (dec_loop fuel n acc))%nat.
Proof.
  revert n acc. induction fuel as [|fuel IH]; intros n acc; [done|]. cbn [dec_loop].
  zcase; [cbn; lia|]. etrans; [|apply IH]. cbn. lia.
Qed.
Lemma dec_loop_S fuel n acc :
  dec_loop (S fuel) n acc =
  if n / 10 =? 0 then (48 + n mod 10) :: acc else dec_loop fuel (n / 10) ((48 + n mod 10) :: acc).
Proof. reflexivity. Qed.
Lemma dec_three v :
  100 <= v -> exists c1 c2 c3 s, dec v = c1 :: c2 :: c3 :: s /\ 48 <= c3 <= 57.
Proof.
  intros Hv. assert (Hl : (3 <= length (dec v))%nat).
  { unfold dec. do 2 (rewrite dec_loop_S; zcase; [Z.div_mod_to_equations; lia|]).
    rewrite dec_loop_S. zcase; [cbn; lia|]. etrans; [|apply dec_loop_length]. cbn. lia. }
  assert (Hd : Forall (fun c => 48 <= c <= 57) (dec v)) by by apply dec_digits_only.
  destruct (dec v) as [|c1 [|c2 [|c3 s]]]; [cbn in Hl; lia..|]. exists c1, c2, c3, s. split; [done|].
  repeat (apply Forall_cons in Hd as [? Hd]). lia.
Qed.

Lemma mtu_not_a_request cs v s :
  Forall command_ok cs -> 100 <= v -> ~ lang ifchd_parser (request_text cs ++ chars "mtu:" ++ dec v ++ s).
Proof.
  intros Hcs (c1 & c2 & c3 & t & -> & Hc3)%dec_three Hl. apply accepts_lang in Hl.
  unfold accepts in Hl. rewrite trace_run_app, (request_trace cs _ (or_introl eq_refl) Hcs) in Hl.
  cbn [mbind option_bind fst snd] in Hl. set (rs := match cs with [] => _ | _ => _ end) in Hl.
  assert (Hrs : at_command rs) by (subst rs; destruct cs; [by left|by right]).
  change (chars "mtu:") with (keyword_text STATE_MTU) in Hl.
  rewrite trace_run_app, (keyword_trace rs STATE_MTU Hrs) in Hl by done.
  cbn [mbind option_bind fst snd app] in Hl. rewrite mtu_arg_trace in Hl; [done|].
  change (ch ";") with 59. lia.
Qed.

(** What the daemon keeps of a request that starts with the C string [s]. *)
Lemma until_nul_prefix s rest :
  0 ∉ s -> exists t, until_nul (s ++ rest) = s ++ t.
Proof.
  induction s as [|c s IH]; [by eexists|]. rewrite not_elem_of_cons. intros [Hc Hs].
  destruct (IH Hs) as [t Ht]. exists t. cbn [app until_nul]. zcase; [done|]. by rewrite Ht.
Qed.
Lemma received_prefix s rest :
  Forall (fun c => 0 < c < 256) s -> zlen s < MAX_BUF ->
  exists t, until_nul (take (Z.to_nat (MAX_BUF - 1)) (List.map u8 (s ++ rest))) = s ++ t.
Proof.
  intros Hs Hl. rewrite List.map_app.
  assert (Hu : List.map u8 s = s).
  { clear Hl. induction Hs as [|c s Hc _ IH]; [done|]. cbn [List.map]. rewrite u8_id, IH by lia. done. }
  rewrite Hu, take_app_ge by (unfold MAX_BUF, zlen in *; lia). apply until_nul_prefix.
  intros H0. rewrite Forall_forall in Hs. specialize (Hs 0 H0). lia.
Qed.

(** Where the MTU stands in a request. *)
Lemma send_cmds_app cfg p l1 l2 buf : send_cmds cfg p (l1 ++ l2) buf = (b ← send_cmds cfg p l1 buf; send_cmds cfg p l2 b).
Proof.
  revert buf. induction l1 as [|code l1 IH]; intros buf; cbn [app send_cmds]; [done|].
  destruct (send_cmd _ cfg p code); [apply IH|done].
Qed.
Lemma send_cmds_prefix cfg p codes buf t : send_cmds cfg p codes buf = Some t -> exists rest, t = buf ++ rest.
Proof.
  revert buf. induction codes as [|code codes IH]; intros buf; cbn [send_cmds].
  { intros [= <-]. exists []. by rewrite app_nil_r. }
  destruct (send_cmd _ cfg p code) as [u|]; [|done]. intros (rest & ->)%IH. exists (u ++ rest). by rewrite app_assoc.
Qed.
(** [p] sets an MTU [v], and not the one of [cfg]. *)
Definition sets_mtu (cfg p : dhcpmsg) (v : Z) : Prop :=
  exists d old, get_dhcp_opt p DCODE_MTU MAX_DOPT_SIZE = Some d /\ get_dhcp_opt cfg DCODE_MTU MAX_DOPT_SIZE = Some old /\
    rd_range d 0 2 = Some (le16 (htons v)) /\ d <> old.
Lemma send_cmd_mtu olen cfg p v u :
  opt_bufs_ok p -> sets_mtu cfg p v -> 0 <= v < 65536 -> 12 <= olen -> send_cmd olen cfg p DCODE_MTU = Some u ->
  u = chars "mtu:" ++ dec v ++ [ch ";"].
Proof.
  intros Hp (d & old & Hd & Hold & Hv2 & Hne) Hv Ho. unfold send_cmd.
  destruct (get_opt_total p DCODE_MTU Hp) as (d' & Hd' & _ & Hb). assert (d' = d) as -> by congruence. rewrite Hd, Hold.
  cbn [mbind option_bind]. assert (Hl : 2 <= zlen d) by (revert Hv2; unfold rd_range; destruct (_ && _) eqn:Er; [lia|done]).
  replace (zlen d =? 0) with false by lia.
  replace ((zlen old =? zlen d) && bytes_eqb d old) with false
    by (unfold bytes_eqb; rewrite (bool_decide_eq_false_2 _ Hne); by rewrite andb_false_r).
  change (ifchd_cmd olen d DCODE_MTU) with (ifcmd_u16 olen (chars "mtu") d). unfold ifcmd_u16.
  replace (zlen d <? 2) with false by lia. rewrite Hv2. cbn [mbind option_bind].
  rewrite of_le_le16 by apply htons_range. change (ntohs ?x) with (htons x). rewrite htons_htons by lia.
  pose proof (dec_len 5 v ltac:(lia) ltac:(lia)) as Hdl.
  assert (Hall : Forall (fun c => 48 <= c <= 57) (dec v)) by by apply dec_digits_only.
  assert (Hz : 0 ∉ dec v) by (rewrite Forall_forall in Hall; intros H0; specialize (Hall 0 H0); lia).
  unfold ifcmd_raw. rewrite until_nul_id by done. change (zlen (chars "mtu")) with 3. pose proof (zlen_nonneg (dec v)).
  unfold INT_MAX. replace (_ <? zlen (dec v)) with false by lia. rewrite size_t_id by lia.
  replace (olen <? _) with false by lia. rewrite zlen_app, zlen_cons, zlen_app.
  change (zlen (chars "mtu")) with 3. change (zlen [ch ";"]) with 1. replace (olen <=? _) with false by lia. by intros [= <-].
Qed.
Lemma bind_command_mtu cfg p v text :
  opt_bufs_ok p -> clean_names p -> sets_mtu cfg p v -> 0 <= v < 65536 ->
  bind_command cfg p = Some text -> zlen text < MAX_BUF ->
  exists cs rest, Forall text_command cs /\ text = request_text cs ++ (chars "mtu:" ++ dec v ++ [ch ";"]) ++ rest.
Proof.
  intros Hp Hc Hm Hv. unfold bind_command, MAX_BUF. destruct (send_client_ip 2048 cfg p) as [u|] eqn:Eu; [|done].
  cbn [mbind option_bind].
  change bind_codes with ([DCODE_ROUTER; DCODE_DNS; DCODE_HOSTNAME; DCODE_DOMAIN] ++ [DCODE_MTU; DCODE_WINS]).
  rewrite send_cmds_app. destruct (send_cmds cfg p _ u) as [b|] eqn:Eb; [|done]. cbn [mbind option_bind send_cmds].
  destruct (send_cmd _ cfg p DCODE_MTU) as [m|] eqn:Em; [|done]. cbn [mbind option_bind]. intros Ht Hl.
  destruct (send_cmd _ cfg p DCODE_WINS) as [x|]; [|done]. injection Ht as <-.
  pose proof (zlen_nonneg m). pose proof (zlen_nonneg x). pose proof (zlen_nonneg b). rewrite !zlen_app in Hl.
  apply (send_cmd_mtu _ _ _ v) in Em as ->; [|done..|rewrite size_t_id; lia].
  apply send_cmds_request in Eb as (cs & Hcs & ->); [|done..| |].
  2: { rewrite !elem_of_cons, elem_of_nil. by intros [|[|[|[|]]]]. }
  2: { intros c. unfold bind_codes. rewrite !elem_of_cons, !elem_of_nil. tauto. }
  apply send_client_ip_request in Eu as [->|(c & Hok & _ & ->)]; [| |done].
  - exists cs, x. by rewrite <- app_assoc.
  - exists (c :: cs), x. split; [by constructor|]. unfold request_text. by rewrite fmap_cons, mjoin_cons, <- !app_assoc.
Qed.

(** The MTU is the exception: [ifchange.c] prints it as a decimal number, the
    grammar of [ifchd-parse.rl] takes two characters.  The command for any MTU of
    three or more digits ends ndhc-ifch, wherever it stands in a request, and with it
    ndhc. *)
Theorem mtu_command_fatal `{!IfchEnv} (bl v : Z) (d t : list Z) (cs : list ifch_command) (rest : list Z)
    (w : ifch_world) :
  bytes_ok d = true -> rd_range d 0 2 = Some (le16 (htons v)) -> 100 <= v < 65536 ->
  ifchd_cmd bl d DCODE_MTU = Some (Some t) ->
  Forall text_command cs -> bytes_ok (request_text cs) = true ->
  ch_recv (ch_tick w) = ReadData (request_text cs ++ t ++ rest) ->
  zlen (request_text cs ++ t) < MAX_BUF -> cstr (ibuf (cl w)) = Some [] ->
  wp process_client_socket (fun _ _ => False) (fun _ _ => True) w.
Proof.
  intros Hb Hv2 Hv Ht Hcs Hbt Hr Hl Hib.
  destruct (mtu_text bl d t Hb Ht) as (v' & Hvr & Hd & ->).
  assert (v' = v) as ->. { assert (Hd' : le16 (htons v) = le16 (htons v')) by congruence.
    apply le16_inj in Hd'; [|apply htons_range..]. rewrite <- (htons_htons v), Hd' by lia. by rewrite htons_htons. }
  assert (Hall : Forall (fun c => 48 <= c <= 57) (dec v)) by by apply dec_digits_only.
  rewrite until_nul_id in * by (rewrite Forall_forall in Hall; intros H0; specialize (Hall 0 H0); lia).
  rewrite app_assoc in Hr.
  set (s := request_text cs ++ chars "mtu:" ++ dec v ++ [ch ";"]) in *.
  assert (Hs : Forall (fun c => 0 < c < 256) s).
  { subst s. rewrite !Forall_app. split_and!; [|by repeat constructor| |by repeat constructor].
    - apply text_request_nonul in Hcs as Hn. apply bytes_ok_Forall in Hbt.
      rewrite Forall_forall in Hn, Hbt |- *. intros x Hx. specialize (Hn x Hx). specialize (Hbt x Hx). cbn beta in *. lia.
    - eapply Forall_impl; [exact Hall|]. intros x Hx. cbn beta in *. lia. }
  unfold process_client_socket, cask. wp_run. rewrite Hr. cbv zeta. zcase; [by wp_run|]. rewrite wp_bind.
  destruct (received_prefix s rest Hs Hl) as [u Hu]. 
  eapply wp_mono; [apply execute_refuses| |done]; [done| |].
  { rewrite Hu. subst s. rewrite <- !app_assoc. apply mtu_not_a_request; [|lia].
    eapply Forall_impl; [exact Hcs|by intros ? []]. }
  intros ebr w' ->. cbn [Z.ltb Z.compare]. unfold inform_execute, cemit, cask. wp_run.
  zcase; [by wp_run|]. zcase; by wp_run.
Qed.

(** An MTU of 1500. *)
Lemma mtu_command_fatal_witness :
  let E := sample_ifch_env (request_text sample_request ++ chars "mtu:1500;") in
  wp process_client_socket (fun _ _ => False) (fun _ _ => True) sample_ifch_world.
Proof.
  intros E. apply (mtu_command_fatal 2048 1500 [5; 220] (chars "mtu:1500;") sample_request []);
    try (vm_compute; reflexivity); [lia|].
  repeat constructor; cbn [fst snd]; try done; apply accepts_lang; vm_compute; reflexivity.
Defined.
