(* ===== verification/Subproc.v ===== *)
(** The two helper processes as they run: the signals they take, the loops
    [do_ifch_work] ([ifchd.c]) and [do_sockd_work] ([sockd.c]) over the events of their
    three descriptors, and the preparation of resolv.conf.

    Both loops have the same text but for the handler of the request socket; [ask]
    is how each process counts its system calls. *)

From stdpp Require Import gmap.
From S2P Require Import Prelude Types World Samples Ifchange Nl Nlmsg Netlink Ndhc Ifset Ifaddr Ifsafe.
From S2P Require Import Bpf Sockd Ifchd Ragel Ifchparse Ifcmd Ifany Ifchsafe.

(** * Signals ([sys.c]) *)

Definition SIGHUP : Z := 1.
Definition SIGINT : Z := 2.

Definition setup_signals_subprocess {S} (sigprocmask signalfd : St S Z) : St S Z :=
  r ← sigprocmask;
  if r <? 0 then suicide "sigprocmask failed"
  else
    sfd ← signalfd;
    if sfd <? 0 then suicide "signalfd failed" else mret sfd.

(** [read] is [safe_read(sfd, &si, sizeof si)]. *)
Definition signal_dispatch_subprocess {S} (read : St S read_reply) : St S unit :=
  r ← read;
  match r with
  | ReadAgain | ReadFails => mret tt
  | ReadData data =>
    let si := take (Z.to_nat sizeof_signalfd_siginfo) (List.map u8 data) in
    if zlen si <? sizeof_signalfd_siginfo then mret tt
    else
      signo ← ub (rd32 si 0);
      if (signo =? SIGINT) || (signo =? SIGTERM) || (signo =? SIGHUP) then exit EXIT_SUCCESS else mret tt
  end.

(** * The loops *)

Record epoll_event := mk_epoll_event { ev_fd : Z; ev_in : bool; ev_hup : bool }.
Inductive wait_reply := WIntr | WFails | WEvents (l : list epoll_event).

Class SubprocEnv := {
  sp_sock : Z; sp_stream : Z; sp_signal : Z;   (** [ifchSock[1]] and the like, [signalFd] *)
  sp_epoll_create : nat -> Z;
  sp_epoll_ctl : nat -> Z;
  sp_wait : nat -> wait_reply;
  sp_siginfo : nat -> read_reply
}.

(** [epoll_wait(epollfd, events, maxevents, -1)] stores at most [maxevents] events; the
    array [events] has room for [room]. *)
Definition epoll_store (room maxevents : nat) (l : list epoll_event) : option (list epoll_event) :=
  let l := take maxevents l in
  if (length l <=? room)%nat then Some l else None.

Section Loop.
Context `{!SubprocEnv} {S : Type} (ask : forall A, (nat -> A) -> St S A) (handler : St S unit) (pname : string).

Definition subproc_epoll_add (fd : Z) : St S unit :=
  r ← ask _ sp_epoll_ctl; if r <? 0 then suicide "epoll_add failed" else mret tt.

Definition subproc_event (e : epoll_event) : St S unit :=
  if ev_fd e =? sp_sock then
    if ev_in e then handler else mret tt
  else if ev_fd e =? sp_stream then
    if ev_hup e then exit EXIT_SUCCESS else mret tt
  else if ev_fd e =? sp_signal then
    if ev_in e then signal_dispatch_subprocess (ask _ sp_siginfo) else mret tt
  else suicide (pname ++ ": unexpected fd while performing epoll").

Fixpoint subproc_events (l : list epoll_event) : St S unit :=
  match l with
  | [] => mret tt
  | e :: l => subproc_event e;; subproc_events l
  end.

(** [static struct epoll_event events[2];], [epoll_wait(epollfd, events, 3, -1)] *)
Definition subproc_iteration : St S unit :=
  r ← ask _ sp_wait;
  match r with
  | WIntr => mret tt
  | WFails => suicide "epoll_wait failed"
  | WEvents l => l ← ub (epoll_store 2 3 l); subproc_events l
  end.

(** [n] iterations of [for (;;)]. *)
Fixpoint subproc_loop (n : nat) : St S unit :=
  match n with
  | O => mret tt
  | Datatypes.S n => subproc_iteration;; subproc_loop n
  end.

Definition subproc_work (init : St S unit) (n : nat) : St S unit :=
  ep ← ask _ sp_epoll_create;
  if ep <? 0 then suicide "epoll_create1 failed"
  else
    init;;
    subproc_epoll_add sp_sock;;
    subproc_epoll_add sp_stream;;
    subproc_epoll_add sp_signal;;
    subproc_loop n.
End Loop.

(** [memset(&cl..., 0, ...)] *)
Definition reset_client : CM unit :=
  modify (fun w => w <| cl := {| cl_state := STATE_NOTHING; ibuf := zeros (Z.to_nat MAX_BUF);
                                 namesvrs := zeros (Z.to_nat MAX_BUF); domains := zeros (Z.to_nat MAX_BUF) |} |>).
Definition do_ifch_work `{!SubprocEnv} `{!IfchEnv} (n : nat) : CM unit :=
  subproc_work (fun A => cask (A := A)) Ifchparse.process_client_socket "ifch" reset_client n.

(** A system call of ndhc-sockd that is not recorded. *)
Definition skask {A} (f : nat -> A) : SM A :=
  t ← gets sk_tick; modify (fun w => w <| sk_tick ::= S |>);; mret (f t).
Definition do_sockd_work `{!SubprocEnv} `{!SockdEnv} (n : nat) : SM unit :=
  subproc_work (fun A => skask (A := A)) Sockd.process_client_socket "sockd" (mret tt) n.

(** * resolv.conf *)

Section Setup.
Context `{!IfchEnv} (open_fd : nat -> Z) (content : nat -> list Z).

(** [open]: a negative descriptor, or one of a file with some content. *)
Definition open_file : CM Z :=
  fd ← cask open_fd;
  if fd <? 0 then mret fd
  else c ← cask content; set_file fd (mk_ofile c 0);; mret fd.

(** [snprintf(buf, sizeof buf, "%s.head", resolv_conf_d)]: does the path fit? *)
Definition resolv_path_fits (resolv_conf_d : list Z) : bool := zlen resolv_conf_d + 5 <? 4096.

Definition setup_resolv_conf (resolv_conf_d : list Z) : CM unit :=
  match resolv_conf_d with
  | [] => mret tt
  | _ =>
    fd ← open_file;
    modify (fun w => w <| resolv_conf_fd := fd |>);;
    if fd <? 0 then suicide "FATAL - unable to open resolv.conf"
    else
      (if resolv_path_fits resolv_conf_d then
         fd ← open_file; modify (fun w => w <| resolv_conf_head_fd := fd |>)
       else mret tt);;
      (if resolv_path_fits resolv_conf_d then
         fd ← open_file; modify (fun w => w <| resolv_conf_tail_fd := fd |>)
       else mret tt)
  end.
End Setup.

(** * What every loop keeps *)

(** The answer of the process's [t]-th system call, an [epoll_wait], has more events than
    the array [events] has room for. *)
Definition overfull `{!SubprocEnv} (t : nat) : Prop := exists l, sp_wait t = WEvents l /\ (2 < length l)%nat.
(** How a loop ends: as [K] says, or in a write behind [events], right after an
    [epoll_wait] with too many events; [now] counts the system calls. *)
Definition or_overfull `{!SubprocEnv} {S} (now : S -> nat) (K : halt -> S -> Prop) (h : halt) (w : S) : Prop :=
  K h w \/ h = HUndef /\ exists t, now w = Datatypes.S t /\ overfull t.

Section LoopSafe.
Context `{!SubprocEnv} {S : Type} (ask : forall A, (nat -> A) -> St S A) (handler : St S unit) (pname : string).
Context (I : S -> Prop) (K : halt -> S -> Prop) (now : S -> nat).
Context (Hask : forall A (f : nat -> A) w, I w ->
  wp (ask A f) (fun a w' => I w' /\ a = f (now w) /\ now w' = Datatypes.S (now w)) (or_overfull now K) w).
Context (Hhandler : forall w, I w -> wp handler (fun _ w' => I w') K w).
Context (Hsuicide : forall why w, K (HSuicide why) w) (Hexit : forall w, K (HExit EXIT_SUCCESS) w).

Lemma suicides why w : or_overfull now K (HSuicide why) w.
Proof using Hsuicide. left. apply Hsuicide. Qed.
Lemma exits w : or_overfull now K (HExit EXIT_SUCCESS) w.
Proof using Hexit. left. apply Hexit. Qed.

Lemma signal_dispatch_subprocess_wp w :
  I w -> wp (signal_dispatch_subprocess (ask _ sp_siginfo)) (fun _ w' => I w') (or_overfull now K) w.
Proof using Hask Hexit.
  intros Hw. unfold signal_dispatch_subprocess. wp_run. eapply wp_mono; [by apply Hask| |done].
  intros r w1 [Hw1 _]. destruct r as [| |data]; wp_run; [done..|]. cbv zeta. set (si := take _ _).
  zcase; wp_run; [done|]. destruct (rd32_total si 0) as (v & ->); [lia|unfold sizeof_signalfd_siginfo in *; lia|].
  wp_run. destruct (_ || _); wp_run; [apply exits|done].
Qed.

Lemma subproc_event_wp e w : I w -> wp (subproc_event ask handler pname e) (fun _ w' => I w') (or_overfull now K) w.
Proof using Hask Hhandler Hsuicide Hexit.
  intros Hw. unfold subproc_event.
  destruct (ev_fd e =? sp_sock).
  { destruct (ev_in e); [|by wp_run]. eapply wp_mono; [by apply Hhandler|done|]. intros h w' Hh. by left. }
  destruct (ev_fd e =? sp_stream); [destruct (ev_hup e); wp_run; [apply exits|done]|].
  destruct (ev_fd e =? sp_signal); [destruct (ev_in e); [by apply signal_dispatch_subprocess_wp|by wp_run]|].
  wp_run. apply suicides.
Qed.
Lemma subproc_events_wp l : forall w, I w -> wp (subproc_events ask handler pname l) (fun _ w' => I w') (or_overfull now K) w.
Proof using Hask Hhandler Hsuicide Hexit.
  induction l as [|e l IH]; intros w Hw; cbn [subproc_events]; wp_run; [done|].
  eapply wp_mono; [by apply subproc_event_wp| |done]. intros ? w1 Hw1. by apply IH.
Qed.

Lemma subproc_iteration_wp w : I w -> wp (subproc_iteration ask handler pname) (fun _ w' => I w') (or_overfull now K) w.
Proof using Hask Hhandler Hsuicide Hexit.
  intros Hw. unfold subproc_iteration. wp_run. eapply wp_mono; [by apply Hask| |done]. intros r w1 (Hw1 & Hr & Ht).
  destruct r as [| |l]; wp_run; [done|apply suicides|].
  unfold epoll_store. destruct (Nat.leb_spec (length (take 3 l)) 2) as [_|Hl]; wp_run; [by apply subproc_events_wp|].
  right. split; [done|]. exists (now w). split; [done|]. exists l. rewrite length_take in Hl. split; [done|lia].
Qed.
Lemma subproc_loop_wp n : forall w, I w -> wp (subproc_loop ask handler pname n) (fun _ w' => I w') (or_overfull now K) w.
Proof using Hask Hhandler Hsuicide Hexit.
  induction n as [|n IH]; intros w Hw; cbn [subproc_loop]; wp_run; [done|].
  eapply wp_mono; [by apply subproc_iteration_wp| |done]. intros ? w1 Hw1. by apply IH.
Qed.

Lemma subproc_epoll_add_wp fd w : I w -> wp (subproc_epoll_add ask fd) (fun _ w' => I w') (or_overfull now K) w.
Proof using Hask Hsuicide.
  intros Hw. unfold subproc_epoll_add. wp_run. eapply wp_mono; [by apply Hask| |done]. intros r w1 [Hw1 _].
  destruct (r <? 0); wp_run; [apply suicides|done].
Qed.

(** [J] holds before the initialisation. *)
Lemma subproc_work_wp (J : S -> Prop) (init : St S unit) n w :
  (forall A (f : nat -> A) w, J w -> wp (ask A f) (fun _ w' => J w') (or_overfull now K) w) ->
  (forall w, J w -> wp init (fun _ w' => I w') (or_overfull now K) w) -> J w ->
  wp (subproc_work ask handler pname init n) (fun _ w' => I w') (or_overfull now K) w.
Proof using Hask Hhandler Hsuicide Hexit.
  intros HaskJ Hinit Hw. unfold subproc_work. wp_run. eapply wp_mono; [by apply HaskJ| |done]. intros ep w1 Hw1.
  destruct (ep <? 0); wp_run; [apply suicides|].
  eapply wp_mono; [by apply Hinit| |done]. intros ? w2 Hw2. wp_run.
  do 3 (eapply wp_mono; [by apply subproc_epoll_add_wp| |done]; intros ? ? ?; wp_run).
  by apply subproc_loop_wp.
Qed.

(** With all three descriptors ready the kernel writes behind the array. *)
Lemma three_events_overflow w a b c w1 :
  ask _ sp_wait w = (Ret (WEvents [a; b; c]), w1) -> subproc_iteration ask handler pname w = (Halt HUndef, w1).
Proof. intros Hw. unfold subproc_iteration. by rewrite (run_val _ _ _ _ _ Hw). Qed.
End LoopSafe.

(** * ndhc-sockd *)

(** The receive buffer and the bytes in it; the interface name is a string. *)
Definition sockd_ok (w : sockd_world) : Prop :=
  zlen (sk_buf w) = MAX_BUF /\ 0 <= sk_buflen w <= MAX_BUF /\ is_Some (strlen (interface (sk_config w))).
Definition sockd_stopped (h : halt) (w : sockd_world) : Prop :=
  (exists why, h = HSuicide why) \/ h = HExit EXIT_SUCCESS.

Section SockdSafe.
Context `{!SockdEnv}.

Definition same_buffer (w w' : sockd_world) : Prop :=
  sk_buf w' = sk_buf w /\ sk_buflen w' = sk_buflen w /\ sk_config w' = sk_config w.

Lemma transfer_wp {A} (m : SM A) (f : A -> Z * Z) (n : Z) w :
  opens m -> is_Some (strlen (interface (sk_config w))) ->
  wp (r ← m; xfer_fd (f r).1 (f r).2;; mret n) (fun u w' => u = n /\ same_buffer w w') sockd_stopped w.
Proof.
  intros Hm Hi. wp_run. eapply wp_mono; [by apply Hm| |done]. intros a w1 (t & tr & -> & _).
  unfold xfer_fd, syscall, sclose. wp_run. destruct (sk_sendmsg _); wp_run; [done|by left; eexists].
Qed.

Lemma execute_sockd_wp buf n w :
  zlen buf = MAX_BUF -> 0 < n <= MAX_BUF -> is_Some (strlen (interface (sk_config w))) ->
  wp (execute_sockd buf n) (fun u w' => 0 <= u <= n /\ same_buffer w w') sockd_stopped w.
Proof.
  unfold MAX_BUF. intros Hb Hn Hi. unfold execute_sockd. zcase; [lia|].
  destruct (rd_Some buf 0) as (c & -> & _); [lia|]. wp_run.
  assert (Hx : forall A (m : SM A) (f : A -> Z * Z) (k : Z), opens m -> 0 <= k <= n ->
    wp (r ← m; xfer_fd (f r).1 (f r).2;; mret k) (fun u w' => 0 <= u <= n /\ same_buffer w w') sockd_stopped w).
  { intros A m f k Hm Hkn. eapply wp_mono; [by apply transfer_wp| |done]. by intros u w' [-> ?]. }
  destruct (rd_range_Some buf 1 4) as (d1 & Hd1 & _); [lia..|]. destruct (rd_range_Some buf 5 6) as (d2 & Hd2 & _); [lia..|].
  destruct (c =? ch "L"%char); [apply (Hx _ create_raw_listen_socket (fun r => (r.1, _))); [apply create_raw_socket_opens|lia]|].
  destruct (c =? ch "a"%char); [apply (Hx _ create_arp_basic_socket (fun r => (r.1, _))); [apply create_arp_basic_socket_opens|lia]|].
  destruct (c =? ch "d"%char).
  { zcase; [wp_run; by left; eexists|]. rewrite Hd1, Hd2. wp_run. rewrite <- wp_bind.
    apply (Hx _ (create_arp_defense_socket (of_le d1) d2) (fun r => (r.1, _))); [apply create_arp_defense_socket_opens|lia]. }
  destruct (c =? ch "s"%char).
  { apply (Hx _ create_raw_broadcast_socket (fun r => (r, _))); [|lia]. unfold create_raw_broadcast_socket.
    apply opens_bind; [apply create_raw_socket_opens|intros; apply opens_ret]. }
  destruct (c =? ch "u"%char).
  { zcase; [wp_run; by left; eexists|]. rewrite Hd1. wp_run. rewrite <- wp_bind.
    apply (Hx _ (create_udp_socket (of_le d1) _ _) (fun r => (r, _))); [by apply create_udp_socket_opens|lia]. }
  wp_run. by left; eexists.
Qed.

Lemma sockd_client_wp w : sockd_ok w -> wp Sockd.process_client_socket (fun _ w' => sockd_ok w') sockd_stopped w.
Proof.
  intros (Hb & Hn & Hi). unfold Sockd.process_client_socket. wp_run. unfold MAX_BUF in *. zcase; wp_run; [by left; eexists|].
  destruct (sk_recv _) as [| |data]; wp_run; [exact (conj Hb (conj Hn Hi))|by left; eexists|]. cbv zeta.
  set (d := take _ _). assert (Hd : zlen d <= 1024 - sk_buflen w) by (subst d; unfold zlen; rewrite length_take; lia).
  pose proof (zlen_nonneg d). zcase; wp_run; [by right|]. rsimpl.
  rewrite wr_range_Some by lia. wp_run. rsimpl. set (buf := _ ++ _).
  assert (Hbuf : zlen buf = MAX_BUF).
  { subst buf. unfold zlen, MAX_BUF in *. rewrite !length_app, length_take, length_drop. lia. }
  eapply wp_mono; [apply execute_sockd_wp; [exact Hbuf|unfold MAX_BUF; lia|exact Hi]| |done].
  intros u w' (Hu & H1 & H2 & H3). wp_run. unfold sockd_ok. rsimpl. revert H1 H2 H3. rsimpl. intros -> -> ->.
  split_and!; [exact Hbuf| |unfold MAX_BUF|exact Hi]; rewrite size_t_id; unfold MAX_BUF in *; lia.
Qed.
End SockdSafe.

(** * The whole loops *)

Lemma do_ifch_work_wp `{!SubprocEnv} `{!IfchEnv} (n : nat) (w : ifch_world) :
  kernel_ok -> ifset_ok (ifset w) ->
  wp (do_ifch_work n) (fun _ w' => ifch_ok w') (or_overfull ch_tick stopped) w.
Proof.
  intros Hk Hi.
  apply (subproc_work_wp (fun A => cask (A := A)) _ "ifch" ifch_ok stopped ch_tick) with (J := fun w => ifset_ok (ifset w)); try done.
  - by apply process_client_socket_safe.
  - intros why w1. left. by eexists.
  - intros w1. by right; left.
  - intros w1 Hw1. unfold reset_client. wp_run. split_and!; try done; (split; [done|]); apply elem_of_list_here || (vm_compute; left).
Qed.


(** ndhc-sockd runs for ever in a good state: after any number of iterations and
    whatever arrives, the bytes counted in its receive buffer are in the buffer; it
    ends only with exit status 0, with a message, or, when [epoll_wait] has just
    answered three ready descriptors, by a write behind [events]. *)
Theorem do_sockd_work_invariant `{!SubprocEnv} `{!SockdEnv} (n : nat) (w : sockd_world) :
  sockd_ok w -> wp (do_sockd_work n) (fun _ w' => sockd_ok w') (or_overfull sk_tick sockd_stopped) w.
Proof.
  intros Hw.
  apply (subproc_work_wp (fun A => skask (A := A)) _ "sockd" sockd_ok sockd_stopped sk_tick) with (J := sockd_ok); try done.
  - apply sockd_client_wp.
  - intros why w1. left. by eexists.
  - intros w1. by right.
Qed.

(** * Properties *)

(** C24. ndhc-ifch runs for ever in a good state when the kernel's netlink datagrams are
    well-formed ([kernel_ok]): from its start, after any number of iterations of its
    loop, whatever the master and the signals send and however many descriptors
    are ready, its arrays have their sizes and hold strings and no input is pending.
    It ends only with exit status 0, with a message, in a dump the kernel never
    ends, or by a write outside an array, and that in one way: the
    [epoll_wait] just before answered three ready descriptors, for
    which [events] has no room. *)
Theorem do_ifch_work_invariant `{!SubprocEnv} `{!IfchEnv} (n : nat) (w : ifch_world) :
  kernel_ok -> ifset_ok (ifset w) ->
  wp (do_ifch_work n) (fun _ w' => ifch_ok w')
    (fun h w' => stopped h w' \/ h = HUndef /\ exists t, ch_tick w' = S t /\ overfull t) w.
Proof. apply do_ifch_work_wp. Qed.

(** A request, then the end of the master. *)
Definition sample_subproc_env : SubprocEnv := {|
  sp_sock := 3; sp_stream := 4; sp_signal := 5;
  sp_epoll_create := fun _ => 6; sp_epoll_ctl := fun _ => 0;
  sp_wait := fun t => if (t <? 6)%nat then WEvents [mk_epoll_event 3 true false] else WEvents [mk_epoll_event 4 false true];
  sp_siginfo := fun _ => ReadAgain
|}.
(** The fourth answer to [epoll_wait] names three descriptors. *)
Definition sample_crowded_env : SubprocEnv := {|
  sp_sock := 3; sp_stream := 4; sp_signal := 5;
  sp_epoll_create := fun _ => 6; sp_epoll_ctl := fun _ => 0;
  sp_wait := fun t => if (t <? 7)%nat then WIntr
                      else WEvents [mk_epoll_event 3 true false; mk_epoll_event 4 false true; mk_epoll_event 5 true false];
  sp_siginfo := fun _ => ReadAgain
|}.
Lemma sample_kernel_ok : kernel_ok (H := sample_ifset_env).
Proof.
  intros t data. cbn [ie_recvmsg sample_ifset_env]. intros [= <-].
  exists [mk_nlmsg NLMSG_ERROR 0 0 0 (zeros 20) []]. split; [done|]. split; [|done].
  apply Forall_singleton. split; [|done]. by split_and!.
Qed.

Lemma do_ifch_work_invariant_witness :
  let E := sample_ifch_env (request_text sample_request) in
  let F := sample_subproc_env in
  wp (do_ifch_work 6) (fun _ w' => ifch_ok w')
    (fun h w' => stopped h w' \/ h = HUndef /\ exists t, ch_tick w' = S t /\ overfull t) sample_ifch_world /\
  fst (do_ifch_work 1 sample_ifch_world) = Ret tt /\ fst (do_ifch_work 6 sample_ifch_world) = Halt (HExit EXIT_SUCCESS) /\
  fst (do_ifch_work (H := sample_crowded_env) 9 sample_ifch_world) = Halt HUndef.
Proof.
  intros E F. split; [|vm_compute; split_and!; reflexivity].
  apply (do_ifch_work_invariant 6 sample_ifch_world); [apply sample_kernel_ok|split; vm_compute; congruence].
Defined.

Lemma do_sockd_work_invariant_witness :
  let E := sample_sockd_env 0 (chars "L") in
  let F := sample_subproc_env in
  wp (do_sockd_work 1) (fun _ w' => sockd_ok w') (or_overfull sk_tick sockd_stopped) sample_sockd_world /\
  fst (do_sockd_work 1 sample_sockd_world) = Ret tt.
Proof.
  intros E F. split; [|vm_compute; reflexivity].
  apply (do_sockd_work_invariant 1 sample_sockd_world).
  split; [reflexivity|]. split; [split; vm_compute; congruence|vm_compute; by eexists].
Defined.
