(* ===== verification/Linkdata.v ===== *)
(** Looking up the interface's index and hardware address ([netlink.c: handle_getifdata])
    when the kernel's answer is a sequence of datagrams of well-formed messages. *)

From S2P Require Import Prelude Types World Samples Nl Nlmsg Netlink Ifset Ifsafe.

(** * Link messages *)

(** What the kernel promises of a message that describes a link: a [struct ifinfomsg]
    follows the header, and the name is a string. *)
Definition link_ok (m : nlmsg) : Prop :=
  msg_ok m /\
  (m_type m = RTM_NEWLINK -> zlen (m_fixed m) = sizeof_ifinfomsg /\
     match attr_data (m_attrs m) IFLA_IFNAME with Some d => is_Some (cstr d) | None => True end).
#[export] Instance link_ok_dec m : Decision (link_ok m).
Proof. unfold link_ok. destruct (attr_data _ _); apply _. Defined.
Definition link_name (m : nlmsg) : option (list Z) := attr_data (m_attrs m) IFLA_IFNAME ≫= cstr.
Definition link_index (m : nlmsg) : Z := i32 (of_le (take 4 (drop 4 (m_fixed m)))).
(** The hardware address, when it is one of six bytes. *)
Definition link_mac (m : nlmsg) : option (list Z) :=
  mac ← attr_data (m_attrs m) IFLA_ADDRESS; if zlen mac =? 6 then Some mac else None.
(** Does the message describe the interface of that name? *)
Definition describes (name : list Z) (m : nlmsg) : Prop := m_type m = RTM_NEWLINK /\ link_name m = Some name.
#[export] Instance describes_dec name m : Decision (describes name m) := _.

Definition with_link (cc : client_config_t) (m : nlmsg) (mac : list Z) : client_config_t :=
  (cc <| ifindex := link_index m |> <| arp := mac |>).
(** What the callback makes of a message. *)
Definition see_link (name : list Z) (s : client_config_t * bool * bool) (m : nlmsg) : client_config_t * bool * bool :=
  let '(cc, got, dead) := s in
  if dead : bool then s
  else if decide (describes name m) then
    match link_mac m with
    | None => (cc, got, true)
    | Some mac => (with_link cc m mac, true, false)
    end
  else s.

(** * The comparison of names *)

Lemma strncmp_eq_strings a : forall s t buf n i,
  cstr a = Some s -> zlen s < Z.of_nat n ->
  (forall k c, (t ++ [0]) !! k = Some c -> rd buf (i + Z.of_nat k) = Some c) -> 0 ∉ t ->
  strncmp_eq n a buf i = Some (bool_decide (s = t)).
Proof.
  intros s t buf n i Ha. apply cstr_inv in Ha as (rest & -> & Hs). revert t n i.
  induction s as [|x s IH]; intros t n i Hn Hb Ht.
  - destruct n as [|n]; [zlen_lia|]. cbn [app strncmp_eq].
    destruct t as [|y t]; cbn [app] in Hb; specialize (Hb 0%nat); rewrite Z.add_0_r in Hb; rewrite (Hb _ eq_refl);
      cbn [mbind option_bind]; [done|]. zcase; cbn [negb]; [|done]. subst. by destruct Ht; left.
  - destruct n as [|n]; [zlen_lia|]. cbn [app strncmp_eq]. apply not_elem_of_cons in Hs as [Hx Hs].
    destruct t as [|y t].
    + pose proof (Hb 0%nat 0 eq_refl) as H0. rewrite Z.add_0_r in H0. rewrite H0. cbn [mbind option_bind].
      zcase; cbn [negb]; [congruence|done].
    + pose proof (Hb 0%nat y eq_refl) as H0. rewrite Z.add_0_r in H0. rewrite H0. cbn [mbind option_bind].
      apply not_elem_of_cons in Ht as [Hy Ht]. zcase; cbn [negb].
      * subst y. zcase; [done|]. rewrite (IH Hs t); [|zlen_lia| |done].
        { f_equal. apply bool_decide_ext. split; [by intros ->|by intros [= ->]]. }
        intros k c Hk. rewrite <- (Hb (S k) c Hk). f_equal. lia.
      * symmetry. f_equal. apply bool_decide_eq_false. by intros [= -> _].
Qed.

Lemma rd_range_string buf p d t : rd_range buf p (zlen d) = Some d -> cstr d = Some t ->
  forall k c, (t ++ [0]) !! k = Some c -> rd buf (p + Z.of_nat k) = Some c.
Proof.
  intros Hd (rest & -> & _)%cstr_inv k c Hk. unfold rd_range in Hd. destruct (_ && _) eqn:E; [|done].
  injection Hd as Hd. unfold rd. zcase; [|lia]. replace (Z.to_nat (p + Z.of_nat k)) with (Z.to_nat p + k)%nat by lia.
  rewrite <- lookup_drop. assert (Hc : (t ++ 0 :: rest) !! k = Some c).
  { replace (t ++ 0 :: rest) with ((t ++ [0]) ++ rest) by by rewrite <- app_assoc. by apply lookup_app_l_Some. }
  rewrite <- Hd in Hc. by apply lookup_take_Some in Hc as [? _].
Qed.

(** * One message *)

Section Message.
Context (name : list Z).

Lemma ifi_index_image pre m post : msg_ok m -> zlen (m_fixed m) = sizeof_ifinfomsg ->
  ifi_index (pre ++ msg_image m ++ post) (zlen pre) = Some (link_index m).
Proof.
  intros Hm Hf. unfold sizeof_ifinfomsg in Hf. unfold ifi_index, link_index, rd32, NLMSG_HDRLEN.
  assert (Hsplit : m_fixed m = take 4 (m_fixed m) ++ take 4 (drop 4 (m_fixed m)) ++ drop 4 (drop 4 (m_fixed m)))
    by by rewrite !take_drop.
  set (hdr := le32 (msg_len m) ++ le16 (m_type m) ++ le16 (m_flags m) ++ le32 (m_seq m) ++ le32 (m_pid m)).
  assert (Hshape : pre ++ msg_image m ++ post =
    (pre ++ hdr ++ take 4 (m_fixed m)) ++ take 4 (drop 4 (m_fixed m)) ++
    (drop 4 (drop 4 (m_fixed m)) ++ attrs_image (m_attrs m) ++ post)).
  { subst hdr. unfold msg_image, msg_body. rewrite Hsplit at 1. by rewrite <- !app_assoc. }
  assert (H4 : zlen (take 4 (m_fixed m)) = 4 /\ zlen (take 4 (drop 4 (m_fixed m))) = 4).
  { unfold zlen in *. rewrite !length_take, length_drop. lia. }
  rewrite Hshape, rd_range_at; [done| |lia]. subst hdr. rewrite !zlen_app, !le32_len, !le16_len. lia.
Qed.

Lemma get_if_index_and_mac_image cc pre m post :
  let buf := pre ++ msg_image m ++ post in
  link_ok m -> m_type m = RTM_NEWLINK -> zlen buf < 2 ^ 64 -> cstr (interface cc) = Some name -> zlen name < 16 ->
  get_if_index_and_mac cc buf (zlen pre) =
    Some (if decide (describes name m) then
            match link_mac m with None => IfSuicide | Some mac => IfFound (with_link cc m mac) end
          else IfOther).
Proof.
  intros buf [Hm Hlink] Hty H64 Hname Hlen. destruct (Hlink Hty) as [Hfix Hstr].
  destruct (rtattr_parse_table pre m post Hm H64) as (tb & Htb & Htab). rewrite Hfix in Htb. fold buf in Htb, Htab.
  unfold get_if_index_and_mac. rewrite Htb. cbn [mbind option_bind].
  pose proof (Htab IFLA_IFNAME eq_refl) as Hn. pose proof (Htab IFLA_ADDRESS eq_refl) as Ha.
  destruct (attr_data (m_attrs m) IFLA_IFNAME) as [d|] eqn:Ed.
  - destruct Hstr as [t Ht]. destruct Hn as (p & -> & Hd & _).
    rewrite (strncmp_eq_strings _ name t buf 16 _ Hname ltac:(lia)); [|by eapply rd_range_string|by apply cstr_inv in Ht as (? & _ & ?)].
    assert (Hdec : describes name m <-> name = t).
    { unfold describes, link_name. rewrite Ed. cbn [mbind option_bind]. rewrite Ht. split; [intros [_ [= ->]]; done|intros ->; done]. }
    cbn [mbind option_bind]. destruct (decide (describes name m)) as [Hy|Hy]; rewrite Hdec in Hy.
    + rewrite bool_decide_true by done. cbn [negb].
      rewrite (ifi_index_image pre m post Hm Hfix : ifi_index buf (zlen pre) = _). cbn [mbind option_bind].
      unfold link_mac. destruct (attr_data (m_attrs m) IFLA_ADDRESS) as [mac|]; [|by rewrite Ha].
      destruct Ha as (q & -> & Hmac & Hrl). rewrite Hrl. cbn [mbind option_bind]. unfold RTA_LENGTH, sizeof_rtattr in *.
      replace (4 + zlen mac - 4) with (zlen mac) by lia. zcase; cbn [negb]; [|done].
      rewrite <- Hz, Hmac. done.
    + rewrite bool_decide_false by done. done.
  - rewrite Hn. rewrite decide_False; [done|]. unfold describes, link_name. rewrite Ed. by intros [_ ?].
Qed.

Lemma do_handle_getifdata_image cc got dead pre m post :
  let buf := pre ++ msg_image m ++ post in
  link_ok m -> zlen buf < 2 ^ 64 -> cstr (interface cc) = Some name -> zlen name < 16 ->
  do_handle_getifdata buf (zlen pre) (cc, got, dead) = Some (see_link name (cc, got, dead) m).
Proof.
  intros buf Hm H64 Hname Hlen. unfold do_handle_getifdata, see_link. destruct dead; [done|].
  unfold buf. rewrite msg_image_nlmsg_type by apply Hm. cbn [mbind option_bind]. zcase.
  - rewrite (get_if_index_and_mac_image cc pre m post) by done. cbn [mbind option_bind].
    destruct (decide _); [|done]. by destruct (link_mac m).
  - rewrite decide_False; [done|]. by intros [? _].
Qed.
End Message.

(** * A datagram *)

(** What the callback may change: the index and the hardware address. *)
Definition link_written (cc cc' : client_config_t) : Prop :=
  cc' = cc \/ exists idx mac, zlen mac = 6 /\ bytes_ok mac = true /\ cc' = (cc <| ifindex := idx |> <| arp := mac |>).

(** The messages of a datagram that the callback sees. *)
Fixpoint answers (seq : Z) (ms : list nlmsg) : list nlmsg :=
  match ms with
  | [] => []
  | m :: ms =>
    if negb (seq =? 0) && negb (m_seq m =? seq) then answers seq ms
    else if NLMSG_MIN_TYPE <=? m_type m then m :: answers seq ms
    else if (m_type m =? NLMSG_ERROR) || (m_type m =? NLMSG_DONE) then []
    else answers seq ms
  end.
Lemma walk_answers {A} (I : A -> Prop) seq (visit : Z -> nlmsg -> A -> option A) (f : A -> nlmsg -> A) :
  (forall i m acc, I acc -> visit i m acc = Some (f acc m) /\ I (f acc m)) ->
  forall ms i acc, I acc -> exists code, walk seq visit i ms acc = Some (code, fold_left f (answers seq ms) acc) /\
    (code = 0 \/ code = -1 /\ Exists (fun m => m_type m = NLMSG_ERROR) ms).
Proof.
  intros Hv ms. induction ms as [|m ms IH]; intros i acc Hacc; cbn [walk answers]; [by eexists; split; [|left]|].
  assert (Hmono : forall i acc, I acc -> exists code,
    walk seq visit i ms acc = Some (code, fold_left f (answers seq ms) acc) /\
    (code = 0 \/ code = -1 /\ Exists (fun m => m_type m = NLMSG_ERROR) (m :: ms))).
  { intros j a Ha. destruct (IH j a Ha) as (code & Hw & Hc). exists code. split; [exact Hw|].
    destruct Hc as [Hc|[Hc He]]; [by left|right]. split; [done|by right]. }
  destruct (_ && _); [by apply Hmono|]. destruct (_ <=? _).
  { destruct (Hv i m acc Hacc) as [-> Hf]. by apply Hmono. }
  destruct (Z.eqb_spec (m_type m) NLMSG_ERROR); [eexists; split; [done|]; right; split; [done|by left]|].
  destruct (_ =? NLMSG_DONE); [eexists; split; [done|by left]|by apply Hmono].
Qed.

Lemma see_link_interface name s m : interface (see_link name s m).1.1 = interface s.1.1.
Proof.
  destruct s as [[cc got] dead]. unfold see_link. destruct dead; [done|]. destruct (decide _); [|done].
  by destruct (link_mac m).
Qed.

Lemma see_link_written name ms : Forall link_ok ms -> forall cc got dead cc' got' dead',
  fold_left (see_link name) ms (cc, got, dead) = (cc', got', dead') ->
  link_written cc cc' /\ interface cc' = interface cc.
Proof.
  intros Hms. induction Hms as [|m ms [Hm _] _ IH]; intros cc got dead cc' got' dead'; cbn [fold_left].
  { intros [= -> _ _]. split; [by left|done]. }
  unfold see_link at 2. destruct dead; [apply IH|]. destruct (decide _) as [[Hty _]|_]; [|apply IH].
  destruct (link_mac m) as [mac|] eqn:Em; [|apply IH]. intros [Hw Hi]%IH. split; [|by rewrite Hi].
  unfold link_mac in Em. destruct (attr_data _ _) as [d|] eqn:Ed; [|done]. cbn [mbind option_bind] in Em.
  destruct (zlen d =? 6) eqn:El; [|done]. injection Em as ->. right.
  assert (Hok : bytes_ok mac = true).
  { destruct Hm as (_ & _ & _ & _ & _ & _ & Hat & _). clear -Hat Ed. induction Hat as [|a l (_ & Ha & _) _ IHl]; [done|].
    cbn [attr_data] in Ed. destruct (attr_data l _); [by apply IHl|]. destruct (_ =? _); [by injection Ed as <-|done]. }
  destruct Hw as [-> | (idx & mac' & H1 & H2 & ->)]; [exists (link_index m), mac|exists idx, mac']; (split; [lia || done|split; [done|reflexivity]]).
Qed.

Lemma cstr_zlen a s : cstr a = Some s -> zlen s < zlen a.
Proof. intros (rest & -> & _)%cstr_inv. zlen_lia. Qed.

(** The walk over a received datagram folds [see_link] over its messages. *)
Lemma getifdata_datagram name buf ms seq cc got :
  zlen buf = sizeof_nlbuf -> Forall link_ok ms -> zlen (datagram ms) <= sizeof_nlbuf ->
  zlen (interface cc) = 16 -> cstr (interface cc) = Some name ->
  exists code, nl_foreach_nlmsg (received buf (datagram ms)) (zlen (datagram ms)) seq 0 do_handle_getifdata (cc, got, false)
      = Some (code, fold_left (see_link name) (answers seq ms) (cc, got, false)) /\
    (code = 0 \/ code = -1 /\ Exists (fun m => m_type m = NLMSG_ERROR) ms).
Proof.
  intros Hbuf Hms Hfit Hl Hname. pose proof (cstr_zlen _ _ Hname) as Hlen. rewrite Hl in Hlen.
  assert (Hok : Forall msg_ok ms) by (eapply Forall_impl; [exact Hms|by intros m []]).
  pose proof (received_length buf (datagram ms)) as Hrl.
  rewrite (received_datagram buf (datagram ms)) in * by (lia || by apply datagram_bytes).
  set (post := drop _ buf) in *. set (b := datagram ms ++ post) in *.
  assert (Hb : zlen b < 2 ^ 64) by (rewrite Hrl, Hbuf; done).
  set (I := fun s : client_config_t * bool * bool => interface s.1.1 = interface cc).
  set (visit := fun i m (s : client_config_t * bool * bool) =>
    if decide (interface s.1.1 = interface cc) then Some (see_link name s m) else do_handle_getifdata b i s).
  destruct (walk_answers I seq visit (see_link name)) with (ms := ms) (i := 0) (acc := (cc, got, false))
    as (code & Hw & Hc); [|done|].
  { intros i m s Hs. unfold visit. rewrite decide_True by done. split; [done|]. unfold I. by rewrite see_link_interface. }
  exists code. split; [|exact Hc]. rewrite <- Hw. unfold nl_foreach_nlmsg.
  apply (foreach_walk seq visit link_ok) with (pre := []) (post := post); try done.
  - by intros m [].
  - intros pre m post' [[cc' got'] dead'] Hbe Hm Hty. unfold visit. destruct (decide _) as [Hi|]; [|done].
    rewrite Hbe in *. cbn [fst] in Hi. apply do_handle_getifdata_image; [done..|by rewrite Hi|lia].
  - unfold b, zlen. rewrite length_app. lia.
Qed.

(** * The whole answer *)

(** Index and hardware address of an interface. *)
Definition link_data (m : nlmsg) : option (Z * list Z) := mac ← link_mac m; Some (link_index m, mac).
Definition set_link (cc : client_config_t) (found : list (Z * list Z)) : client_config_t :=
  match last found with
  | Some (idx, mac) => (cc <| ifindex := idx |> <| arp := mac |>)
  | None => cc
  end.

Lemma set_link_cons m mac l cc : link_mac m = Some mac -> set_link (with_link cc m mac) l = set_link cc ((link_index m, mac) :: l).
Proof. intros Hm. unfold set_link. rewrite last_cons. by destruct (last l) as [[]|]. Qed.

Lemma see_link_dead name l cc got : fold_left (see_link name) l (cc, got, true) = (cc, got, true).
Proof. by induction l. Qed.

Lemma see_links name l : forall cc got,
  match mapM link_data (filter (describes name) l) with
  | Some found => fold_left (see_link name) l (cc, got, false) =
      (set_link cc found, got || negb (bool_decide (found = [])), false)
  | None => exists cc' got', fold_left (see_link name) l (cc, got, false) = (cc', got', true)
  end.
Proof.
  induction l as [|m l IH]; intros cc got; [by destruct got|]. cbn [fold_left]. unfold see_link at 2 4.
  rewrite filter_cons. destruct (decide (describes name m)); [|apply IH]. cbn [mapM].
  destruct (link_mac m) as [mac|] eqn:Em.
  - assert (Hdata : link_data m = Some (link_index m, mac)) by (unfold link_data; by rewrite Em).
    specialize (IH (with_link cc m mac) true). rewrite Hdata. cbn [mbind option_bind].
    destruct (mapM _ _) as [found|]; cbn [mbind option_bind]; [|exact IH].
    rewrite IH, (set_link_cons m mac found cc Em). by destruct got.
  - assert (Hdata : link_data m = None) by (unfold link_data; by rewrite Em). rewrite Hdata. cbn [mbind option_bind].
    exists cc, got. apply see_link_dead.
Qed.

Section Dump.
Context `{!Env}.

(** The kernel answers with the datagrams of [dump], from the tick [t] on. *)
Fixpoint answered (t : nat) (dump : list (list nlmsg)) : Prop :=
  match dump with
  | [] => env_nl t = NlAgain
  | ms :: dump => env_nl t = NlData (datagram ms) /\ answered (S t) dump
  end.
Definition dump_part (ms : list nlmsg) : Prop :=
  ms <> [] /\ Forall link_ok ms /\ Forall (fun m => m_type m <> NLMSG_ERROR) ms /\ zlen (datagram ms) <= sizeof_nlbuf.

Lemma datagram_nonempty ms : ms <> [] -> 0 < zlen (datagram ms).
Proof.
  destruct ms as [|m ms]; [done|]. intros _. rewrite datagram_cons, zlen_app, msg_image_len.
  pose proof (msg_len_min m). pose proof (zlen_nonneg (datagram ms)). unfold NLMSG_HDRLEN in *. lia.
Qed.

Lemma getifdata_loop_dump fd seq name dump : forall fuel buf got w,
  zlen buf = sizeof_nlbuf -> (length dump < fuel)%nat -> Forall dump_part dump -> answered (tick w) dump ->
  zlen (interface (client_config w)) = 16 -> cstr (interface (client_config w)) = Some name ->
  let r := fold_left (see_link name) (mjoin (answers seq <$> dump)) (client_config w, got, false) in
  wp (getifdata_loop fuel fd seq buf got)
    (fun a w' => r.2 = false /\ a = (if r.1.2 : bool then 0 else -1) /\
       w' = (w <| tick := (tick w + S (length dump))%nat |> <| client_config := r.1.1 |>))
    (fun h w' => r.2 = true /\ exists why, h = HSuicide why) w.
Proof.
  induction dump as [|ms dump IH]; intros fuel buf got w Hbuf Hf Hd Ha Hl Hname; destruct fuel as [|fuel]; try (cbn in Hf; lia);
    cbn [getifdata_loop]; unfold nl_recv_buf; cbn [nl_recvmsg World_NlProc answered] in *; wp_run.
  - rewrite Ha. cbv iota. change (0 <? 0) with false. cbv iota. wp_run.
    change (nl_foreach_nlmsg ?b 0 ?s ?p ?f ?a) with (Some (0, a)). cbv beta iota. wp_run.
    change (0 <? 0) with false. cbv iota. wp_run. cbn [fmap list_fmap length]. split_and!; [done..|].
    by rewrite Nat.add_1_r.
  - destruct Ha as [Ha Hrest]. apply Forall_cons in Hd as [(Hne & Hms & Hnoerr & Hfit) Hd]. rewrite Ha. cbv iota.
    unfold truncated. rewrite Hbuf. replace (sizeof_nlbuf <? zlen (datagram ms)) with false by lia.
    pose proof (datagram_nonempty ms Hne) as Hpos. replace (zlen (datagram ms) <? 0) with false by lia. wp_run.
    rewrite fmap_cons, mjoin_cons, fold_left_app.
    set (w1 := set_field tick _ w).
    destruct (getifdata_datagram name buf ms seq (client_config w1) got) as (code & -> & Hcode); [done..|].
    assert (Hc0 : code = 0).
    { destruct Hcode as [?|[_ He]]; [done|]. exfalso. apply Exists_exists in He as (m & Hin & Hm).
      rewrite Forall_forall in Hnoerr. by apply (Hnoerr m). }
    subst code. change (client_config w1) with (client_config w).
    destruct (fold_left (see_link name) (answers seq ms) _) as [[cc' got'] dead'] eqn:Efold. wp_run.
    destruct dead'.
    { wp_run. rewrite see_link_dead. cbn [fst snd]. split; [done|by eexists]. }
    change (0 <? 0) with false. cbv iota. replace (0 <? zlen (datagram ms)) with true by lia.
    assert (Hi : interface cc' = interface (client_config w)).
    { apply (see_link_written name) in Efold; [by destruct Efold|]. clear -Hms. induction Hms as [|m ms Hm _ IH]; [constructor|].
      cbn [answers]. repeat case_match; [done| |done|done]. by constructor. }
    set (w2 := set_field client_config _ w1).
    eapply wp_mono; [apply (IH fuel _ got' w2)|..]; try done.
    + by rewrite received_length.
    + cbn in Hf. lia.
    + unfold w2. rsimpl. by rewrite Hi.
    + unfold w2. rsimpl. by rewrite Hi.
    + intros a w' (Hr & -> & ->). split; [exact Hr|]. split; [done|].
      unfold w2, w1. cbn [length]. rsimpl. rewrite (Nat.add_succ_comm (tick w)). reflexivity.
Qed.
End Dump.

(** * Any answer *)

Section Safe.
Context `{!Env}.

(** Every datagram is one of well-formed messages and fits the buffer. *)
Definition links_ok : Prop := forall t data, env_nl t = NlData data ->
  exists ms, data = datagram ms /\ Forall link_ok ms /\ zlen data <= sizeof_nlbuf.
(** The non-blocking socket runs dry. *)
Definition nl_drains : Prop := forall n, exists k, (k < env_fuel)%nat /\
  match env_nl (n + k) with NlData (_ :: _) => False | _ => True end.

Definition link_kept (w w' : World) : Prop :=
  exists k, link_written (client_config w) (client_config w') /\
    w' = ((w <| tick := k |>) <| client_config := client_config w' |>).
#[local] Instance link_kept_trans : Transitive link_kept.
Proof.
  intros w1 w2 w3 (k2 & H2 & E2) (k3 & H3 & E3). exists k3. split.
  - destruct H3 as [-> | (idx & mac & ? & ? & E)]; [done|]. right. exists idx, mac. split_and!; [done..|].
    rewrite E. by destruct H2 as [-> | (? & ? & _ & _ & ->)].
  - rewrite E3 at 1. rewrite E2. done.
Qed.

Lemma link_kept_ticks w k : link_kept w (w <| tick := k |>).
Proof. exists k. split; [by left|by destruct w]. Qed.

Lemma answers_ok seq ms : Forall link_ok ms -> Forall link_ok (answers seq ms).
Proof.
  induction 1 as [|m ms Hm _ IH]; [constructor|]. cbn [answers]. repeat case_match; [done| |done|done]. by constructor.
Qed.

Lemma getifdata_loop_safe fd seq name : links_ok -> forall fuel buf got w,
  zlen buf = sizeof_nlbuf -> zlen (interface (client_config w)) = 16 -> cstr (interface (client_config w)) = Some name ->
  (exists k, (k < fuel)%nat /\ match env_nl (tick w + k) with NlData (_ :: _) => False | _ => True end) ->
  wp (getifdata_loop fuel fd seq buf got) (fun _ w' => link_kept w w')
    (fun h _ => exists why, h = HSuicide why) w.
Proof.
  intros Hk. induction fuel as [|fuel IH]; intros buf got w Hbuf Hl Hname (k & Hkf & Hdry); [lia|].
  cbn [getifdata_loop]. unfold nl_recv_buf. cbn [nl_recvmsg World_NlProc]. wp_run.
  set (w1 := set_field tick _ w). assert (Hw1 : link_kept w w1) by apply link_kept_ticks.
  destruct (env_nl (tick w)) as [| |data|data] eqn:En; cbv iota.
  - change (0 <? 0) with false. cbv iota. wp_run.
    change (nl_foreach_nlmsg ?b 0 ?s ?p ?f ?a) with (Some (0, a)). cbv beta iota. wp_run.
    change (0 <? 0) with false. cbv iota. wp_run. etrans; [exact Hw1|]. exists (tick w1). split; [by left|by destruct w].
  - change (-1 <? 0) with true. cbv iota. by wp_run.
  - change (-1 <? 0) with true. cbv iota. by wp_run.
  - destruct (Hk _ _ En) as (ms & -> & Hms & Hfit). unfold truncated. rewrite Hbuf.
    replace (sizeof_nlbuf <? zlen (datagram ms)) with false by lia. pose proof (zlen_nonneg (datagram ms)).
    replace (zlen (datagram ms) <? 0) with false by lia. wp_run.
    destruct (getifdata_datagram name buf ms seq (client_config w1) got) as (code & -> & _); [done..|].
    destruct (fold_left (see_link name) (answers seq ms) _) as [[cc' got'] dead'] eqn:Efold. wp_run.
    apply (see_link_written name) in Efold as [Hwr Hi]; [|by apply answers_ok].
    set (w2 := set_field client_config _ w1).
    assert (Hw2 : link_kept w w2).
    { etrans; [exact Hw1|]. exists (tick w1). split; [exact Hwr|]. by destruct w. }
    destruct dead'; [wp_run; by eexists|]. destruct (code <? 0); [by wp_run|]. zcase.
    + eapply wp_mono; [apply (IH _ got' w2)|..]; try done.
      * by rewrite received_length.
      * unfold w2. rsimpl. by rewrite Hi.
      * unfold w2. rsimpl. by rewrite Hi.
      * destruct k as [|k]; [rewrite Nat.add_0_r, En in Hdry; by destruct (datagram ms)|].
        exists k. split; [lia|]. unfold w2, w1. rsimpl. by rewrite Nat.add_succ_comm.
      * intros r w3 Hw3. by etrans.
    + by wp_run; destruct got'.
Qed.

Lemma handle_getifdata_safe fd seq w :
  links_ok -> nl_drains -> config_ok ((client_config w) <| clientid_len := 0 |>) ->
  wp (handle_getifdata fd seq) (fun _ w' => link_kept w w') (fun h _ => exists why, h = HSuicide why) w.
Proof.
  intros Hk Hd [Hi Hn]. destruct (cstr (interface (client_config w))) as [name|] eqn:E.
  - unfold handle_getifdata. apply getifdata_loop_safe with (name := name); done.
  - exfalso. revert E Hn. rsimpl. unfold cstr. intros E [n Hs]. rewrite Hs in E. cbn in E.
    apply strlen_bound in Hs. destruct (rd_range_Some (interface (client_config w)) 0 n) as (d & Ed & _); [lia..|]. congruence.
Qed.
End Safe.

(** * Properties *)

(** C27. The interface is found by its name: among all messages of the kernel's answer,
    those that describe a link of the configured name count, and the last of them
    gives the index and the hardware address; without one the call fails and the
    configuration is as before; one without an address of six bytes ends the program.
    Nothing else of the process changes. *)
Theorem getifdata_by_name `{!Env} (fd seq : Z) (name : list Z) (dump : list (list nlmsg)) (w : World) :
  Forall dump_part dump -> answered (tick w) dump -> (length dump < env_fuel)%nat ->
  zlen (interface (client_config w)) = 16 -> cstr (interface (client_config w)) = Some name ->
  let mine := filter (describes name) (mjoin (answers seq <$> dump)) in
  match mapM link_data mine with
  | Some found =>
    handle_getifdata fd seq w =
      (Ret (if decide (found = []) then -1 else 0),
       (w <| tick := (tick w + S (length dump))%nat |> <| client_config := set_link (client_config w) found |>))
  | None => exists why w', handle_getifdata fd seq w = (Halt (HSuicide why), w')
  end.
Proof.
  intros Hd Ha Hf Hl Hname mine.
  pose proof (getifdata_loop_dump fd seq name dump env_fuel (zeros (Z.to_nat sizeof_nlbuf)) false w eq_refl Hf Hd Ha Hl Hname) as Hrun.
  fold (handle_getifdata fd seq) in Hrun.
  pose proof (see_links name (mjoin (answers seq <$> dump)) (client_config w) false) as Hsee. fold mine in Hsee.
  cbv zeta in Hrun. unfold wp in Hrun. destruct (mapM link_data mine) as [found|].
  - rewrite Hsee in Hrun. cbn [fst snd orb] in Hrun. destruct (handle_getifdata fd seq w) as [[a|h] w']; [|by destruct Hrun].
    destruct Hrun as (_ & -> & ->). f_equal. f_equal. destruct (decide (found = [])); [by rewrite bool_decide_true|by rewrite bool_decide_false].
  - destruct Hsee as (cc' & got' & Hsee). rewrite Hsee in Hrun. cbn [fst snd] in Hrun.
    destruct (handle_getifdata fd seq w) as [[a|h] w']; [by destruct Hrun|]. destruct Hrun as [_ [why ->]]. by exists why, w'.
Qed.

(** The loopback device and two Ethernet devices, in two datagrams. *)
Definition sample_link (index : Z) (name : string) (mac : list Z) : nlmsg :=
  mk_nlmsg RTM_NEWLINK 2 77 0 ([0; 0; 1; 0] ++ le32 index ++ zeros 8)
    [mk_nlattr IFLA_IFNAME (chars name ++ [0]); mk_nlattr IFLA_ADDRESS mac].
Definition sample_dump : list (list nlmsg) :=
  [[sample_link 1 "lo" (zeros 6); sample_link 2 "eth0" [2; 0; 0; 0; 0; 9]];
   [sample_link 3 "eth01" [2; 0; 0; 0; 0; 10]; mk_nlmsg NLMSG_DONE 2 77 0 (zeros 4) []]].
Definition dump_env (dump : list (list nlmsg)) : Env := {|
  env_clock := fun n => Some (1000, 0); env_random := fun n => 1; env_sockd := fun n => SockdFd 0 9;
  env_ifch := fun _ => IfchData [ch "+"%char]; env_send := fun _ => 32; env_connect := fun _ => true;
  env_read := fun _ => ReadAgain; env_epoll_ctl := fun _ => true; env_ftruncate := fun _ => true;
  env_daemon := fun _ => true;
  env_nl := fun t => match dump !! t with Some ms => NlData (datagram ms) | None => NlAgain end;
  env_epoll_wait := fun _ => EpTimeout; env_open := fun _ => 5; env_fuel := 100;
  net_checksum161c := fun _ => 0; net_checksum161c_add := fun _ _ => 0
|}.

Lemma sample_dump_ok : Forall dump_part sample_dump.
Proof.
  assert (Hl : Forall (Forall link_ok) sample_dump) by (apply (bool_decide_unpack _); by vm_compute).
  repeat apply Forall_cons in Hl as [? Hl].
  repeat (apply Forall_cons; split); [..|apply Forall_nil_2];
    (split_and!; [done|done|by repeat constructor|vm_compute; congruence]).
Qed.
Lemma getifdata_by_name_witness :
  let E := dump_env sample_dump in
  let w := sample_world <| tick := 0%nat |> in
  fst (handle_getifdata 3 77 w) = Ret 0 /\
  arp (client_config (snd (handle_getifdata 3 77 w))) = [2; 0; 0; 0; 0; 9] /\
  ifindex (client_config (snd (handle_getifdata 3 77 w))) = 2.
Proof.
  intros E w.
  pose proof (getifdata_by_name (H := E) 3 77 (chars "eth0") sample_dump w sample_dump_ok) as Hrun.
  rewrite Hrun; [vm_compute; split_and!; reflexivity| |cbn; lia|done|done]. vm_compute. split_and!; reflexivity.
Defined.
