(* ===== verification/Carrier.v ===== *)
(** The state of the link as ndhc-ifch finds it out ([ifset.c: perform_carrier]) when
    the kernel's answer is a sequence of datagrams of well-formed messages. *)

From S2P Require Import Prelude Types World Samples Nl Nlmsg Netlink Ifset Ifsafe Linkdata.

(** * Link messages *)

Definition link_flags (m : nlmsg) : Z := of_le (take 4 (drop 8 (m_fixed m))).
(** A [struct ifinfomsg] follows the header of a message that describes a link. *)
Definition link_msg (m : nlmsg) : Prop :=
  msg_ok m /\ (m_type m = RTM_NEWLINK -> zlen (m_fixed m) = sizeof_ifinfomsg).
#[export] Instance link_msg_dec m : Decision (link_msg m) := _.
Definition our_link (idx : Z) (m : nlmsg) : bool := (m_type m =? RTM_NEWLINK) && (link_index m =? idx).
Definition up_and_running (flags : Z) : bool :=
  negb (Z.land flags IFF_RUNNING =? 0) && negb (Z.land flags IFF_UP =? 0).

(** The flags of the interface [idx] according to the messages [ms]: the last one
    that describes it counts. *)
Definition see_flags (idx : Z) (d : option Z) (m : nlmsg) : option Z :=
  if our_link idx m then Some (link_flags m) else d.
Definition flags_in (idx : Z) (ms : list nlmsg) : option Z := link_flags <$> last (filter (our_link idx) ms).
Definition carrier_in (idx : Z) (ms : list nlmsg) : bool :=
  match flags_in idx ms with Some flags => up_and_running flags | None => false end.

Lemma see_flags_last idx ms d :
  fold_left (see_flags idx) ms d = match flags_in idx ms with Some f => Some f | None => d end.
Proof.
  revert d. induction ms as [|m ms IH]; intros d; [done|]. cbn [fold_left]. rewrite IH. unfold flags_in, see_flags.
  rewrite filter_cons. destruct (our_link idx m) eqn:E.
  - rewrite decide_True by done. rewrite last_cons. by destruct (last _).
  - by rewrite decide_False by (by intros []).
Qed.

Section Flags.
Context `{!IfsetEnv}.

Lemma ifi_flags_image pre m post : msg_ok m -> zlen (m_fixed m) = sizeof_ifinfomsg ->
  ifi_flags (pre ++ msg_image m ++ post) (zlen pre) = Some (link_flags m).
Proof.
  intros Hm Hf. unfold sizeof_ifinfomsg in Hf. unfold ifi_flags, link_flags, rd32, NLMSG_HDRLEN.
  assert (Hsplit : m_fixed m = take 8 (m_fixed m) ++ take 4 (drop 8 (m_fixed m)) ++ drop 4 (drop 8 (m_fixed m)))
    by by rewrite !take_drop.
  set (hdr := le32 (msg_len m) ++ le16 (m_type m) ++ le16 (m_flags m) ++ le32 (m_seq m) ++ le32 (m_pid m)).
  assert (Hshape : pre ++ msg_image m ++ post =
    (pre ++ hdr ++ take 8 (m_fixed m)) ++ take 4 (drop 8 (m_fixed m)) ++
    (drop 4 (drop 8 (m_fixed m)) ++ attrs_image (m_attrs m) ++ post)).
  { subst hdr. unfold msg_image, msg_body. rewrite Hsplit at 1. by rewrite <- !app_assoc. }
  assert (H4 : zlen (take 8 (m_fixed m)) = 8 /\ zlen (take 4 (drop 8 (m_fixed m))) = 4).
  { unfold zlen in *. rewrite !length_take, length_drop. lia. }
  rewrite Hshape, rd_range_at; [done| |lia]. subst hdr. rewrite !zlen_app, !le32_len, !le16_len. lia.
Qed.

Definition visit_link (m : nlmsg) (d : option Z) : IM (option Z) := fun w =>
  (Ret (see_flags (ifindex (if_config w)) d m), w).

Lemma link_flags_get_do_visit pre m post d w :
  link_msg m -> link_flags_get_do (pre ++ msg_image m ++ post) (zlen pre) d w = visit_link m d w.
Proof.
  intros [Hm Hlink]. unfold link_flags_get_do, visit_link, see_flags, our_link.
  rewrite msg_image_nlmsg_type by done. st_run. zcase; [|done].
  rewrite (ifi_index_image pre m post) by auto. st_run. zcase; [|done].
  rewrite ifi_flags_image by auto. by st_run.
Qed.

Lemma walk_link seq ms : Forall (fun m => m_type m <> NLMSG_ERROR) ms -> forall d w,
  walk_st seq visit_link ms d w = (Ret (0, fold_left (see_flags (ifindex (if_config w))) (answers seq ms) d), w).
Proof.
  induction 1 as [|m ms Hm _ IH]; intros d w; [done|]. cbn [walk_st answers].
  destruct (_ && _); [apply IH|]. destruct (_ <=? _); [apply IH|].
  zcase; [done|]. destruct (_ =? NLMSG_DONE); [done|]. apply IH.
Qed.

(** ** The answer to a dump request *)

(** The kernel answers with the datagrams of [dump], from the tick [t] on. *)
Fixpoint link_answered (t : nat) (dump : list (list nlmsg)) : Prop :=
  match dump with
  | [] => ie_recvmsg t = NlAgain
  | ms :: dump => ie_recvmsg t = NlData (datagram ms) /\ link_answered (S t) dump
  end.
Definition link_part (ms : list nlmsg) : Prop :=
  ms <> [] /\ Forall link_msg ms /\ Forall (fun m => m_type m <> NLMSG_ERROR) ms /\ zlen (datagram ms) <= sizeof_nlbuf.

Lemma dump_links fd seq dump : forall fuel buf d w,
  zlen buf = sizeof_nlbuf -> (length dump < fuel)%nat -> Forall link_part dump -> link_answered (if_tick w) dump ->
  dump_loop fuel fd seq buf link_flags_get_do d w =
    (Ret (0, fold_left (see_flags (ifindex (if_config w))) (mjoin (answers seq <$> dump)) d),
     w <| if_tick := (if_tick w + S (length dump))%nat |>).
Proof.
  induction dump as [|ms dump IH]; intros fuel buf d w Hbuf Hf Hd Ha; destruct fuel as [|fuel]; try (cbn in Hf; lia);
    cbn [dump_loop]; unfold nl_recv_buf; cbn [nl_recvmsg ifset_NlProc]; unfold iask; st_run; cbn [link_answered] in Ha.
  - rewrite Ha. change (0 <? 0) with false. cbv iota.
    change (nl_foreach_st buf 0 seq 0 link_flags_get_do d) with (mret (M := IM) (0, d)). st_run.
    cbn [fst snd]. change (0 <? 0) with false. cbv iota. st_run. cbn [length fmap list_fmap mjoin fold_left].
    by rewrite Nat.add_1_r.
  - destruct Ha as [Ha Hrest]. apply Forall_cons in Hd as [(Hne & Hms & Hnoerr & Hfit) Hd]. rewrite Ha.
    unfold truncated. rewrite Hbuf. replace (sizeof_nlbuf <? zlen (datagram ms)) with false by lia.
    pose proof (datagram_nonempty ms Hne) as Hpos. replace (zlen (datagram ms) <? 0) with false by lia.
    assert (Hok : Forall msg_ok ms) by (eapply Forall_impl; [exact Hms|by intros m []]).
    pose proof (received_length buf (datagram ms)) as Hrl.
    rewrite (received_datagram buf (datagram ms)) in * by (lia || by apply datagram_bytes).
    set (post := drop _ buf) in *. set (w1 := set_field if_tick _ w).
    assert (Hwalk : nl_foreach_st (datagram ms ++ post) (zlen (datagram ms)) seq 0 link_flags_get_do d w1 =
      (Ret (0, fold_left (see_flags (ifindex (if_config w))) (answers seq ms) d), w1)).
    { rewrite (foreach_st_walk seq visit_link link_msg ms post); [exact (walk_link seq ms Hnoerr d w1)|by intros m []|done|done| |].
         - by rewrite Hrl, Hbuf.
         - intros pre m post' d' s Hb Hm _. rewrite Hb. by apply link_flags_get_do_visit. }
    rewrite (run_val _ _ _ _ _ Hwalk). cbn [fst snd]. change (0 <? 0) with false. cbv iota.
    replace (0 <? zlen (datagram ms)) with true by lia.
    rewrite (IH fuel _ _ w1); [|by rewrite Hrl|cbn in Hf; lia|done|done].
    rewrite fmap_cons, mjoin_cons, fold_left_app. unfold w1. rsimpl. cbn [length].
    by rewrite (Nat.add_succ_comm (if_tick w)).
Qed.

(** The request for the links, and what the process is after it was answered. *)
Definition getlink_request (seq idx : Z) : list Z :=
  nlmsghdr_image (NLMSG_HDRLEN + sizeof_ifinfomsg) RTM_GETLINK (Z.lor NLM_F_REQUEST NLM_F_ROOT) seq ++
  ifinfomsg_image idx 0 0.
Lemma getlink_request_len seq idx : zlen (getlink_request seq idx) = NLMSG_HDRLEN + sizeof_ifinfomsg.
Proof. reflexivity. Qed.

Lemma nl_sendgetlink_run fd seq idx w :
  ie_sendto (if_tick w) = NLMSG_HDRLEN + sizeof_ifinfomsg ->
  nl_sendgetlink fd seq idx w =
    (Ret 0, w <| if_trace ::= cons (ISend fd (getlink_request seq idx)) |> <| if_tick ::= S |>).
Proof.
  intros Hs. unfold nl_sendgetlink, nl_sendgetlink_do, nl_send_all. cbn [nl_sendto ifset_NlProc].
  unfold iemit, iask, mbind, M_bind, gets, modify, mret, M_ret. rsimpl. rewrite Hs. reflexivity.
Qed.

Lemma link_flags_get_run fd dump w :
  let seq := ifset_nl_seq w in
  let idx := ifindex (if_config w) in
  ie_sendto (if_tick w) = NLMSG_HDRLEN + sizeof_ifinfomsg ->
  Forall link_part dump -> link_answered (S (if_tick w)) dump -> (length dump < ie_fuel)%nat ->
  link_flags_get fd w =
    (Ret (match flags_in idx (mjoin (answers seq <$> dump)) with Some f => (0, f) | None => (-4, 0) end),
     w <| ifset_nl_seq := u32 (seq + 1) |> <| if_trace ::= cons (ISend fd (getlink_request seq idx)) |>
       <| if_tick := (if_tick w + (2 + length dump))%nat |>).
Proof.
  intros seq idx Hs Hd Ha Hf. unfold link_flags_get.
  set (w0 := w <| ifset_nl_seq := u32 (seq + 1) |>).
  assert (E0 : next_seq w = (Ret seq, w0)) by reflexivity. rewrite (run_val _ _ _ _ _ E0). st_run.
  rewrite (run_val _ _ _ _ _ (nl_sendgetlink_run fd seq _ w0 Hs)). change (0 <? 0) with false. cbv iota.
  set (w1 := set_field if_tick _ _). unfold Ifset.dump.
  assert (Hbuf : zlen (zeros (Z.to_nat sizeof_nlbuf)) = sizeof_nlbuf) by reflexivity.
  rewrite (run_val _ _ _ _ _ (dump_links fd seq dump ie_fuel _ None w1 Hbuf Hf Hd Ha)). cbn [fst snd].
  change (0 <? 0) with false. cbv iota. rewrite see_flags_last. change (ifindex (if_config w1)) with idx.
  unfold w1, w0. rsimpl. rewrite (Nat.add_succ_comm (if_tick w)). by destruct (flags_in _ _).
Qed.

Lemma perform_carrier_run dump w :
  let seq := ifset_nl_seq w in
  let idx := ifindex (if_config w) in
  let fd := ie_socket (if_tick w) in
  0 <= fd -> ie_sendto (S (if_tick w)) = NLMSG_HDRLEN + sizeof_ifinfomsg ->
  Forall link_part dump -> link_answered (S (S (if_tick w))) dump -> (length dump < ie_fuel)%nat ->
  perform_carrier w =
    (Ret (if carrier_in idx (mjoin (answers seq <$> dump)) then 0 else -1),
     w <| ifset_nl_seq := u32 (seq + 1) |> <| if_tick := (if_tick w + (3 + length dump))%nat |>
       <| if_trace := IClose fd :: ISend fd (getlink_request seq idx) :: ISocket :: if_trace w |>).
Proof.
  intros seq idx fd Hfd Hs Hd Ha Hf. unfold perform_carrier.
  set (w1 := w <| if_trace ::= cons ISocket |> <| if_tick ::= S |>).
  assert (E1 : nl_socket w = (Ret fd, w1)) by reflexivity. rewrite (run_val _ _ _ _ _ E1).
  replace (fd <? 0) with false by lia. rewrite (run_val _ _ _ _ _ (link_flags_get_run fd dump w1 Hs Hd Ha Hf)).
  change (ifset_nl_seq w1) with seq. change (ifindex (if_config w1)) with idx.
  unfold iclose, iemit, carrier_in, up_and_running. st_run. unfold w1. rsimpl.
  rewrite (Nat.add_succ_comm (if_tick w)). by destruct (flags_in _ _).
Qed.
End Flags.
