(* ===== verification/Together.v ===== *)
(** The master and its helpers together: what a request of the master brings about on
    the other side, and what the master makes of the answer.

    The two ends of a socket are tied by equations between the environments of the two
    processes: the helper receives what the master sends, the master what the helper
    answers. *)

From stdpp Require Import gmap.
From S2P Require Import Prelude Types Options World Samples Ipc Ifchange Dhcp Arp Nl Nlmsg Netlink Ifset Bpf Sockd.
From S2P Require Import Nlmsg Linkdata Carrier Ifaddr Ifsafe Ifchd Ragel Ifchparse Ifcmd Ifproto Ifchsafe.
Import Codec.

(** * ndhc-ifch *)

Section Ifch.
Context `{!Env} `{!IfchEnv}.

(** What the master receives from a run of the helper's handler: the character
    answered, or the end of the stream when the helper ended without an answer. *)
Inductive hears (wi : ifch_world) : outcome unit * ifch_world -> ifch_reply -> Prop :=
| hears_answer o wi' c :
    answers_sent (ch_trace wi') = c :: answers_sent (ch_trace wi) -> hears wi (o, wi') (IfchData [c])
| hears_end h wi' :
    answers_sent (ch_trace wi') = answers_sent (ch_trace wi) -> hears wi (Halt h, wi') IfchEof.

(** An answer is one character. *)
Lemma answer_sends ebr wi :
  (forall t, 0 < ch_reply t) ->
  answers_sent (ch_trace (answer ebr wi).2) =
    (if ebr <? 0 then ch "-"%char else ch "+"%char) :: answers_sent (ch_trace wi).
Proof.
  intros Hopen. unfold answer, inform_execute, cemit, cask. pose proof (Hopen (ch_tick wi)) as Hpos.
  destruct (ebr <? 0); st_run; rsimpl; replace (ch_reply (ch_tick wi) =? 0) with false by lia;
    replace (ch_reply (ch_tick wi) <? 0) with false by lia; st_run; [|done].
  by destruct (ebr =? -99).
Qed.

(** The helper handles the master's next request [text], and the master's next answer
    from it is the helper's. *)
Record tied (text : list Z) (w : World) (wi : ifch_world) : Prop := {
  tied_request : ch_recv (ch_tick wi) = ReadData text;
  tied_answer : hears wi (Ifchparse.process_client_socket wi) (env_ifch (tick w));
  tied_open : forall t, 0 < ch_reply t
}.

(** What the request of [cs] brings about: the helper's world after its commands, and
    what the master hears. *)
Lemma request_heard cs wi r :
  ch_recv (ch_tick wi) = ReadData (request_text cs) -> cs <> [] -> Forall command_ok cs ->
  bytes_ok (request_text cs) = true -> Forall (fun c => c <> 0) (request_text cs) ->
  zlen (request_text cs) < MAX_BUF -> cstr (ibuf (cl wi)) = Some [] -> (forall t, 0 < ch_reply t) ->
  hears wi (Ifchparse.process_client_socket wi) r ->
  r = match (run_commands cs 0 (wi <| ch_tick ::= S |>)).1 with
      | Ret ebr => IfchData [if ebr <? 0 then ch "-"%char else ch "+"%char]
      | Halt h => IfchEof
      end.
Proof.
  intros Hr Hne Hok Hb Hnz Hl Hib Hopen Hears. rewrite (process_request cs wi Hr Hne Hok Hb Hnz Hl Hib) in Hears.
  pose proof (run_commands_ibuf cs 0 (wi <| ch_tick ::= S |>)) as Hkeep. unfold mbind, M_bind in Hears.
  destruct (run_commands cs 0 _) as [[ebr|h] w1]; unfold same_ibuf in Hkeep; cbn [fst snd] in *;
    injection Hkeep as _ Hkeep; change (answers_sent (ch_trace w1) = answers_sent (ch_trace wi)) in Hkeep.
  - pose proof (answer_sends ebr w1 Hopen) as Ha. destruct (answer ebr w1) as [o w2]. cbn [snd] in Ha.
    rewrite Hkeep in Ha. inversion Hears as [? ? c Hc|? ? Hc]; subst; rewrite Ha in Hc.
    + by injection Hc as <-.
    + apply (f_equal length) in Hc. cbn [length] in Hc. lia.
  - inversion Hears as [? ? c Hc|? ? Hc]; subst; [|done]. rewrite Hkeep in Hc.
    apply (f_equal length) in Hc. cbn [length] in Hc. lia.
Qed.

Lemma ifchwrite_heard cs w wi :
  tied (request_text cs) w wi -> cs <> [] -> Forall command_ok cs ->
  bytes_ok (request_text cs) = true -> Forall (fun c => c <> 0) (request_text cs) ->
  zlen (request_text cs) < MAX_BUF -> cstr (ibuf (cl wi)) = Some [] ->
  ifchwrite (request_text cs) w =
  (match (run_commands cs 0 (wi <| ch_tick ::= S |>)).1 with
   | Ret ebr => Ret (if ebr <? 0 then -1 else 0)
   | Halt _ => Halt (HExit 0)
   end, w <| trace ::= cons (AIfch (request_text cs)) |> <| tick ::= S |>).
Proof.
  intros [Hr Ha Ho] Hne Hok Hb Hnz Hl Hib. pose proof (request_heard cs wi _ Hr Hne Hok Hb Hnz Hl Hib Ho Ha) as Hheard.
  unfold ifchwrite, emit, ask. st_run. unfold mbind, M_bind. cbn [tick]. rsimpl. rewrite Hheard.
  by destruct (run_commands cs 0 _).1 as [ebr|h]; [destruct (ebr <? 0)|].
Qed.

(** ** A refused request *)

Definition same_answers (wi wi' : ifch_world) : Prop := answers_sent (ch_trace wi') = answers_sent (ch_trace wi).
#[local] Instance same_answers_preorder : PreOrder same_answers.
Proof. split; [done|]. intros a b c. unfold same_answers. congruence. Qed.
Lemma ibuf_answers {A} (m : CM A) : keeps same_ibuf m -> keeps same_answers m.
Proof. intros Hm wi. specialize (Hm wi). by injection Hm. Qed.
Lemma execute_buffer_answers s : keeps same_answers (execute_buffer s).
Proof.
  unfold execute_buffer. apply keeps_bind; [exact _|apply keeps_gets, _|intros old].
  apply keeps_bind; [exact _|apply keeps_ub, _|intros o]. cbv zeta. destruct (_ <=? _); [apply keeps_ret, _|].
  apply keeps_bind; [exact _|apply exec_keeps; [exact _|intros; apply ibuf_answers, ifchd_act_ibuf]|]. intros [r|[[rs p] l]]; [apply keeps_ret, _|].
  apply keeps_bind; [exact _| |intros [|]; [apply keeps_ret, _|destruct (negb _); apply keeps_ret, _]].
  destruct (0 <? _); [|apply keeps_ret, _]. apply keeps_bind; [exact _|apply keeps_gets, _|intros ib].
  apply keeps_bind; [exact _|apply keeps_ub, _|intros ib']. apply keeps_bind; [exact _|by apply keeps_modify|intros _].
  apply keeps_ret, _.
Qed.

(** The helper ends on a request that does not start as one, and the master hears
    that it failed, or nothing any more. *)
Lemma refused_heard s rest wi r :
  ch_recv (ch_tick wi) = ReadData (s ++ rest) -> Forall (fun c => 0 < c < 256) s -> s <> [] -> zlen s < MAX_BUF ->
  cstr (ibuf (cl wi)) = Some [] -> (forall u, ~ lang ifchd_parser (s ++ u)) -> (forall t, 0 < ch_reply t) ->
  hears wi (Ifchparse.process_client_socket wi) r ->
  (exists h, (Ifchparse.process_client_socket wi).1 = Halt h) /\ (r = IfchData [ch "-"] \/ r = IfchEof).
Proof.
  intros Hr Hs Hne Hl Hib Hno Hopen.
  enough (wp Ifchparse.process_client_socket (fun _ _ => False)
            (fun _ w' => same_answers wi w' \/ answers_sent (ch_trace w') = ch "-" :: answers_sent (ch_trace wi)) wi) as Hwp.
  { unfold wp in Hwp. destruct (Ifchparse.process_client_socket wi) as [[[]|h] w']; [done|]. intros Hh.
    split; [by exists h|]. inversion Hh as [? ? c Hc|? ? Hc]; subst; [left|by right].
    destruct Hwp as [Hw|Hw]; [|congruence]. unfold same_answers in Hw. rewrite Hw in Hc.
    apply (f_equal length) in Hc. cbn [length] in Hc. lia. }
  destruct (received_prefix s rest Hs Hl) as [u Hu].
  unfold Ifchparse.process_client_socket, cask. wp_run. rewrite Hr. cbv zeta. zcase; [wp_run; by left|]. rewrite wp_bind, Hu.
  eapply wp_mono; [eapply (keeps_wp same_answers); [apply execute_buffer_answers|by apply execute_refuses]| |].
  2: { intros h w' [Hw _]. by left. }
  intros ebr w' [Hw ->]. cbn [Z.ltb Z.compare]. unfold inform_execute, cemit, cask. wp_run. rsimpl.
  pose proof (Hopen (ch_tick w')). replace (ch_reply (ch_tick w') =? 0) with false by lia.
  replace (ch_reply (ch_tick w') <? 0) with false by lia. wp_run. right. rsimpl. cbn [answers_sent]. by rewrite Hw.
Qed.
End Ifch.

(** * The texts of a lease *)

Definition text_bytes (r : option (option (list Z))) : Prop := forall t, r = Some (Some t) -> bytes_ok t = true.

Lemma until_nul_bytes d : bytes_ok d = true -> bytes_ok (until_nul d) = true.
Proof.
  rewrite !bytes_ok_Forall. induction 1 as [|c d Hc _ IH]; cbn [until_nul]; [constructor|].
  destruct (c =? 0); by constructor.
Qed.
Lemma dec_bytes n : bytes_ok (dec n) = true.
Proof.
  apply bytes_ok_Forall. eapply Forall_impl; [by apply dec_digits_only|]. cbn beta. lia.
Qed.
Lemma inet_ntop_bytes b s : inet_ntop b = Some s -> bytes_ok s = true.
Proof.
  intros (b0 & b1 & b2 & b3 & rest & _ & ->)%inet_ntop_shape.
  repeat (rewrite ?bytes_ok_app, ?dec_bytes; cbn [bytes_ok forallb andb]; change (forallb byte_ok ?l) with (bytes_ok l)).
  done.
Qed.
Lemma ifcmd_raw_bytes bl name d t :
  bytes_ok name = true -> bytes_ok d = true -> ifcmd_raw bl name d = Some t -> bytes_ok t = true.
Proof.
  intros Hn Hd. unfold ifcmd_raw. zcases; [done..|]. intros [= <-]. rewrite bytes_ok_app, Hn. cbn [andb].
  change (bytes_ok (ch ":"%char :: ?l)) with (true && bytes_ok l). rewrite bytes_ok_app, until_nul_bytes; done.
Qed.
Lemma iplist_bytes fuel od o acc t : bytes_ok acc = true -> iplist_loop fuel od o acc = Some t -> bytes_ok t = true.
Proof.
  revert o acc. induction fuel as [|fuel IH]; intros o acc Ha; [done|]. cbn [iplist_loop].
  destruct (_ <=? _); [|by intros [= <-]]. destruct (rd_range od o 4) as [a|]; [|done]. cbn [mbind option_bind].
  destruct (inet_ntop a) as [ip|] eqn:Ei; [|done]. cbn [mbind option_bind]. destruct (_ <=? _); [done|].
  apply IH. rewrite bytes_ok_app, Ha. by apply inet_ntop_bytes in Ei.
Qed.

Lemma ifchd_cmd_bytes bl d code : bytes_ok d = true -> text_bytes (ifchd_cmd bl d code).
Proof.
  intros Hd.
  assert (Hraw : forall name s, bytes_ok name = true -> bytes_ok s = true -> text_bytes (Some (ifcmd_raw bl name s)))
    by (intros name s Hn Hs t [= Ht]; exact (ifcmd_raw_bytes _ _ _ _ Hn Hs Ht)).
  assert (Hlist : forall name, bytes_ok name = true -> text_bytes (ifcmd_iplist bl name d)).
  { intros name Hn. unfold ifcmd_iplist. destruct (_ <? _); [by intros t [=]|].
    destruct (inet_ntop d) as [ip|] eqn:Ei; [|by intros t [=]]. cbn [mbind option_bind].
    destruct (iplist_loop _ _ _ _) as [s|] eqn:El; [|by intros t [=]]. apply Hraw; [done|].
    eapply iplist_bytes, El. by eapply inet_ntop_bytes. }
  assert (Hrd : forall c, rd d 0 = Some c -> bytes_ok [c] = true).
  { intros c Hc%rd_elem. apply (bytes_ok_elem d c Hd) in Hc. apply bytes_ok_Forall. by constructor. }
  unfold ifchd_cmd, ifcmd_ip, ifcmd_s32, ifcmd_u16, ifcmd_u8, ifcmd_bytes.
  repeat match goal with
  | |- text_bytes (ifcmd_iplist _ _ _) => by apply Hlist
  | |- text_bytes (Some None) => by intros t [=]
  | |- text_bytes None => by intros t [=]
  | |- text_bytes (Some (ifcmd_raw _ _ _)) => apply Hraw; [done|]
  | |- text_bytes (if ?b then _ else _) => destruct b
  | |- text_bytes (mbind _ ?o) => destruct o eqn:?; cbn [mbind option_bind]
  end; try done.
  - by eapply inet_ntop_bytes.
  - unfold sdec32. destruct (_ <? _); [apply dec_bytes|]. apply (dec_bytes (2 ^ 32 - _)).
  - apply dec_bytes.
  - apply until_nul_bytes. by apply Hrd.
Qed.

Lemma send_client_ip_bytes olen cfg p t : send_client_ip olen cfg p = Some t -> bytes_ok t = true.
Proof.
  unfold send_client_ip. destruct (inet_ntop (le32 (yiaddr p))) as [ip|] eqn:Eip; [|done]. cbn [mbind option_bind].
  apply inet_ntop_bytes in Eip.
  assert (Ho : forall (b : bool) d o, (if b then Some <$> inet_ntop d else Some None) = Some o ->
    forall s, o = Some s -> bytes_ok s = true).
  { intros [] d o H s ->; [|done]. destruct (inet_ntop d) as [s'|] eqn:E; [|done].
    injection H as <-. by eapply inet_ntop_bytes. }
  destruct (get_dhcp_opt p DCODE_SUBNET _) as [sd|]; [|done]. cbn [mbind option_bind].
  destruct (if (_ : bool) then Some <$> inet_ntop sd else _) as [sn|] eqn:Esn; [|done]. cbn [mbind option_bind].
  destruct (if (_ : bool) then option_changed _ _ _ sd else _) as [b1|]; [|done]. cbn [mbind option_bind].
  destruct (get_dhcp_opt p DCODE_BROADCAST _) as [bd|]; [|done]. cbn [mbind option_bind].
  destruct (if (_ : bool) then Some <$> inet_ntop bd else _) as [bc|] eqn:Ebc; [|done]. cbn [mbind option_bind].
  destruct (if (_ : bool) then option_changed _ _ _ bd else _) as [b2|]; [|done]. cbn [mbind option_bind].
  destruct (_ && _); [by intros [= <-]|]. set (text := chars "ip4:" ++ _).
  destruct (olen <=? _); intros [= <-]; [done|]. subst text.
  assert (Hsn : bytes_ok (default (chars "255.255.255.0") sn) = true)
    by (destruct sn as [sn|]; [exact (Ho _ _ _ Esn sn eq_refl)|done]).
  assert (Hcons : forall l, bytes_ok (ch ","%char :: l) = bytes_ok l) by done.
  rewrite !bytes_ok_app, Eip, Hcons, !bytes_ok_app, Hsn. destruct bc as [bc|]; [|done].
  by rewrite Hcons, (Ho _ _ _ Ebc bc eq_refl).
Qed.

Lemma bind_command_bytes cfg p t : opt_bufs_ok p -> bind_command cfg p = Some t -> bytes_ok t = true.
Proof.
  intros Hp. unfold bind_command. destruct (send_client_ip 2048 cfg p) as [u|] eqn:Eu; [|done].
  cbn [mbind option_bind]. apply send_client_ip_bytes in Eu. revert u Eu.
  generalize bind_codes as codes. induction codes as [|code codes IH]; intros u Hu; cbn [send_cmds]; [by intros [= <-]|].
  destruct (send_cmd _ cfg p code) as [v|] eqn:Ev; [|done]. cbn [mbind option_bind]. apply IH.
  rewrite bytes_ok_app, Hu. cbn [andb]. revert Ev. unfold send_cmd.
  destruct (get_opt_total p code Hp) as (d & -> & _ & Hd). cbn [mbind option_bind]. destruct (_ =? 0); [by intros [= <-]|].
  destruct (get_dhcp_opt cfg code _); [|done]. cbn [mbind option_bind]. destruct (_ && _); [by intros [= <-]|].
  destruct (ifchd_cmd _ d code) as [[s|]|] eqn:Ec; cbn [mbind option_bind default]; [|by intros [= <-]|done].
  intros [= <-]. by eapply ifchd_cmd_bytes.
Qed.

(** [ifchange_bind] with something to send. *)
Lemma ifchange_bind_sends `{!Env} packet text w :
  bind_command (cfg_packet w) packet = Some text -> text <> [] ->
  ifchange_bind packet w =
  (ret ← ifchwrite text;
   (if 0 <=? ret then
      set_cs (fun c => c <| ifDeconfig := 0 |>);; modify (fun w => w <| cfg_packet := packet |>)
    else mret tt);;
   mret ret) w.
Proof.
  intros Hb Hne. unfold ifchange_bind. st_run. rewrite Hb. st_run.
  by replace (zlen text =? 0) with false by (destruct text; [done|zlen_lia]).
Qed.
Lemma mtu_request_heard `{!IfchEnv} cfg packet v text wi r :
  opt_bufs_ok packet -> clean_names packet -> sets_mtu cfg packet v -> 100 <= v < 65536 ->
  bind_command cfg packet = Some text -> bytes_ok text = true -> zlen text < MAX_BUF ->
  ch_recv (ch_tick wi) = ReadData text -> cstr (ibuf (cl wi)) = Some [] -> (forall t, 0 < ch_reply t) ->
  hears wi (Ifchparse.process_client_socket wi) r ->
  (exists h, (Ifchparse.process_client_socket wi).1 = Halt h) /\ (r = IfchData [ch "-"] \/ r = IfchEof).
Proof.
  intros Hp Hc Hv Hvr Hb Hbytes Hl Hr Hib Hopen.
  destruct (bind_command_mtu _ _ _ _ Hp Hc Hv ltac:(lia) Hb Hl) as (cs & rest & Hcs & ->).
  rewrite app_assoc in Hr, Hbytes, Hl. revert Hr Hbytes Hl.
  set (s := request_text cs ++ chars "mtu:" ++ dec v ++ [ch ";"]). intros Hr Hbytes Hl.
  pose proof (zlen_nonneg rest). rewrite zlen_app in Hl. rewrite bytes_ok_app in Hbytes. apply andb_prop in Hbytes as [Hbytes _].
  apply (refused_heard s rest); try done; [| | |].
  - assert (Hn : Forall (fun c => c <> 0) s).
    { subst s. rewrite !Forall_app. split_and!; [by apply text_request_nonul|by repeat constructor| |by repeat constructor].
      eapply Forall_impl; [by apply dec_digits_only|]. intros x Hx. cbn beta in *. lia. }
    apply bytes_ok_Forall in Hbytes. rewrite Forall_forall in Hn, Hbytes |- *. intros x Hx.
    specialize (Hn x Hx). specialize (Hbytes x Hx). cbn beta in *. lia.
  - subst s. by destruct (request_text cs).
  - lia.
  - intros u. subst s. rewrite <- !app_assoc. apply mtu_not_a_request; [|lia]. eapply Forall_impl; [exact Hcs|by intros ? []].
Qed.

(** * Properties: ndhc-ifch *)

(** C20. Binding, end to end: a lease whose host and domain names are clean (no semicolon
    and not empty up to the first NUL), whose request is not empty and fits
    ndhc-ifch's buffer, and an idle ndhc-ifch that receives the request and whose answers
    the master receives.  When the lease sets no MTU, the request is a sequence of
    well-formed commands; when all of them succeed, [ifchange_bind] returns 0 and makes
    the packet the current configuration; when one fails it returns -1 and the
    configuration is as before; and when ndhc-ifch ends on them, the master ends with
    status 0.  When the lease changes the MTU to one of three or more digits, ndhc-ifch
    ends on the request, and the configuration is as before: [ifchange_bind]
    returns -1, or the master ends with status 0. *)
Theorem bind_end_to_end `{!Env} `{!IfchEnv} (packet : dhcpmsg) (text : list Z) (w : World) (wi : ifch_world) :
  dhcpmsg_ok packet = true -> clean_names packet ->
  bind_command (cfg_packet w) packet = Some text -> text <> [] -> zlen text < MAX_BUF ->
  cstr (ibuf (cl wi)) = Some [] -> tied text w wi ->
  let sent := w <| trace ::= cons (AIfch text) |> <| tick ::= S |> in
  (no_mtu packet -> exists commands, Forall command_ok commands /\ text = request_text commands /\
    ifchange_bind packet w =
    match (run_commands commands 0 (wi <| ch_tick ::= S |>)).1 with
    | Ret ebr =>
      if ebr <? 0 then (Ret (-1), sent)
      else (Ret 0, sent <| cs ::= fun c => c <| ifDeconfig := 0 |> |> <| cfg_packet := packet |>)
    | Halt _ => (Halt (HExit 0), sent)
    end) /\
  (forall v, sets_mtu (cfg_packet w) packet v -> 100 <= v < 65536 ->
    (exists h, (Ifchparse.process_client_socket wi).1 = Halt h) /\
    (ifchange_bind packet w = (Ret (-1), sent) \/ ifchange_bind packet w = (Halt (HExit 0), sent))).
Proof.
  intros Hp Hc Hb Hne Hl Hib Ht sent. apply dhcpmsg_ok_bufs in Hp.
  pose proof (bind_command_bytes _ _ _ Hp Hb) as Hbytes. split.
  - intros Hm. pose proof Hb as Hb'. apply bind_command_request in Hb' as (cmds & Hcs & ->); [|exact Hp|exact (conj Hc Hm)].
    assert (Hok : Forall command_ok cmds) by (eapply Forall_impl; [exact Hcs|by intros ? []]).
    assert (Hn : cmds <> []) by (by intros ->). exists cmds. split_and!; [done..|].
    pose proof (ifchwrite_heard cmds w wi Ht Hn Hok Hbytes (text_request_nonul _ Hcs) Hl Hib) as Hw.
    rewrite (ifchange_bind_sends _ _ _ Hb Hne). unfold mbind at 1, M_bind. rewrite Hw.
    destruct (run_commands cmds 0 _).1 as [ebr|h]; [|done]. by destruct (ebr <? 0).
  - intros v Hv Hvr. destruct Ht as [Hr Ha Ho].
    destruct (mtu_request_heard _ _ v text wi _ Hp Hc Hv Hvr Hb Hbytes Hl Hr Hib Ho Ha) as [Hh Hheard]. split; [exact Hh|].
    rewrite (ifchange_bind_sends _ _ _ Hb Hne). unfold ifchwrite, emit, ask. st_run. unfold mbind, M_bind. cbn [tick]. rsimpl.
    destruct Hheard as [-> | ->]; [by left|by right].
Qed.

(** A master without a lease and an idle ndhc-ifch: the kernel finds no address on the
    interface, takes the new one, says that the link is up, and takes the route. *)
Definition sample_text : list Z := default [] (bind_command dhcpmsg_zero sample_lease).
Definition sample_link_up : nlmsg :=
  mk_nlmsg RTM_NEWLINK 0 3 0 ([0; 0; 1; 0] ++ le32 2 ++ le32 (Z.lor IFF_UP IFF_RUNNING) ++ zeros 4) [].
Definition binding_ifset_env : IfsetEnv := {|
  ie_socket := fun _ => 4; ie_sendto := fun t => nth t [0; 24; 0; 40; 0; 32; 0; 0; 0; 52] 0;
  ie_recvmsg := fun t => nth t [NlAgain; NlAgain; NlAgain; NlAgain; NlData nl_ack; NlAgain;
                                NlData (msg_image sample_link_up); NlAgain; NlAgain; NlAgain; NlData nl_ack] NlAgain;
  ie_fuel := 10
|}.
Definition binding_env (text : list Z) : IfchEnv := {|
  ch_ifset := binding_ifset_env;
  ch_lseek := fun _ => true; ch_read := fun _ => 4096; ch_write := fun _ => 4096;
  ch_ftruncate := fun _ => true; ch_fsync := fun _ => true; ch_sethostname := fun _ => true;
  ch_recv := fun _ => ReadData text; ch_reply := fun _ => 1
|}.

(** The same lease with an MTU of 1500, and a master that hears ["-"]. *)
Definition mtu_lease : dhcpmsg := sample_message 5 [26; 2; 5; 220].
Definition mtu_lease_text : list Z := default [] (bind_command dhcpmsg_zero mtu_lease).
Definition refused_env : Env := {|
  env_clock := fun n => Some (1000, 0); env_random := fun n => 1; env_sockd := fun n => SockdEof;
  env_ifch := fun _ => IfchData [ch "-"%char]; env_send := fun _ => 0; env_connect := fun _ => true;
  env_read := fun _ => ReadAgain; env_epoll_ctl := fun _ => true; env_ftruncate := fun _ => true;
  env_daemon := fun _ => true; env_nl := fun _ => NlAgain; env_epoll_wait := fun _ => EpTimeout; env_open := fun _ => 5;
  env_fuel := 100; net_checksum161c := fun _ => 0; net_checksum161c_add := fun _ _ => 0
|}.
Lemma sample_tied E text c :
  env_ifch (Env := E) (tick sample_world) = IfchData [c] ->
  answers_sent (ch_trace (Ifchparse.process_client_socket (H := binding_env text) sample_ifch_world).2) = [c] ->
  tied (H := E) (H0 := binding_env text) text sample_world sample_ifch_world.
Proof.
  intros He Ha. split; [done| |by intros]. rewrite He. revert Ha.
  destruct (Ifchparse.process_client_socket sample_ifch_world) as [o wi']. intros Ha. by apply hears_answer.
Qed.

Lemma bind_end_to_end_witness :
  (let E := sample_env (ch "l"%char) 0 in
   let I := binding_env sample_text in
   exists commands, Forall command_ok commands /\ sample_text = request_text commands /\
    (ifchange_bind sample_lease sample_world).1 =
    match (run_commands commands 0 (sample_ifch_world <| ch_tick ::= S |>)).1 with
    | Ret ebr => if ebr <? 0 then Ret (-1) else Ret 0
    | Halt _ => Halt (HExit 0)
    end) /\
  (let E := refused_env in
   let I := binding_env mtu_lease_text in
   (exists h, (Ifchparse.process_client_socket sample_ifch_world).1 = Halt h) /\
   cfg_packet (ifchange_bind mtu_lease sample_world).2 = cfg_packet sample_world).
Proof.
  split; intros E I.
  - assert (Hc : clean_names sample_lease) by (split; intros d Hd; vm_compute in Hd; injection Hd as <-; by left).
    assert (Hm : no_mtu sample_lease) by (intros d Hd; vm_compute in Hd; injection Hd as <-; vm_compute; reflexivity).
    assert (Hne : sample_text <> []) by (vm_compute; discriminate).
    assert (Ht : tied sample_text sample_world sample_ifch_world)
      by (apply (sample_tied E sample_text (ch "+"%char)); vm_compute; reflexivity).
    assert (Hb : bind_command (cfg_packet sample_world) sample_lease = Some sample_text) by (vm_compute; reflexivity).
    assert (Hok : dhcpmsg_ok sample_lease = true) by (vm_compute; reflexivity).
    assert (Hl : zlen sample_text < MAX_BUF) by (vm_compute; reflexivity).
    destruct (bind_end_to_end sample_lease sample_text sample_world sample_ifch_world Hok Hc Hb Hne Hl eq_refl Ht) as [H _].
    destruct (H Hm) as (commands & H1 & H2 & H3).
    exists commands. split_and!; [done..|]. rewrite H3.
    destruct (run_commands commands 0 _).1 as [ebr|h]; [by destruct (ebr <? 0)|done].
  - assert (Hc : clean_names mtu_lease) by (split; intros d Hd; vm_compute in Hd; injection Hd as <-; by left).
    assert (Hne : mtu_lease_text <> []) by (vm_compute; discriminate).
    assert (Ht : tied mtu_lease_text sample_world sample_ifch_world)
      by (apply (sample_tied E mtu_lease_text (ch "-"%char)); vm_compute; reflexivity).
    assert (Hb : bind_command (cfg_packet sample_world) mtu_lease = Some mtu_lease_text) by (vm_compute; reflexivity).
    assert (Hok : dhcpmsg_ok mtu_lease = true) by (vm_compute; reflexivity).
    assert (Hl : zlen mtu_lease_text < MAX_BUF) by (vm_compute; reflexivity).
    assert (Hv : sets_mtu (cfg_packet sample_world) mtu_lease 1500)
      by (exists [5; 220], []; split_and!; [vm_compute; reflexivity..|done]).
    destruct (bind_end_to_end mtu_lease mtu_lease_text sample_world sample_ifch_world Hok Hc Hb Hne Hl eq_refl Ht) as [_ H].
    destruct (H 1500 Hv ltac:(lia)) as [Hh Hrun]. split; [exact Hh|]. by destruct Hrun as [-> | ->].
Defined.

(** C32. The state of the link, end to end: when ndhc-ifch is idle and the kernel answers
    its request for the links, in any number of datagrams, the master takes the carrier
    to be up exactly when the last message about the configured interface in this
    answer has both IFF_UP and IFF_RUNNING set; an answer without the interface counts
    as no carrier. *)
Theorem carrier_end_to_end `{!Env} `{!IfchEnv} (dump : list (list nlmsg)) (w : World) (wi : ifch_world) :
  let seq := ifset_nl_seq (ifset wi) in
  let idx := ifindex (if_config (ifset wi)) in
  let t := if_tick (ifset wi) in
  tied (chars "carrier:;") w wi -> cstr (ibuf (cl wi)) = Some [] ->
  0 <= ie_socket t -> ie_sendto (S t) = NLMSG_HDRLEN + sizeof_ifinfomsg ->
  Forall link_part dump -> link_answered (S (S t)) dump -> (length dump < ie_fuel)%nat ->
  carrier_isup w =
    (Ret (carrier_in idx (mjoin (answers seq <$> dump))),
     w <| trace ::= cons (AIfch (chars "carrier:;")) |> <| tick ::= S |>).
Proof.
  intros seq idx t Ht Hib Hfd Hs Hd Ha Hf.
  set (carrier := [(STATE_CARRIER, [])] : list ifch_command).
  assert (Hok : Forall command_ok carrier) by (apply Forall_singleton; split; [done|constructor]).
  assert (Hb : bytes_ok (request_text carrier) = true) by reflexivity.
  assert (Hnz : Forall (fun c => c <> 0) (request_text carrier)) by (repeat constructor; discriminate).
  assert (Hne : carrier <> []) by done.
  assert (Hl : zlen (request_text carrier) < MAX_BUF) by reflexivity.
  pose proof (perform_carrier_run dump (ifset wi) Hfd Hs Hd Ha Hf) as Hrun.
  assert (Hcar : (run_commands carrier 0 (wi <| ch_tick ::= S |>)).1 =
    Ret (if carrier_in idx (mjoin (answers seq <$> dump)) then 0 else -1)).
  { cbn [run_commands carrier]. unfold perform_command, set_state. cbn [fst snd perform]. st_run.
    unfold lift_ifset, mbind at 1, M_bind. cbn [ifset]. rsimpl. rewrite Hrun.
    fold seq idx. by destruct (carrier_in _ _). }
  pose proof (ifchwrite_heard carrier w wi Ht Hne Hok Hb Hnz Hl Hib) as Hw. rewrite Hcar in Hw.
  change (request_text carrier) with (chars "carrier:;") in Hw. unfold carrier_isup.
  unfold mbind, M_bind. rewrite Hw. by destruct (carrier_in _ _).
Qed.

(** The loopback device, then the interface, up and running. *)
Definition sample_flags (idx flags : Z) : nlmsg :=
  mk_nlmsg RTM_NEWLINK 2 1 0 ([0; 0; 1; 0] ++ le32 idx ++ le32 flags ++ zeros 4) [].
Definition sample_links : list (list nlmsg) :=
  [[sample_flags 1 (Z.lor IFF_UP IFF_RUNNING)];
   [sample_flags 2 (Z.lor IFF_UP IFF_RUNNING); mk_nlmsg NLMSG_DONE 2 1 0 (zeros 4) []]].
Definition links_env : IfsetEnv := {|
  ie_socket := fun _ => 4; ie_sendto := fun _ => 32;
  ie_recvmsg := fun t => match sample_links !! (t - 2)%nat with Some ms => NlData (datagram ms) | None => NlAgain end;
  ie_fuel := 10
|}.
Definition carrier_env : IfchEnv := {|
  ch_ifset := links_env;
  ch_lseek := fun _ => true; ch_read := fun _ => 4096; ch_write := fun _ => 4096;
  ch_ftruncate := fun _ => true; ch_fsync := fun _ => true; ch_sethostname := fun _ => true;
  ch_recv := fun _ => ReadData (chars "carrier:;"); ch_reply := fun _ => 1
|}.

Lemma sample_links_ok : Forall link_part sample_links.
Proof.
  assert (Hl : Forall (Forall link_msg) sample_links) by (apply (bool_decide_unpack _); by vm_compute).
  repeat apply Forall_cons in Hl as [? Hl].
  repeat (apply Forall_cons; split); [..|apply Forall_nil_2];
    (split_and!; [done|done|by repeat constructor|vm_compute; congruence]).
Qed.
Lemma sample_carrier_tied :
  let E := sample_env (ch "l"%char) 0 in
  let I := carrier_env in tied (chars "carrier:;") sample_world sample_ifch_world.
Proof.
  intros E I. split; [reflexivity| |by intros].
  assert (Ha : answers_sent (ch_trace (Ifchparse.process_client_socket sample_ifch_world).2) = [ch "+"%char])
    by (vm_compute; reflexivity).
  destruct (Ifchparse.process_client_socket sample_ifch_world) as [o wi']. by apply hears_answer.
Qed.

Lemma carrier_end_to_end_witness :
  let E := sample_env (ch "l"%char) 0 in
  let I := carrier_env in
  (carrier_isup sample_world).1 = Ret true.
Proof.
  intros E I.
  assert (Hfd : 0 <= ie_socket (if_tick (ifset sample_ifch_world))) by (vm_compute; discriminate).
  assert (Ha : link_answered 2 sample_links) by (vm_compute; split_and!; reflexivity).
  assert (Hf : (length sample_links < ie_fuel)%nat) by (cbn; lia).
  etrans; [exact (f_equal fst (carrier_end_to_end sample_links sample_world sample_ifch_world sample_carrier_tied
    eq_refl Hfd eq_refl sample_links_ok Ha Hf))|]. vm_compute. reflexivity.
Defined.

(** * ndhc-sockd *)

Definition idle_sockd (ws : sockd_world) : Prop :=
  config_ok (sk_config ws) /\ zlen (sk_buf ws) = MAX_BUF /\ sk_buflen ws = 0.

(** C31. Opening a socket, end to end: for each of the master's five requests an idle
    ndhc-sockd that receives it passes one descriptor back, closes its own and is idle
    again, and with whatever reply character it sends along the master's function
    accepts it and returns the descriptor it received.  ndhc-sockd ends only when the
    descriptor cannot be sent. *)
Theorem sockets_end_to_end `{!Env} `{!SockdEnv} (w : World) (ws : sockd_world) :
  bytes_ok (arp (client_config w)) = true -> zlen (arp (client_config w)) = 6 -> idle_sockd ws ->
  Forall2 (fun (req : list Z) (m : M Z) =>
    sk_recv (sk_tick ws) = ReadData req ->
    wp Sockd.process_client_socket (fun _ ws' =>
      idle_sockd ws' /\ exists calls opened c, Forall no_xfer calls /\
        sk_trace ws' = SClose opened :: SXfer opened c :: calls ++ sk_trace ws /\
        forall fd, env_sockd (tick w) = SockdFd c fd ->
          exists w', m w = (Ret fd, w') /\ trace w' = ASockd req :: trace w)
      (fun h _ => h = HSuicide "xfer_fd: sendmsg failed") ws)
    (master_requests (clientAddr (cs w)) (arp (client_config w)))
    [get_raw_listen_socket; get_arp_basic_socket; get_arp_defense_socket;
     get_raw_broadcast_socket; get_udp_unicast_socket].
Proof.
  intros Hb Hm (Hcc & Hbuf & Hidle). apply Forall2_same_length_lookup. split; [done|].
  intros i req m Hreq Hmi Hrecv.
  assert (Hin : req ∈ master_requests (clientAddr (cs w)) (arp (client_config w)))
    by (apply list_elem_of_lookup; by exists i).
  eapply wp_mono; [by apply (process_client_socket_serves req (arp (client_config w)) (clientAddr (cs w)))| |done].
  intros _ ws' (H1 & H2 & H3 & calls & opened & c & Hcalls & Hc & Htr).
  split; [by split_and!; [rewrite H3|..]|]. exists calls, opened, c. split_and!; [done..|].
  intros fd Hs. pose proof (Forall2_lookup_lr _ _ _ _ _ _ (master_requests_agree w c fd Hs Hm) Hreq Hmi) as Hrun.
  unfold wp in Hrun. destruct (m w) as [[r|h] w']; [|by destruct Hrun]. destruct Hrun as (-> & _ & Ht). by exists w'.
Qed.

Lemma sockets_end_to_end_witness :
  let req := ch "d"%char :: le32 0 ++ [2; 17; 34; 51; 68; 85] in
  let E := sample_env (ch "D"%char) 0 in
  let K := sample_sockd_env 0 req in
  wp Sockd.process_client_socket (fun _ ws' =>
    idle_sockd ws' /\ exists calls opened c, Forall no_xfer calls /\
      sk_trace ws' = SClose opened :: SXfer opened c :: calls ++ [] /\
      forall fd, env_sockd (tick sample_world) = SockdFd c fd ->
        exists w', get_arp_defense_socket sample_world = (Ret fd, w') /\ trace w' = [ASockd req])
    (fun h _ => h = HSuicide "xfer_fd: sendmsg failed") sample_sockd_world.
Proof.
  intros req E K.
  assert (Hidle : idle_sockd sample_sockd_world) by (split_and!; [apply sample_config_ok|reflexivity..]).
  pose proof (sockets_end_to_end sample_world sample_sockd_world eq_refl eq_refl Hidle) as Hall.
  exact (Forall2_lookup_lr _ _ _ 2 _ _ Hall eq_refl eq_refl eq_refl).
Defined.
