(* ===== verification/Cfg.v ===== *)
(** Options from the command line and from a configuration file ([cfg.rl]).

    The two machines [file_cfg] and [cmd_cfg] are written with the operators of
    [Ragel]; the actions they share are the cases of [option_act].  The state is what
    the actions assign: the client's configuration and the global variables of
    [ndhc.c], [arp.c] and [ifchd.c] that an option sets.

    The helpers [copy_cmdarg] and [nk_uidgidbyname] belong to ncmlib and are
    parameters, as is the content of the files. *)

From stdpp Require Import sets.
From S2P Require Import Prelude Types World Ifchange Nl Ndhc Duiaid Ifset Ragel.
Local Open Scope ragel_scope.

(** * State *)

(** [struct cfgparse]; the machine's state [cs] is in [exec]. *)
Record cfgparse := mk_cfgparse { cbuf : list Z; buflen : Z; ternary : Z }.
#[export] Instance cfgparse_eta : Eta cfgparse := fun r => mk_cfgparse (cbuf r) (buflen r) (ternary r).
Definition no_ccfg : cfgparse := {| cbuf := zeros (Z.to_nat MAX_BUF); buflen := 0; ternary := 0 |}.

Record cfg_world := mk_cfg_world {
  cf_config : client_config_t;         (** [client_config] *)
  cf_clientAddr : Z;                   (** [cs.clientAddr] *)
  cf_relentless : bool;                (** [garp.relentless_def] *)
  cf_probe_wait : Z; cf_probe_num : Z; cf_probe_min : Z; cf_probe_max : Z;
  cf_write_pid : bool;                 (** [write_pid_enabled] *)
  cf_pidfile : list Z; cf_chroot_dir : list Z; cf_state_dir : list Z; cf_resolv_conf_d : list Z;
  cf_ndhc_user : Z * Z; cf_ifch_user : Z * Z; cf_sockd_user : Z * Z;   (** uid and gid *)
  cf_allow_hostname : bool;
  gflags_detach : bool;                (** ncmlib's flag *)
  cf_files_read : nat                  (** configuration files opened so far *)
}.
#[export] Instance cfg_world_eta : Eta cfg_world := fun r =>
  mk_cfg_world (cf_config r) (cf_clientAddr r) (cf_relentless r)
    (cf_probe_wait r) (cf_probe_num r) (cf_probe_min r) (cf_probe_max r) (cf_write_pid r)
    (cf_pidfile r) (cf_chroot_dir r) (cf_state_dir r) (cf_resolv_conf_d r)
    (cf_ndhc_user r) (cf_ifch_user r) (cf_sockd_user r) (cf_allow_hostname r) (gflags_detach r)
    (cf_files_read r).

(** The initial values of these variables; [gflags_detach] is the library's. *)
Definition initial_config : client_config_t := {|
  interface := chars "eth0" ++ zeros 12; clientid := zeros 64; hostname := zeros 64; vendor := zeros 64;
  arp := zeros 6; rfkillIdx := 0; metric := 0; ifindex := 0; clientid_len := 0;
  quit_after_lease := false; abort_if_no_lease := false; background_if_no_lease := false;
  enable_rfkill := false
|}.
Definition no_path : list Z := zeros (Z.to_nat PATH_MAX).
Definition initial_cfg (detach : bool) : cfg_world := {|
  cf_config := initial_config; cf_clientAddr := 0; cf_relentless := false;
  cf_probe_wait := 1000; cf_probe_num := 3; cf_probe_min := 1000; cf_probe_max := 2000;
  cf_write_pid := false; cf_pidfile := no_path; cf_chroot_dir := no_path;
  cf_state_dir := chars "/etc/ndhc" ++ zeros (Z.to_nat (PATH_MAX - 9)); cf_resolv_conf_d := no_path;
  cf_ndhc_user := (0, 0); cf_ifch_user := (0, 0); cf_sockd_user := (0, 0);
  cf_allow_hostname := false; gflags_detach := detach; cf_files_read := 0
|}.

Class CfgEnv := {
  copy_cmdarg : list Z -> list Z -> option (list Z);
                 (** the array after the copy of a string to it; [None]: the process ends *)
  nk_uidgidbyname : list Z -> option (Z * Z);
  cf_open : nat -> list Z -> option (list Z);
                 (** the [n]-th configuration file's content, if it can be opened *)
  cf_read : nat -> nat -> Z
                 (** [safe_read] of that file, call by call: -1, or how many bytes *)
}.

Notation FM := (St cfg_world).

(** * Numbers and addresses *)

(** [atoi] of the C library of the system: the [int] of what [strtol] yields.  (The C
    standard leaves numbers beyond [int] undefined.) *)
Definition atoi (s : list Z) : Z := i32 (default 0 (strtol10 s)).

(** [strtoul(s, &end, 0)] at a digit: the value and the rest. *)
Fixpoint base_digits (base : Z) (s : list Z) (acc : Z) : Z * list Z :=
  match s with
  | [] => (acc, [])
  | c :: t =>
    if isxdigit c && (xdigit_value c <? base) then base_digits base t (base * acc + xdigit_value c)
    else (acc, s)
  end.
Definition c_number (s : list Z) : Z * list Z :=
  match s with
  | z :: x :: d :: t =>
    if (z =? ch "0"%char) && ((x =? ch "x"%char) || (x =? ch "X"%char)) && isxdigit d
    then base_digits 16 (d :: t) 0
    else base_digits (if z =? ch "0"%char then 8 else 10) s 0
  | z :: _ => base_digits (if z =? ch "0"%char then 8 else 10) s 0
  | [] => (0, [])
  end.

(** [inet_addr]: one to four numbers with dots between them, the last filling the
    bytes that are left; [INADDR_NONE] for anything else.  [octs] are the bytes before. *)
Definition INADDR_NONE : Z := 0xffffffff.
Fixpoint inet_addr_parts (k : nat) (s : list Z) (octs : list Z) : Z :=
  match s with
  | c :: _ =>
    if (48 <=? c) && (c <=? 57) then
      let '(v, s) := c_number s in
      let last :=
        if v <? 256 ^ (4 - zlen octs)
        then of_le (octs ++ rev (take (4 - length octs) (le32 v))) else INADDR_NONE in
      match s with
      | [] => last
      | d :: t =>
        if d =? ch "."%char then
          match k with
          | O => INADDR_NONE
          | S k => if v <=? 0xff then inet_addr_parts k t (octs ++ [v]) else INADDR_NONE
          end
        else if isspace d then last
        else INADDR_NONE
      end
    else INADDR_NONE
  | [] => INADDR_NONE
  end.
Definition inet_addr (s : list Z) : Z := inet_addr_parts 3 s [].

(** * Options *)

Inductive cfg_option :=
| OCfgFile | OClientid | OBackground | OPidfile | OHostname | OInterface | ONow | OQuit | ORequest
| OVendorid | OUser | OIfchUser | OSockdUser | OChroot | OStateDir | OSeccompEnforce
| ORelentlessDefense | OArpProbeWait | OArpProbeNum | OArpProbeMin | OArpProbeMax | OGwMetric
| OResolvConf | ODhcpSetHostname | ORfkillIdx | OVersion | OHelp.
#[export] Instance cfg_option_eq_dec : EqDecision cfg_option.
Proof. solve_decision. Defined.

Inductive cfg_action := AClear | AAppend | ATerm | ATruval | AFalsval | ATbv | AOpt (o : cfg_option).
#[export] Instance cfg_action_eq_dec : EqDecision cfg_action.
Proof. solve_decision. Defined.

(** The actions of [cfg_actions] that only touch [ccfg]; [c] is the character. *)
Definition do_clear (_ : cfgparse) : cfgparse := no_ccfg.
Definition sizeof_buf : Z := MAX_BUF.

Section Cfg.
Context `{!CfgEnv}.

Definition do_append (c : Z) (ccfg : cfgparse) : FM cfgparse :=
  if buflen ccfg <? sizeof_buf - 1 then
    b ← ub (wr (cbuf ccfg) (buflen ccfg) c);
    mret (ccfg <| cbuf := b |> <| buflen ::= Z.add 1 |>)
  else suicide "line or option is too long".
Definition do_term (ccfg : cfgparse) : FM cfgparse :=
  if buflen ccfg <? sizeof_buf then
    b ← ub (wr (cbuf ccfg) (buflen ccfg) 0);
    mret (ccfg <| cbuf := b |>)
  else mret ccfg.

(** The string in [ccfg.buf]. *)
Definition text (ccfg : cfgparse) : FM (list Z) := ub (cstr (cbuf ccfg)).
Definition set_config (f : client_config_t -> client_config_t) : FM unit :=
  modify (fun w => w <| cf_config ::= f |>).

(** [copy_cmdarg(field, ccfg.buf, sizeof field, ...)] *)
Definition copy_to (get : cfg_world -> list Z) (set : list Z -> cfg_world -> cfg_world)
    (ccfg : cfgparse) : FM unit :=
  s ← text ccfg;
  old ← gets get;
  match copy_cmdarg old s with
  | Some a => modify (set a)
  | None => suicide "copy_cmdarg"
  end.
(** [nk_uidgidbyname(ccfg.buf, &uid, &gid)] *)
Definition lookup_user (set : Z * Z -> cfg_world -> cfg_world) (ccfg : cfgparse) : FM unit :=
  s ← text ccfg;
  match nk_uidgidbyname s with
  | Some ids => modify (set ids)
  | None => suicide "invalid user specified"
  end.
(** The [switch] on [ccfg.ternary]. *)
Definition on_ternary (set : bool -> cfg_world -> cfg_world) (ccfg : cfgparse) : FM unit :=
  if ternary ccfg =? 1 then modify (set true)
  else if ternary ccfg =? -1 then modify (set false)
  else mret tt.
Definition with_int (set : Z -> cfg_world -> cfg_world) (ccfg : cfgparse) : FM unit :=
  s ← text ccfg;
  modify (set (atoi s)).
(** The exchange at the end of [arp_probe_min] and [arp_probe_max]. *)
Definition order_probe (w : cfg_world) : cfg_world :=
  if cf_probe_max w <? cf_probe_min w
  then w <| cf_probe_min := cf_probe_max w |> <| cf_probe_max := cf_probe_min w |> else w.

Definition set_clientid (ccfg : cfgparse) : FM unit :=
  s ← ub (rd_range (cbuf ccfg) 0 (buflen ccfg));
  cc ← gets cf_config;
  r ← ub (get_clientid_string cc s);
  modify (fun w => w <| cf_config := r.2 |>).
Definition set_gw_metric (ccfg : cfgparse) : FM unit :=
  s ← text ccfg;
  match strtol10 s with
  | None => suicide "gw-metric arg isn't a valid number"
  | Some mt =>
    if INT_MAX <? mt then suicide "gw-metric arg is too large"
    else set_config (fun c => c <| metric := if mt <? 0 then 0 else mt |>)
  end.

(** The action of an option, [cfg_actions]; [cfgfile] is the one of [-c], which only
    the command line has. *)
Definition option_act (cfgfile : list Z -> FM unit) (o : cfg_option) (ccfg : cfgparse) : FM unit :=
  match o with
  | OCfgFile => s ← text ccfg; cfgfile s
  | OClientid => set_clientid ccfg
  | OBackground => on_ternary (fun b w => (w <| cf_config ::= fun c => c <| background_if_no_lease := b |> |>)
                                 <| gflags_detach := b |>) ccfg
  | OPidfile => modify (fun w => w <| cf_write_pid := true |>);;
                copy_to cf_pidfile (fun a w => w <| cf_pidfile := a |>) ccfg
  | OHostname => copy_to (fun w => hostname (cf_config w))
                   (fun a w => w <| cf_config ::= fun c => c <| hostname := a |> |>) ccfg
  | OInterface => copy_to (fun w => interface (cf_config w))
                    (fun a w => w <| cf_config ::= fun c => c <| interface := a |> |>) ccfg
  | ONow => on_ternary (fun b w => w <| cf_config ::= fun c => c <| abort_if_no_lease := b |> |>) ccfg
  | OQuit => on_ternary (fun b w => w <| cf_config ::= fun c => c <| quit_after_lease := b |> |>) ccfg
  | ORequest => s ← text ccfg; modify (fun w => w <| cf_clientAddr := inet_addr s |>)
  | OVendorid => copy_to (fun w => vendor (cf_config w))
                   (fun a w => w <| cf_config ::= fun c => c <| vendor := a |> |>) ccfg
  | OUser => lookup_user (fun ids w => w <| cf_ndhc_user := ids |>) ccfg
  | OIfchUser => lookup_user (fun ids w => w <| cf_ifch_user := ids |>) ccfg
  | OSockdUser => lookup_user (fun ids w => w <| cf_sockd_user := ids |>) ccfg
  | OChroot => copy_to cf_chroot_dir (fun a w => w <| cf_chroot_dir := a |>) ccfg
  | OStateDir => copy_to cf_state_dir (fun a w => w <| cf_state_dir := a |>) ccfg
  | OSeccompEnforce => mret tt
  | ORelentlessDefense => on_ternary (fun b w => w <| cf_relentless := b |>) ccfg
  | OArpProbeWait => with_int (fun t w => if 0 <=? t then w <| cf_probe_wait := t |> else w) ccfg
  | OArpProbeNum => with_int (fun t w => if 0 <=? t then w <| cf_probe_num := t |> else w) ccfg
  | OArpProbeMin => with_int (fun t w => order_probe (w <| cf_probe_min := t |>)) ccfg
  | OArpProbeMax => with_int (fun t w => order_probe (w <| cf_probe_max := t |>)) ccfg
  | OGwMetric => set_gw_metric ccfg
  | OResolvConf => copy_to cf_resolv_conf_d (fun a w => w <| cf_resolv_conf_d := a |>) ccfg
  | ODhcpSetHostname => on_ternary (fun b w => w <| cf_allow_hostname := b |>) ccfg
  | ORfkillIdx => with_int (fun t w =>
                    w <| cf_config ::= fun c => (c <| rfkillIdx := u32 t |>) <| enable_rfkill := true |> |>) ccfg
  | OVersion | OHelp => exit EXIT_SUCCESS
  end.

(** An action at position [p] of [input]; no action returns from the function. *)
Definition cfg_act (cfgfile : list Z -> FM unit) (input : list Z) (x : cfg_action) (p : Z) (ccfg : cfgparse)
  : FM (Empty_set + cfgparse) :=
  match x with
  | AClear => mret (inr (do_clear ccfg))
  | AAppend => c ← ub (rd input p); ccfg ← do_append c ccfg; mret (inr ccfg)
  | ATerm => ccfg ← do_term ccfg; mret (inr ccfg)
  | ATruval | ATbv => mret (inr (ccfg <| ternary := 1 |>))
  | AFalsval => mret (inr (ccfg <| ternary := -1 |>))
  | AOpt o => option_act cfgfile o ccfg;; mret (inr ccfg)
  end.
End Cfg.

(** * The grammar of a line of the configuration file *)

Definition spc : ragel cfg_action := RClass (COneOf [32; 9]).
Definition delim : ragel cfg_action := RStar spc ⋅ RClass (CChar (ch "=")) ⋅ RStar spc.
Definition file_string : ragel cfg_action :=
  RLeave (RAll (REnter AClear (RPlus (RClass (CNoneOf [10])))) AAppend) ATerm.
Definition term : ragel cfg_action := RClass (CChar 10).
Definition value : ragel cfg_action := delim ⋅ file_string ⋅ term.
Definition truval : ragel cfg_action := RLeave (RLit (chars "true") ∥ RLit (chars "1")) ATruval.
Definition falsval : ragel cfg_action := RLeave (RLit (chars "false") ∥ RLit (chars "0")) AFalsval.
Definition boolval : ragel cfg_action := delim ⋅ (truval ∥ falsval) ⋅ term.

Definition value_options : list (cfg_option * string) :=
  [(OClientid, "clientid"); (OPidfile, "pidfile"); (OHostname, "hostname"); (OInterface, "interface");
   (ORequest, "request"); (OVendorid, "vendorid"); (OUser, "user"); (OIfchUser, "ifch-user");
   (OSockdUser, "sockd-user"); (OChroot, "chroot"); (OStateDir, "state-dir");
   (OArpProbeWait, "arp-probe-wait"); (OArpProbeNum, "arp-probe-num"); (OArpProbeMin, "arp-probe-min");
   (OArpProbeMax, "arp-probe-max"); (OGwMetric, "gw-metric"); (OResolvConf, "resolv-conf");
   (ORfkillIdx, "rfkill-idx")].
Definition bool_options : list (cfg_option * string) :=
  [(OBackground, "background"); (ONow, "now"); (OQuit, "quit"); (OSeccompEnforce, "seccomp-enforce");
   (ORelentlessDefense, "relentless-defense"); (ODhcpSetHostname, "dhcp-set-hostname")].

Definition alternatives {A} (l : list (ragel A)) : ragel A :=
  match l with [] => REps | r :: l => fold_left RAlt l r end.
Definition file_option (arg : ragel cfg_action) (on : cfg_option * string) : ragel cfg_action :=
  RLit (chars on.2) ⋅ RFinish arg (AOpt on.1).
Definition blankline : ragel cfg_action := term.
Definition file_cfg : ragel cfg_action :=
  alternatives (blankline :: (file_option value <$> value_options) ++ (file_option boolval <$> bool_options)).

(** * The grammar of the command line *)

(** The arguments, each with a NUL behind it. *)
Definition nul : ragel cfg_action := RClass (CChar 0).
Definition arg_string : ragel cfg_action :=
  RLeave (RAll (REnter AClear (RPlus (RClass (CNoneOf [0])))) AAppend) ATerm.
Definition argval : ragel cfg_action := nul ⋅ arg_string ⋅ nul.
Definition tbv : ragel cfg_action := RLeave nul ATbv.

(** What follows the name of an option: a string, nothing but setting a flag, nothing. *)
Inductive arg_kind := KArg | KFlag | KNone.
Record cmd_option := mk_cmd_option { co_opt : cfg_option; co_short : string; co_long : string; co_kind : arg_kind }.
Definition cmd_options : list cmd_option :=
  [mk_cmd_option OCfgFile "-c" "--config" KArg; mk_cmd_option OClientid "-I" "--clientid" KArg;
   mk_cmd_option OBackground "-b" "--background" KFlag; mk_cmd_option OPidfile "-p" "--pidfile" KArg;
   mk_cmd_option OHostname "-h" "--hostname" KArg; mk_cmd_option OInterface "-i" "--interface" KArg;
   mk_cmd_option ONow "-n" "--now" KFlag; mk_cmd_option OQuit "-q" "--quit" KFlag;
   mk_cmd_option ORequest "-r" "--request" KArg; mk_cmd_option OVendorid "-V" "--vendorid" KArg;
   mk_cmd_option OUser "-u" "--user" KArg; mk_cmd_option OIfchUser "-U" "--ifch-user" KArg;
   mk_cmd_option OSockdUser "-D" "--sockd-user" KArg; mk_cmd_option OChroot "-C" "--chroot" KArg;
   mk_cmd_option OStateDir "-s" "--state-dir" KArg;
   mk_cmd_option OSeccompEnforce "-S" "--seccomp-enforce" KFlag;
   mk_cmd_option ORelentlessDefense "-d" "--relentless-defense" KFlag;
   mk_cmd_option OArpProbeWait "-w" "--arp-probe-wait" KArg;
   mk_cmd_option OArpProbeNum "-W" "--arp-probe-num" KArg;
   mk_cmd_option OArpProbeMin "-m" "--arp-probe-min" KArg;
   mk_cmd_option OArpProbeMax "-M" "--arp-probe-max" KArg;
   mk_cmd_option OGwMetric "-t" "--gw-metric" KArg; mk_cmd_option OResolvConf "-R" "--resolv-conf" KArg;
   mk_cmd_option ODhcpSetHostname "-H" "--dhcp-set-hostname" KFlag;
   mk_cmd_option ORfkillIdx "-K" "--rfkill-idx" KArg; mk_cmd_option OVersion "-v" "--version" KNone;
   mk_cmd_option OHelp "-?" "--help" KNone].
Definition kind_arg (k : arg_kind) : ragel cfg_action :=
  match k with KArg => argval | KFlag => tbv | KNone => nul end.
Definition cmd_alternative (co : cmd_option) : ragel cfg_action :=
  (RLit (chars (co_short co)) ∥ RLit (chars (co_long co))) ⋅ RFinish (kind_arg (co_kind co)) (AOpt (co_opt co)).
Definition cmd_cfg : ragel cfg_action := RStar (alternatives (cmd_alternative <$> cmd_options)).

(** * Reading the configuration file *)

Section Parse.
Context `{!CfgEnv}.

(** [%% write init; %% write exec;] on a line with its newline, and the checks of the
    machine's state. *)
Definition no_cfgfile (_ : list Z) : FM unit := mret tt.
Definition exec_line (input : list Z) (ccfg : cfgparse) : FM cfgparse :=
  r ← exec (cfg_act no_cfgfile input) [file_cfg] 0 input ccfg;
  match r with
  | inl e => match e : Empty_set with end
  | inr ([], _, _) => suicide "error parsing config file: malformed"
  | inr (rs, _, ccfg) =>
    if final_any rs then mret ccfg else suicide "error parsing config file: incomplete"
  end.

(** The [for] loop over the [n] characters of [l] from [lend] on; it ends with
    [consumed]. *)
Fixpoint scan_lines (n : nat) (l : list Z) (lstart lend consumed : Z) (ccfg : cfgparse)
  : FM (Z * cfgparse) :=
  match n with
  | O => mret (consumed, ccfg)
  | S n =>
    x ← ub (rd l lend);
    if x =? 10 then
      input ← ub (rd_range l lstart (lend - lstart + 1));
      ccfg ← exec_line input ccfg;
      scan_lines n l (lend + 1) (lend + 1) lend ccfg
    else scan_lines n l lstart (lend + 1) consumed ccfg
  end.

(** [safe_read]: at the end of the file nothing, otherwise some of the bytes asked for. *)
Definition cfg_safe_read (answer : Z) (rest : list Z) (n : Z) : Z * list Z :=
  if answer <? 0 then (-1, [])
  else let data := take (Z.to_nat (Z.min n (Z.max 1 answer))) rest in (zlen data, data).

Definition sizeof_l : Z := MAX_BUF.
(** The [for (;;)] loop; [k] reads have been done, [rest] of the file is unread. *)
Fixpoint cfgfile_loop (fuel : nat) (file k : nat) (rest : list Z) (l : list Z) (lc : Z) (ccfg : cfgparse)
  : FM unit :=
  match fuel with
  | O => fatal HFuel
  | S fuel =>
    if sizeof_l <=? lc + 1 then suicide "sizeof l - 1 - lc would underflow"
    else
      let '(rc, data) := cfg_safe_read (cf_read file k) rest (sizeof_l - 1 - lc) in
      if rc <? 0 then suicide "Error reading config file"
      else
        let reached_eof := rc =? 0 in
        l ← ub (if reached_eof then wr l lc 10 else wr_range l lc data);
        let lc := lc + (if reached_eof then 1 else rc) in
        r ← scan_lines (Z.to_nat lc) l 0 0 0 ccfg;
        let '(consumed, ccfg) := r in
        if reached_eof then mret tt
        else if (consumed =? 0) && (sizeof_l - 1 <=? lc) then suicide "Line in config file is too long"
        else if lc <? consumed + 1 then suicide "lc - consumed would underflow"
        else if negb (consumed =? 0) then
          m ← ub (rd_range l (consumed + 1) (lc - consumed - 1));
          l ← ub (wr_range l 0 m);
          cfgfile_loop fuel file (S k) (drop (length data) rest) l (lc - (consumed + 1)) ccfg
        else cfgfile_loop fuel file (S k) (drop (length data) rest) l lc ccfg
  end.

(** Every call of [safe_read] but the last yields a byte at least. *)
Definition parse_cfgfile (fname : list Z) : FM unit :=
  n ← gets cf_files_read;
  match cf_open n fname with
  | None => suicide "Unable to open config file"
  | Some content =>
    modify (fun w => w <| cf_files_read ::= S |>);;
    cfgfile_loop (S (length content)) n 0 content (zeros (Z.to_nat MAX_BUF)) 0 no_ccfg
  end.

(** * Reading the command line *)

Definition sizeof_argb : Z := 8192.

(** [snprintf(argb + argbl, sizeof argb - argbl, ...)] of the text [s]: the array
    afterwards.  Beyond the array's end the size wraps around. *)
Definition snprintf_argb (argb : list Z) (argbl : Z) (s : list Z) : option (list Z) :=
  if sizeof_argb <? argbl then None
  else if sizeof_argb - argbl =? 0 then Some argb
  else wr_range argb argbl (take (Z.to_nat (sizeof_argb - argbl - 1)) s ++ [0]).

(** The [for] loop over the arguments; all but the first have a NUL before them. *)
Fixpoint collect_args (first : bool) (argv : list (list Z)) (argb : list Z) (argbl : Z) : FM (list Z * Z) :=
  match argv with
  | [] => mret (argb, argbl)
  | a :: argv =>
    let s := if first then a else 0 :: a in
    argb ← ub (snprintf_argb argb argbl s);
    if sizeof_argb <=? zlen s then suicide "error parsing command line option: option too long"
    else collect_args false argv argb (argbl + zlen s)
  end.

Definition exec_cmdline (input : list Z) : FM unit :=
  r ← exec (cfg_act parse_cfgfile input) [cmd_cfg] 0 input no_ccfg;
  match r with
  | inl e => match e : Empty_set with end
  | inr (rs, p, ccfg) =>
    _ ← (if p =? zlen input then run_actions (cfg_act parse_cfgfile input) (eof_actions rs) p ccfg
         else mret (inr ccfg));
    match rs with
    | [] => suicide "error parsing command line option: malformed"
    | _ => if final_any rs then mret tt else suicide "error parsing command line option: incomplete"
    end
  end.

(** [argv] without the program's name. *)
Definition parse_cmdline (argv : list (list Z)) : FM unit :=
  r ← collect_args true argv (zeros (Z.to_nat sizeof_argb)) 0;
  let '(argb, argbl) := r in
  if argbl =? 0 then mret tt
  else input ← ub (rd_range argb 0 (argbl + 1)); exec_cmdline input.
End Parse.
