(* ===== verification/Cfgfile.v ===== *)
(** What a configuration file does ([cfg.rl: parse_cfgfile]).

    A line [name = value] performs the action of its option on the value
    ([exec_line]); a file performs its lines in their order, however the reads cut it
    into pieces.  [setting] is the abstract syntax of a line. *)

From stdpp Require Import sets.
From S2P Require Import Prelude Types World Ifchange Nl Ndhc Duiaid Ifset Ragel Cfg.

(** * The machine on a line *)

(** The machine behind the name of an option, and after some characters more. *)
Definition named (arg : ragel cfg_action) (o : cfg_option) : list (ragel cfg_action) :=
  [RSeq REps (RFinish arg (AOpt o))].
Definition after (rs : list (ragel cfg_action)) (s : list Z) : list (ragel cfg_action) :=
  match trace_run rs s with Some (_, rs) => rs | None => [] end.

Lemma after_value_name on : on ∈ value_options ->
  trace_run [file_cfg] (chars on.2) = Some (replicate (length (chars on.2)) [], named value on.1).
Proof.
  intros Hon. apply list_elem_of_In in Hon. revert on Hon. apply List.Forall_forall.
  repeat constructor; by vm_compute.
Qed.
Lemma after_bool_name on : on ∈ bool_options ->
  trace_run [file_cfg] (chars on.2) = Some (replicate (length (chars on.2)) [], named boolval on.1).
Proof.
  intros Hon. apply list_elem_of_In in Hon. revert on Hon. apply List.Forall_forall.
  repeat constructor; by vm_compute.
Qed.

(** The characters a value's machine tells apart. *)
Definition line_classes : list cclass := [COneOf [32; 9]; CChar 61; CNoneOf [10]; CChar 10].
Definition line_rep (c : Z) : Z := if existsb (Z.eqb c) [9; 10; 32; 61] then c else 120.
Definition value_machine (rs : list (ragel cfg_action)) : bool :=
  forallb (fun k => bool_decide (k ∈ line_classes)) (rs ≫= classes).

Lemma line_rep_class k c : k ∈ line_classes -> in_class k (line_rep c) = in_class k c.
Proof.
  unfold line_rep, line_classes. rewrite !elem_of_cons, elem_of_nil. cbn [existsb].
  intros [->|[->|[->|[->|[]]]]]; cbn [in_class existsb]; zcases.
Qed.
Lemma step_rep rs c : value_machine rs = true -> step rs c = step rs (line_rep c).
Proof.
  intros Hk. symmetry. apply step_blind. apply Forall_forall. intros r Hr. unfold blind. apply Forall_forall.
  intros k Hkr c'. apply line_rep_class. unfold value_machine in Hk. rewrite forallb_forall in Hk.
  apply (bool_decide_unpack (k ∈ line_classes)), Is_true_true, Hk. apply list_elem_of_In, list_elem_of_bind. eauto.
Qed.
Lemma line_rep_cases c : line_rep c = c /\ c ∈ [9; 10; 32; 61] \/ line_rep c = 120 /\ c ∉ [9; 10; 32; 61].
Proof.
  unfold line_rep. destruct (existsb _ _) eqn:E.
  - apply existsb_exists in E as (d & Hd & ->%Z.eqb_eq). left. split; [done|by apply list_elem_of_In].
  - right. split; [done|]. intros Hc. assert (existsb (Z.eqb c) [9; 10; 32; 61] = true); [|congruence].
    apply existsb_exists. exists c. split; [by apply list_elem_of_In|lia].
Qed.

Definition is_spc (c : Z) : bool := (c =? 32) || (c =? 9).
Lemma is_spc_cases c : is_spc c = true -> c = 32 \/ c = 9.
Proof. unfold is_spc. lia. Qed.
Definition spaces (s : list Z) : Prop := Forall (fun c => is_spc c = true) s.

(** The states: behind the name, behind a space, behind [=], behind a space there, in
    the string, behind the newline. *)
Definition v0 (o : cfg_option) := named value o.
Definition v1 (o : cfg_option) := after (v0 o) [32].
Definition v2 (o : cfg_option) := after (v0 o) [61].
Definition v3 (o : cfg_option) := after (v0 o) [61; 32].
Definition v4 (o : cfg_option) := after (v0 o) [61; 120].
Definition v5 (o : cfg_option) := after (v0 o) [61; 120; 10].

Lemma step_spc o c : is_spc c = true ->
  step (v0 o) c = Some ([], (v1 o)) /\ step (v1 o) c = Some ([], (v1 o)) /\
  step (v2 o) c = Some ([AClear; AAppend], (v3 o)) /\ step (v3 o) c = Some ([AClear; AAppend], (v3 o)).
Proof.
  intros [-> | ->]%is_spc_cases; destruct o; split_and!; by vm_compute.
Qed.
Lemma step_equals o : step (v0 o) 61 = Some ([], (v2 o)) /\ step (v1 o) 61 = Some ([], (v2 o)).
Proof. destruct o; split_and?; by vm_compute. Qed.
Lemma step_first o c : is_spc c = false -> c <> 10 ->
  step (v2 o) c = Some ([AClear; AAppend], (v4 o)) /\ step (v3 o) c = Some ([AClear; AAppend], (v4 o)).
Proof.
  unfold is_spc. intros Hc Hn. rewrite (step_rep (v2 o) c), (step_rep (v3 o) c) by (destruct o; by vm_compute).
  destruct (line_rep_cases c) as [[-> H]|[-> _]].
  - rewrite !elem_of_cons, elem_of_nil in H. assert (c = 61) as -> by lia. destruct o; split_and?; by vm_compute.
  - destruct o; split_and?; by vm_compute.
Qed.
Lemma step_more o c : c <> 10 -> step (v4 o) c = Some ([AAppend], (v4 o)).
Proof.
  intros Hn. rewrite (step_rep (v4 o) c) by (destruct o; by vm_compute).
  destruct (line_rep_cases c) as [[-> H]|[-> _]].
  - rewrite !elem_of_cons, elem_of_nil in H. assert (c = 9 \/ c = 32 \/ c = 61) as [->|[-> | ->]] by lia;
      destruct o; split_and?; by vm_compute.
  - destruct o; split_and?; by vm_compute.
Qed.
Lemma step_newline o : step (v4 o) 10 = Some ([ATerm; AOpt o], (v5 o)) /\ final_any (v5 o) = true.
Proof. destruct o; split_and?; by vm_compute. Qed.

#[local] Opaque v0 v1 v2 v3 v4 v5 step trace_run.

(** The actions on the rest of a line after its name. *)
Lemma value_trace o pad1 pad2 c v :
  spaces pad1 -> spaces pad2 -> is_spc c = false -> 10 ∉ c :: v ->
  trace_run (v0 o) (pad1 ++ [61] ++ pad2 ++ [c] ++ v ++ [10]) =
  Some (replicate (length pad1) [] ++ [[]] ++ replicate (length pad2) [AClear; AAppend] ++
        [[AClear; AAppend]] ++ replicate (length v) [AAppend] ++ [[ATerm; AOpt o]], (v5 o)).
Proof.
  intros H1 H2 Hc Hv. rewrite not_elem_of_cons in Hv. destruct Hv as [Hc10 Hv].
  assert (Hc10' : c <> 10) by congruence.
  eapply trace_then; [eapply trace_enter; [..|exact H1]; intros d Hd; apply (step_spc o d Hd)|].
  eapply trace_then; [apply trace_one; destruct pad1; apply (step_equals o)|].
  eapply trace_then; [eapply trace_enter; [..|exact H2]; intros d Hd; apply (step_spc o d Hd)|].
  eapply trace_then; [apply trace_one; destruct pad2; by apply (step_first o)|].
  eapply trace_then; [eapply (trace_loop (fun c => c <> 10)); [exact (step_more o)|]|].
  - apply Forall_forall. by intros d Hd ->.
  - apply trace_one, (step_newline o).
Qed.


(** * The actions of a string *)

(** [ccfg] with the string [v] in its buffer. *)
Definition holding (v : list Z) : cfgparse :=
  {| cbuf := v ++ zeros (Z.to_nat MAX_BUF - length v); buflen := zlen v; ternary := 0 |}.

Section Actions.
Context `{!CfgEnv} (cfgfile : list Z -> FM unit).

Lemma append_holding v c w : zlen v < MAX_BUF - 1 -> do_append c (holding v) w = (Ret (holding (v ++ [c])), w).
Proof.
  intros Hv. unfold do_append, holding, sizeof_buf. cbn [cbuf buflen ternary].
  replace (zlen v <? MAX_BUF - 1) with true by lia. unfold zlen, MAX_BUF in Hv.
  replace (Z.to_nat MAX_BUF - length v)%nat with (S (Z.to_nat MAX_BUF - length (v ++ [c])))
    by (rewrite length_app; cbn; unfold MAX_BUF; lia).
  unfold zeros. cbn [replicate]. rewrite (wr_at v) by done. cbn [ub]. st_run. unfold mret, M_ret.
  do 2 f_equal. unfold set_field. cbn. rewrite zlen_app, <- app_assoc. f_equal. zlen_lia.
Qed.
Lemma term_holding v w : zlen v <= MAX_BUF - 1 -> do_term (holding v) w = (Ret (holding v), w).
Proof.
  intros Hv. unfold do_term, holding, sizeof_buf. cbn [cbuf buflen ternary].
  replace (zlen v <? MAX_BUF) with true by lia. unfold zlen, MAX_BUF in Hv.
  replace (Z.to_nat MAX_BUF - length v)%nat with (S (Z.to_nat MAX_BUF - length v - 1))
    by (unfold MAX_BUF; lia).
  unfold zeros. cbn [replicate]. rewrite (wr_at v) by done. done.
Qed.
Lemma text_holding v w : 0 ∉ v -> zlen v <= MAX_BUF - 1 -> text (holding v) w = (Ret v, w).
Proof.
  intros H0 Hv. unfold text, holding. cbn [cbuf]. unfold zlen, MAX_BUF in Hv.
  replace (Z.to_nat MAX_BUF - length v)%nat with (S (Z.to_nat MAX_BUF - length v - 1))
    by (unfold MAX_BUF; lia).
  unfold zeros. cbn [replicate]. by rewrite cstr_string.
Qed.

Context (input : list Z).
Let act := cfg_act cfgfile input.

Lemma run_first p c ccfg w : rd input p = Some c -> run_actions act [AClear; AAppend] p ccfg w = (Ret (inr (holding [c])), w).
Proof.
  intros Hp. unfold act. cbn [run_actions cfg_act]. st_run. rewrite Hp. st_run.
  rewrite (run_val _ _ _ (holding [c]) w); [done|]. by apply (append_holding []).
Qed.
Lemma run_pad n p ccfg w : 0 <= p -> p + Z.of_nat n <= zlen input ->
  exists ccfg', run_trace act (replicate n [AClear; AAppend]) p ccfg w = (Ret (inr ccfg'), w).
Proof.
  revert p ccfg. induction n as [|n IH]; intros p ccfg Hp Hn; [by exists ccfg|].
  destruct (rd_Some input p) as (c & Hc & _); [lia|]. cbn [replicate run_trace].
  rewrite (run_val _ _ _ _ _ (run_first p c ccfg w Hc)). apply IH; lia.
Qed.
Lemma run_more p u c w : rd input p = Some c -> zlen u < MAX_BUF - 1 ->
  run_actions act [AAppend] p (holding u) w = (Ret (inr (holding (u ++ [c]))), w).
Proof.
  intros Hp Hu. unfold act. cbn [run_actions cfg_act]. st_run. rewrite Hp. st_run.
  by rewrite (run_val _ _ _ _ _ (append_holding u c w Hu)).
Qed.
Lemma run_string pre u v post w : input = pre ++ v ++ post -> zlen (u ++ v) <= MAX_BUF - 1 ->
  run_trace act (replicate (length v) [AAppend]) (zlen pre) (holding u) w = (Ret (inr (holding (u ++ v))), w).
Proof.
  revert pre u. induction v as [|c v IH]; intros pre u Hi Hl; [by rewrite app_nil_r|].
  rewrite zlen_app, zlen_cons in Hl. pose proof (zlen_nonneg v). cbn [length replicate run_trace].
  assert (Hc : rd input (zlen pre) = Some c) by (rewrite Hi; apply rd_at0).
  rewrite (run_val _ _ _ _ _ (run_more _ u c w Hc ltac:(lia))).
  replace (zlen pre + 1) with (zlen (pre ++ [c])) by zlen_lia.
  rewrite (IH (pre ++ [c]) (u ++ [c])); rewrite <- ?app_assoc; [done..|]. rewrite !zlen_app. zlen_lia.
Qed.
Lemma run_end p v o w : zlen v <= MAX_BUF - 1 ->
  run_actions act [ATerm; AOpt o] p (holding v) w = (option_act cfgfile o (holding v);; mret (inr (holding v))) w.
Proof.
  intros Hv. unfold act. cbn [run_actions cfg_act]. st_run. rewrite (run_val _ _ _ _ _ (term_holding v w Hv)). st_run.
  by apply run_cong.
Qed.
End Actions.

(** The actions of a string of [v] and of the option behind it. *)
Lemma run_value `{!CfgEnv} cfgfile pre pad2 c v post o ccfg w :
  zlen (c :: v) <= MAX_BUF - 1 ->
  run_trace (cfg_act cfgfile (pre ++ pad2 ++ [c] ++ v ++ post))
    (replicate (length pad2) [AClear; AAppend] ++ [[AClear; AAppend]] ++
     replicate (length v) [AAppend] ++ [[ATerm; AOpt o]]) (zlen pre) ccfg w =
  (option_act cfgfile o (holding (c :: v));; mret (inr (holding (c :: v)))) w.
Proof.
  intros Hv. set (input := _ ++ _). pose proof (zlen_nonneg pre).
  rewrite run_trace_app, length_replicate.
  destruct (run_pad cfgfile input (length pad2) (zlen pre) ccfg w) as (ccfg1 & E); [lia| |].
  { subst input. rewrite !zlen_app, zlen_cons. unfold zlen. lia. }
  rewrite (run_val _ _ _ _ _ E). clear E. rewrite run_trace_app. cbn [length].
  assert (Hc : rd input (zlen pre + Z.of_nat (length pad2)) = Some c).
  { subst input. rewrite app_assoc. apply rd_at. unfold zlen. rewrite length_app. lia. }
  cbn [run_trace]. rewrite run_bind, (run_val _ _ _ _ _ (run_first cfgfile _ _ c ccfg1 w Hc)). st_run.
  rewrite run_trace_app, length_replicate.
  assert (Hs : run_trace (cfg_act cfgfile input) (replicate (length v) [AAppend])
    (zlen pre + Z.of_nat (length pad2) + Z.of_nat 1) (holding [c]) w = (Ret (inr (holding (c :: v))), w)).
  { replace (_ + _ + _) with (zlen (pre ++ pad2 ++ [c])) by (rewrite !zlen_app; unfold zlen; cbn; lia).
    apply (run_string cfgfile input _ [c] v post); [by rewrite <- !app_assoc|done]. }
  rewrite (run_val _ _ _ _ _ Hs). cbn [run_trace].
  rewrite (run_cong _ _ _ (fun r => mret r) w (run_end cfgfile input _ (c :: v) o w Hv)) by by intros [[]|].
  st_run. by apply run_cong.
Qed.

(** * Lines *)

Section Lines.
Context `{!CfgEnv}.

Lemma exec_line_run input tr rs ccfg w :
  trace_run [file_cfg] input = Some (tr, rs) -> final_any rs = true ->
  exec_line input ccfg w =
  (r ← run_trace (cfg_act no_cfgfile input) tr 0 ccfg;
   match r with inl e => match e : Empty_set with end | inr ccfg => mret ccfg end) w.
Proof.
  intros Ht Hf. unfold exec_line. rewrite (run_cong _ _ _ _ w (exec_trace _ _ 0 _ ccfg _ _ w Ht)) by done.
  st_run. apply run_cong; [done|]. intros [[]|c] w'. st_run. destruct rs; [done|]. by rewrite Hf.
Qed.

(** A line with a value: the option's action runs on it. *)
Lemma exec_text on pad1 pad2 c v ccfg w :
  on ∈ value_options -> spaces pad1 -> spaces pad2 -> is_spc c = false -> 10 ∉ c :: v ->
  zlen (c :: v) <= MAX_BUF - 1 ->
  exec_line (chars on.2 ++ pad1 ++ [61] ++ pad2 ++ [c] ++ v ++ [10]) ccfg w =
  (option_act no_cfgfile on.1 (holding (c :: v));; mret (holding (c :: v))) w.
Proof.
  intros Hon H1 H2 Hc Hv Hl.
  rewrite (exec_line_run _ _ _ ccfg w (trace_then _ _ _ _ _ _ _ (after_value_name on Hon)
    (value_trace on.1 pad1 pad2 c v H1 H2 Hc Hv)) (proj2 (step_newline on.1))).
  set (input := chars on.2 ++ _). rewrite run_trace_app_bind, run_trace_nops, length_replicate. st_run.
  rewrite run_trace_app_bind, run_trace_nops, length_replicate. st_run.
  rewrite run_trace_app_bind. cbn [run_trace run_actions length]. st_run.
  replace (0 + _ + _ + _) with (zlen (chars on.2 ++ pad1 ++ [61])) by (rewrite !zlen_app; unfold zlen; cbn; lia).
  pose proof (run_value no_cfgfile (chars on.2 ++ pad1 ++ [61]) pad2 c v [10] on.1 ccfg w Hl) as E.
  rewrite <- !app_assoc in E. rewrite (run_cong _ _ _ _ w E) by done. st_run. by apply run_cong.
Qed.

(** The words for a truth value. *)
Definition bool_words (b : bool) : list (list Z) :=
  if b then [chars "true"; chars "1"] else [chars "false"; chars "0"].
Definition b0 o := named boolval o.
Definition b1 o := after (b0 o) [32].
Definition b2 o := after (b0 o) [61].
Definition b3 o := after (b0 o) [61; 32].

#[local] Transparent step trace_run.
Lemma step_bool_spc o c : is_spc c = true ->
  step (b0 o) c = Some ([], b1 o) /\ step (b1 o) c = Some ([], b1 o) /\
  step (b2 o) c = Some ([], b3 o) /\ step (b3 o) c = Some ([], b3 o).
Proof. intros [-> | ->]%is_spc_cases; destruct o; split_and!; by vm_compute. Qed.
Lemma step_bool_equals o : step (b0 o) 61 = Some ([], b2 o) /\ step (b1 o) 61 = Some ([], b2 o).
Proof. destruct o; split_and!; by vm_compute. Qed.
Definition bool_end (b : bool) (o : cfg_option) (t : list Z) : list (list cfg_action) :=
  replicate (length t) [] ++ [[if b then ATruval else AFalsval; AOpt o]].
Lemma trace_word (b : bool) o t : t ∈ bool_words b -> exists rs, final_any rs = true /\
  trace_run (b2 o) (t ++ [10]) = Some (bool_end b o t, rs) /\
  trace_run (b3 o) (t ++ [10]) = Some (bool_end b o t, rs).
Proof.
  intros Ht. exists (after (b2 o) (t ++ [10])). revert t Ht. apply Forall_forall.
  destruct b; repeat constructor; destruct o; by vm_compute.
Qed.
#[local] Opaque b0 b1 b2 b3 step trace_run.

Lemma exec_bool on (b : bool) pad1 pad2 t ccfg w :
  on ∈ bool_options -> spaces pad1 -> spaces pad2 -> t ∈ bool_words b ->
  exec_line (chars on.2 ++ pad1 ++ [61] ++ pad2 ++ t ++ [10]) ccfg w =
  (let ccfg := ccfg <| ternary := if b then 1 else -1 |> in
   option_act no_cfgfile on.1 ccfg;; mret ccfg) w.
Proof.
  intros Hon H1 H2 Ht. destruct (trace_word b on.1 t Ht) as (rs & Hf & T2 & T3).
  assert (Htr : trace_run (b0 on.1) (pad1 ++ [61] ++ pad2 ++ t ++ [10]) =
    Some (replicate (length pad1) [] ++ [[]] ++ replicate (length pad2) [] ++ bool_end b on.1 t, rs)).
  { eapply trace_then; [eapply trace_enter; [..|exact H1]; intros d Hd; apply (step_bool_spc on.1 d Hd)|].
    eapply trace_then; [apply trace_one; destruct pad1; apply (step_bool_equals on.1)|].
    eapply trace_then; [eapply trace_enter; [..|exact H2]; intros d Hd; apply (step_bool_spc on.1 d Hd)|].
    by destruct pad2. }
  rewrite (exec_line_run _ _ _ ccfg w (trace_then _ _ _ _ _ _ _ (after_bool_name on Hon) Htr) Hf).
  rewrite run_trace_app_bind, run_trace_nops. st_run.
  rewrite run_trace_app_bind, run_trace_nops. st_run.
  rewrite run_trace_app_bind. cbn [run_trace run_actions]. st_run.
  rewrite run_trace_app_bind, run_trace_nops. st_run. unfold bool_end.
  rewrite run_trace_app_bind, run_trace_nops. st_run. cbn [run_trace run_actions].
  destruct b; cbn [cfg_act]; st_run; by apply run_cong.
Qed.

Lemma exec_blank ccfg w : exec_line [10] ccfg w = (Ret ccfg, w).
Proof. by vm_compute. Qed.
End Lines.
