(* ===== verification/Cfgread.v ===== *)
(** Reading a configuration file in pieces ([cfg.rl: parse_cfgfile]).

    [run_text] performs the lines of a text one after the other.  The loop of
    [parse_cfgfile] does the same for a file, however many bytes each [safe_read]
    yields. *)

From stdpp Require Import sets.
From S2P Require Import Prelude Types World Ifchange Nl Ndhc Duiaid Ifset Ragel Cfg Cfgfile.

Section Text.
Context `{!CfgEnv}.

(** The lines of [s] that end in [s]; [cur] is the beginning of the first. *)
Fixpoint run_text (cur s : list Z) (ccfg : cfgparse) : FM cfgparse :=
  match s with
  | [] => mret ccfg
  | x :: s =>
    if x =? 10 then ccfg ← exec_line (cur ++ [10]) ccfg; run_text [] s ccfg
    else run_text (cur ++ [x]) s ccfg
  end.
(** The line that does not end in [s]. *)
Fixpoint pending (cur s : list Z) : list Z :=
  match s with
  | [] => cur
  | x :: s => if x =? 10 then pending [] s else pending (cur ++ [x]) s
  end.
(** [consumed] after [s]. *)
Fixpoint last_newline (lend consumed : Z) (s : list Z) : Z :=
  match s with
  | [] => consumed
  | x :: s => last_newline (lend + 1) (if x =? 10 then lend else consumed) s
  end.

Lemma run_text_app cur s t ccfg w :
  run_text cur (s ++ t) ccfg w = (c ← run_text cur s ccfg; run_text (pending cur s) t c) w.
Proof.
  revert cur ccfg w. induction s as [|x s IH]; intros cur ccfg w; [done|]. cbn [app run_text pending].
  destruct (x =? 10); [|apply IH]. rewrite run_bind. apply run_cong; [done|]. intros c w'. apply IH.
Qed.
Lemma run_text_line cur v t : 10 ∉ v -> run_text cur (v ++ t) = run_text (cur ++ v) t.
Proof.
  revert cur. induction v as [|x v IH]; intros cur Hv; [by rewrite app_nil_r|].
  rewrite not_elem_of_cons in Hv. destruct Hv as [Hx Hv]. cbn [app run_text]. zcase; [congruence|].
  rewrite IH by done. by rewrite <- app_assoc.
Qed.
Lemma pending_line cur v : 10 ∉ v -> pending cur v = cur ++ v.
Proof.
  revert cur. induction v as [|x v IH]; intros cur Hv; [by rewrite app_nil_r|].
  rewrite not_elem_of_cons in Hv. destruct Hv as [Hx Hv]. cbn [pending]. zcase; [congruence|].
  rewrite IH by done. by rewrite <- app_assoc.
Qed.
Lemma pending_app cur u v : pending cur (u ++ 10 :: v) = pending [] v.
Proof.
  revert cur. induction u as [|x u IH]; intros cur; [done|]. cbn [app pending]. by destruct (x =? 10).
Qed.
Lemma last_newline_none lend consumed v : 10 ∉ v -> last_newline lend consumed v = consumed.
Proof.
  revert lend. induction v as [|x v IH]; intros lend Hv; [done|].
  rewrite not_elem_of_cons in Hv. destruct Hv as [Hx Hv]. cbn [last_newline]. zcase; [congruence|]. by apply IH.
Qed.
Lemma last_newline_app lend consumed u v : 10 ∉ v -> last_newline lend consumed (u ++ 10 :: v) = lend + zlen u.
Proof.
  intros Hv. revert lend consumed. induction u as [|x u IH]; intros lend consumed; cbn [app last_newline].
  - rewrite last_newline_none by done. change (lend = lend + 0). lia.
  - rewrite IH. zlen_lia.
Qed.
Lemma newline_split s : 10 ∉ s \/ exists u v, s = u ++ 10 :: v /\ 10 ∉ v.
Proof.
  induction s as [|x s IH]; [left; apply not_elem_of_nil|]. destruct IH as [Hs|(u & v & -> & Hv)].
  - destruct (decide (x = 10)) as [->|Hx]; [right; by exists [], s|left]. rewrite not_elem_of_cons. naive_solver.
  - right. by exists (x :: u), v.
Qed.

(** The [for] loop performs the lines of the buffer. *)
Lemma scan_lines_text pre cur s post consumed ccfg w :
  scan_lines (length s) (pre ++ cur ++ s ++ post) (zlen pre) (zlen (pre ++ cur)) consumed ccfg w =
  (c ← run_text cur s ccfg; mret (last_newline (zlen (pre ++ cur)) consumed s, c)) w.
Proof.
  revert pre cur consumed ccfg w. induction s as [|x s IH]; intros pre cur consumed ccfg w; [done|].
  cbn [length scan_lines run_text last_newline].
  assert (Hx : rd (pre ++ cur ++ (x :: s) ++ post) (zlen (pre ++ cur)) = Some x)
    by (rewrite app_assoc; apply rd_at0).
  rewrite Hx. st_run. destruct (x =? 10) eqn:E.
  - apply Z.eqb_eq in E as ->.
    assert (Hl : rd_range (pre ++ cur ++ (10 :: s) ++ post) (zlen pre) (zlen (pre ++ cur) - zlen pre + 1) =
                 Some (cur ++ [10])).
    { replace (pre ++ cur ++ (10 :: s) ++ post) with (pre ++ (cur ++ [10]) ++ s ++ post) by by rewrite <- !app_assoc.
      apply rd_range_at; [done|]. rewrite !zlen_app. zlen_lia. }
    rewrite Hl. st_run. apply run_cong; [done|]. intros c w'.
    specialize (IH (pre ++ cur ++ [10]) [] (zlen (pre ++ cur)) c w').
    rewrite app_nil_r, <- !app_assoc in IH. cbn [app] in IH |- *.
    replace (zlen (pre ++ cur) + 1) with (zlen (pre ++ cur ++ [10])) by (rewrite !zlen_app; zlen_lia). done.
  - specialize (IH pre (cur ++ [x]) consumed ccfg w). rewrite <- !app_assoc in IH. cbn [app] in IH |- *.
    replace (zlen (pre ++ cur) + 1) with (zlen (pre ++ cur ++ [x])) by (rewrite !zlen_app; zlen_lia). done.
Qed.
End Text.

(** * The reading loop *)

(** No line of [s] has more than [n] characters. *)
Definition short_lines (n : Z) (s : list Z) : Prop :=
  forall u v z, s = u ++ v ++ z -> 10 ∉ v -> zlen v <= n.
Lemma short_drop n u s : short_lines n (u ++ s) -> short_lines n s.
Proof. intros H a v z -> Hv. apply (H (u ++ a) v z); [by rewrite <- app_assoc|done]. Qed.

(** What a buffer holds between two reads: no newline, but for one at its start that
    the loop leaves there because [consumed] is 0. *)
Definition quiet (p : list Z) : Prop := 10 ∉ p \/ exists q, p = 10 :: q /\ 10 ∉ q.

Section Loop.
Context `{!CfgEnv}.

Lemma quiet_length p s : quiet p -> short_lines 1021 (p ++ s) -> zlen p <= 1022.
Proof.
  intros [Hp|(q & -> & Hq)] Hs.
  - specialize (Hs [] p s eq_refl Hp). lia.
  - specialize (Hs [10] q s eq_refl Hq). zlen_lia.
Qed.
Lemma read_some a rest n : 0 <= a -> 0 < n -> rest <> [] -> exists data rest',
  cfg_safe_read a rest n = (zlen data, data) /\ rest = data ++ rest' /\ data <> [] /\ zlen data <= n.
Proof.
  intros Ha Hn Hr. set (m := Z.to_nat (Z.min n (Z.max 1 a))). exists (take m rest), (drop m rest).
  unfold cfg_safe_read. zcase; [lia|]. split_and!; [done|by rewrite take_drop| |].
  - destruct rest; [done|]. destruct m eqn:E; [subst m; lia|done].
  - unfold zlen. rewrite length_take. lia.
Qed.
(** Performing the lines of [p] again performs nothing. *)
Lemma quiet_again p t ccfg w : quiet p -> run_text (pending [] p) t ccfg w = run_text [] (p ++ t) ccfg w.
Proof.
  intros [Hp|(q & -> & Hq)].
  - by rewrite pending_line, run_text_line.
  - change (10 :: q) with ([] ++ 10 :: q) at 1. rewrite pending_app, pending_line by done. cbn [app run_text].
    cbn [Z.eqb Pos.eqb]. rewrite (run_val _ _ _ _ _ (exec_blank ccfg w)), run_text_line by done. done.
Qed.

(** The buffer after a read, the lines performed and what is left of it moved to its
    start. *)
Lemma after_read fuel file k rest s junk ccfg w :
  (forall p junk ccfg w, quiet p -> short_lines 1021 (p ++ rest) -> zlen (p ++ junk) = MAX_BUF ->
     cfgfile_loop fuel file k rest (p ++ junk) (zlen p) ccfg w =
     (c ← run_text [] (p ++ rest ++ [10]) ccfg; mret tt) w) ->
  s <> [] -> short_lines 1021 (s ++ rest) -> zlen (s ++ junk) = MAX_BUF ->
  (let consumed := last_newline 0 0 s in
   let lc := zlen s in
   if (consumed =? 0) && (sizeof_l - 1 <=? lc) then suicide "Line in config file is too long"
   else if lc <? consumed + 1 then suicide "lc - consumed would underflow"
   else if negb (consumed =? 0) then
     m ← ub (rd_range (s ++ junk) (consumed + 1) (lc - consumed - 1));
     l ← ub (wr_range (s ++ junk) 0 m);
     cfgfile_loop fuel file k rest l (lc - (consumed + 1)) ccfg
   else cfgfile_loop fuel file k rest (s ++ junk) lc ccfg) w =
  (c ← run_text (pending [] s) (rest ++ [10]) ccfg; mret tt) w.
Proof.
  intros IH Hs Hsh Hl. cbv zeta. assert (0 < zlen s) by (destruct s; [done|zlen_lia]).
  assert (Hkeep : quiet s -> last_newline 0 0 s = 0 -> zlen s <= 1022 /\
    (c ← run_text (pending [] s) (rest ++ [10]) ccfg; mret tt) w =
    (c ← run_text [] (s ++ rest ++ [10]) ccfg; mret tt) w).
  { intros Hq _. split; [by eapply quiet_length|]. apply run_cong; [|done]. by apply quiet_again. }
  unfold sizeof_l, MAX_BUF in *. destruct (newline_split s) as [Hn|(u & v & -> & Hv)].
  - rewrite last_newline_none in * by done. destruct Hkeep as [Hlen ->]; [by left|done|].
    replace (_ && _) with false by lia. zcases. cbn [negb Z.eqb]. apply IH; [by left|done|done].
  - rewrite last_newline_app in * by done. rewrite ?Z.add_0_l in *. pose proof (zlen_nonneg u).
    destruct (decide (u = [])) as [->|Hu].
    + destruct Hkeep as [Hlen ->]; [right; by exists v|done|]. change (zlen [] =? 0) with true.
      replace (true && _) with false by lia. replace (_ <? _) with false by zlen_lia. cbn [negb].
      apply IH; [right; by exists v|done|done].
    + assert (0 < zlen u) by (destruct u; [done|zlen_lia]). replace (zlen u =? 0) with false by lia.
      cbn [andb negb]. replace (_ <? _) with false by zlen_lia.
      rewrite pending_app, pending_line by done. cbn [app].
      assert (Hr : rd_range ((u ++ 10 :: v) ++ junk) (zlen u + 1) (zlen (u ++ 10 :: v) - zlen u - 1) = Some v).
      { replace ((u ++ 10 :: v) ++ junk) with ((u ++ [10]) ++ v ++ junk) by by rewrite <- !app_assoc.
        apply rd_range_at; zlen_lia. }
      rewrite Hr. st_run.
      assert (Hw : exists junk' : list Z, wr_range ((u ++ 10 :: v) ++ junk) 0 v = Some (v ++ junk') /\
        zlen (v ++ junk') = zlen ((u ++ 10 :: v) ++ junk)).
      { exists (drop (length v) ((u ++ 10 :: v) ++ junk)).
        assert (Hle : zlen v <= zlen ((u ++ 10 :: v) ++ junk)) by (rewrite !zlen_app; zlen_lia).
        split; [apply (wr_range_tail []); [done|exact Hle]|].
        unfold zlen in *. rewrite length_app, length_drop. lia. }
      destruct Hw as (junk' & -> & Hj). st_run.
      replace (zlen (u ++ 10 :: v) - (zlen u + 1)) with (zlen v) by zlen_lia.
      rewrite IH; [apply run_cong; [by rewrite run_text_line|done]|by left| |by rewrite Hj].
      apply (short_drop _ (u ++ [10])). by rewrite <- !app_assoc in *.
Qed.

Lemma cfgfile_loop_text fuel file k rest p junk ccfg w :
  (forall k, 0 <= cf_read file k) -> quiet p -> short_lines 1021 (p ++ rest) ->
  zlen (p ++ junk) = MAX_BUF -> (length rest < fuel)%nat ->
  cfgfile_loop fuel file k rest (p ++ junk) (zlen p) ccfg w =
  (c ← run_text [] (p ++ rest ++ [10]) ccfg; mret tt) w.
Proof.
  intros Hread. revert k rest p junk ccfg w. induction fuel as [|fuel IH]; intros k rest p junk ccfg w Hq Hs Hl Hf; [lia|].
  pose proof (quiet_length p rest Hq Hs) as Hp. pose proof (zlen_nonneg p).
  cbn [cfgfile_loop]. unfold sizeof_l, MAX_BUF in *. replace (1024 <=? zlen p + 1) with false by lia.
  destruct (decide (rest = [])) as [->|Hr].
  - unfold cfg_safe_read. specialize (Hread k). zcase; [lia|]. rewrite take_nil. cbn [length zlen].
    destruct junk as [|j junk]; [rewrite app_nil_r in Hl; lia|]. change (zlen [] =? 0) with true. cbn iota.
    change (zlen [] <? 0) with false. rewrite (wr_at p) by done. st_run.
    replace (Z.to_nat (zlen p + 1)) with (length (p ++ [10])) by (rewrite length_app; unfold zlen; cbn; lia).
    pose proof (scan_lines_text [] [] (p ++ [10]) junk 0 ccfg w) as E. cbn [app] in E.
    rewrite <- app_assoc in E. cbn [app] in E. rewrite (run_cong _ _ _ _ w E) by done. st_run. by apply run_cong.
  - destruct (read_some (cf_read file k) rest (1024 - 1 - zlen p)) as (data & rest' & -> & -> & Hd & Hn); [done|lia|done|].
    assert (0 < zlen data) by (destruct data; [done|zlen_lia]).
    zcase; [lia|]. replace (zlen data =? 0) with false by lia.
    rewrite (wr_range_tail p junk (zlen p) data) by (done || (rewrite zlen_app in Hl; lia)). st_run.
    set (s := p ++ data). set (junk' := drop (length data) junk).
    replace (zlen p + zlen data) with (zlen s) by (subst s; zlen_lia).
    replace (Z.to_nat (zlen s)) with (length s) by (unfold zlen; lia).
    pose proof (scan_lines_text [] [] s junk' 0 ccfg w) as E. cbn [app] in E.
    replace (p ++ data ++ junk') with (s ++ junk') by by subst s; rewrite <- app_assoc.
    rewrite (run_cong _ _ _ _ w E) by done. clear E. st_run.
    replace (p ++ (data ++ rest') ++ [10]) with (s ++ rest' ++ [10]) by by subst s; rewrite <- !app_assoc.
    rewrite (run_cong (run_text [] (s ++ rest' ++ [10]) ccfg) _ _ (fun _ => mret tt) w (run_text_app [] s _ ccfg w)) by done.
    st_run. apply run_cong; [done|]. intros c w'. rewrite drop_app_length.
    apply after_read; [..|subst s; by rewrite <- app_assoc|].
    + intros p2 junk2 c2 w2 Hq2 Hs2 Hl2. apply IH; [done..|]. rewrite length_app in Hf. unfold zlen in *. lia.
    + subst s. destruct p; [done|done].
    + subst s junk'. rewrite !zlen_app in *. unfold zlen, MAX_BUF in *. rewrite length_drop. lia.
Qed.
End Loop.

(** * Settings *)

(** A line: a value for an option, a truth value for an option, or nothing. *)
Inductive setting := SText (o : cfg_option) (v : list Z) | SBool (o : cfg_option) (b : bool) | SBlank.

(** The lines, without their newline, that spell a setting. *)
Inductive written : setting -> list Z -> Prop :=
| written_text on pad1 pad2 c v :
    on ∈ value_options -> spaces pad1 -> spaces pad2 -> is_spc c = false -> 10 ∉ c :: v ->
    written (SText on.1 (c :: v)) (chars on.2 ++ pad1 ++ [61] ++ pad2 ++ [c] ++ v)
| written_bool on b pad1 pad2 t :
    on ∈ bool_options -> spaces pad1 -> spaces pad2 -> t ∈ bool_words b ->
    written (SBool on.1 b) (chars on.2 ++ pad1 ++ [61] ++ pad2 ++ t)
| written_blank : written SBlank [].

Section Settings.
Context `{!CfgEnv}.

(** What [ccfg] is when only [ternary] matters. *)
Definition with_ternary (t : Z) : cfgparse := no_ccfg <| ternary := t |>.
Definition perform_setting (st : setting) : FM unit :=
  match st with
  | SText o v => option_act no_cfgfile o (holding v)
  | SBool o b => option_act no_cfgfile o (with_ternary (if b then 1 else -1))
  | SBlank => mret tt
  end.
Fixpoint perform_settings (sts : list setting) : FM unit :=
  match sts with [] => mret tt | st :: sts => perform_setting st;; perform_settings sts end.

(** The options without a value look at [ternary] only. *)
Definition flag_option (o : cfg_option) : Prop :=
  match o with
  | OBackground | ONow | OQuit | OSeccompEnforce | ORelentlessDefense | ODhcpSetHostname | OVersion | OHelp => True
  | _ => False
  end.
Lemma flag_act cfgfile o ccfg : flag_option o ->
  option_act cfgfile o ccfg = option_act cfgfile o (with_ternary (ternary ccfg)).
Proof. by destruct o. Qed.
Lemma bool_option_flag on : on ∈ bool_options -> flag_option on.1.
Proof. revert on. apply Forall_forall. by repeat constructor. Qed.

Lemma exec_written st line ccfg w : written st line -> zlen line <= MAX_BUF - 1 ->
  exists ccfg', exec_line (line ++ [10]) ccfg w = (perform_setting st;; mret ccfg') w.
Proof.
  intros Hw Hl. destruct Hw as [on pad1 pad2 c v Hon H1 H2 Hc Hv|on b pad1 pad2 t Hon H1 H2 Ht|].
  - exists (holding (c :: v)). pose proof (exec_text on pad1 pad2 c v ccfg w Hon H1 H2 Hc Hv) as E.
    rewrite <- !app_assoc. apply E. rewrite !zlen_app in Hl. zlen_lia.
  - eexists. pose proof (exec_bool on b pad1 pad2 t ccfg w Hon H1 H2 Ht) as E.
    rewrite <- !app_assoc. rewrite E. cbv zeta. rewrite flag_act by by apply bool_option_flag. reflexivity.
  - exists ccfg. apply exec_blank.
Qed.
Lemma names_no_newline on : on ∈ value_options ++ bool_options -> 10 ∉ chars on.2.
Proof. revert on. apply Forall_forall. repeat constructor; by apply (bool_decide_unpack _). Qed.
Lemma spaces_no_newline s : spaces s -> 10 ∉ s.
Proof. unfold spaces. rewrite Forall_forall. intros Hs H10. by specialize (Hs 10 H10). Qed.
Lemma words_no_newline b t : t ∈ bool_words b -> 10 ∉ t.
Proof. revert t. apply Forall_forall. destruct b; repeat constructor; by apply (bool_decide_unpack _). Qed.
Lemma written_no_newline st line : written st line -> 10 ∉ line.
Proof.
  pose proof names_no_newline as Hn. setoid_rewrite elem_of_app in Hn.
  intros [on pad1 pad2 c v Hon H1 H2 Hc Hv|on b pad1 pad2 t Hon H1 H2 Ht|]; [| |apply not_elem_of_nil];
    rewrite !not_elem_of_app; split_and!; eauto using spaces_no_newline, words_no_newline; try set_solver.
Qed.

(** The text of some lines. *)
Definition text_of (lines : list (list Z)) : list Z := lines ≫= fun l => l ++ [10].

Lemma short_line_app n l s : zlen l <= n -> short_lines n s -> short_lines n (l ++ 10 :: s).
Proof.
  intros Hl Hs u v z E Hv.
  apply app_eq_inv in E as [(k & -> & E)|(k & -> & E)].
  - apply app_eq_inv in E as [(k' & -> & E)|(k' & -> & E)].
    + destruct k' as [|d k']; [rewrite app_nil_r; rewrite zlen_app in Hl; pose proof (zlen_nonneg u); lia|].
      injection E as <- _. exfalso. apply Hv. set_solver.
    + rewrite !zlen_app in Hl. pose proof (zlen_nonneg u). pose proof (zlen_nonneg k'). lia.
  - destruct k as [|d k]; cbn in E.
    + destruct v as [|d v]; [pose proof (zlen_nonneg l); change (0 <= n); lia|].
      injection E as <- _. exfalso. apply Hv. set_solver.
    + injection E as _ ->. by apply (Hs k v z).
Qed.
Lemma short_text n lines : 0 <= n -> Forall (fun l => zlen l <= n) lines -> short_lines n (text_of lines).
Proof.
  intros Hn. induction 1 as [|l lines Hl _ IH]; unfold text_of.
  - intros u v z E _. symmetry in E. apply app_eq_nil in E as [_ [-> _]%app_eq_nil]. done.
  - rewrite bind_cons, <- app_assoc. by apply short_line_app.
Qed.

Lemma run_written sts lines ccfg w :
  Forall2 written sts lines -> Forall (fun l => zlen l <= 1021) lines ->
  (c ← run_text [] (text_of lines ++ [10]) ccfg; mret tt) w = perform_settings sts w.
Proof.
  intros Hw. revert ccfg w. induction Hw as [|st l sts lines Hst _ IH]; intros ccfg w Hl.
  - cbn [text_of mbind list_bind app run_text Z.eqb Pos.eqb]. st_run.
    by rewrite (run_val _ _ _ _ _ (exec_blank ccfg w)).
  - apply Forall_cons in Hl as [Hlen Hl]. unfold text_of. rewrite bind_cons. fold (text_of lines).
    rewrite <- !app_assoc, run_text_line by by eapply written_no_newline.
    cbn [app run_text Z.eqb Pos.eqb perform_settings]. rewrite run_bind.
    destruct (exec_written st l ccfg w Hst) as (c' & E); [unfold MAX_BUF; lia|].
    rewrite (run_cong _ _ _ _ w E) by done. st_run. apply run_cong; [done|]. intros [] w'. st_run. by apply IH.
Qed.
End Settings.

(** * Properties *)

(** C10. A configuration file is performed line by line: when it can be opened and read, and
    no line has more than 1021 characters, [parse_cfgfile] does what performing the
    lines of the whole text in order does, the rest behind the last newline being a line
    too; how many bytes each read yields makes no difference, and the loop ends. *)
Theorem cfgfile_in_pieces `{!CfgEnv} (fname content : list Z) (w : cfg_world) :
  cf_open (cf_files_read w) fname = Some content ->
  (forall k, 0 <= cf_read (cf_files_read w) k) ->
  short_lines 1021 content ->
  parse_cfgfile fname w =
  (c ← run_text [] (content ++ [10]) no_ccfg; mret tt) (w <| cf_files_read ::= S |>).
Proof.
  intros Ho Hr Hs. unfold parse_cfgfile. st_run. rewrite Ho. st_run.
  apply (cfgfile_loop_text _ _ _ content []); [done| |done|done|lia].
  left. apply not_elem_of_nil.
Qed.

(** The environment of the examples: five bytes a read, one file. *)
Definition sample_cfg_env (content : list Z) : CfgEnv := {|
  copy_cmdarg old s := if zlen s <? zlen old then Some (s ++ 0 :: drop (S (length s)) old) else None;
  nk_uidgidbyname s := if bytes_eqb s (chars "nobody") then Some (65534, 65534) else None;
  cf_open _ fname := if bytes_eqb fname (chars "ndhc.conf") then Some content else None;
  cf_read _ _ := 5
|}.
Definition sample_lines : list (list Z) :=
  [[]; chars "hostname =  my box"; chars "now=1"; []; chars "rfkill-idx = 2"].

Lemma cfgfile_in_pieces_witness :
  let E := sample_cfg_env (text_of sample_lines) in
  let w := initial_cfg false in
  parse_cfgfile (chars "ndhc.conf") w =
    (c ← run_text [] (text_of sample_lines ++ [10]) no_ccfg; mret tt) (w <| cf_files_read := 1%nat |>) /\
  hostname (cf_config (snd (parse_cfgfile (chars "ndhc.conf") w))) = chars "my box" ++ zeros 58.
Proof.
  intros E w. split.
  - apply (cfgfile_in_pieces (chars "ndhc.conf") (text_of sample_lines) w); [by vm_compute|done|].
    apply short_text; [lia|]. repeat constructor; by vm_compute.
  - by vm_compute.
Defined.

(** C21. A file whose lines spell settings, each with its option's name, blanks around
    [=] as one likes and no line longer than 1021 characters, performs exactly these
    settings in their order: the action of the option on the value without the blanks
    before it, or with the truth value; a setting that ends the process ends the rest. *)
Theorem cfgfile_settings `{!CfgEnv} (fname : list Z) (sts : list setting) (lines : list (list Z)) (w : cfg_world) :
  cf_open (cf_files_read w) fname = Some (text_of lines) ->
  (forall k, 0 <= cf_read (cf_files_read w) k) ->
  Forall2 written sts lines -> Forall (fun l => zlen l <= 1021) lines ->
  parse_cfgfile fname w = perform_settings sts (w <| cf_files_read ::= S |>).
Proof.
  intros Ho Hr Hw Hl. rewrite <- (run_written sts lines no_ccfg) by done. unfold parse_cfgfile.
  st_run. rewrite Ho. st_run. apply (cfgfile_loop_text _ _ _ (text_of lines) []); [done| | |done|lia].
  - left. apply not_elem_of_nil.
  - by apply short_text.
Qed.

Definition sample_settings : list setting :=
  [SBlank; SText OHostname (chars "my box"); SBool ONow true; SBlank; SText ORfkillIdx (chars "2")].
Lemma sample_written : Forall2 written sample_settings sample_lines.
Proof.
  repeat apply Forall2_cons_2; [constructor| | |constructor| |apply Forall2_nil_2].
  - apply (written_text (OHostname, "hostname"%string) [32] [32; 32] (ch "m") (chars "y box"));
      [by apply (bool_decide_unpack _)|by repeat constructor|by repeat constructor|done|by apply (bool_decide_unpack _)].
  - apply (written_bool (ONow, "now"%string) true [] [] (chars "1"));
      [by apply (bool_decide_unpack _)|constructor|constructor|by apply (bool_decide_unpack _)].
  - apply (written_text (ORfkillIdx, "rfkill-idx"%string) [32] [32] (ch "2") []);
      [by apply (bool_decide_unpack _)|by repeat constructor|by repeat constructor|done|by apply (bool_decide_unpack _)].
Qed.
Lemma cfgfile_settings_witness :
  let E := sample_cfg_env (text_of sample_lines) in
  let w := initial_cfg false in
  parse_cfgfile (chars "ndhc.conf") w = perform_settings sample_settings (w <| cf_files_read := 1%nat |>) /\
  rfkillIdx (cf_config (snd (parse_cfgfile (chars "ndhc.conf") w))) = 2.
Proof.
  intros E w. split; [|by vm_compute].
  apply (cfgfile_settings (chars "ndhc.conf") sample_settings sample_lines w);
    [by vm_compute|done|exact sample_written|repeat constructor; by vm_compute].
Defined.
