(* ===== verification/Cfgcmd.v ===== *)
(** What a command line does ([cfg.rl: parse_cmdline]).

    A [cmd_item] is one option as it is typed.  A command line of items performs them
    in order; a flag sees the value that the machine has kept, which is set only after
    the action of a flag has run. *)

From stdpp Require Import sets.
From S2P Require Import Prelude Types World Ifchange Nl Ndhc Duiaid Ifset Ragel Cfg Cfgfile Cfgread.

(** * Items *)

#[export] Instance arg_kind_eq_dec : EqDecision arg_kind.
Proof. solve_decision. Defined.
#[export] Instance cmd_option_eq_dec : EqDecision cmd_option.
Proof. solve_decision. Defined.

Record cmd_item := mk_cmd_item { it_opt : cmd_option; it_long : bool; it_value : list Z }.
Definition it_name (it : cmd_item) : list Z :=
  chars (if it_long it then co_long (it_opt it) else co_short (it_opt it)).
Definition it_args (it : cmd_item) : list (list Z) :=
  it_name it :: match co_kind (it_opt it) with KArg => [it_value it] | _ => [] end.
Definition item_ok (it : cmd_item) : Prop :=
  it_opt it ∈ cmd_options /\
  (co_kind (it_opt it) = KArg -> it_value it <> [] /\ 0 ∉ it_value it /\ zlen (it_value it) <= MAX_BUF - 1).
(** The bytes of arguments in [argb]. *)
Definition argb_text (argv : list (list Z)) : list Z := argv ≫= fun a => a ++ [0].

Section Perform.
Context `{!CfgEnv}.

(** The action of an item; [after_flag]: the item before is a flag. *)
Definition perform_item (after_flag : bool) (it : cmd_item) : FM unit :=
  option_act parse_cfgfile (co_opt (it_opt it))
    (match co_kind (it_opt it) with
     | KArg => holding (it_value it)
     | KFlag => with_ternary (if after_flag then 1 else 0)
     | KNone => with_ternary 0
     end).
Fixpoint perform_items (after_flag : bool) (items : list cmd_item) : FM unit :=
  match items with
  | [] => mret tt
  | it :: items =>
    perform_item after_flag it;;
    perform_items (match co_kind (it_opt it) with KFlag => true | _ => false end) items
  end.

(** Every option does its work, and a flag sets what it names wherever it stands, as
    ndhc.8 has it. *)
Definition documented (items : list cmd_item) : FM unit :=
  foldr (fun it m => perform_item true it;; m) (mret tt) items.
End Perform.

Definition flag_of (it : cmd_item) : bool := match co_kind (it_opt it) with KFlag => true | _ => false end.
(** The items without the flags that do not stand directly behind another flag. *)
Fixpoint heeded (after_flag : bool) (items : list cmd_item) : list cmd_item :=
  match items with
  | [] => []
  | it :: items => (if flag_of it && negb after_flag then [] else [it]) ++ heeded (flag_of it) items
  end.

(** * The machine on an item *)

(** The machine between two options: at the start, or behind an option. *)
Definition behind (k : arg_kind) (o : cfg_option) : list (ragel cfg_action) :=
  [RSeq (RFinish (match k with KFlag => RLeave REps ATbv | _ => REps end) (AOpt o)) cmd_cfg].
Definition place (prev : option cmd_option) : list (ragel cfg_action) :=
  match prev with None => [cmd_cfg] | Some co => behind (co_kind co) (co_opt co) end.
Definition is_flag (prev : option cmd_option) : bool :=
  match prev with Some co => match co_kind co with KFlag => true | _ => false end | None => false end.
Definition pending_acts (prev : option cmd_option) : list cfg_action := if is_flag prev then [ATbv] else [].

(** Behind the dash, behind the name of an option with a value, and in that value. *)
Definition dash : list (ragel cfg_action) := after [cmd_cfg] [45].
Definition arg_named (o : cfg_option) : list (ragel cfg_action) :=
  [RSeq (RSeq REps (RFinish argval (AOpt o))) cmd_cfg].
Definition arg_start (o : cfg_option) := after (arg_named o) [0].
Definition arg_in (o : cfg_option) := after (arg_named o) [0; 120].

Lemma step_dash prev : step (place prev) 45 = Some (pending_acts prev, dash).
Proof. destruct prev as [[o s l []]|]; by vm_compute. Qed.

(** A name: a dash and the rest, for all options. *)
Definition name_of (co : cmd_option) (long : bool) : list Z := chars (if long then co_long co else co_short co).
Definition name_runs (co : cmd_option) (long : bool) : Prop :=
  let t := drop 1 (name_of co long) in
  name_of co long = 45 :: t /\
  match co_kind co with
  | KArg => trace_run dash t = Some (replicate (length t) [], arg_named (co_opt co))
  | k => trace_run dash (t ++ [0]) =
         Some (replicate (length t) [] ++ [[AOpt (co_opt co)]], behind k (co_opt co))
  end.
Lemma cmd_names co long : co ∈ cmd_options -> name_runs co long.
Proof. revert co. apply Forall_forall. destruct long; repeat constructor; by vm_compute. Qed.

Lemma step_arg o c : c <> 0 ->
  step (arg_named o) 0 = Some ([], arg_start o) /\
  step (arg_start o) c = Some ([AClear; AAppend], arg_in o) /\
  step (arg_in o) c = Some ([AAppend], arg_in o) /\
  step (arg_in o) 0 = Some ([ATerm; AOpt o], behind KArg o).
Proof. intros Hc. destruct c as [|p|p]; [done|..]; split_and!; by vm_compute. Qed.
Lemma final_place prev : final_any (place prev) = true /\ eof_actions (place prev) = pending_acts prev.
Proof. destruct prev as [[o s l []]|]; by vm_compute. Qed.
#[local] Opaque step trace_run cmd_cfg dash arg_start arg_in.

(** The actions of an item. *)
Definition item_trace (prev : option cmd_option) (it : cmd_item) : list (list cfg_action) :=
  let co := it_opt it in
  let t := drop 1 (it_name it) in
  [pending_acts prev] ++ replicate (length t) [] ++
  match co_kind co with
  | KArg => [[]; [AClear; AAppend]] ++ replicate (length (drop 1 (it_value it))) [AAppend] ++ [[ATerm; AOpt (co_opt co)]]
  | _ => [[AOpt (co_opt co)]]
  end.
Lemma item_runs prev it : item_ok it ->
  trace_run (place prev) (argb_text (it_args it)) = Some (item_trace prev it, place (Some (it_opt it))).
Proof.
  intros [Hin Hval]. destruct (cmd_names (it_opt it) (it_long it) Hin) as [Hn Ht].
  unfold argb_text, it_args. rewrite bind_cons. change (it_name it) with (name_of (it_opt it) (it_long it)).
  rewrite Hn. unfold item_trace. change (it_name it) with (name_of (it_opt it) (it_long it)).
  set (t := drop 1 (name_of _ _)) in *. rewrite <- app_assoc. change (45 :: t) with ([45] ++ t). rewrite <- app_assoc.
  eapply trace_then; [apply trace_one, step_dash|]. cbn [place].
  destruct (co_kind (it_opt it)).
  - eapply trace_then; [exact Ht|]. destruct (Hval eq_refl) as (Hne & H0 & _).
    destruct (it_value it) as [|c v]; [done|]. rewrite not_elem_of_cons in H0. destruct H0 as [Hc Hv].
    cbn [drop]. rewrite bind_cons. cbn [mbind list_bind]. rewrite app_nil_r.
    destruct (step_arg (co_opt (it_opt it)) c) as (S0 & S1 & _ & S3); [congruence|].
    change ([0] ++ (c :: v) ++ [0]) with ([0] ++ [c] ++ v ++ [0]).
    change ([[]; [AClear; AAppend]] ++ ?r) with ([[]] ++ [[AClear; AAppend]] ++ r).
    eapply trace_then; [apply trace_one, S0|]. eapply trace_then; [apply trace_one, S1|].
    eapply trace_then; [eapply (trace_loop (fun c => c <> 0))|apply trace_one, S3].
    + intros d Hd. by destruct (step_arg (co_opt (it_opt it)) d Hd) as (_ & _ & ? & _).
    + apply Forall_forall. by intros d Hd ->.
  - cbn [mbind list_bind]. rewrite app_nil_r. exact Ht.
  - cbn [mbind list_bind]. rewrite app_nil_r. exact Ht.
Qed.

Fixpoint items_trace (prev : option cmd_option) (items : list cmd_item) : list (list cfg_action) :=
  match items with [] => [] | it :: items => item_trace prev it ++ items_trace (Some (it_opt it)) items end.
Fixpoint last_opt (prev : option cmd_option) (items : list cmd_item) : option cmd_option :=
  match items with [] => prev | it :: items => last_opt (Some (it_opt it)) items end.
Lemma argb_text_app a b : argb_text (a ++ b) = argb_text a ++ argb_text b.
Proof. unfold argb_text. apply bind_app. Qed.
Lemma items_run items : Forall item_ok items -> forall prev,
  trace_run (place prev) (argb_text (items ≫= it_args)) = Some (items_trace prev items, place (last_opt prev items)).
Proof.
  induction 1 as [|it items Hit _ IH]; intros prev; [done|]. rewrite bind_cons, argb_text_app.
  cbn [items_trace last_opt]. eapply trace_then; [by apply item_runs|apply IH].
Qed.

(** * The actions of the items *)

Lemma kind_flag co : co ∈ cmd_options ->
  match co_kind co with KArg => True | KFlag => flag_option (co_opt co)
  | KNone => co_opt co = OVersion \/ co_opt co = OHelp end.
Proof. revert co. apply Forall_forall. repeat apply Forall_cons_2; try apply Forall_nil_2; cbn; auto. Qed.

Section Actions.
Context `{!CfgEnv} (input : list Z).
Let act := cfg_act parse_cfgfile input.

(** What [ternary] is before the next action: 1 behind a flag, otherwise 0. *)
Definition consistent (prev : option cmd_option) (ccfg : cfgparse) : Prop := is_flag prev = true \/ ternary ccfg = 0.
Definition begun (prev : option cmd_option) (ccfg : cfgparse) : cfgparse :=
  if is_flag prev then ccfg <| ternary := 1 |> else ccfg.
Lemma begun_ternary prev ccfg : consistent prev ccfg -> ternary (begun prev ccfg) = if is_flag prev then 1 else 0.
Proof. unfold begun. by intros [-> | Ht]; [|destruct (is_flag prev)]. Qed.
Lemma run_pending prev p ccfg : run_actions act (pending_acts prev) p ccfg = mret (inr (begun prev ccfg)).
Proof. unfold pending_acts, begun. by destruct (is_flag prev). Qed.

Lemma run_opt o p ccfg w :
  run_actions act [AOpt o] p ccfg w = (option_act parse_cfgfile o ccfg;; mret (inr ccfg)) w.
Proof. unfold act. cbn [run_actions cfg_act]. st_run. by apply run_cong. Qed.

(** The machine's data behind an item. *)
Definition left_by (it : cmd_item) (ccfg : cfgparse) : cfgparse :=
  match co_kind (it_opt it) with KArg => holding (it_value it) | KFlag => ccfg | KNone => no_ccfg end.

Lemma item_args_text it :
  argb_text (it_args it) =
  it_name it ++ [0] ++ match co_kind (it_opt it) with KArg => it_value it ++ [0] | _ => [] end.
Proof.
  unfold argb_text, it_args. rewrite bind_cons, <- app_assoc. do 2 f_equal.
  destruct (co_kind (it_opt it)); [|done..]. cbn [mbind list_bind]. apply app_nil_r.
Qed.
Lemma run_item {B} prev it pre post rest ccfg (k : Empty_set + cfgparse -> FM B) w :
  item_ok it -> consistent prev ccfg -> input = pre ++ argb_text (it_args it) ++ post ->
  (run_trace act (item_trace prev it ++ rest) (zlen pre) ccfg ≫= k) w =
  (perform_item (is_flag prev) it;;
   (run_trace act rest (zlen (pre ++ argb_text (it_args it))) (left_by it (begun prev ccfg)) ≫= k)) w.
Proof.
  intros [Hin Hval] Hc Hi. pose proof (kind_flag _ Hin) as Hk.
  destruct (cmd_names (it_opt it) (it_long it) Hin) as [Hn _]. change (name_of _ _) with (it_name it) in Hn.
  pose proof (begun_ternary prev ccfg Hc) as Ht. rewrite item_args_text in Hi |- *.
  unfold item_trace, perform_item, left_by. set (t := drop 1 (it_name it)) in *.
  assert (Hlen : zlen (it_name it) = Z.of_nat (length t) + 1) by (rewrite Hn; zlen_lia || (unfold zlen; cbn [length]; lia)).
  rewrite <- app_assoc, run_trace_app_bind. cbn [run_trace length]. rewrite run_pending. st_run.
  rewrite <- app_assoc, run_trace_app_bind, run_trace_nops, length_replicate. st_run.
  destruct (co_kind (it_opt it)) eqn:Ek.
  - destruct (Hval eq_refl) as (Hne & H0 & Hl). destruct (it_value it) as [|c v] eqn:Ev; [done|].
    change ([[]; [AClear; AAppend]] ++ ?r) with ([[]] ++ [[AClear; AAppend]] ++ r).
    rewrite <- app_assoc, run_trace_app_bind. cbn [run_trace run_actions length]. st_run.
    set (pre1 := pre ++ it_name it ++ [0]).
    replace (zlen pre + Z.of_nat 1 + Z.of_nat (length t) + Z.of_nat 1) with (zlen pre1)
      by (subst pre1; rewrite !zlen_app, Hlen; change (zlen [0]) with 1; lia).
    rewrite run_trace_app_bind.
    pose proof (run_value parse_cfgfile pre1 [] c v ([0] ++ post) (co_opt (it_opt it)) (begun prev ccfg) w Hl) as E.
    replace (pre1 ++ [] ++ [c] ++ v ++ [0] ++ post) with input in E
      by (rewrite Hi; subst pre1; rewrite <- ?app_assoc; done).
    cbn [length replicate] in E. change ([] ++ ?x) with x in E. cbn [drop].
    rewrite (run_cong _ _ _ _ w E) by done. clear E. st_run. apply run_cong; [done|]. intros [] w'.
    st_run. apply run_cong; [|done]. f_equal. subst pre1. rewrite !length_app, length_replicate.
    rewrite !zlen_app, Hlen, drop_0. unfold zlen. cbn [length]. lia.
  - cbn [app run_trace]. rewrite run_bind, (run_cong _ _ _ _ w (run_opt _ _ _ w)) by done. st_run.
    rewrite (flag_act _ _ (begun prev ccfg)), Ht by done. apply run_cong; [done|]. intros [] w'. st_run.
    apply run_cong; [|done]. f_equal. rewrite !zlen_app, Hlen. change (zlen ([0] ++ [])) with 1. change (zlen [0]) with 1. lia.
  - cbn [app run_trace]. rewrite run_bind, (run_cong _ _ _ _ w (run_opt _ _ _ w)) by done.
    destruct Hk as [-> | ->]; done.
Qed.

Lemma left_consistent prev it ccfg : consistent (Some (it_opt it)) (left_by it (begun prev ccfg)).
Proof. unfold consistent, left_by, is_flag. destruct (co_kind (it_opt it)); auto. Qed.
Lemma run_items {B} (r : FM B) items : Forall item_ok items -> forall prev pre ccfg (k : Empty_set + cfgparse -> FM B) w,
  consistent prev ccfg -> input = pre ++ argb_text (items ≫= it_args) -> (forall c w, k (inr c) w = r w) ->
  (run_trace act (items_trace prev items) (zlen pre) ccfg ≫= k) w = (perform_items (is_flag prev) items;; r) w.
Proof.
  induction 1 as [|it items Hit _ IH]; intros prev pre ccfg k w Hc Hi Hk; cbn [items_trace perform_items run_trace].
  - st_run. apply Hk.
  - rewrite bind_cons, argb_text_app in Hi. rewrite (run_item prev it pre _ _ ccfg k w Hit Hc Hi). st_run.
    apply run_cong; [done|]. intros [] w'. rewrite (IH (Some (it_opt it))); [done|apply left_consistent| |done].
    by rewrite <- app_assoc.
Qed.
End Actions.

Section Exec.
Context `{!CfgEnv}.

Lemma exec_items items w : Forall item_ok items ->
  exec_cmdline (argb_text (items ≫= it_args)) w = perform_items false items w.
Proof.
  intros Hit. set (input := argb_text (items ≫= it_args)).
  transitivity ((perform_items false items;; mret tt) w).
  2: { unfold mbind, M_bind. by destruct (perform_items false items w) as [[[]|] ?]. }
  unfold exec_cmdline.
  rewrite (run_cong _ _ _ _ w (exec_trace _ [cmd_cfg] 0 input no_ccfg _ _ w (items_run items Hit None))) by done.
  st_run. apply (run_items input (mret tt) items Hit None []); [by right|done|].
  intros c w'. st_run. change (0 + zlen input) with (zlen input). rewrite Z.eqb_refl.
  destruct (final_place (last_opt None items)) as [Hf He]. rewrite He, run_pending. st_run.
  destruct (place (last_opt None items)); [done|]. by rewrite Hf.
Qed.

(** The arguments are collected with a NUL between them. *)
Lemma snprintf_fits done_ tl s :
  zlen (done_ ++ tl) = sizeof_argb -> zlen done_ + zlen s < sizeof_argb ->
  exists tl', snprintf_argb (done_ ++ tl) (zlen done_) s = Some (done_ ++ s ++ 0 :: tl') /\
    zlen (done_ ++ s ++ 0 :: tl') = sizeof_argb.
Proof.
  intros Hl Hs. pose proof (zlen_nonneg done_). pose proof (zlen_nonneg s). unfold snprintf_argb.
  replace (sizeof_argb <? zlen done_) with false by lia. replace (_ =? 0) with false by lia.
  rewrite take_ge by (unfold zlen in *; lia). exists (drop (length (s ++ [0])) tl). rewrite zlen_app in Hl.
  rewrite wr_range_tail; [|done|rewrite zlen_app; change (zlen [0]) with 1; lia].
  rewrite <- app_assoc. split; [done|]. rewrite !zlen_app, zlen_cons. unfold zlen in *.
  rewrite length_drop, length_app. cbn [length]. lia.
Qed.
Definition sep_text (argv : list (list Z)) : list Z := argv ≫= fun a => 0 :: a.
Lemma collect_more argv done_ tl w :
  zlen (done_ ++ 0 :: tl) = sizeof_argb -> zlen done_ + zlen (sep_text argv) < sizeof_argb ->
  exists tl', collect_args false argv (done_ ++ 0 :: tl) (zlen done_) w =
    (Ret (done_ ++ sep_text argv ++ 0 :: tl', zlen done_ + zlen (sep_text argv)), w).
Proof.
  revert done_ tl. induction argv as [|a argv IH]; intros done_ tl Hl Hs.
  - exists tl. cbn [collect_args sep_text mbind list_bind app]. change (zlen []) with 0. by rewrite Z.add_0_r.
  - unfold sep_text in *. rewrite bind_cons, zlen_app in Hs. fold (sep_text argv) in *. cbn [collect_args].
    pose proof (zlen_nonneg (sep_text argv)). pose proof (zlen_nonneg done_).
    destruct (snprintf_fits done_ (0 :: tl) (0 :: a)) as (tl1 & E & Hl1); [done|lia|].
    rewrite E. st_run. replace (_ <=? _) with false by lia.
    replace (zlen done_ + zlen (0 :: a)) with (zlen (done_ ++ 0 :: a)) by by rewrite zlen_app.
    rewrite app_assoc in Hl1 |- *. destruct (IH (done_ ++ 0 :: a) tl1 Hl1) as (tl2 & ->); [rewrite zlen_app; lia|].
    exists tl2. rewrite bind_cons. fold (sep_text argv). rewrite !zlen_app, <- !app_assoc. do 3 f_equal. lia.
Qed.
Lemma sep_argb a argv : argb_text (a :: argv) = a ++ sep_text argv ++ [0].
Proof.
  revert a. induction argv as [|b argv IH]; intros a; [apply app_nil_r|]. unfold argb_text. rewrite bind_cons.
  fold (argb_text (b :: argv)). rewrite IH. unfold sep_text. rewrite bind_cons. by rewrite <- !app_assoc.
Qed.
(** A command line that fits into [argb]. *)
Lemma parse_cmdline_fits a argv w : a <> [] \/ argv <> [] -> zlen (argb_text (a :: argv)) <= sizeof_argb ->
  parse_cmdline (a :: argv) w = exec_cmdline (argb_text (a :: argv)) w.
Proof.
  rewrite sep_argb, !zlen_app. change (zlen [0]) with 1. intros Ha Hl. unfold parse_cmdline.
  pose proof (zlen_nonneg (sep_text argv)). assert (0 < zlen a + zlen (sep_text argv)).
  { pose proof (zlen_nonneg a). destruct Ha as [Ha|Ha]; [destruct a; [done|zlen_lia]|].
    destruct argv as [|b argv]; [done|]. unfold sep_text in *. rewrite bind_cons, zlen_app, zlen_cons in *.
    pose proof (zlen_nonneg b). fold (sep_text argv) in *. pose proof (zlen_nonneg (sep_text argv)). lia. }
  cbn [collect_args].
  destruct (snprintf_fits [] (zeros (Z.to_nat sizeof_argb)) a) as (tl & E & Hz);
    [by vm_compute|change (zlen []) with 0; lia|].
  cbn [app] in E, Hz. change (zlen []) with 0 in E. rewrite E. st_run. replace (_ <=? _) with false by lia.
  destruct (collect_more argv a tl w) as (tl' & E'); [done|lia|].
  change (0 + zlen a) with (zlen a). rewrite (run_val _ _ _ _ _ E'). replace (_ =? 0) with false by lia.
  assert (Hr : rd_range (a ++ sep_text argv ++ 0 :: tl') 0 (zlen a + zlen (sep_text argv) + 1) =
               Some (a ++ sep_text argv ++ [0])).
  { replace (a ++ sep_text argv ++ 0 :: tl') with ([] ++ (a ++ sep_text argv ++ [0]) ++ tl')
      by (cbn [app]; by rewrite <- !app_assoc).
    apply rd_range_at; [done|]. rewrite !zlen_app. change (zlen [0]) with 1. lia. }
  by rewrite Hr.
Qed.
End Exec.

(** Arguments that do not fit are written beyond the array. *)
Section Overflow.
Context `{!CfgEnv}.

Lemma snprintf_len argb argbl s : zlen argb = sizeof_argb -> 0 <= argbl <= sizeof_argb ->
  exists argb', snprintf_argb argb argbl s = Some argb' /\ zlen argb' = sizeof_argb.
Proof.
  intros Hl Ha. unfold snprintf_argb. replace (sizeof_argb <? argbl) with false by lia.
  destruct (_ =? 0) eqn:E; [by exists argb|]. set (t := _ ++ [0]).
  assert (zlen t <= sizeof_argb - argbl).
  { subst t. rewrite zlen_app. change (zlen [0]) with 1. unfold zlen. rewrite length_take. lia. }
  destruct (wr_range argb argbl t) as [l|] eqn:Ew; [exists l; split; [done|]|].
  - by rewrite (wr_range_len _ _ _ _ Ew).
  - rewrite wr_range_Some in Ew by lia. done.
Qed.
Definition finish (r : list Z * Z) : FM unit :=
  let '(argb, argbl) := r in
  if argbl =? 0 then mret tt else input ← ub (rd_range argb 0 (argbl + 1)); exec_cmdline input.
Lemma collect_overflow argv argb argbl w :
  zlen argb = sizeof_argb -> 0 <= argbl -> Forall (fun a => zlen a < sizeof_argb - 1) argv ->
  sizeof_argb <= argbl + zlen (sep_text argv) ->
  (collect_args false argv argb argbl ≫= finish) w = (Halt HUndef, w).
Proof.
  intros Hl Ha Hs. revert argb argbl Hl Ha. induction Hs as [|a argv Hlen _ IH]; intros argb argbl Hl Ha Ht.
  - cbn [collect_args]. st_run. unfold finish. change (zlen (sep_text [])) with 0 in Ht.
    unfold sizeof_argb in *. replace (argbl =? 0) with false by lia. unfold rd_range.
    replace (_ && _) with false by lia. done.
  - unfold sep_text in Ht. rewrite bind_cons, zlen_app in Ht. fold (sep_text argv) in Ht.
    cbn [collect_args]. destruct (decide (sizeof_argb < argbl)) as [Hgt|Hle].
    + unfold snprintf_argb. by replace (sizeof_argb <? argbl) with true by lia.
    + destruct (snprintf_len argb argbl (0 :: a) Hl) as (argb' & -> & Hl'); [lia|]. st_run.
      pose proof (zlen_nonneg a). rewrite zlen_cons in *. replace (_ <=? _) with false by lia.
      apply IH; [done|lia|lia].
Qed.
End Overflow.

(** What is performed in pieces. *)
Section Pieces.
Context `{!CfgEnv}.
Lemma perform_items_app prev before items w :
  perform_items (is_flag prev) (before ++ items) w =
  (perform_items (is_flag prev) before;; perform_items (is_flag (last_opt prev before)) items) w.
Proof.
  revert prev w. induction before as [|it before IH]; intros prev w; [done|].
  cbn [app perform_items last_opt]. rewrite run_bind. apply run_cong; [done|]. intros [] w'.
  exact (IH (Some (it_opt it)) w').
Qed.
Lemma flag_returns co : co ∈ cmd_options ->
  match co_kind co with
  | KFlag => flag_option (co_opt co) /\ co_opt co <> OVersion /\ co_opt co <> OHelp
  | _ => True
  end.
Proof. revert co. apply Forall_forall. repeat apply Forall_cons_2; try apply Forall_nil_2; by cbn. Qed.
(** The action of a flag that finds nothing noted. *)
Lemma flag_nothing it : it_opt it ∈ cmd_options -> co_kind (it_opt it) = KFlag ->
  perform_item false it = mret tt.
Proof.
  intros Hin Hk. pose proof (flag_returns _ Hin) as Hf. unfold perform_item. rewrite Hk in Hf |- *.
  destruct Hf as (Hf & Hv & Hh). by destruct (co_opt (it_opt it)).
Qed.
Lemma parse_items items w :
  Forall item_ok items -> zlen (argb_text (items ≫= it_args)) <= sizeof_argb ->
  parse_cmdline (items ≫= it_args) w = perform_items false items w.
Proof.
  intros Hit Hl. rewrite <- exec_items by done. destruct Hit as [|it items Hit Hits]; [by vm_compute|].
  rewrite bind_cons in *. apply parse_cmdline_fits; [|exact Hl].
  destruct Hit as [Hin _], (cmd_names (it_opt it) (it_long it) Hin) as [Hn _].
  change (name_of _ _) with (it_name it) in Hn. left. by rewrite Hn.
Qed.
End Pieces.

(** * Properties *)

Section Documented.
Context `{!CfgEnv}.
(** Only a flag looks at what stands before it. *)
Lemma perform_item_heeded after_flag it :
  flag_of it && negb after_flag = false -> perform_item after_flag it = perform_item true it.
Proof. unfold flag_of, perform_item. by destruct (co_kind (it_opt it)), after_flag. Qed.
Lemma perform_items_heeded after_flag items w :
  Forall item_ok items -> perform_items after_flag items w = documented (heeded after_flag items) w.
Proof.
  intros Hit. revert after_flag w. induction Hit as [|it items [Hin _] _ IH]; intros f w; [done|].
  cbn [perform_items heeded]. change (match co_kind (it_opt it) with KFlag => true | _ => false end) with (flag_of it).
  destruct (flag_of it && negb f) eqn:Ef.
  - apply andb_prop in Ef as [Hk Hf]. destruct f; [done|]. rewrite flag_nothing; [apply IH|done|].
    unfold flag_of in Hk. by destruct (co_kind (it_opt it)).
  - rewrite perform_item_heeded by done. cbn [app documented foldr]. apply run_cong; [done|]. intros [] w'. apply IH.
Qed.
End Documented.

(** C11. A command line that spells options, each with its short or long name and those that
    take one with a value, and that fits into 8192 bytes, performs these options in
    their order, values unchanged, and nothing else, except that it drops every lone
    flag: "-b", "-n", "-q", "-d" or "-H" takes effect only directly behind another flag,
    against ndhc.8.  A command line without flags performs all its options. *)
Theorem cmdline_performs_items `{!CfgEnv} (items : list cmd_item) (w : cfg_world) :
  Forall item_ok items -> zlen (argb_text (items ≫= it_args)) <= sizeof_argb ->
  parse_cmdline (items ≫= it_args) w = documented (heeded false items) w /\
  (Forall (fun it => flag_of it = false) items -> heeded false items = items).
Proof.
  intros Hit Hl. split; [rewrite parse_items by done; by apply perform_items_heeded|].
  intros Hf. clear Hit Hl. induction Hf as [|it items Hf _ IH]; [done|]. cbn [heeded]. rewrite Hf. cbn [andb app]. by rewrite IH.
Qed.

Definition find_option (o : cfg_option) : cmd_option :=
  default (mk_cmd_option OHelp "-?" "--help" KNone) (List.find (fun co => bool_decide (co_opt co = o)) cmd_options).
Definition sample_items : list cmd_item :=
  [mk_cmd_item (find_option OHostname) false (chars "box"); mk_cmd_item (find_option ONow) true [];
   mk_cmd_item (find_option OQuit) false []; mk_cmd_item (find_option OGwMetric) true (chars "12")].

Lemma sample_items_ok : Forall item_ok sample_items.
Proof.
  repeat apply Forall_cons_2; try apply Forall_nil_2; (split; [by apply (bool_decide_unpack _)|]);
    try done; intros _; (split_and!; [done|by apply (bool_decide_unpack _)|by vm_compute]).
Qed.
(** Flags need no value. *)
Definition flag_item (it : cmd_item) : bool :=
  bool_decide (it_opt it ∈ cmd_options) && match co_kind (it_opt it) with KFlag => true | _ => false end.
Lemma flag_items_ok items : forallb flag_item items = true -> Forall item_ok items.
Proof.
  rewrite forallb_forall. intros Hf. apply Forall_forall. intros it Hi%list_elem_of_In.
  specialize (Hf it Hi). unfold flag_item in Hf. apply andb_prop in Hf as [Hin Hk].
  split; [by apply bool_decide_eq_true in Hin|]. by destruct (co_kind (it_opt it)).
Qed.

(** A host name, two flags and a metric: both values arrive, and of the flags only the
    second. *)
Lemma cmdline_performs_items_witness :
  let E := sample_cfg_env [] in
  let w := initial_cfg false in
  (parse_cmdline (sample_items ≫= it_args) w = documented (heeded false sample_items) w /\
   (Forall (fun it => flag_of it = false) sample_items -> heeded false sample_items = sample_items)) /\
  sample_items ≫= it_args = [chars "-h"; chars "box"; chars "--now"; chars "-q"; chars "--gw-metric"; chars "12"] /\
  heeded false sample_items ≫= it_args = [chars "-h"; chars "box"; chars "-q"; chars "--gw-metric"; chars "12"] /\
  (let cc := cf_config (snd (parse_cmdline (sample_items ≫= it_args) w)) in
   hostname cc = chars "box" ++ zeros 61 /\ metric cc = 12 /\
   quit_after_lease cc = true /\ abort_if_no_lease cc = false).
Proof.
  intros E w. split; [|split_and!; by vm_compute].
  apply (cmdline_performs_items sample_items w); [exact sample_items_ok|by vm_compute].
Defined.

(** A flag that comes first, or behind an option with a value, does nothing: its action
    runs before the machine has noted that a flag is set, so the command line does what
    it would do without the flag, but for a flag directly behind it. *)
Theorem lone_flag_ignored `{!CfgEnv} (before after_ : list cmd_item) (it : cmd_item) (w : cfg_world) :
  Forall item_ok (before ++ it :: after_) ->
  zlen (argb_text ((before ++ it :: after_) ≫= it_args)) <= sizeof_argb ->
  co_kind (it_opt it) = KFlag -> is_flag (last_opt None before) = false ->
  parse_cmdline ((before ++ it :: after_) ≫= it_args) w =
  (perform_items false before;; perform_items true after_) w.
Proof.
  intros Hit Hl Hk Hlast. rewrite parse_items by done. change false with (is_flag None).
  rewrite perform_items_app. apply run_cong; [done|]. intros [] w'. rewrite Hlast. cbn [perform_items].
  apply Forall_app in Hit as [_ [[Hin _] _]%Forall_cons]. by rewrite Hk, flag_nothing.
Qed.

(** "-n" alone leaves everything as it was; behind another flag it takes effect. *)
Lemma lone_flag_ignored_witness :
  let E := sample_cfg_env [] in
  let w := initial_cfg false in
  let now := mk_cmd_item (find_option ONow) false [] in
  let quit := mk_cmd_item (find_option OQuit) false [] in
  parse_cmdline [chars "-n"] w = (Ret tt, w) /\
  parse_cmdline [chars "-n"; chars "-q"] w = perform_items true [quit] w.
Proof.
  intros E w now quit. split.
  - exact (lone_flag_ignored [] [] now w ltac:(exact (flag_items_ok [now] eq_refl)) ltac:(by vm_compute) eq_refl eq_refl).
  - exact (lone_flag_ignored [] [quit] now w ltac:(exact (flag_items_ok [now; quit] eq_refl)) ltac:(by vm_compute) eq_refl eq_refl).
Defined.

(** C39. Arguments of which each is short enough but that together have more than 8192
    bytes, a NUL behind each, make [parse_cmdline] write or read outside [argb]: the
    length of an argument is checked against the size of the array and not against what
    is left of it. *)
Theorem cmdline_overflow `{!CfgEnv} (argv : list (list Z)) (w : cfg_world) :
  Forall (fun a => zlen a < sizeof_argb - 1) argv -> sizeof_argb < zlen (argb_text argv) ->
  parse_cmdline argv w = (Halt HUndef, w).
Proof.
  intros Hs Hl. destruct Hs as [|a argv Ha Hs]; [done|]. rewrite sep_argb, !zlen_app in Hl.
  change (zlen [0]) with 1 in Hl. unfold parse_cmdline. cbn [collect_args]. pose proof (zlen_nonneg a).
  destruct (snprintf_len (zeros (Z.to_nat sizeof_argb)) 0 a) as (argb & -> & Hz); [by vm_compute|done|].
  st_run. replace (_ <=? _) with false by lia. apply (collect_overflow argv argb); [done|lia|done|lia].
Qed.

Lemma cmdline_overflow_witness :
  let E := sample_cfg_env [] in
  parse_cmdline [chars "-h"; replicate 5000 97; chars "-V"; replicate 5000 98] (initial_cfg false) =
  (Halt HUndef, initial_cfg false).
Proof.
  intros E. apply (cmdline_overflow [chars "-h"; replicate 5000 97; chars "-V"; replicate 5000 98]).
  - repeat constructor; by vm_compute.
  - by vm_compute.
Defined.

(** The usage text joins a long name and its value by [=] and names [--resolve-conf];
    the grammar knows neither. *)
Lemma documented_spellings_refused `{!CfgEnv} (w : cfg_world) :
  let malformed := Halt (HSuicide "error parsing command line option: malformed") in
  fst (parse_cmdline [chars "--hostname=box"] w) = malformed /\
  fst (parse_cmdline [chars "--resolve-conf"; chars "/etc/resolv.conf"] w) = malformed.
Proof. vm_compute. by split. Qed.

(** An address to ask for that is none becomes 255.255.255.255. *)
Lemma invalid_request_accepted `{!CfgEnv} (w : cfg_world) :
  let r := parse_cmdline [chars "-r"; chars "192.168.1"; chars "-r"; chars "192.168.1.300"] w in
  fst r = Ret tt /\ cf_clientAddr (snd r) = 0xffffffff.
Proof. vm_compute. by split. Qed.
