(* ===== verification/Cfgsafe.v ===== *)
(** The option parser on any arguments and any files: it stays inside its arrays, ends,
    and leaves the variables well formed ([cfg_ok]).

    What is used of the ncmlib helpers is in [cfg_env_ok]. *)

From stdpp Require Import sets.
From S2P Require Import Prelude Types World Dhcp Ifchange Nl Ndhc Duiaid Ifset Ragel Cfg Cfgfile Cfgread Cfgcmd.

(** [copy_cmdarg] leaves the string in the array, or does not return; a file is bytes. *)
Record cfg_env_ok `{!CfgEnv} : Prop := {
  env_copies : forall old s a, 0 ∉ s -> copy_cmdarg old s = Some a ->
    zlen a = zlen old /\ cstr a = Some s /\ (bytes_ok old = true -> bytes_ok s = true -> bytes_ok a = true);
  env_files : forall n fname content, cf_open n fname = Some content -> bytes_ok content = true
}.

Definition path_ok (p : list Z) : Prop := zlen p = PATH_MAX /\ is_Some (strlen p).
Record cfg_ok (w : cfg_world) : Prop := {
  co_config : config_ok ((cf_config w) <| clientid_len := 0 |>);
  co_clientid_len : 0 <= clientid_len (cf_config w) < 256;
  co_state_dir : path_ok (cf_state_dir w);
  co_chroot_dir : path_ok (cf_chroot_dir w);
  co_resolv_conf_d : path_ok (cf_resolv_conf_d w);
  co_pidfile : path_ok (cf_pidfile w)
}.
Record ccfg_ok (c : cfgparse) : Prop := {
  cc_len : zlen (cbuf c) = MAX_BUF;
  cc_bytes : bytes_ok (cbuf c) = true;
  cc_buflen : 0 <= buflen c <= MAX_BUF - 1;
  cc_end : rd (cbuf c) (MAX_BUF - 1) = Some 0
}.
(** The process has ended by itself. *)
Definition graceful (h : halt) (w : cfg_world) : Prop := h <> HUndef /\ h <> HFuel.

Lemma strlen_some a : 0 ∈ a -> is_Some (strlen a).
Proof.
  induction a as [|c a IH]; [by intros ?%elem_of_nil|]. cbn [strlen]. zcase; [eauto|].
  intros [?|H]%elem_of_cons; [congruence|]. destruct (IH H) as [n ->]. cbn. eauto.
Qed.
Lemma cstr_some a : is_Some (strlen a) -> exists s, cstr a = Some s.
Proof.
  intros [n Hn]. unfold cstr. rewrite Hn. cbn. apply strlen_bound in Hn. destruct (rd_range_Some a 0 n) as (d & -> & _); [lia..|]. eauto.
Qed.
Lemma cstr_bytes a s : cstr a = Some s -> bytes_ok a = true -> bytes_ok s = true.
Proof. intros (rest & -> & _)%cstr_inv. rewrite bytes_ok_app. by intros [? _]%andb_prop. Qed.

Lemma no_ccfg_ok : ccfg_ok no_ccfg.
Proof. by split; vm_compute. Qed.

(** Writing bytes keeps an array one of bytes. *)
Lemma wr_bytes l i v l' : wr l i v = Some l' -> 0 <= v < 256 -> bytes_ok l = true -> bytes_ok l' = true.
Proof.
  unfold wr. destruct (_ && _); [|done]. intros [= <-] Hv Hl. apply bytes_ok_Forall, Forall_insert; [|done].
  by apply bytes_ok_Forall.
Qed.
Lemma wr_range_bytes l i bs l' : wr_range l i bs = Some l' -> bytes_ok bs = true -> bytes_ok l = true -> bytes_ok l' = true.
Proof.
  unfold wr_range. destruct (_ && _); [|done]. intros [= <-] Hb Hl.
  by rewrite !bytes_ok_app, Hb, bytes_ok_take, bytes_ok_drop.
Qed.
Lemma hwaddr_bytes_ok str : bytes_ok (hwaddr_bytes str) = true /\ zlen (hwaddr_bytes str) = 6.
Proof.
  split; [|done]. unfold hwaddr_bytes. apply bytes_ok_Forall, Forall_map, Forall_forall.
  intros i _. apply u8_range.
Qed.
(** Any client id is stored in the array. *)
Lemma get_clientid_string_ok cc str :
  zlen (clientid cc) = 64 -> bytes_ok (clientid cc) = true -> bytes_ok str = true ->
  0 <= clientid_len cc < 256 ->
  exists r id n, get_clientid_string cc str = Some (r, cc <| clientid := id |> <| clientid_len := n |>) /\
    zlen id = 64 /\ bytes_ok id = true /\ 0 <= n < 256.
Proof.
  intros Hl Hb Hs Hn. unfold get_clientid_string. destruct (zlen str =? 0) eqn:E0.
  { exists (-1), (clientid cc), (clientid_len cc). split_and!; try done; [|lia..]. by destruct cc. }
  assert (H0 : forall v, exists c0, wr (clientid cc) 0 v = Some c0 /\ zlen c0 = 64 /\ (0 <= v < 256 -> bytes_ok c0 = true)).
  { intros v. destruct (wr (clientid cc) 0 v) as [c0|] eqn:E; [|rewrite wr_Some in E by lia; done].
    exists c0. split_and!; [done|by rewrite (wr_len _ _ _ _ E)|]. intros. by eapply wr_bytes. }
  assert (H1 : forall c0 bs, zlen c0 = 64 -> bytes_ok c0 = true -> bytes_ok bs = true -> zlen bs <= 63 ->
    exists c1, wr_range c0 1 bs = Some c1 /\ zlen c1 = 64 /\ bytes_ok c1 = true).
  { intros c0 bs Hc Hcb Hbs Hlen. destruct (wr_range c0 1 bs) as [c1|] eqn:E; [|rewrite wr_range_Some in E by lia; done].
    exists c1. split_and!; [done|by rewrite (wr_range_len _ _ _ _ E)|by eapply wr_range_bytes]. }
  pose proof (zlen_nonneg str). destruct (is_string_hwaddr str); cbn [negb].
  - destruct (H0 1) as (c0 & -> & Hc & Hcb). destruct (hwaddr_bytes_ok str) as [Hh Hhl].
    destruct (H1 c0 (hwaddr_bytes str)) as (c1 & E & ? & ?); [done|by apply Hcb|done|lia|].
    cbn [mbind option_bind]. rewrite E. exists 1, c1, 7. by split_and!.
  - destruct (H0 0) as (c0 & -> & Hc & Hcb). cbn [mbind option_bind].
    assert (Hm : 0 <= min_size_t (zlen str) (64 - 1) <= 63 /\ min_size_t (zlen str) (64 - 1) <= zlen str)
      by (unfold min_size_t; zcase; lia).
    destruct (rd_range_Some str 0 (min_size_t (zlen str) (64 - 1))) as (d & E & Hd); [lia..|]. rewrite E. cbn.
    destruct (H1 c0 d) as (c1 & E1 & ? & ?); [done|by apply Hcb|by eapply bytes_ok_rd_range|lia|].
    rewrite E1. exists 0, c1, (u8 (zlen str + 1)). split_and!; try done; apply u8_range.
Qed.

(** Updates of the configuration. *)
Ltac cfg_tac :=
  match goal with Hw : cfg_ok _ |- _ => destruct Hw as [[] ?] end;
  constructor; [constructor|..]; rsimpl; auto.

Section Safe.
Context `{!CfgEnv} (Henv : cfg_env_ok).
Notation fsafe m Q := (forall w, cfg_ok w -> wp m (fun r w' => Q r /\ cfg_ok w') graceful w).

Lemma suicide_graceful why w : graceful (HSuicide why) w.
Proof. done. Qed.
Lemma exit_graceful st w : graceful (HExit st) w.
Proof. done. Qed.
Hint Resolve suicide_graceful exit_graceful : core.

(** A byte written before the last of the buffer. *)
Lemma write_buf b i c : 0 <= i < MAX_BUF - 1 -> 0 <= c < 256 -> zlen b = MAX_BUF -> bytes_ok b = true ->
  rd b (MAX_BUF - 1) = Some 0 ->
  exists b', wr b i c = Some b' /\ zlen b' = MAX_BUF /\ bytes_ok b' = true /\ rd b' (MAX_BUF - 1) = Some 0.
Proof.
  intros Hi Hc Hl Hb He. exists (<[Z.to_nat i := c]> b). rewrite wr_Some by lia. split_and!; [done|..].
  - unfold zlen in *. by rewrite length_insert.
  - apply bytes_ok_Forall, Forall_insert; [by apply bytes_ok_Forall|done].
  - unfold rd, MAX_BUF in *. cbn [Z.leb Z.compare] in *. by rewrite list_lookup_insert_ne by lia.
Qed.
Lemma do_append_ok c ccfg : ccfg_ok ccfg -> 0 <= c < 256 -> fsafe (do_append c ccfg) ccfg_ok.
Proof.
  intros [Hl Hb Hn He] Hc w Hw. unfold do_append, sizeof_buf. destruct (_ <? _) eqn:E; [|by wp_run].
  destruct (write_buf (cbuf ccfg) (buflen ccfg) c) as (b & -> & ? & ? & ?); [lia|done..|].
  wp_run. split; [|done]. split; rsimpl; try done. lia.
Qed.
Lemma do_term_ok ccfg : ccfg_ok ccfg -> fsafe (do_term ccfg) ccfg_ok.
Proof.
  intros [Hl Hb Hn He] w Hw. unfold do_term, sizeof_buf. destruct (_ <? _) eqn:E; [|by wp_run].
  destruct (decide (buflen ccfg = MAX_BUF - 1)) as [Eb|Eb].
  - rewrite Eb, wr_Some by lia. wp_run. split; [|done].
    rewrite list_insert_id by (unfold rd in He; by cbn in He). split; rsimpl; try done.
  - destruct (write_buf (cbuf ccfg) (buflen ccfg) 0) as (b & -> & ? & ? & ?); [lia|lia|done..|].
    wp_run. split; [|done]. split; rsimpl; done.
Qed.
Lemma text_ok ccfg : ccfg_ok ccfg -> fsafe (text ccfg) (fun s => bytes_ok s = true /\ 0 ∉ s).
Proof.
  intros [Hl Hb Hn He] w Hw. unfold text.
  destruct (cstr_some (cbuf ccfg)) as [s Hs]; [by apply strlen_some; eapply rd_elem|].
  rewrite Hs. wp_run. split; [|done]. split; [by eapply cstr_bytes|].
  by apply cstr_inv in Hs as (rest & _ & ?).
Qed.
Lemma copy_to_ok get set ccfg : ccfg_ok ccfg ->
  (forall w a, cfg_ok w -> zlen a = zlen (get w) -> is_Some (strlen a) ->
     (bytes_ok (get w) = true -> bytes_ok a = true) -> cfg_ok (set a w)) ->
  fsafe (copy_to get set ccfg) (fun _ => True).
Proof.
  intros Hc Hset w Hw. unfold copy_to. wp_run. eapply wp_mono; [by apply text_ok|..|done]. intros s w1 [[Hs H0] Hw1].
  wp_run. destruct (copy_cmdarg _ s) as [a|] eqn:E; [|by wp_run]. wp_run.
  destruct (env_copies Henv _ _ _ H0 E) as (Hl & Ha & Hb). split; [done|]. apply Hset; [done|done| |auto].
  unfold cstr in Ha. destruct (strlen a); [eauto|done].
Qed.
Lemma with_text_ok (f : list Z -> cfg_world -> cfg_world) ccfg : ccfg_ok ccfg ->
  (forall s w, cfg_ok w -> cfg_ok (f s w)) ->
  fsafe (s ← text ccfg; modify (f s)) (fun _ => True).
Proof.
  intros Hc Hf w Hw. wp_run. eapply wp_mono; [by apply text_ok|..|done]. intros s w1 [Hs Hw1].
  wp_run. split; [done|by apply Hf].
Qed.
Lemma on_ternary_ok set ccfg : (forall b w, cfg_ok w -> cfg_ok (set b w)) -> fsafe (on_ternary set ccfg) (fun _ => True).
Proof.
  intros Hs w Hw. unfold on_ternary. destruct (_ =? 1); [|destruct (_ =? -1)]; wp_run; auto.
Qed.
Lemma lookup_user_ok set ccfg : ccfg_ok ccfg -> (forall ids w, cfg_ok w -> cfg_ok (set ids w)) ->
  fsafe (lookup_user set ccfg) (fun _ => True).
Proof.
  intros Hc Hs w Hw. unfold lookup_user. wp_run. eapply wp_mono; [by apply text_ok|..|done]. intros s w1 [_ Hw1].
  destruct (nk_uidgidbyname s); wp_run; auto.
Qed.

Lemma set_clientid_ok ccfg : ccfg_ok ccfg -> fsafe (set_clientid ccfg) (fun _ => True).
Proof.
  intros [Hl Hb Hn He] w Hw. unfold set_clientid, MAX_BUF in *.
  destruct (rd_range_Some (cbuf ccfg) 0 (buflen ccfg)) as (d & E & Hd); [lia..|]. rewrite E. wp_run.
  pose proof (co_clientid_len _ Hw). pose proof (co_config _ Hw) as [].
  destruct (get_clientid_string_ok (cf_config w) d) as (r & id & n & Eg & ? & ? & ?); [done|done| |done|].
  { by apply (bytes_ok_rd_range _ _ _ _ Hb E). }
  rewrite Eg. wp_run. split; [done|]. cfg_tac.
Qed.
Lemma set_gw_metric_ok ccfg : ccfg_ok ccfg -> fsafe (set_gw_metric ccfg) (fun _ => True).
Proof.
  intros Hc w Hw. unfold set_gw_metric. wp_run. eapply wp_mono; [by apply text_ok|..|done]. intros s w1 [_ Hw1].
  destruct (strtol10 s); [|by wp_run]. destruct (_ <? _); [by wp_run|]. unfold set_config. wp_run.
  split; [done|]. cfg_tac.
Qed.
Lemma order_probe_ok w : cfg_ok w -> cfg_ok (order_probe w).
Proof. intros Hw. unfold order_probe. destruct (_ <? _); [|done]. cfg_tac. Qed.

Definition cfgfile_safe (cfgfile : list Z -> FM unit) : Prop := forall s, fsafe (cfgfile s) (fun _ => True).
Lemma option_act_ok cfgfile o ccfg : cfgfile_safe cfgfile -> ccfg_ok ccfg ->
  fsafe (option_act cfgfile o ccfg) (fun _ => True).
Proof.
  intros Hf Hc. destruct o; cbn [option_act];
    try (apply on_ternary_ok; intros b w Hw; cfg_tac);
    try (apply lookup_user_ok; [done|]; intros ids w Hw; cfg_tac);
    try (apply with_text_ok; [done|]; intros s w Hw; try apply order_probe_ok; try destruct (_ <=? _); try done; cfg_tac);
    try (apply copy_to_ok; [done|]; intros w a Hw Hl Hn Hb;
         match goal with Hw : cfg_ok _ |- _ => destruct Hw as [[] ? [] [] [] []] end;
         constructor; [constructor|..]; rsimpl; try split; rsimpl; rewrite ?Hl; auto; lia).
  - intros w Hw. wp_run. eapply wp_mono; [by apply text_ok|..|done]. intros s w1 [_ Hw1]. by apply Hf.
  - by apply set_clientid_ok.
  - intros w Hw. wp_run. apply copy_to_ok; [done| |cfg_tac].
    intros w1 a Hw1 Hl Hn Hb. pose proof (co_pidfile _ Hw1) as []. cfg_tac. split; [by rewrite Hl|done].
  - intros w Hw. by wp_run.
  - by apply set_gw_metric_ok.
  - intros w Hw. by wp_run.
  - intros w Hw. by wp_run.
Qed.

Lemma cfg_act_ok cfgfile input x p ccfg w :
  cfgfile_safe cfgfile -> bytes_ok input = true -> (x = AAppend -> 0 <= p < zlen input) -> ccfg_ok ccfg -> cfg_ok w ->
  wp (cfg_act cfgfile input x p ccfg)
     (fun r w' => match r with inl e => match e : Empty_set with end | inr c => ccfg_ok c /\ cfg_ok w' end) graceful w.
Proof.
  intros Hf Hi Hp Hc Hw. destruct x; cbn [cfg_act].
  - wp_run. split; [apply no_ccfg_ok|done].
  - destruct (rd_Some input p (Hp eq_refl)) as (c & -> & Hin). wp_run. apply (bytes_ok_elem _ _ Hi) in Hin.
    eapply wp_mono; [by apply do_append_ok|..|done]. intros c' w' ?. by wp_run.
  - wp_run. eapply wp_mono; [by apply do_term_ok|..|done]. intros c' w' ?. by wp_run.
  - wp_run. destruct Hc. by split.
  - wp_run. destruct Hc. by split.
  - wp_run. destruct Hc. by split.
  - wp_run. eapply wp_mono; [by apply option_act_ok|..|done]. intros [] w' [_ ?]. by wp_run.
Qed.

Lemma exec_line_ok input ccfg : bytes_ok input = true -> ccfg_ok ccfg -> fsafe (exec_line input ccfg) ccfg_ok.
Proof.
  intros Hi Hc w Hw. unfold exec_line. wp_run.
  eapply wp_mono; [apply (exec_inv _ (fun _ => True) (fun c w => ccfg_ok c /\ cfg_ok w)
    (fun e w => match e : Empty_set with end) graceful 0 (zlen input)); try done| |done].
  - intros x p c w' Hp [? ?]. by apply cfg_act_ok.
  - by apply Forall_true.
  - intros [[]|[[rs p'] c]] w' [_ [Hc' Hw']]. destruct rs; [by wp_run|]. destruct (final_any _); by wp_run.
Qed.

Lemma rd_range_ok l i n : bytes_ok l = true -> 0 <= i -> 0 <= n -> i + n <= zlen l ->
  exists d, rd_range l i n = Some d /\ zlen d = n /\ bytes_ok d = true.
Proof.
  intros Hl Hi Hn Hb. destruct (rd_range_Some l i n) as (d & E & Hd); [done..|]. exists d.
  split_and!; [done..|]. by eapply bytes_ok_rd_range.
Qed.
Lemma scan_lines_ok n l : bytes_ok l = true -> forall lstart lend consumed ccfg,
  0 <= lstart <= lend -> 0 <= consumed <= lend -> lend + Z.of_nat n <= zlen l -> ccfg_ok ccfg ->
  fsafe (scan_lines n l lstart lend consumed ccfg)
        (fun r => ccfg_ok r.2 /\ (0 <= r.1 < lend + Z.of_nat n \/ r.1 = consumed)).
Proof.
  intros Hl. induction n as [|n IH]; intros lstart lend consumed ccfg Hs Hc Hn Hcc w Hw; cbn [scan_lines].
  { wp_run. auto. }
  destruct (rd_Some l lend) as (x & -> & _); [lia|]. wp_run. destruct (x =? 10).
  - destruct (rd_range_ok l lstart (lend - lstart + 1)) as (d & -> & _ & Hd); [done|lia..|]. wp_run.
    eapply wp_mono; [by apply exec_line_ok|..|done]. intros c w1 [Hc1 Hw1].
    eapply wp_mono; [apply IH; [lia..|done|done]| |done]. intros r w2 [[? ?] ?]. split_and!; [done|lia|done].
  - eapply wp_mono; [apply IH; [lia..|done|done]| |done]. intros r w2 [[? ?] ?]. split_and!; [done|lia|done].
Qed.

Lemma cfgfile_loop_ok fuel file : forall k rest l lc ccfg,
  (length rest < fuel)%nat -> bytes_ok rest = true -> bytes_ok l = true -> zlen l = MAX_BUF -> 0 <= lc <= MAX_BUF - 1 ->
  ccfg_ok ccfg -> fsafe (cfgfile_loop fuel file k rest l lc ccfg) (fun _ => True).
Proof.
  induction fuel as [|fuel IH]; intros k rest l lc ccfg Hf Hr Hl Hz Hlc Hc w Hw; [lia|].
  cbn [cfgfile_loop]. unfold sizeof_l, MAX_BUF in *. destruct (1024 <=? lc + 1) eqn:E1; [by wp_run|].
  unfold cfg_safe_read. destruct (cf_read file k <? 0); [by wp_run|].
  set (data := take _ rest).
  assert (Hd : bytes_ok data = true) by by apply bytes_ok_take.
  assert (Hdl : 0 <= zlen data <= 1024 - 1 - lc) by (subst data; unfold zlen; rewrite length_take; lia).
  assert (Hdr : (length data <= length rest)%nat) by (subst data; rewrite length_take; lia).
  replace (zlen data <? 0) with false by lia.
  assert (Hw1 : exists l', (if zlen data =? 0 then wr l lc 10 else wr_range l lc data) = Some l' /\
    bytes_ok l' = true /\ zlen l' = 1024).
  { destruct (zlen data =? 0).
    - destruct (wr l lc 10) as [l'|] eqn:E; [|rewrite wr_Some in E by lia; done]. exists l'.
      split_and!; [done|by eapply wr_bytes|by rewrite (wr_len _ _ _ _ E)].
    - destruct (wr_range l lc data) as [l'|] eqn:E; [|rewrite wr_range_Some in E by lia; done]. exists l'.
      split_and!; [done|by eapply wr_range_bytes|by rewrite (wr_range_len _ _ _ _ E)]. }
  destruct Hw1 as (l' & -> & Hl' & Hz'). wp_run.
  set (lc' := lc + _). assert (Hlc' : 0 < lc' <= 1023) by (subst lc'; destruct (zlen data =? 0) eqn:?; lia).
  eapply wp_mono; [apply (scan_lines_ok (Z.to_nat lc') l' Hl'); try done; lia| |done].
  intros [consumed c] w1 [[Hc1 Hcon] Hw1]. cbn [fst snd] in *. destruct (zlen data =? 0) eqn:E2; [by wp_run|].
  destruct ((consumed =? 0) && _); [by wp_run|]. replace (lc' <? consumed + 1) with false by lia.
  assert (Hrest : (length (drop (length data) rest) < fuel)%nat).
  { rewrite length_drop. unfold zlen in E2. lia. }
  assert (Hrb : bytes_ok (drop (length data) rest) = true) by by apply bytes_ok_drop.
  destruct (consumed =? 0) eqn:E3; cbn [negb].
  - apply IH; try done; lia.
  - destruct (rd_range_ok l' (consumed + 1) (lc' - consumed - 1)) as (m & -> & Hm & Hmb); [done|lia..|]. wp_run.
    destruct (wr_range l' 0 m) as [l2|] eqn:E; [|rewrite wr_range_Some in E by lia; done]. wp_run.
    apply IH; try done; [by eapply wr_range_bytes|by rewrite (wr_range_len _ _ _ _ E)|lia].
Qed.

Lemma parse_cfgfile_ok : cfgfile_safe parse_cfgfile.
Proof.
  intros fname w Hw. unfold parse_cfgfile. wp_run. destruct (cf_open _ fname) as [content|] eqn:E; [|by wp_run].
  wp_run. apply cfgfile_loop_ok; [lia|by eapply (env_files Henv)|by vm_compute..|apply no_ccfg_ok|cfg_tac].
Qed.

(** At the end of the arguments no character is appended. *)
Definition appends (x : cfg_action) : bool := bool_decide (x = AAppend).
Lemma cmd_ends_without_append : leaves_unmarked appends cmd_cfg = true.
Proof. by vm_compute. Qed.
Lemma eof_without_append (rs : list (ragel cfg_action)) x :
  Forall (fun r => leaves_unmarked appends r = true) rs -> x ∈ eof_actions rs -> x <> AAppend.
Proof.
  unfold eof_actions. rewrite elem_of_uniq, Forall_forall.
  intros Hrs (r & (la & Hx & Hla)%list_elem_of_bind & Hr)%list_elem_of_bind.
  pose proof (leaves_unmarked_leave _ _ _ (Hrs r Hr) Hla) as Hno. unfold no_mark in Hno.
  rewrite Forall_forall in Hno. specialize (Hno x Hx). unfold appends in Hno. by apply bool_decide_eq_false in Hno.
Qed.

Lemma exec_cmdline_ok input : bytes_ok input = true -> fsafe (exec_cmdline input) (fun _ => True).
Proof.
  intros Hi w Hw. unfold exec_cmdline. wp_run.
  eapply wp_mono; [apply (exec_inv _ (fun r => leaves_unmarked appends r = true) (fun c w => ccfg_ok c /\ cfg_ok w)
    (fun e w => match e : Empty_set with end) graceful 0 (zlen input))| |done].
  - intros r c t. apply leaves_unmarked_deriv.
  - intros x p c w' Hp [? ?]. apply cfg_act_ok; [apply parse_cfgfile_ok|done..].
  - done.
  - done.
  - by repeat constructor.
  - split; [apply no_ccfg_ok|done].
  - intros [[]|[[rs p] c]] w' (Hq & Hc & Hw'). wp_run.
    assert (Hend : wp (if p =? zlen input then run_actions (cfg_act parse_cfgfile input) (eof_actions rs) p c
      else mret (inr c)) (fun _ w' => cfg_ok w') graceful w').
    { destruct (p =? zlen input); [|by wp_run].
      assert (Hx : forall x, x ∈ eof_actions rs -> x <> AAppend) by by intros x; apply eof_without_append.
      revert c Hc w' Hw'. induction (eof_actions rs) as [|x xs IH]; intros c Hc w' Hw'; cbn [run_actions]; [by wp_run|].
      wp_run. eapply wp_mono; [apply cfg_act_ok; [apply parse_cfgfile_ok|done| |done..]| |done].
      - intros ->. by destruct (Hx AAppend (list_elem_of_here _ _)).
      - intros [[]|c1] w1 [? ?]. apply IH; [|done..]. intros y Hy. apply Hx. by right. }
    eapply wp_mono; [exact Hend| |done]. intros ? w1 Hw1. destruct rs; [by wp_run|]. destruct (final_any _); by wp_run.
Qed.
End Safe.

(** * Properties *)

(** Whatever the arguments, as long as they fit into 8192 bytes, and whatever the
    configuration files: [parse_cmdline] never leaves its arrays or the loop over a
    file's pieces, and when it returns, the variables it sets are well formed: the
    configuration's strings end in their arrays and every array keeps its size. *)
Theorem parse_cmdline_defined `{!CfgEnv} (argv : list (list Z)) (w : cfg_world) :
  cfg_env_ok -> Forall (fun a => bytes_ok a = true) argv -> zlen (argb_text argv) <= sizeof_argb -> cfg_ok w ->
  wp (parse_cmdline argv) (fun _ w' => cfg_ok w') (fun h _ => h <> HUndef /\ h <> HFuel) w.
Proof.
  intros Henv Hb Hl Hw. destruct (decide (argv = [] \/ argv = [[]])) as [[-> | ->]|Hne].
  - by apply (wp_eq _ (mret tt)).
  - by apply (wp_eq _ (mret tt)).
  - destruct argv as [|a argv]; [naive_solver|]. eapply wp_eq; [apply parse_cmdline_fits; [|exact Hl]|].
    { destruct a; [|by left]. destruct argv; [naive_solver|by right]. }
    eapply wp_mono; [apply (exec_cmdline_ok Henv); [|done]|by intros [] w' [_ ?]|done].
    apply bytes_ok_Forall, Forall_bind. eapply Forall_impl; [exact Hb|]. intros l Hlb.
    apply Forall_app. split; [by apply bytes_ok_Forall|by repeat constructor].
Qed.

Lemma initial_cfg_ok d : cfg_ok (initial_cfg d).
Proof.
  assert (Hp : path_ok no_path) by (split; [by vm_compute|by eexists; vm_compute]).
  constructor; try exact Hp; cbn; try lia.
  - constructor; try (by vm_compute); try lia; eexists; by vm_compute.
  - split; [by vm_compute|eexists; by vm_compute].
Qed.
Lemma sample_cfg_env_ok content : bytes_ok content = true -> @cfg_env_ok (sample_cfg_env content).
Proof.
  intros Hc. split.
  - intros old s a H0. cbn. destruct (_ <? _) eqn:E; [|done]. intros [= <-]. split_and!.
    + rewrite zlen_app, zlen_cons. unfold zlen in *. rewrite length_drop. lia.
    + by apply cstr_string.
    + intros Ho Hs. by rewrite bytes_ok_app, Hs, bytes_ok_cons, bytes_ok_drop.
  - intros n fname c. cbn. destruct (bytes_eqb _ _); [|done]. by intros [= <-].
Qed.
Lemma parse_cmdline_defined_witness :
  let E := sample_cfg_env (text_of sample_lines) in
  let argv := [chars "-c"; chars "ndhc.conf"; chars "--nonsense"] in
  cfg_env_ok /\
  wp (parse_cmdline argv) (fun _ w' => cfg_ok w') (fun h _ => h <> HUndef /\ h <> HFuel) (initial_cfg false) /\
  fst (parse_cmdline argv (initial_cfg false)) = Halt (HSuicide "error parsing command line option: malformed").
Proof.
  intros E argv. assert (HE : @cfg_env_ok E) by by apply sample_cfg_env_ok. split_and!; [done| |by vm_compute].
  apply (parse_cmdline_defined argv (initial_cfg false) HE); [|by vm_compute|apply initial_cfg_ok].
  repeat constructor; by vm_compute.
Defined.
