(* ===== verification/Startup.v ===== *)
(** How the program starts ([ndhc.c: main], [ndhc_main]) and becomes three processes
    ([ifchd.c: ifch_main], [sockd.c: sockd_main]), with the one-time operations of
    [netlink.c], [nl.c], [rfkill.c] and [leasefile.c].

    [boot] holds the global variables of the whole program.  The components' states are
    parts of it; [lift] runs an operation of a component on its part.  A variable that
    several components use, such as [client_config], is copied to the part before and
    back after.  [fork] yields what the environment says: a theorem about every
    environment is about the parent and both children. *)

From stdpp Require Import gmap.
From S2P Require Import Prelude Types Options World Samples Ipc Ifchange Nl Netlink Ndhc Duiaid Cfg Ifset Bpf Sockd.
From S2P Require Import Ifchd Ragel Ifchparse Subproc.

(** * State *)

Inductive boot_action :=
| BSocket | BClose (fd : Z)
| BOpenLease (path : list Z)
| BFork (parent : bool)
| BChroot (dir : list Z) | BSetIds (ids : Z * Z).

Record boot := mk_boot {
  b_world : World;                     (** what ndhc-master keeps using *)
  b_cfg : cfg_world;                   (** the options' variables *)
  b_duiaid : duiaid_world;             (** the files of the state directory *)
  b_ifch : ifch_world;                 (** the variables of [ifchd.c] and [ifset.c] *)
  b_sockd : sockd_world;               (** the variables of [sockd.c] *)
  b_ifchSock1 : Z; b_ifchStream1 : Z;  (** [ifchSock[1]], [ifchStream[1]] *)
  b_sockdSock1 : Z; b_sockdStream1 : Z;
  b_signalFd : Z;                      (** the children's [signalFd] *)
  b_tick : nat;
  b_trace : list boot_action
}.
#[export] Instance boot_eta : Eta boot := fun r =>
  mk_boot (b_world r) (b_cfg r) (b_duiaid r) (b_ifch r) (b_sockd r) (b_ifchSock1 r) (b_ifchStream1 r)
    (b_sockdSock1 r) (b_sockdStream1 r) (b_signalFd r) (b_tick r) (b_trace r).
Notation BM := (St boot).

(** The variables as the program text initialises them; [fs] are the files there are,
    [detach] is ncmlib's [gflags_detach]. *)
Definition initial_boot (detach : bool) (fs : gmap (list Z) (list Z)) : boot := {|
  b_world := {|
    cs := initial_cs <| nlFd := -1 |>; client_config := initial_config; garp := initial_garp;
    arp_probe_wait := 1000; arp_probe_num := 3; arp_probe_min := 1000; arp_probe_max := 2000;
    cfg_packet := dhcpmsg_zero; leasefilefd := -1; ifchStream0 := 0; sockdStream0 := 0;
    write_pid_enabled := false; background_called := false; rfkill_set := false;
    rfkill_nl_carrier_wentup := false; scrLine := SCR_START; tick := 0; trace := [] |};
  b_cfg := initial_cfg detach;
  b_duiaid := mk_duiaid_world initial_config fs 0 0;
  b_ifch := {|
    cl := {| cl_state := STATE_NOTHING; ibuf := zeros (Z.to_nat MAX_BUF);
             namesvrs := zeros (Z.to_nat MAX_BUF); domains := zeros (Z.to_nat MAX_BUF) |};
    resolv_conf_fd := -1; resolv_conf_head_fd := -1; resolv_conf_tail_fd := -1; allow_hostname := false;
    Ifchd.files := ∅; ifset := {| if_config := initial_config; ifset_nl_seq := 1; if_tick := 0; if_trace := [] |};
    ch_tick := 0; ch_trace := [] |};
  b_sockd := {| sk_buf := zeros (Z.to_nat MAX_BUF); sk_buflen := 0; sk_config := initial_config; sk_tick := 0; sk_trace := [] |};
  b_ifchSock1 := 0; b_ifchStream1 := 0; b_sockdSock1 := 0; b_sockdStream1 := 0; b_signalFd := 0;
  b_tick := 0; b_trace := []
|}.

Inductive poll_reply := PollReady | PollNone | PollIntr | PollFails.
Inductive setpgid_reply := PgDone | PgEperm | PgFails.

Class BootEnv := {
  be_world :: Env; be_cfg :: CfgEnv; be_ifch :: IfchEnv; be_sockd :: SockdEnv;
  be_id_random : nat -> Z;             (** the answers for [duiaid.c] *)
  be_id_open : nat -> bool; be_id_read : nat -> Z -> Z; be_id_write : nat -> Z -> Z;
  be_getuid : nat -> Z;
  be_stat : nat -> option bool;        (** is it a directory; [None]: [stat] fails *)
  be_open : nat -> Z;                  (** [open], [socket], [epoll_create1], [signalfd] *)
  be_call : nat -> Z;                  (** [bind], [epoll_ctl], [sigprocmask] *)
  be_getsockname : nat -> option (Z * Z * Z);  (** address length, family, port id *)
  be_clock : nat -> option Z;          (** CLOCK_REALTIME: the nanoseconds *)
  be_poll : nat -> poll_reply;
  be_setpgid : nat -> setpgid_reply;
  be_socketpair : nat -> option (Z * Z);
  be_fork : nat -> Z;
  be_confine : nat -> bool;            (** [nk_set_chroot], [nk_set_uidgid] return *)
  be_content : nat -> list Z;          (** content of an opened resolv.conf *)
  be_wait : nat -> wait_reply; be_siginfo : nat -> read_reply
}.

(** Running a component's operation on its part. *)
Definition lift {S A} (get : boot -> S) (put : S -> boot -> boot) (m : St S A) : BM A := fun b =>
  match m (get b) with (r, s) => (r, put s b) end.

Section Startup.
Context `{!BootEnv}.

Definition bask {A} (f : nat -> A) : BM A :=
  t ← gets b_tick; modify (fun b => b <| b_tick ::= S |>);; mret (f t).
Definition bemit (a : boot_action) : BM unit := modify (fun b => b <| b_trace ::= cons a |>).
Definition bclose (fd : Z) : BM unit := bemit (BClose fd).

Definition config_of (b : boot) : client_config_t := client_config (b_world b).
Definition put_config (cc : client_config_t) (b : boot) : boot :=
  b <| b_world ::= fun w => w <| client_config := cc |> |>.

Definition in_world {A} : M A -> BM A := lift b_world (fun w b => b <| b_world := w |>).
(** The option parser writes to the variables of the other components. *)
Definition cfg_part (b : boot) : cfg_world :=
  let w := b_world b in
  ((((((b_cfg b) <| cf_config := client_config w |> <| cf_clientAddr := clientAddr (cs w) |>)
     <| cf_relentless := relentless_def (garp w) |>)
    <| cf_probe_wait := arp_probe_wait w |> <| cf_probe_num := arp_probe_num w |>)
   <| cf_probe_min := arp_probe_min w |> <| cf_probe_max := arp_probe_max w |>)
  <| cf_write_pid := write_pid_enabled w |> <| cf_allow_hostname := allow_hostname (b_ifch b) |>).
Definition put_cfg (c : cfg_world) (b : boot) : boot :=
  ((b <| b_cfg := c |>)
   <| b_world ::= fun w =>
      ((((((w <| client_config := cf_config c |>)
        <| cs ::= fun s => s <| clientAddr := cf_clientAddr c |> |>)
       <| garp ::= fun g => g <| relentless_def := cf_relentless c |> |>)
      <| arp_probe_wait := cf_probe_wait c |> <| arp_probe_num := cf_probe_num c |>)
     <| arp_probe_min := cf_probe_min c |> <| arp_probe_max := cf_probe_max c |>)
    <| write_pid_enabled := cf_write_pid c |>) |>)
  <| b_ifch ::= fun i => i <| allow_hostname := cf_allow_hostname c |> |>.
Definition in_cfg {A} : FM A -> BM A := lift cfg_part put_cfg.
Definition in_ifset {A} : IM A -> BM A :=
  lift (fun b => (ifset (b_ifch b)) <| if_config := config_of b |>)
       (fun s b => b <| b_ifch ::= fun i => i <| ifset := s |> |>).
Definition in_duiaid {A} : DM A -> BM A :=
  lift (fun b => (b_duiaid b) <| dw_config := config_of b |>)
       (fun d b => put_config (dw_config d) (b <| b_duiaid := d |>)).
Definition in_ifch {A} : CM A -> BM A :=
  lift (fun b => (b_ifch b) <| ifset ::= fun s => s <| if_config := config_of b |> |>)
       (fun i b => b <| b_ifch := i |>).
Definition in_sockd {A} : SM A -> BM A :=
  lift (fun b => (b_sockd b) <| sk_config := config_of b |>) (fun s b => b <| b_sockd := s |>).

(** The string in one of the path arrays. *)
Definition path_of (get : cfg_world -> list Z) : BM (list Z) := a ← gets (fun b => get (b_cfg b)); ub (cstr a).

(** * One-time operations of the components *)

(** [rfkill.c] *)
Definition rfkill_open : BM Z :=
  cc ← gets config_of;
  if negb (enable_rfkill cc) then mret (-1)
  else
    r ← bask be_open;
    (if r <? 0 then modify (put_config (cc <| enable_rfkill := false |>)) else mret tt);;
    mret r.

(** [nl.c]: the descriptor and the port id. *)
Definition AF_NETLINK : Z := 16.
Definition sizeof_sockaddr_nl : Z := 12.
Definition nl_open : BM (Z * Z) :=
  bemit BSocket;;
  fd ← bask be_open;
  if fd <? 0 then mret (-1, 0)
  else
    r ← bask be_call;
    if r <? 0 then bclose fd;; mret (-1, 0)
    else
      a ← bask be_getsockname;
      match a with
      | None => bclose fd;; mret (-1, 0)
      | Some (al, family, pid) =>
        if negb (al =? sizeof_sockaddr_nl) then bclose fd;; mret (-1, 0)
        else if negb (family =? AF_NETLINK) then bclose fd;; mret (-1, 0)
        else mret (fd, pid)
      end.

(** [netlink.c]: the loop over [poll] runs again while it returns 0; [n] bounds how
    often. *)
Fixpoint getifdata_poll (n : nat) (fd seq ret : Z) : BM Z :=
  match n with
  | O => fatal HFuel
  | S n =>
    pr ← bask be_poll;
    match pr with
    | PollReady => in_world (handle_getifdata fd seq)
    | PollNone => getifdata_poll n fd seq ret
    | PollIntr | PollFails => mret ret
    end
  end.
Definition nl_getifdata (n : nat) : BM Z :=
  bemit BSocket;;
  fd ← bask be_open;
  if fd <? 0 then mret (-1)
  else
    ts ← bask be_clock;
    match ts with
    | None => bclose fd;; mret (-1)
    | Some nsec =>
      let seq := u32 nsec in
      r ← in_world (nl_sendgetlinks fd seq);
      if negb (r =? 0) then bclose fd;; mret (-1)
      else ret ← getifdata_poll n fd seq (-1); bclose fd;; mret ret
    end.

(** [leasefile.c] *)
Definition get_leasefile_path (dlen : Z) : BM (list Z) :=
  dir ← path_of cf_state_dir;
  ifname ← gets (fun b => interface (config_of b)); ifname ← ub (cstr ifname);
  let s := dir ++ chars "/LEASE-" ++ ifname in
  if dlen <=? zlen s then suicide "get_leasefile_path: snprintf dest buffer too small" else mret s.
Definition open_leasefile : BM unit :=
  p ← get_leasefile_path PATH_MAX;
  fd ← bask be_open;
  bemit (BOpenLease p);;
  modify (fun b => b <| b_world ::= fun w => w <| leasefilefd := fd |> |>);;
  if fd <? 0 then suicide "Failed to create lease file" else mret tt.

(** * Privileges and processes *)

Definition set_chroot : BM unit :=
  dir ← path_of cf_chroot_dir;
  ok ← bask be_confine;
  if ok : bool then
    bemit (BChroot dir);;
    modify (fun b => b <| b_cfg ::= fun c => c <| cf_chroot_dir := no_path |> |>)
  else suicide "nk_set_chroot".
Definition set_ids (get : cfg_world -> Z * Z) : BM unit :=
  ids ← gets (fun b => get (b_cfg b));
  ok ← bask be_confine;
  if ok : bool then bemit (BSetIds ids) else suicide "nk_set_uidgid".

(** [fail_if_state_dir_dne] *)
Definition fail_if_state_dir_dne : BM unit :=
  dir ← path_of cf_state_dir;
  if zlen dir =? 0 then suicide "state_dir path is empty; it must be specified"
  else
    st ← bask be_stat;
    match st with
    | None => suicide "failed to stat state_dir path"
    | Some isdir => if isdir : bool then mret tt else suicide "state_dir path does not specify a directory"
    end.

(** The calls of a child's loop; its descriptors are those of [boot]. *)
Definition subproc_env (sock stream signal : Z) : SubprocEnv := {|
  sp_sock := sock; sp_stream := stream; sp_signal := signal;
  sp_epoll_create := be_open; sp_epoll_ctl := be_call; sp_wait := be_wait; sp_siginfo := be_siginfo
|}.
Definition child_signals : BM unit :=
  fd ← setup_signals_subprocess (bask be_call) (bask be_open);
  modify (fun b => b <| b_signalFd := fd |>).

(** [n] iterations of the child's loop. *)
Definition ifch_main (n : nat) : BM unit :=
  child_signals;;
  dir ← path_of cf_resolv_conf_d;
  in_ifch (setup_resolv_conf be_open be_content dir);;
  modify (fun b => b <| b_cfg ::= fun c => c <| cf_resolv_conf_d := no_path |> |>);;
  set_chroot;;
  set_ids cf_ifch_user;;
  b ← gets id;
  in_ifch (do_ifch_work (H := subproc_env (b_ifchSock1 b) (b_ifchStream1 b) (b_signalFd b)) n).
Definition sockd_main (n : nat) : BM unit :=
  child_signals;;
  set_chroot;;
  set_ids cf_sockd_user;;
  b ← gets id;
  in_sockd (do_sockd_work (H := subproc_env (b_sockdSock1 b) (b_sockdStream1 b) (b_signalFd b)) n).

(** Both pairs of a helper: the request sockets and the stream that shows a death. *)
Definition socketpair2 : BM ((Z * Z) * (Z * Z)) :=
  sock ← bask be_socketpair;
  match sock with
  | None => suicide "FATAL - can't create socket"
  | Some sock =>
    stream ← bask be_socketpair;
    match stream with
    | None => suicide "FATAL - can't create socket"
    | Some stream => mret (sock, stream)
    end
  end.
Definition create_ifch_ipc_sockets : BM (Z * Z) :=
  p ← socketpair2;
  let '((s0, s1), (t0, t1)) := p in
  modify (fun b => (b <| b_world ::= fun w => w <| ifchStream0 := t0 |> |>) <| b_ifchSock1 := s1 |> <| b_ifchStream1 := t1 |>);;
  mret (s0, t0).
Definition create_sockd_ipc_sockets : BM (Z * Z) :=
  p ← socketpair2;
  let '((s0, s1), (t0, t1)) := p in
  modify (fun b => (b <| b_world ::= fun w => w <| sockdStream0 := t0 |> |>) <| b_sockdSock1 := s1 |> <| b_sockdStream1 := t1 |>);;
  mret (s0, t0).

(** A child runs its loop and never comes back; after [n] iterations it still runs. *)
Definition fork_child (ends : Z * Z) (other_ends : boot -> Z * Z) (child : BM unit) : BM unit :=
  pid ← bask be_fork;
  if pid =? 0 then
    bemit (BFork false);;
    bclose ends.1;; bclose ends.2;;
    child;; fatal HFuel
  else if 0 <? pid then
    bemit (BFork true);;
    o ← gets other_ends;
    bclose o.1;; bclose o.2
  else suicide "failed to fork".
Definition spawn_ifch (n : nat) : BM unit :=
  ends ← create_ifch_ipc_sockets;
  fork_child ends (fun b => (b_ifchSock1 b, b_ifchStream1 b)) (ifch_main n).
Definition spawn_sockd (n : nat) : BM unit :=
  ends ← create_sockd_ipc_sockets;
  fork_child ends (fun b => (b_sockdSock1 b, b_sockdStream1 b)) (sockd_main n).

(** * The interface *)

(** The [for (;;)] loop of [wait_for_rfkill], [n] times at most; [false] when the
    interface is up. *)
Fixpoint rfkill_events (fd : Z) (l : list epoll_event) : BM bool :=
  match l with
  | [] => mret true
  | e :: l =>
    if negb (ev_fd e =? fd) then suicide "epoll_wait: unknown fd"
    else if ev_in e then
      rfk ← in_world (rfkill_get false 0);
      if rfk =? RFK_DISABLED then
        r ← in_ifset perform_ifup;
        if (r =? 1) || (r =? 0) then mret false
        else if r =? -3 then rfkill_events fd l
        else suicide "failed to set the interface to up state"
      else rfkill_events fd l
    else rfkill_events fd l
  end.
Fixpoint rfkill_loop (n : nat) (fd : Z) : BM unit :=
  match n with
  | O => fatal HFuel
  | S n =>
    r ← bask be_wait;
    match r with
    | WIntr => rfkill_loop n fd
    | WFails => suicide "epoll_wait failed"
    | WEvents l =>
      l ← ub (epoll_store 2 2 l);
      more ← rfkill_events fd l;
      if more : bool then rfkill_loop n fd else mret tt
    end
  end.
Definition set_rfkillFd (fd : Z) : BM unit := in_world (set_cs (fun s => s <| rfkillFd := fd |>)).
Definition wait_for_rfkill (n : nat) : BM unit :=
  fd ← rfkill_open;
  set_rfkillFd fd;;
  if fd <? 0 then suicide "can't wait for rfkill to end if /dev/rfkill can't be opened"
  else
    epfd ← bask be_open;
    if epfd <? 0 then suicide "epoll_create1 failed"
    else
      in_world (epoll_add fd);;
      rfkill_loop n fd;;
      bclose epfd;;
      bclose fd;;
      set_rfkillFd (-1).

(** * The master *)

(** [ndhc_main] up to the deconfiguration of an interface without carrier. *)
Definition ndhc_main_start : BM unit :=
  p ← nl_open;
  in_world (set_cs (fun s => s <| nlFd := p.1 |>));;
  (if p.1 <? 0 then suicide "ndhc_main: failed to open netlink socket"
   else in_world (set_cs (fun s => s <| nlPortId := p.2 |>)));;
  fd ← rfkill_open;
  set_rfkillFd fd;;
  w ← gets b_world;
  (if write_pid_enabled w && negb (background_if_no_lease (client_config w)) then in_world (emit AWritePid) else mret tt);;
  open_leasefile;;
  set_chroot;;
  set_ids cf_ndhc_user.
Definition ndhc_main (n : nat) : BM loop_state := ndhc_main_start;; in_world (ndhc_main_tail n).

(** [main] until the interface is up: [n] bounds the loops that other processes end. *)
Definition main_setup (n : nat) (argv : list (list Z)) : BM unit :=
  in_cfg (parse_cmdline argv);;
  uid ← bask be_getuid;
  if negb (uid =? 0) then suicide "I need to be started as root."
  else
    chroot ← path_of cf_chroot_dir;
    if zlen chroot =? 0 then suicide "No chroot path is specified.  Refusing to run."
    else
      fail_if_state_dir_dne;;
      r ← nl_getifdata n;
      if r <? 0 then suicide "failed to get interface MAC or index"
      else
        dir ← path_of cf_state_dir;
        in_duiaid (get_clientid (H := {| state_dir := dir; de_random := be_id_random; de_open := be_id_open;
                                         de_read := be_id_read; de_write := be_id_write |}));;
        up ← in_ifset perform_ifup;
        (if (up =? 1) || (up =? 0) then mret tt
         else if up =? -3 then wait_for_rfkill n
         else suicide "failed to set the interface to up state");;
        pg ← bask be_setpgid;
        match pg with PgFails => suicide "setpgid failed" | _ => mret tt end.

(** The program, [n] iterations of the main loop long. *)
Definition main (n : nat) (argv : list (list Z)) : BM loop_state :=
  main_setup n argv;;
  spawn_ifch n;;
  spawn_sockd n;;
  ndhc_main n.
End Startup.
