(* ===== verification/Startsafe.v ===== *)
(** The whole program, from the command line to the main loop of each of its three
    processes, never leaves an array: the composition of the components' theorems.

    [fork] answers what the environment says, so the one theorem is about the master
    and both helpers. *)

From stdpp Require Import gmap.
From S2P Require Import Prelude Types World Samples Ipc Ifchange Nl Nlmsg Netlink Ndhc Duiaid Cfg Cfgread Cfgcmd Cfgsafe Ifset Bpf Sockd.
From S2P Require Import Ifaddr Ifsafe Ifchd Ragel Ifchparse Ifcmd Ifchsafe Subproc Linkdata Startup.

(** * What is relied on, and what is kept *)

(** The environment's promises: ncmlib's helpers and the kernel's netlink datagrams. *)
Record boot_env_ok `{!BootEnv} : Prop := {
  beo_world : env_ok be_world;
  beo_cfg : cfg_env_ok;
  beo_kernel : kernel_ok;
  beo_links : links_ok
}.

(** The variables before the command line is read. *)
Record boot_start (b : boot) : Prop := {
  bs_cfg : cfg_ok (cfg_part b);
  bs_dhcp_packet : opt_bufs_ok (dhcp_packet (garp (b_world b)));
  bs_cfg_packet : opt_bufs_ok (cfg_packet (b_world b));
  bs_seq : ifset_ok (ifset (b_ifch b));
  bs_sk_buf : zlen (sk_buf (b_sockd b)) = MAX_BUF;
  bs_sk_buflen : 0 <= sk_buflen (b_sockd b) <= MAX_BUF;
  bs_files : files_bytes (b_duiaid b)
}.
(** The variables once it is read. *)
Record boot_ok (b : boot) : Prop := {
  bo_world : world_ok (b_world b);
  bo_state_dir : path_ok (cf_state_dir (b_cfg b));
  bo_chroot_dir : path_ok (cf_chroot_dir (b_cfg b));
  bo_resolv_conf_d : path_ok (cf_resolv_conf_d (b_cfg b));
  bo_seq : ifset_ok (ifset (b_ifch b));
  bo_sk_buf : zlen (sk_buf (b_sockd b)) = MAX_BUF;
  bo_sk_buflen : 0 <= sk_buflen (b_sockd b) <= MAX_BUF;
  bo_files : files_bytes (b_duiaid b)
}.

(** The helper that runs has just called [epoll_wait], which answered more events than
    its array [events] has room for. *)
Definition crowded `{!BootEnv} (b : boot) : Prop :=
  exists t l, (ch_tick (b_ifch b) = S t \/ sk_tick (b_sockd b) = S t) /\ be_wait t = WEvents l /\ (2 < length l)%nat.
(** The process has not gone wrong: it has ended by itself, or still runs; else it has
    written behind [events]. *)
Definition defined `{!BootEnv} (h : halt) (b : boot) : Prop := h = HUndef -> crowded b.
Lemma or_overfull_defined `{!BootEnv} {S} (now : S -> nat) (K : halt -> S -> Prop) sock stream sig h (w : S) b :
  (K h w -> h <> HUndef) -> now w = ch_tick (b_ifch b) \/ now w = sk_tick (b_sockd b) ->
  or_overfull (H := subproc_env sock stream sig) now K h w -> defined h b.
Proof.
  intros HK Hnow [Hk|[-> (t & Ht & l & Hl)]] Hh; [by apply HK in Hk|]. exists t, l. split; [|exact Hl].
  rewrite <- Ht. destruct Hnow; [by left|by right].
Qed.

Lemma wp_lift {S A} get put (m : St S A) Q K (b : boot) :
  wp m (fun a s => Q a (put s b)) (fun h s => K h (put s b)) (get b) -> wp (lift get put m) Q K b.
Proof. unfold wp, lift. by destruct (m (get b)) as [[a|h] s]. Qed.

Lemma path_ok_empty : path_ok no_path.
Proof. split; [by vm_compute|by eexists; vm_compute]. Qed.

(** ** Steps that keep the invariant *)

Section Safe.
Context `{!BootEnv} (Henv : boot_env_ok).

Definition bsafe {A} (m : BM A) : Prop := forall b, boot_ok b -> wp m (fun _ b' => boot_ok b') defined b.

Lemma bsafe_bind {A B} (m : BM A) (f : A -> BM B) : bsafe m -> (forall a, bsafe (f a)) -> bsafe (m ≫= f).
Proof. intros Hm Hf b Hb. rewrite wp_bind. eapply wp_mono; [by apply Hm| |done]. intros a b' Hb'. by apply Hf. Qed.
Lemma bsafe_ret {A} (a : A) : bsafe (mret a).
Proof. intros b Hb. by wp_run. Qed.
Lemma bsafe_gets {A} (f : boot -> A) : bsafe (gets f).
Proof. intros b Hb. by wp_run. Qed.
Lemma bsafe_fatal {A} h : h <> HUndef -> bsafe (fatal h : BM A).
Proof. intros Hh b Hb. wp_run. by intros ->. Qed.
Lemma bsafe_suicide {A} why : bsafe (suicide why : BM A).
Proof. by apply bsafe_fatal. Qed.
Lemma bsafe_modify f : (forall b, boot_ok b -> boot_ok (f b)) -> bsafe (modify f).
Proof. intros Hf b Hb. wp_run. by apply Hf. Qed.
Lemma bsafe_bask {A} (f : nat -> A) : bsafe (bask f).
Proof. intros b []. unfold bask. wp_run. by constructor. Qed.
Lemma bsafe_known {A B} (a : A) (f : A -> BM B) : bsafe (f a) -> bsafe (ub (Some a) ≫= f).
Proof. intros Hf b Hb. wp_run. by apply Hf. Qed.
Lemma bsafe_bemit a : bsafe (bemit a).
Proof. intros b []. unfold bemit. wp_run. by constructor. Qed.
Lemma bsafe_path get : (forall b, boot_ok b -> path_ok (get (b_cfg b))) -> bsafe (path_of get).
Proof.
  intros Hget b Hb. unfold path_of. wp_run. destruct (Hget b Hb) as [_ Hn]. apply cstr_some in Hn as [s ->]. by wp_run.
Qed.
Lemma bsafe_world {A} (m : M A) Q : safe world_ok m Q -> bsafe (in_world m).
Proof.
  intros Hm b [Hw ? ? ? ? ? ? ?]. apply wp_lift. eapply wp_mono; [by apply Hm|..].
  - intros a w [Hw' _]. by constructor.
  - intros h w Hh ->. by destruct Hh.
Qed.
Lemma bsafe_ifset {A} (m : IM A) : isafe m -> bsafe (in_ifset m).
Proof.
  intros Hm b [? ? ? ? Hs ? ? ?]. apply wp_lift. eapply wp_mono; [by apply Hm|..].
  - intros a s [_ Hs']. by constructor.
  - by intros h s [-> _].
Qed.

(** One step of such a proof. *)
Ltac bsafe_step :=
  lazymatch goal with
  | |- bsafe (_ ≫= _) => apply bsafe_bind; [|intros]
  | |- bsafe (mret _) => apply bsafe_ret
  | |- bsafe (gets _) => apply bsafe_gets
  | |- bsafe (suicide _) => apply bsafe_suicide
  | |- bsafe (fatal HFuel) => by apply bsafe_fatal
  | |- bsafe (bask _) => apply bsafe_bask
  | |- bsafe (bemit _) => apply bsafe_bemit
  | |- bsafe (bclose _) => apply bsafe_bemit
  | |- bsafe (path_of _) => apply bsafe_path; by intros ? []
  | |- bsafe (modify _) => apply bsafe_modify; intros ? []; by constructor
  | |- bsafe (in_world _) => eapply bsafe_world; solve [eauto with safe]
  | |- bsafe (if ?b then _ else _) => destruct b eqn:?
  | |- bsafe (match ?o with _ => _ end) => destruct o
  end.
Ltac bsafe_tac := cbv zeta; repeat (bsafe_step; cbv zeta).

Lemma set_cs_safe f : safe world_ok (set_cs f) (fun _ => True).
Proof. apply safe_modify. intros w []. by constructor. Qed.
Hint Resolve set_cs_safe : safe.

Lemma put_config_ok cc b : boot_ok b -> config_ok cc -> boot_ok (put_config cc b).
Proof. intros [[] ? ? ? ? ? ? ?] Hc. split; [split|..]; assumption. Qed.

(** ** The one-time operations *)

Lemma rfkill_open_safe : bsafe rfkill_open.
Proof.
  intros b Hb. unfold rfkill_open. wp_run. destruct (negb _); [by wp_run|]. wp_run.
  eapply wp_mono; [by apply bsafe_bask| |done]. intros r b' Hb'. destruct (r <? 0); wp_run; [|done].
  apply put_config_ok; [done|]. destruct Hb as [[Hc _ _] _ _ _ _ _ _ _]. by destruct Hc.
Qed.
Lemma nl_open_safe : bsafe nl_open.
Proof. unfold nl_open. bsafe_tac. Qed.

Lemma world_ok_link_kept w w' : world_ok w -> link_kept w w' -> world_ok w'.
Proof.
  intros [Hc ? ?] (k & Hw & E). rewrite E. split; [|done|done]. rsimpl.
  destruct Hw as [-> | (idx & mac & Hl & Hb & ->)]; [done|]. by destruct Hc.
Qed.
Lemma handle_getifdata_bsafe fd seq : bsafe (in_world (handle_getifdata fd seq)).
Proof.
  intros b Hb. pose proof Hb as [Hw ? ? ? ? ? ? ?]. apply wp_lift.
  eapply wp_mono; [apply handle_getifdata_safe|..].
  - apply (beo_links Henv).
  - intros t. apply (env_nl_drains (beo_world Henv)).
  - destruct Hw as [Hc _ _]. destruct Hc. by split.
  - intros r w' Hk. split; try done. by eapply world_ok_link_kept.
  - by intros h w' [why ->].
Qed.
Lemma nl_sendgetlinks_safe fd seq : safe world_ok (nl_sendgetlinks fd seq) (fun _ => True).
Proof. unfold nl_sendgetlinks, nl_sendgetlink_do, nl_send_all. cbn [nl_sendto World_NlProc]. safe_tac. Qed.
Hint Resolve nl_sendgetlinks_safe : safe.
Lemma getifdata_poll_safe n : forall fd seq ret, bsafe (getifdata_poll n fd seq ret).
Proof.
  induction n as [|n IH]; intros fd seq ret; cbn [getifdata_poll]; [bsafe_tac|]. bsafe_step; [bsafe_tac|].
  destruct a; [apply handle_getifdata_bsafe|apply IH|bsafe_tac..].
Qed.
Lemma nl_getifdata_safe n : bsafe (nl_getifdata n).
Proof.
  unfold nl_getifdata. bsafe_tac. apply getifdata_poll_safe.
Qed.

Lemma get_clientid_bsafe (E : DuiaidEnv) : bsafe (in_duiaid (get_clientid (H := E))).
Proof.
  intros b Hb. pose proof Hb as [[Hc ? ?] ? ? ? ? ? ? Hf]. pose proof Hc as [].
  apply wp_lift. eapply wp_mono; [apply get_clientid_any; [done|by destruct ok_clientid_len]| |by intros h d [why ->]].
  intros [] d [Hleft Hbytes]. specialize (Hbytes Hf) as [Hf' Hbytes]. specialize (Hbytes ok_clientid_bytes).
  assert (Hb' : boot_ok (b <| b_duiaid := d |>)) by (destruct Hb; split; assumption).
  apply put_config_ok; [done|]. unfold clientid_left in Hleft. destruct (0 <? _); [by subst d|].
  destruct Hleft as (iaid & duid & Hfit & Hd & Hl). pose proof (zlen_nonneg iaid). pose proof (zlen_nonneg duid).
  rewrite Hd in *. split; try done. rsimpl. lia.
Qed.

Lemma perform_ifup_bsafe : bsafe (in_ifset perform_ifup).
Proof. apply bsafe_ifset, perform_ifup_safe, (beo_kernel Henv). Qed.
Lemma rfkill_events_safe fd l : bsafe (rfkill_events fd l).
Proof.
  induction l as [|e l IH]; cbn [rfkill_events]; [bsafe_tac|]. bsafe_step; [bsafe_tac|].
  bsafe_step; [|exact IH]. bsafe_step; [bsafe_tac|]. bsafe_step; [|exact IH].
  bsafe_step; [apply perform_ifup_bsafe|]. bsafe_step; [bsafe_tac|]. bsafe_step; [exact IH|bsafe_tac].
Qed.
Lemma rfkill_loop_safe n fd : bsafe (rfkill_loop n fd).
Proof.
  induction n as [|n IH]; cbn [rfkill_loop]; [bsafe_tac|]. bsafe_step; [bsafe_tac|].
  destruct a as [| |l]; [exact IH|bsafe_tac|].
  unfold epoll_store. destruct (Nat.leb_spec (length (take 2 l)) 2) as [_|Hl]; [|rewrite length_take in Hl; lia].
  apply bsafe_known. bsafe_step; [apply rfkill_events_safe|].
  bsafe_step; [exact IH|bsafe_tac].
Qed.
Lemma set_rfkillFd_safe fd : bsafe (set_rfkillFd fd).
Proof. unfold set_rfkillFd. bsafe_tac. Qed.
Lemma wait_for_rfkill_safe n : bsafe (wait_for_rfkill n).
Proof.
  unfold wait_for_rfkill. bsafe_step; [apply rfkill_open_safe|].
  bsafe_step; [apply set_rfkillFd_safe|]. bsafe_step; [bsafe_tac|]. bsafe_step; [bsafe_tac|].
  bsafe_step; [bsafe_tac|]. bsafe_tac; [apply rfkill_loop_safe|apply set_rfkillFd_safe].
Qed.

Lemma fail_if_state_dir_dne_safe : bsafe fail_if_state_dir_dne.
Proof. unfold fail_if_state_dir_dne. bsafe_tac. Qed.

(** ** Privileges and processes *)

Lemma set_chroot_safe : bsafe set_chroot.
Proof.
  unfold set_chroot. bsafe_tac.
Qed.
Lemma set_ids_safe get : bsafe (set_ids get).
Proof. unfold set_ids. bsafe_tac. Qed.
Lemma child_signals_safe : bsafe child_signals.
Proof. unfold child_signals, setup_signals_subprocess. bsafe_tac. Qed.
Lemma socketpair2_safe : bsafe socketpair2.
Proof. unfold socketpair2. bsafe_tac. Qed.

(** [ndhc-ifch] *)
Lemma wp_ifch {A} (m : CM A) b :
  boot_ok b ->
  (forall w, ifset_ok (ifset w) -> wp m (fun _ w' => ifset_ok (ifset w')) (fun h w' => defined h (b <| b_ifch := w' |>)) w) ->
  wp (in_ifch m) (fun _ b' => boot_ok b') defined b.
Proof.
  intros Hb Hm. pose proof Hb as [? ? ? ? Hs ? ? ?]. apply wp_lift. eapply wp_mono; [apply Hm; exact Hs|..].
  - intros a w Hw. by split.
  - done.
Qed.
Lemma open_file_wp (open_fd : nat -> Z) content w :
  ifset_ok (ifset w) -> wp (open_file open_fd content) (fun _ w' => ifset_ok (ifset w')) (fun h _ => h <> HUndef) w.
Proof. intros Hw. unfold open_file, cask, set_file. wp_run. destruct (_ <? 0); wp_run; exact Hw. Qed.
Lemma setup_resolv_conf_wp (open_fd : nat -> Z) content dir w :
  ifset_ok (ifset w) ->
  wp (setup_resolv_conf open_fd content dir) (fun _ w' => ifset_ok (ifset w')) (fun h _ => h <> HUndef) w.
Proof.
  intros Hw. unfold setup_resolv_conf. destruct dir as [|c dir]; [by wp_run|]. wp_run.
  eapply wp_mono; [by apply open_file_wp| |done]. intros fd w1 Hw1. wp_run. destruct (fd <? 0); wp_run; [done|].
  assert (Hopt : forall (f : Z -> ifch_world -> ifch_world) w, (forall fd w, ifset (f fd w) = ifset w) -> ifset_ok (ifset w) ->
    wp (if resolv_path_fits (c :: dir) then fd ← open_file open_fd content; modify (f fd) else mret tt)
      (fun _ w' => ifset_ok (ifset w')) (fun h _ => h <> HUndef) w).
  { intros f w2 Hf Hw2. destruct (resolv_path_fits _); wp_run; [|done].
    eapply wp_mono; [by apply open_file_wp| |done]. intros fd' w3 Hw3. wp_run. by rewrite Hf. }
  eapply wp_mono; [by apply Hopt| |done]. intros ? w4 Hw4. by apply Hopt.
Qed.
Lemma ifch_main_safe n : bsafe (ifch_main n).
Proof.
  unfold ifch_main. bsafe_step; [apply child_signals_safe|]. bsafe_step; [bsafe_tac|].
  bsafe_step; [intros b Hb; apply wp_ifch; [done|]; intros w Hw; eapply wp_mono; [by apply setup_resolv_conf_wp|done|];
               by intros h w' Hh ->|].
  bsafe_step; [apply bsafe_modify; intros b []; split; try assumption; apply path_ok_empty|].
  bsafe_step; [apply set_chroot_safe|]. bsafe_step; [apply set_ids_safe|]. bsafe_step; [bsafe_tac|].
  intros b Hb. apply wp_ifch; [done|]. intros w Hw.
  eapply wp_mono; [apply do_ifch_work_wp; [apply (beo_kernel Henv)|exact Hw]|..].
  - by intros ? w' (_ & _ & _ & _ & ?).
  - intros h w'. apply or_overfull_defined; [|by left]. by intros [[why ->]|[-> | [-> _]]].
Qed.

(** [ndhc-sockd] *)
Lemma sockd_main_safe n : bsafe (sockd_main n).
Proof.
  unfold sockd_main. bsafe_step; [apply child_signals_safe|]. bsafe_step; [apply set_chroot_safe|].
  bsafe_step; [apply set_ids_safe|]. bsafe_step; [bsafe_tac|].
  intros b Hb. pose proof Hb as [[[] ? ?] ? ? ? ? ? ? ?]. apply wp_lift.
  eapply wp_mono; [apply do_sockd_work_invariant; by split|..].
  - intros ? w' (? & ? & ?). split; try assumption. by split.
  - intros h w'. apply or_overfull_defined; [|by right]. by intros [[why ->] | ->].
Qed.

Lemma fork_child_safe ends other child : bsafe child -> bsafe (fork_child ends other child).
Proof.
  intros Hc. unfold fork_child. bsafe_step; [bsafe_tac|]. bsafe_step; [|bsafe_tac].
  do 3 (bsafe_step; [bsafe_tac|]). bsafe_step; [exact Hc|bsafe_tac].
Qed.
Lemma spawn_ifch_safe n : bsafe (spawn_ifch n).
Proof.
  unfold spawn_ifch. bsafe_step; [|apply fork_child_safe, ifch_main_safe].
  unfold create_ifch_ipc_sockets. bsafe_step; [apply socketpair2_safe|]. destruct a as [[] []].
  bsafe_step; [|bsafe_tac]. apply bsafe_modify. intros b [[] ? ? ? ? ? ? ?]. split; try assumption. by split.
Qed.
Lemma spawn_sockd_safe n : bsafe (spawn_sockd n).
Proof.
  unfold spawn_sockd. bsafe_step; [|apply fork_child_safe, sockd_main_safe].
  unfold create_sockd_ipc_sockets. bsafe_step; [apply socketpair2_safe|]. destruct a as [[] []].
  bsafe_step; [|bsafe_tac]. apply bsafe_modify. intros b [[] ? ? ? ? ? ? ?]. split; try assumption. by split.
Qed.

(** ** The three stages of [main] *)

Lemma open_leasefile_safe : bsafe open_leasefile.
Proof.
  unfold open_leasefile, get_leasefile_path.
  bsafe_step; [bsafe_step; [bsafe_tac|]|].
  - intros b Hb. wp_run. pose proof Hb as [[[] ? ?] ? ? ? ? ? ? ?].
    destruct (cstr_some (interface (config_of b))) as [s Hs]; [assumption|]. rewrite Hs. wp_run.
    destruct (_ <=? _); by wp_run.
  - bsafe_tac. apply bsafe_modify. intros b [[] ? ? ? ? ? ? ?]. split; try assumption. by split.
Qed.
Lemma ndhc_main_start_safe : bsafe ndhc_main_start.
Proof.
  unfold ndhc_main_start. bsafe_step; [apply nl_open_safe|]. do 2 (bsafe_step; [bsafe_tac|]).
  bsafe_step; [apply rfkill_open_safe|]. bsafe_step; [apply set_rfkillFd_safe|]. do 2 (bsafe_step; [bsafe_tac|]).
  bsafe_step; [apply open_leasefile_safe|]. bsafe_step; [apply set_chroot_safe|apply set_ids_safe].
Qed.
Lemma ndhc_main_tail_safe n : safe world_ok (ndhc_main_tail n) loop_ok.
Proof.
  pose proof (do_ndhc_work_safe (beo_world Henv) n) as Hwork. unfold ndhc_main_tail.
  safe_step. safe_step; [by safe_tac|exact Hwork].
Qed.
Lemma ndhc_main_safe n b :
  boot_ok b -> wp (ndhc_main n) (fun s b' => world_ok (b_world b') /\ loop_ok s) defined b.
Proof.
  intros Hb. unfold ndhc_main. wp_run. eapply wp_mono; [by apply ndhc_main_start_safe| |done].
  intros ? b' [Hw _ _ _ _ _ _ _]. apply wp_lift. eapply wp_mono; [by apply ndhc_main_tail_safe|done|].
  by intros h w Hh ->.
Qed.

Lemma cfg_read_ok c b : boot_start b -> cfg_ok c -> clientid_len (cf_config c) <= 64 -> boot_ok (put_cfg c b).
Proof.
  intros [] [[] Hid ? ? ? ?] Hl. split; try assumption. split; [|assumption..].
  split; try assumption. cbn. lia.
Qed.

(** What is asked of the command line: it fits [argb], and a client id that it or a
    file sets fits its array. *)
Definition args_ok (argv : list (list Z)) (b : boot) : Prop :=
  Forall (fun a => bytes_ok a = true) argv /\ zlen (argb_text argv) <= sizeof_argb /\
  forall c, parse_cmdline argv (cfg_part b) = (Ret tt, c) -> clientid_len (cf_config c) <= 64.

Lemma parse_stage argv b :
  boot_start b -> args_ok argv b -> wp (in_cfg (parse_cmdline argv)) (fun _ b' => boot_ok b') defined b.
Proof.
  intros Hb (Hbytes & Hfit & Hid). apply wp_lift.
  pose proof (parse_cmdline_defined argv (cfg_part b) (beo_cfg Henv) Hbytes Hfit (bs_cfg b Hb)) as Hrun.
  unfold wp in *. destruct (parse_cmdline argv (cfg_part b)) as [[[]|h] c]; [|by intros ->; destruct Hrun].
  apply cfg_read_ok; [done|done|by apply Hid].
Qed.
Lemma main_setup_safe n argv b :
  boot_start b -> args_ok argv b -> wp (main_setup n argv) (fun _ b' => boot_ok b') defined b.
Proof.
  intros Hb Ha. unfold main_setup. rewrite wp_bind. eapply wp_mono; [by apply parse_stage| |done].
  intros ? b1 Hb1. refine ((_ : bsafe _) b1 Hb1). do 4 (bsafe_step; [bsafe_tac|]).
  bsafe_step; [apply fail_if_state_dir_dne_safe|].
  bsafe_step; [apply nl_getifdata_safe|]. do 2 (bsafe_step; [bsafe_tac|]).
  bsafe_step; [apply get_clientid_bsafe|]. bsafe_step; [apply perform_ifup_bsafe|].
  bsafe_step; [|bsafe_tac]. bsafe_step; [bsafe_tac|]. bsafe_step; [apply wait_for_rfkill_safe|bsafe_tac].
Qed.
Lemma main_safe n argv b :
  boot_start b -> args_ok argv b -> wp (main n argv) (fun s b' => world_ok (b_world b') /\ loop_ok s) defined b.
Proof.
  intros Hb Ha. unfold main. rewrite wp_bind. eapply wp_mono; [by apply main_setup_safe| |done]. intros ? b1 Hb1.
  rewrite wp_bind. eapply wp_mono; [by apply spawn_ifch_safe| |done]. intros ? b2 Hb2.
  rewrite wp_bind. eapply wp_mono; [by apply spawn_sockd_safe| |done]. intros ? b3 Hb3. by apply ndhc_main_safe.
Qed.
End Safe.

(** * Properties *)

(** What the user can do wrong: the text of the arguments is longer than [argb], or the
    client id that an argument or a file sets is longer than its array. *)
Definition long_args (argv : list (list Z)) : Prop := sizeof_argb < zlen (argb_text argv).
Definition long_clientid `{!BootEnv} (argv : list (list Z)) (b : boot) : Prop :=
  exists c, parse_cmdline argv (cfg_part b) = (Ret tt, c) /\ 64 < clientid_len (cf_config c).
Lemma args_cases `{!BootEnv} argv b :
  Forall (fun a => bytes_ok a = true) argv -> long_args argv \/ long_clientid argv b \/ args_ok argv b.
Proof.
  intros Hb. unfold long_args, long_clientid, args_ok.
  destruct (Z.lt_ge_cases sizeof_argb (zlen (argb_text argv))) as [Hl|Hl]; [by left|right].
  destruct (parse_cmdline argv (cfg_part b)) as [r c].
  destruct (Z.lt_ge_cases 64 (clientid_len (cf_config c))) as [Hc|Hc];
    [|right; split_and!; [done..|by intros c' [= _ <-]]].
  destruct r as [[]|h]; [left; by exists c|right; by split_and!].
Qed.

(** C6. The program as a whole is defined but for three known overflows.  The
    environment keeps the promises of [boot_env_ok]: netlink datagrams are
    well-formed and ncmlib's helpers do what they say; else every answer of the outside
    world is allowed, the forks' included.  Then from any command line either its
    text is longer than [argb] ([long_args]), or the client id it or a file sets is longer
    than 64 bytes ([long_clientid]), or: neither the master nor ndhc-ifch nor
    ndhc-sockd leaves an array, from [main] through any number of iterations of its
    loop, unless a helper's [epoll_wait] has just answered three ready
    descriptors ([crowded]); the master's loop starts with a well-formed
    configuration and well-formed buffers and keeps them, and its timeout is one of
    [epoll_wait]. *)
Theorem main_defined `{!BootEnv} (n : nat) (argv : list (list Z)) (b : boot) :
  boot_env_ok -> boot_start b -> Forall (fun a => bytes_ok a = true) argv ->
  long_args argv \/ long_clientid argv b \/
  wp (main n argv) (fun s b' => world_ok (b_world b') /\ -1 <= timeout s <= INT_MAX)
    (fun h b' => h = HUndef -> crowded b') b.
Proof.
  intros Henv Hb Ha. destruct (args_cases argv b Ha) as [Hl|[Hc|Hok]]; [by left|by right; left|right; right].
  eapply wp_mono; [by apply (main_safe Henv)| |done]. by intros s b' [Hw [Ht _]].
Qed.

Lemma initial_boot_start detach fs :
  map_Forall (fun _ d => bytes_ok d = true) fs -> boot_start (initial_boot detach fs).
Proof.
  intros Hfs. split; try (by apply dhcpmsg_ok_bufs); try done; try (by vm_compute).
Qed.

(** The answer to the request for the flags of the interface 2, which is up. *)
Definition sample_up : nlmsg := mk_nlmsg RTM_NEWLINK 0 1 0 ([0; 0; 1; 0] ++ le32 2 ++ le32 0x41 ++ le32 0) [].
Definition sample_boot_ifset : IfsetEnv := {|
  ie_socket := fun _ => 4; ie_sendto := fun n => 32; ie_fuel := 10;
  ie_recvmsg := fun n => if (n =? 2)%nat then NlData (datagram [sample_up]) else NlAgain
|}.
Definition sample_boot_ifch : IfchEnv := {|
  ch_ifset := sample_boot_ifset;
  ch_lseek := fun _ => true; ch_read := fun _ => 4096; ch_write := fun _ => 4096;
  ch_ftruncate := fun _ => true; ch_fsync := fun _ => true; ch_sethostname := fun _ => true;
  ch_recv := fun _ => ReadData (request_text sample_request); ch_reply := fun _ => 1
|}.
(** The master of a system with one interface, eth0; both forks give the parent's
    answer unless [child] is the fork to be followed. *)
Definition sample_boot_env (child : nat -> bool) : BootEnv := {|
  be_world := {|
    env_clock := fun n => Some (1000 + Z.of_nat n, 0); env_random := fun n => 123456789;
    env_sockd := fun n => SockdFd (if (n <=? 12)%nat then ch "L"%char else ch "s"%char) 9; env_ifch := fun _ => IfchData [ch "+"%char];
    env_send := fun n => if (n =? 0)%nat then 32 else 60; env_connect := fun _ => true;
    env_read := fun _ => ReadAgain; env_epoll_ctl := fun _ => true; env_ftruncate := fun _ => true;
    env_daemon := fun _ => true;
    env_nl := fun n => if (n =? 1)%nat then NlData (datagram [sample_link 2 "eth0" [2; 0; 0; 0; 0; 9]]) else NlAgain;
    env_epoll_wait := fun _ => EpTimeout; env_open := fun _ => 5; env_fuel := 100;
    net_checksum161c := fun _ => 0; net_checksum161c_add := fun _ _ => 0 |};
  be_cfg := sample_cfg_env [];
  be_ifch := sample_boot_ifch;
  be_sockd := sample_sockd_env 0 (chars "L");
  be_id_random := fun n => 5; be_id_open := fun _ => true; be_id_read := fun _ n => n; be_id_write := fun _ n => n;
  be_getuid := fun _ => 0; be_stat := fun _ => Some true; be_open := fun _ => 9; be_call := fun _ => 0;
  be_getsockname := fun _ => Some (sizeof_sockaddr_nl, AF_NETLINK, 4242); be_clock := fun _ => Some 77;
  be_poll := fun _ => PollReady; be_setpgid := fun _ => PgDone; be_socketpair := fun n => Some (20, 21);
  be_fork := fun n => if child n then 0 else 1000; be_confine := fun _ => true; be_content := fun _ => [];
  be_wait := fun _ => WEvents [mk_epoll_event 21 true false]; be_siginfo := fun _ => ReadAgain
|}.
Definition sample_argv : list (list Z) := [chars "--chroot"; chars "/var/empty"; chars "--interface"; chars "eth0"].

Lemma sample_boot_env_ok child : boot_env_ok (H := sample_boot_env child).
Proof.
  split.
  - split; [|intros n; exists (S (S O)); split; [by cbn; lia|by destruct n as [|[|n]]]|done].
    intros n data. cbn [env_nl be_world sample_boot_env]. destruct (n =? 1)%nat; [|done]. intros [= <-].
    vm_compute. split; [reflexivity|congruence].
  - by apply (sample_cfg_env_ok []).
  - intros n data. cbn [ie_recvmsg ch_ifset be_ifch sample_boot_env sample_boot_ifch sample_boot_ifset].
    destruct (n =? 2)%nat; [|done]. intros [= <-]. exists [sample_up]. split; [done|]. split; [|by vm_compute].
    apply Forall_singleton. split; [apply (bool_decide_unpack _); by vm_compute|by vm_compute].
  - intros n data. cbn [env_nl be_world sample_boot_env]. destruct (n =? 1)%nat; [|done]. intros [= <-].
    eexists. split; [done|]. split; [apply (bool_decide_unpack _); by vm_compute|vm_compute; congruence].
Qed.

Lemma main_defined_witness :
  let E := sample_boot_env (fun _ => false) in
  let b := initial_boot false ∅ in
  (long_args sample_argv \/ long_clientid sample_argv b \/
   wp (main 2 sample_argv) (fun s b' => world_ok (b_world b') /\ -1 <= timeout s <= INT_MAX)
     (fun h b' => h = HUndef -> crowded b') b) /\
  zlen (argb_text sample_argv) <= sizeof_argb /\ clientid_len (cf_config (snd (parse_cmdline sample_argv (cfg_part b)))) = 0 /\
  scrLine (b_world (snd (main 2 sample_argv b))) = SCR_SELECTING.
Proof.
  intros E b. split; [|vm_compute; split_and!; congruence].
  apply (main_defined (H := E) 2 sample_argv b (sample_boot_env_ok _)).
  - apply initial_boot_start, map_Forall_empty.
  - repeat constructor; by vm_compute.
Defined.
