(* ===== verification/Startorder.v ===== *)
(** The order of the start: as root the program only sets up its interface, and no
    process acts for anybody before it has given up its privileges; [nl_open] leaves no
    descriptor behind, and an interrupted wait ends the start. *)

From stdpp Require Import gmap.
From S2P Require Import Prelude Types World Samples Ipc Ifchange Nl Nlmsg Netlink Ndhc Duiaid Cfg Cfgread Ifset Bpf Sockd.
From S2P Require Import Ifchd Ragel Ifchparse Ifcmd Subproc Linkdata Carrier Startup Startsafe.

(** * What a process has done *)

(** Between the two states no request was answered, no netlink message and no packet
    was sent and no host name set; at most a pid file was written. *)
Definition quiet (b b' : boot) : Prop :=
  (exists l, trace (b_world b') = l ++ trace (b_world b) /\ Forall (fun a => a = AWritePid) l) /\
  ch_trace (b_ifch b') = ch_trace (b_ifch b) /\ if_trace (ifset (b_ifch b')) = if_trace (ifset (b_ifch b)) /\
  sk_trace (b_sockd b') = sk_trace (b_sockd b).
(** The last two things the process did to itself: it confined itself to its directory
    and then gave up its user and group. *)
Definition confined (user : cfg_world -> Z * Z) (b b' : boot) : Prop :=
  exists dir earlier, cstr (cf_chroot_dir (b_cfg b)) = Some dir /\
    b_trace b' = BSetIds (user (b_cfg b)) :: BChroot dir :: earlier ++ b_trace b.

(** The process has not acted, or is confined. *)
Definition orderly (user : cfg_world -> Z * Z) (b b' : boot) : Prop := quiet b b' \/ confined user b b'.

(** What the steps before that keep. *)
Record before (b b' : boot) : Prop := {
  bf_quiet : quiet b b';
  bf_chroot_dir : cf_chroot_dir (b_cfg b') = cf_chroot_dir (b_cfg b);
  bf_ndhc : cf_ndhc_user (b_cfg b') = cf_ndhc_user (b_cfg b);
  bf_ifch : cf_ifch_user (b_cfg b') = cf_ifch_user (b_cfg b);
  bf_sockd : cf_sockd_user (b_cfg b') = cf_sockd_user (b_cfg b);
  bf_trace : exists l, b_trace b' = l ++ b_trace b
}.
#[export] Instance quiet_preorder : PreOrder quiet.
Proof.
  split.
  - intros b. split_and!; try done. by exists [].
  - intros b1 b2 b3 ((l2 & E2 & F2) & ? & ? & ?) ((l3 & E3 & F3) & ? & ? & ?). split_and!; try congruence.
    exists (l3 ++ l2). split; [by rewrite E3, E2, app_assoc|by apply Forall_app].
Qed.
#[export] Instance before_preorder : PreOrder before.
Proof.
  split.
  - intros b. split; try done. by exists [].
  - intros b1 b2 b3 [] []. split; try congruence; [by etrans|].
    destruct bf_trace0 as [l2 E2], bf_trace1 as [l3 E3]. exists (l3 ++ l2). by rewrite E3, E2, app_assoc.
Qed.

(** ** What [main] does as root, before it forks *)

(** [l] was done between the two states, and only such things. *)
Definition grows {S A} (trace : S -> list A) (P : A -> Prop) (s s' : S) : Prop :=
  exists l, trace s' = l ++ trace s /\ Forall P l.
#[export] Instance grows_preorder {S A} (tr : S -> list A) P : PreOrder (grows tr P).
Proof.
  split; [by exists []|]. intros s1 s2 s3 (l2 & E2 & F2) (l3 & E3 & F3).
  exists (l3 ++ l2). split; [by rewrite E3, E2, app_assoc|by apply Forall_app].
Qed.
Lemma grows_refl {S A} (tr : S -> list A) P s s' : tr s' = tr s -> grows tr P s s'.
Proof. exists []. split; [assumption|constructor]. Qed.
Lemma grows_cons {S A} (tr : S -> list A) (P : A -> Prop) a s s' : P a -> tr s' = a :: tr s -> grows tr P s s'.
Proof. exists [a]. split; [assumption|by apply Forall_singleton]. Qed.

(** The master asks for the list of the interfaces and watches the rfkill device. *)
Definition looks (a : action) : Prop :=
  match a with
  | ANl _ msg => exists seq, msg = getlink_request seq 0
  | AEpollAdd _ => True
  | _ => False
  end.
(** [perform_ifup]'s second request: the link's flags and [IFF_UP]. *)
Definition setlink_up_request (seq idx flags : Z) : list Z :=
  nlmsghdr_image (NLMSG_HDRLEN + sizeof_ifinfomsg) RTM_SETLINK (Z.lor NLM_F_ACK NLM_F_REQUEST) seq ++
  ifinfomsg_image idx (Z.lor IFF_UP flags) 0xffffffff.
(** The interface's flags are asked for and set, [IFF_UP] among them. *)
Definition raises (a : ifset_action) : Prop :=
  match a with
  | ISend _ msg => exists seq idx, msg = getlink_request seq idx \/ exists flags, msg = setlink_up_request seq idx flags
  | ISocket | IClose _ => True
  end.
Definition opens_or_closes (a : boot_action) : Prop := match a with BSocket | BClose _ => True | _ => False end.

(** Only that was done between the two states (and the files of the state directory
    were read and written): no packet, request or host name, no other netlink message. *)
Record prepared (b b' : boot) : Prop := {
  pr_world : grows trace looks (b_world b) (b_world b');
  pr_ifset : grows if_trace raises (ifset (b_ifch b)) (ifset (b_ifch b'));
  pr_ifch : ch_trace (b_ifch b') = ch_trace (b_ifch b);
  pr_sockd : sk_trace (b_sockd b') = sk_trace (b_sockd b);
  pr_trace : grows b_trace opens_or_closes b b'
}.
#[export] Instance prepared_preorder : PreOrder prepared.
Proof. split; [by intros b|]. intros b1 b2 b3 [] []. split; by etrans. Qed.

Section Order.
Context `{!BootEnv}.

Lemma before_modify f : (forall b, before b (f b)) -> keeps before (modify f).
Proof. intros Hf. by apply keeps_modify. Qed.
Lemma before_bask {A} (f : nat -> A) : keeps before (bask f).
Proof.
  intros b. unfold bask. cbn. split; try done; [|by exists []]. split_and!; try done. by exists [].
Qed.
Lemma before_bemit a : keeps before (bemit a).
Proof. apply before_modify. intros b. split; try done; [|by exists [a]]. split_and!; try done. by exists []. Qed.
Lemma before_world {A} (m : M A) :
  keeps (fun w w' => exists l, trace w' = l ++ trace w /\ Forall (fun a => a = AWritePid) l) m -> keeps before (in_world m).
Proof.
  intros Hm b. specialize (Hm (b_world b)). unfold in_world, lift. destruct (m (b_world b)) as [r w]. cbn in *.
  split; try done. by exists [].
Qed.
Lemma before_set_cs f : keeps before (in_world (set_cs f)).
Proof. apply before_world. intros w. cbn. by exists []. Qed.
Lemma before_ifch {A} (m : CM A) :
  keeps (fun w w' => ch_trace w' = ch_trace w /\ if_trace (ifset w') = if_trace (ifset w)) m -> keeps before (in_ifch m).
Proof.
  intros Hm b. unfold in_ifch, lift. set (w0 := set_field ifset _ (b_ifch b)). specialize (Hm w0).
  destruct (m w0) as [r w]. cbn in *. destruct Hm as [H1 H2]. split; try done; [|by exists []]. split_and!; try done.
  by exists [].
Qed.

Ltac before_step :=
  lazymatch goal with
  | |- keeps before (_ ≫= _) => apply keeps_bind; [exact _| |intros]
  | |- keeps before (mret _) => apply keeps_ret, _
  | |- keeps before (gets _) => apply keeps_gets, _
  | |- keeps before (ub _) => apply keeps_ub, _
  | |- keeps before (suicide _) => apply keeps_fatal, _
  | |- keeps before (fatal _) => apply keeps_fatal, _
  | |- keeps before (bask _) => apply before_bask
  | |- keeps before (bemit _) => apply before_bemit
  | |- keeps before (bclose _) => apply before_bemit
  | |- keeps before (path_of _) => unfold path_of
  | |- keeps before (in_world (set_cs _)) => apply before_set_cs
  | |- keeps before (modify _) => apply before_modify; intros ?; split; [split_and!; try reflexivity; by exists []|reflexivity..|by exists []]
  | |- keeps before (if ?b then _ else _) => destruct b eqn:?
  | |- keeps before (match ?o with _ => _ end) => destruct o
  end.
Ltac before_tac := cbv zeta; repeat (before_step; cbv zeta).

Lemma child_signals_before : keeps before child_signals.
Proof. unfold child_signals, setup_signals_subprocess. before_tac. Qed.
Lemma rfkill_open_before : keeps before rfkill_open.
Proof. unfold rfkill_open. before_tac. Qed.
Lemma nl_open_before : keeps before nl_open.
Proof. unfold nl_open. before_tac. Qed.
Lemma open_leasefile_before : keeps before open_leasefile.
Proof. unfold open_leasefile, get_leasefile_path. before_tac. Qed.

Definition idle (w w' : ifch_world) : Prop := ch_trace w' = ch_trace w /\ if_trace (ifset w') = if_trace (ifset w).
#[local] Instance idle_preorder : PreOrder idle.
Proof. split; [by intros w|]. intros w1 w2 w3 [] []. split; congruence. Qed.
Lemma open_file_idle (open_fd : nat -> Z) content : keeps idle (open_file open_fd content).
Proof.
  unfold open_file, cask, set_file. apply keeps_bind; [exact _|by intros w|]. intros fd.
  destruct (fd <? 0); [apply keeps_ret, _|by intros w].
Qed.
Lemma setup_resolv_conf_idle (open_fd : nat -> Z) content dir : keeps idle (setup_resolv_conf open_fd content dir).
Proof.
  assert (Hset : forall f, (forall fd w, idle w (f fd w)) -> keeps idle (fd ← open_file open_fd content; modify (f fd))).
  { intros f Hf. apply keeps_bind; [exact _|apply open_file_idle|]. intros fd. by apply keeps_modify. }
  unfold setup_resolv_conf. destruct dir as [|c dir]; [apply keeps_ret, _|].
  apply keeps_bind; [exact _|apply open_file_idle|]. intros fd. apply keeps_bind; [exact _|by apply keeps_modify|]. intros _.
  destruct (fd <? 0); [apply keeps_fatal, _|].
  apply keeps_bind; [exact _| |intros _]; (destruct (resolv_path_fits _); [by apply Hset|apply keeps_ret, _]).
Qed.

(** Confinement, then anything that does nothing more to the process itself. *)
Lemma confine_then {A} user (m : BM A) b0 b :
  keeps (fun b b' => b_trace b' = b_trace b) m -> before b0 b -> user (b_cfg b) = user (b_cfg b0) ->
  (forall c, user (c <| cf_chroot_dir := no_path |>) = user c) ->
  orderly user b0 (snd ((set_chroot;; set_ids user;; m) b)).
Proof.
  intros Hm [Hq Hdir _ _ _ [l Hl]] Hu Hno.
  assert (Hlater : forall b1, quiet b b1 -> quiet b0 b1) by (intros b1 Hb1; by etrans).
  enough (wp (set_chroot;; set_ids user;; m) (fun _ b' => orderly user b0 b') (fun _ b' => orderly user b0 b') b) as Hwp.
  { unfold wp in Hwp. by destruct ((set_chroot;; set_ids user;; m) b) as [[a|h] b']. }
  assert (Hsame : forall b1, trace (b_world b1) = trace (b_world b) -> b_ifch b1 = b_ifch b -> b_sockd b1 = b_sockd b -> quiet b b1).
  { intros b1 E1 E2 E3. unfold quiet. rewrite E1, E2, E3. split_and!; try done. by exists []. }
  unfold set_chroot, path_of, bask, bemit. wp_run. destruct (cstr (cf_chroot_dir (b_cfg b))) as [dir|] eqn:Ed; wp_run; [|by left].
  destruct (be_confine _); wp_run; [|by left; apply Hlater, Hsame].
  unfold set_ids, bask, bemit. wp_run. destruct (be_confine _); wp_run; [|by left; apply Hlater, Hsame].
  match goal with |- wp m _ _ ?b1 => pose proof (Hm b1) as Ht; unfold wp; destruct (m b1) as [r b'] end.
  cbn [snd] in Ht. assert (Hc : confined user b0 b').
  { exists dir, l. split; [by rewrite <- Hdir|]. rewrite Ht. rsimpl. by rewrite Hl, Hno, Hu. }
  destruct r; by right.
Qed.
Definition same_trace (b b' : boot) : Prop := b_trace b' = b_trace b.
#[local] Instance same_trace_preorder : PreOrder same_trace.
Proof. split; [done|]. intros b1 b2 b3. unfold same_trace. congruence. Qed.
Lemma lift_trace {S A} get put (m : St S A) : (forall s b, b_trace (put s b) = b_trace b) -> keeps same_trace (lift get put m).
Proof. intros Hp b. unfold lift. destruct (m (get b)). apply Hp. Qed.
Lemma after_id {A} (f : boot -> BM A) : (forall b, keeps same_trace (f b)) -> keeps same_trace (b ← gets id; f b).
Proof. intros Hf. apply keeps_bind; [exact _|apply keeps_gets, _|exact Hf]. Qed.

(** Any program that starts with a step that keeps [R]. *)
Lemma step_then {A B} (R : boot -> boot -> Prop) `{!PreOrder R} (Q : boot -> Prop) (m1 : BM A) (m2 : A -> BM B) b0 b :
  keeps R m1 -> R b0 b -> (forall b1, R b0 b1 -> Q b1) -> (forall a b1, R b0 b1 -> Q (snd (m2 a b1))) ->
  Q (snd ((m1 ≫= m2) b)).
Proof.
  intros Hm Hb HQ Hnext. specialize (Hm b). unfold mbind, M_bind. destruct (m1 b) as [[a|h] b1]; cbn in *.
  - apply Hnext. by etrans.
  - apply HQ. by etrans.
Qed.
(** A step before that. *)
Lemma orderly_step {A B} user (m1 : BM A) (m2 : A -> BM B) b0 b :
  keeps before m1 -> before b0 b -> (forall a b1, before b0 b1 -> orderly user b0 (snd (m2 a b1))) ->
  orderly user b0 (snd ((m1 ≫= m2) b)).
Proof.
  intros Hm Hb Hnext. apply (step_then before _ m1 m2 b0 b); [done..| |done]. intros b1 Hb1. left. by destruct Hb1.
Qed.

Lemma orderly_before user b0 b b' :
  before b0 b -> user (b_cfg b) = user (b_cfg b0) -> orderly user b b' -> orderly user b0 b'.
Proof.
  intros [Hq Hdir _ _ _ [l Hl]] Hu [Hb'|(dir & earlier & Hd & Ht)]; [left; by etrans|right].
  exists dir, (earlier ++ l). split; [by rewrite <- Hdir|]. by rewrite Ht, Hl, Hu, app_assoc.
Qed.

(** ** The three processes *)

Lemma ifch_main_orderly n b : orderly cf_ifch_user b (snd (ifch_main n b)).
Proof.
  unfold ifch_main. apply orderly_step; [apply child_signals_before|done|]. intros _ b1 H1.
  apply orderly_step; [before_tac|done|]. intros dir b2 H2.
  apply orderly_step; [apply before_ifch, setup_resolv_conf_idle|done|]. intros _ b3 H3.
  apply orderly_step; [before_tac|done|]. intros _ b4 H4.
  apply confine_then; [|done|apply H4|done]. apply after_id. intros b5. by apply lift_trace.
Qed.
Lemma sockd_main_orderly n b : orderly cf_sockd_user b (snd (sockd_main n b)).
Proof.
  unfold sockd_main. apply orderly_step; [apply child_signals_before|done|]. intros _ b1 H1.
  apply confine_then; [|done|apply H1|done]. apply after_id. intros b2. by apply lift_trace.
Qed.
Lemma ndhc_main_orderly n b : orderly cf_ndhc_user b (snd (ndhc_main n b)).
Proof.
  unfold ndhc_main, ndhc_main_start. rewrite run_bind. apply orderly_step; [apply nl_open_before|done|]. intros p b1 H1.
  rewrite run_bind. apply orderly_step; [before_tac|done|]. intros _ b2 H2.
  rewrite run_bind. apply orderly_step; [before_tac|done|]. intros _ b3 H3.
  rewrite run_bind. apply orderly_step; [apply rfkill_open_before|done|]. intros fd b4 H4.
  rewrite run_bind. apply orderly_step; [unfold set_rfkillFd; before_tac|done|]. intros _ b5 H5.
  rewrite run_bind. apply orderly_step; [before_tac|done|]. intros w b6 H6.
  rewrite run_bind. apply orderly_step; [|done|].
  { destruct (_ && _); [|before_tac]. apply before_world. intros w'. cbn. exists [AWritePid].
    split; [done|by apply Forall_singleton]. }
  intros _ b7 H7. rewrite run_bind. apply orderly_step; [apply open_leasefile_before|done|]. intros _ b8 H8.
  rewrite run_bind. apply confine_then; [|done|apply H8|done]. by apply lift_trace.
Qed.

(** ** The preparations *)

Lemma prepared_world {A} (m : M A) : keeps (grows trace looks) m -> keeps prepared (in_world m).
Proof.
  intros Hm b. specialize (Hm (b_world b)). unfold in_world, lift. destruct (m (b_world b)) as [r w].
  split; try done; by apply grows_refl.
Qed.
Lemma prepared_ifset {A} (m : IM A) : keeps (grows if_trace raises) m -> keeps prepared (in_ifset m).
Proof.
  intros Hm b. unfold in_ifset, lift. match goal with |- context [m ?s] => specialize (Hm s); destruct (m s) as [r w] end.
  split; try done; by apply grows_refl.
Qed.
Lemma prepared_bask {A} (f : nat -> A) : keeps prepared (bask f).
Proof. intros b. unfold bask. split; try done; by apply grows_refl. Qed.
Lemma prepared_bemit a : opens_or_closes a -> keeps prepared (bemit a).
Proof. intros Ha. apply keeps_modify. intros b. split; try done; try by apply grows_refl. by apply (grows_cons _ _ a). Qed.
Lemma prepared_modify f :
  (forall b, trace (b_world (f b)) = trace (b_world b) /\ b_ifch (f b) = b_ifch b /\ b_sockd (f b) = b_sockd b /\
             b_trace (f b) = b_trace b) -> keeps prepared (modify f).
Proof. intros Hf. apply keeps_modify. intros b. destruct (Hf b) as (E1 & E2 & E3 & E4). split; rewrite ?E2, ?E3; try done; by apply grows_refl. Qed.

Ltac prepared_step :=
  lazymatch goal with
  | |- keeps prepared (_ ≫= _) => apply keeps_bind; [exact _| |intros]
  | |- keeps prepared (mret _) => apply keeps_ret, _
  | |- keeps prepared (gets _) => apply keeps_gets, _
  | |- keeps prepared (ub _) => apply keeps_ub, _
  | |- keeps prepared (fatal _) => apply keeps_fatal, _
  | |- keeps prepared (suicide _) => apply keeps_fatal, _
  | |- keeps prepared (bask _) => apply prepared_bask
  | |- keeps prepared (bemit _) => by apply prepared_bemit
  | |- keeps prepared (bclose _) => by apply prepared_bemit
  | |- keeps prepared (path_of _) => unfold path_of
  | |- keeps prepared (modify _) => by apply prepared_modify
  | |- keeps prepared (in_world (set_cs _)) => apply prepared_world, keeps_modify; intros ?; by apply grows_refl
  | |- keeps prepared (if ?b then _ else _) => destruct b eqn:?
  | |- keeps prepared (match ?o with _ => _ end) => destruct o
  end.
Ltac prepared_tac := cbv zeta; repeat (prepared_step; cbv zeta).


(** The steps that add nothing to a trace; those that do are left. *)
Ltac grows_step :=
  lazymatch goal with
  | |- keeps (grows _ _) (_ ≫= _) => apply keeps_bind; [exact _| |intros]
  | |- keeps (grows _ _) (mret _) => apply keeps_ret, _
  | |- keeps (grows _ _) (gets _) => apply keeps_gets, _
  | |- keeps (grows _ _) (ub _) => apply keeps_ub, _
  | |- keeps (grows _ _) (fatal _) => apply keeps_fatal, _
  | |- keeps (grows _ _) (suicide _) => apply keeps_fatal, _
  | |- keeps (grows _ _) (modify _) => apply keeps_modify; intros ?; (by apply grows_refl) || (eapply grows_cons; [|reflexivity]; done)
  | |- keeps (grows _ _) (ask _) => intros ?; by apply grows_refl
  | |- keeps (grows _ _) (iask _) => intros ?; by apply grows_refl
  | |- keeps (grows _ _) (nl_recvmsg _) => intros ?; by apply grows_refl
  | |- keeps (grows _ _) next_seq => intros ?; by apply grows_refl
  | |- keeps (grows _ _) (if ?b then _ else _) => destruct b
  | |- keeps (grows _ _) (match ?o with _ => _ end) => destruct o
  end.
Ltac grows_tac := cbv zeta; repeat (grows_step; cbv zeta).

Lemma handle_getifdata_prepared fd seq : keeps prepared (in_world (handle_getifdata fd seq)).
Proof.
  apply prepared_world. unfold handle_getifdata. generalize (zeros (Z.to_nat sizeof_nlbuf)), false.
  induction env_fuel as [|n IH]; intros buf got; cbn [getifdata_loop]; [grows_tac|].
  unfold nl_recv_buf. grows_tac. apply IH.
Qed.
Lemma nl_sendgetlinks_prepared fd seq : keeps prepared (in_world (nl_sendgetlinks fd seq)).
Proof.
  apply prepared_world. unfold nl_sendgetlinks, nl_sendgetlink_do, nl_send_all. cbn [nl_sendto World_NlProc].
  grows_tac. intros w. eapply grows_cons; [|reflexivity]. by exists seq.
Qed.
Lemma nl_getifdata_prepared n : keeps prepared (nl_getifdata n).
Proof.
  assert (Hpoll : forall n fd seq ret, keeps prepared (getifdata_poll n fd seq ret)).
  { clear n. induction n as [|n IH]; intros fd seq ret; cbn [getifdata_poll]; [prepared_tac|]. prepared_step; [prepared_tac|].
    destruct a; [apply handle_getifdata_prepared|apply IH|prepared_tac..]. }
  unfold nl_getifdata. prepared_tac; [apply nl_sendgetlinks_prepared|apply Hpoll].
Qed.

(** The requests of [perform_ifup]. *)
Lemma send_setlink_up fd seq idx flags :
  send_request fd (setlink_up_request seq idx flags) = rtnl_do_send fd (setlink_up_request seq idx flags).
Proof. reflexivity. Qed.
Lemma raises_nl_sendto fd msg : raises (ISend fd msg) -> keeps (grows if_trace raises) (nl_sendto fd msg).
Proof. intros Hr w. cbn [nl_sendto ifset_NlProc]. eapply grows_cons; [exact Hr|reflexivity]. Qed.
Lemma dump_raises {D} fd seq (pfn : list Z -> Z -> D -> IM D) d :
  (forall b i d, keeps (grows if_trace raises) (pfn b i d)) -> keeps (grows if_trace raises) (dump fd seq pfn d).
Proof.
  intros Hp. unfold dump. generalize (zeros (Z.to_nat sizeof_nlbuf)). revert d.
  induction ie_fuel as [|n IH]; intros d buf; cbn [dump_loop]; [grows_tac|].
  unfold nl_recv_buf. grows_tac; [by apply keeps_foreach_st; [exact _|]|apply IH].
Qed.
Lemma link_flags_get_raises fd : keeps (grows if_trace raises) (link_flags_get fd).
Proof.
  unfold link_flags_get, nl_sendgetlink, nl_sendgetlink_do, nl_send_all. grows_tac.
  - apply raises_nl_sendto. by eexists _, _; left.
  - apply dump_raises. intros b i d'. unfold link_flags_get_do. grows_tac.
Qed.
Lemma rtnl_do_send_raises fd msg : raises (ISend fd msg) -> keeps (grows if_trace raises) (rtnl_do_send fd msg).
Proof. intros Hr. unfold rtnl_do_send. grows_tac. by apply raises_nl_sendto. Qed.
Lemma perform_ifup_prepared : keeps prepared (in_ifset perform_ifup).
Proof.
  apply prepared_ifset. unfold perform_ifup, nl_socket, iclose, iemit, link_set_flags, rtnl_if_flags_send.
  grows_tac.
  - apply link_flags_get_raises.
  - match goal with |- keeps _ (send_request _ (nlmsghdr_image _ _ _ ?seq ++ ifinfomsg_image ?idx (Z.lor _ ?fl) _)) =>
      fold (setlink_up_request seq idx fl); rewrite send_setlink_up; apply rtnl_do_send_raises; exists seq, idx; right; by exists fl
    end.
Qed.

Lemma rfkill_events_prepared fd l : keeps prepared (rfkill_events fd l).
Proof.
  induction l as [|e l IH]; cbn [rfkill_events]; prepared_tac; try exact IH.
  - apply prepared_world. unfold rfkill_get. grows_tac.
  - apply perform_ifup_prepared.
Qed.
Lemma wait_for_rfkill_prepared n : keeps prepared (wait_for_rfkill n).
Proof.
  assert (Hloop : forall n fd, keeps prepared (rfkill_loop n fd)).
  { clear n. induction n as [|n IH]; intros fd; cbn [rfkill_loop]; prepared_tac; try exact (IH fd). apply rfkill_events_prepared. }
  unfold wait_for_rfkill, rfkill_open, set_rfkillFd. prepared_tac; [|apply Hloop].
  apply prepared_world. unfold epoll_add, emit. grows_tac.
Qed.
Lemma main_setup_prepared n argv : keeps prepared (main_setup n argv).
Proof.
  unfold main_setup, fail_if_state_dir_dne. prepared_tac.
  - intros b. unfold in_cfg, lift. destruct (parse_cmdline argv (cfg_part b)) as [r c]. split; try done; by apply grows_refl.
  - apply nl_getifdata_prepared.
  - intros b. unfold in_duiaid, lift. match goal with |- context [get_clientid ?s] => destruct (get_clientid s) as [r d] end.
    split; try done; by apply grows_refl.
  - apply perform_ifup_prepared.
  - apply wait_for_rfkill_prepared.
Qed.

(** A fork: the child's program, or the parent's [k]. *)
Lemma fork_then {A} (Q : boot -> Prop) ends other (child : BM unit) (k : BM A) b0 b :
  before b0 b -> (forall b1, before b0 b1 -> Q b1) ->
  (forall b1, before b0 b1 -> Q (snd (child b1))) -> (forall b1, before b0 b1 -> Q (snd (k b1))) ->
  Q (snd ((fork_child ends other child;; k) b)).
Proof.
  intros Hb HQ Hchild Hk. unfold fork_child. rewrite run_bind. apply (step_then before Q _ _ b0); [before_tac|done..|]. intros pid b1 H1.
  destruct (pid =? 0); [|apply (step_then before Q _ _ b0); [before_tac|done..|]; intros _ b2 H2; by apply Hk].
  rewrite run_bind. apply (step_then before Q _ _ b0); [before_tac|done..|]. intros _ b2 H2.
  rewrite run_bind. apply (step_then before Q _ _ b0); [before_tac|done..|]. intros _ b3 H3.
  rewrite run_bind. apply (step_then before Q _ _ b0); [before_tac|done..|]. intros _ b4 H4.
  specialize (Hchild b4 H4). unfold mbind, M_bind. by destruct (child b4) as [[a|h] b5].
Qed.
Lemma create_ifch_ipc_sockets_before : keeps before create_ifch_ipc_sockets.
Proof. unfold create_ifch_ipc_sockets, socketpair2. before_tac. Qed.
Lemma create_sockd_ipc_sockets_before : keeps before create_sockd_ipc_sockets.
Proof. unfold create_sockd_ipc_sockets, socketpair2. before_tac. Qed.

(** The process the environment follows through the forks: before them, or in one of the
    three programs. *)
Definition one_of_three (b0 b' : boot) : Prop :=
  orderly cf_ifch_user b0 b' \/ orderly cf_sockd_user b0 b' \/ orderly cf_ndhc_user b0 b'.
Lemma forks_orderly n b : one_of_three b (snd ((spawn_ifch n;; spawn_sockd n;; ndhc_main n) b)).
Proof.
  assert (Hq : forall b1, before b b1 -> one_of_three b b1) by (intros b1 []; by left; left).
  unfold spawn_ifch. rewrite run_bind. apply (step_then before (one_of_three b) _ _ b); [apply create_ifch_ipc_sockets_before|done..|]. intros e1 b1 H1.
  apply (fork_then (one_of_three b) _ _ _ _ b); [done..| |].
  { intros b2 H2. left. eapply orderly_before; [done|apply H2|apply ifch_main_orderly]. }
  intros b2 H2. unfold spawn_sockd. rewrite run_bind.
  apply (step_then before (one_of_three b) _ _ b); [apply create_sockd_ipc_sockets_before|done..|]. intros e2 b3 H3.
  apply (fork_then (one_of_three b) _ _ _ _ b); [done..| |].
  - intros b4 H4. right; left. eapply orderly_before; [done|apply H4|apply sockd_main_orderly].
  - intros b4 H4. right; right. eapply orderly_before; [done|apply H4|apply ndhc_main_orderly].
Qed.

(** * Properties *)


(** ** Netlink sockets *)

Lemma getifdata_poll_trace n : forall fd seq ret, keeps same_trace (getifdata_poll n fd seq ret).
Proof.
  induction n as [|n IH]; intros fd seq ret; cbn [getifdata_poll]; [apply keeps_fatal, _|].
  apply keeps_bind; [exact _|by intros b|]. intros [| | |]; [by apply lift_trace|apply IH|apply keeps_ret, _..].
Qed.

(** C37. No netlink socket is lost at the start: [nl_open] yields the socket it created or,
    when any of its later calls fails, closes it and reports failure, and
    [nl_getifdata] closes its socket on every way out. *)
Theorem netlink_sockets_released (n : nat) (b : boot) :
  let s := be_open (b_tick b) in
  let opened := BSocket :: b_trace b in
  wp nl_open (fun r b' => if s <? 0 then r.1 = -1 /\ b_trace b' = opened
                          else r.1 = s /\ b_trace b' = opened \/ r.1 = -1 /\ b_trace b' = BClose s :: opened)
    (fun _ _ => False) b /\
  wp (nl_getifdata n) (fun _ b' => b_trace b' = if s <? 0 then opened else BClose s :: opened) (fun _ _ => True) b.
Proof.
  intros s opened. split.
  - unfold nl_open, bclose, bemit, bask. wp_run. rsimpl. fold s. destruct (s <? 0); wp_run; [done|].
    destruct (be_call _ <? 0); wp_run; [by right|]. destruct (be_getsockname _) as [[[al fam] pid]|]; wp_run; [|by right].
    destruct (negb (al =? _)); wp_run; [by right|]. destruct (negb (fam =? _)); wp_run; [by right|by left].
  - unfold nl_getifdata, bclose, bemit, bask. wp_run. rsimpl. fold s. destruct (s <? 0); wp_run; [done|].
    destruct (be_clock _) as [nsec|]; wp_run; [|done].
    assert (Htrace : forall {A} (m : BM A) b1, keeps same_trace m -> b_trace b1 = opened ->
      wp m (fun _ b' => b_trace b' = opened) (fun _ _ => True) b1).
    { intros A m b1 Hm H1. specialize (Hm b1). unfold wp. destruct (m b1) as [[a|h] b2]; [|done].
      unfold same_trace in Hm. cbn [snd] in Hm. congruence. }
    eapply wp_mono; [apply Htrace; [by apply lift_trace|done]| |done]. intros r b1 H1.
    destruct (negb (r =? 0)); wp_run; [rsimpl; by rewrite H1|].
    eapply wp_mono; [apply Htrace; [apply getifdata_poll_trace|exact H1]| |done]. intros r' b2 H2. wp_run. rsimpl. by rewrite H2.
Qed.

(** A signal during the wait for the kernel's answer ends the loop, which would run
    again for [EINTR] only if it did not stop at every [pr] other than 0. *)
Lemma getifdata_interrupted n b :
  0 <= be_open (b_tick b) -> is_Some (be_clock (S (b_tick b))) ->
  env_send (tick (b_world b)) = 32 -> be_poll (S (S (b_tick b))) = PollIntr ->
  fst (nl_getifdata (S n) b) = Ret (-1).
Proof.
  intros Hs [nsec Hc] Hsend Hp.
  enough (wp (nl_getifdata (S n)) (fun r _ => r = -1) (fun _ _ => False) b) as Hrun.
  { unfold wp in Hrun. destruct (nl_getifdata (S n) b) as [[a|h] b']; [by rewrite Hrun|done]. }
  unfold nl_getifdata, bclose, bemit, bask. wp_run. rsimpl. destruct (Z.ltb_spec (be_open (b_tick b)) 0); [lia|]. wp_run.
  rsimpl. rewrite Hc. wp_run. unfold in_world. apply wp_lift.
  unfold nl_sendgetlinks, nl_sendgetlink_do, nl_send_all. cbn [nl_sendto World_NlProc]. unfold emit. wp_run. rsimpl.
  rewrite Hsend. change (zlen (_ ++ _)) with 32. change (negb _) with false at 1. cbv iota. wp_run.
  cbn [getifdata_poll]. unfold bask. wp_run. rsimpl. rewrite Hp. by wp_run.
Qed.
End Order.
